(* ===== verification/_CoqProject ===== *)
-Q . S2P
Prelude.v
Buffers.v
Wrapping.v
Stream.v
Reassembly.v
ReassemblySpec.v
Parsing.v
Checksum.v
Segment.v
Ipv4.v
Link.v
Printing.v
Receiver.v
Sender.v
SenderSpec.v
Connection.v
ConnectionSpec.v
EndToEnd.v
Progress.v
Transit.v
Benchmark.v
BenchmarkLive.v
Netif.v
NetifSpec.v
Router.v
RouterSpec.v
Simulator.v
Dump.v
Addresses.v
Adapters.v
AdaptersSpec.v
Options.v
Usage.v
Robustness.v
Outgoing.v
Descriptors.v
Events.v
Sockets.v
Resolve.v
Confined.v
Webget.v
Pipes.v
StreamCopy.v
SpongeSocket.v
SpongeSocketSpec.v
SocketExample.v
Threads.v
SocketThread.v
TcpPrograms.v
SocketPair.v
Conversation.v
Bouncer.v
Programs.v
Lab7.v
Lab7Spec.v
Lab7Example.v
Lab7Program.v
Lab7Run.v
