(* ===== verification/Prelude.v ===== *)
(** * Sponge: a verification library for the TCP/IP stack of TCP-Lab

    The program, under src/libsponge, is a user-space TCP/IP stack in C++: byte
    streams, a stream reassembler, a TCP receiver, sender and connection, the
    wire formats of TCP, IPv4, ARP and Ethernet, a network interface with ARP,
    a router with longest-prefix match, adapters that carry segments over UDP,
    TUN and TAP devices, and a socket that runs a connection in a thread behind
    an event loop; src/apps holds programs built on it. This library translates
    the classes to Rocq, one definition per method and one record per class, and
    proves what makes them right.

    ** How the code is modelled

    Unsigned integers are [Z] with the wrap of their width written out ([w8],
    [w16], [w32], [w64] of this file); strings are lists of bytes; an object is
    a record of its members and a method a function from the object to the new
    object; an exception is a value of [result], with its message, and
    [terminate_called] the end of a process by an exception in one of its threads;
    [undefined_behaviour] is the result of a step that C++ leaves undefined, and
    [out_of_fuel] that of a loop whose fuel did not suffice. [std::deque] and
    [std::queue] are lists; the ordered maps are lists in key order where the
    order is used (reassembler, router, waiting datagrams) and a [gmap] where it
    is not (ARP table).

    What the sources only call is a parameter: the key read through [end()] in
    the reassembler (class [StreamReassembler.EndKey], with the law [EndKeyFresh]
    and the instance that libstdc++ gives), the random initial sequence number
    and the random generators (arguments), the C library's logarithm in
    [Router.add_route] (the argument [ln]), the resolver of names (class
    [Resolver], with the laws [ResolverLaws] for numeric names), and libpcap
    (class [Pcap]). The operating system is the class [Kernel] with a state [E],
    the world, that every system call is given and returns; [SocketCalls] adds the
    calls on sockets. What the manual pages document are the classes [KernelLaws],
    [DatagramLaws], [StreamLaws], [EndpointLaws] and [ServerLaws]: any call but the
    clock's may fail at any time, with any error, and then transfers nothing (a
    write after a shutdown or a close does); a read that succeeds gives what is
    there, a write takes a part or all, in order, and what is asked of sockets
    (addresses bound, connected to and accepted from, datagrams with their source
    or destination) is noted in the [history] of the world. What the peer, the
    owner of a socket or the server does is inside the world. An exception that a
    failed call explains is a [fault], possible only where the kernel is
    [fallible]; the theorems on programs say that no other exception occurs, so
    that on a kernel whose calls do not fail there is none. A failed write is the
    exception of [SystemCall]; that SIGPIPE may end the process first is not
    modelled. [toy], a kernel that plays back scripts, is an instance of all of
    them and runs the examples; [duplex] (SocketPair.v) is one with a socket pair,
    whose writes fail with EPIPE once nobody can read them. The template argument AdaptT of the socket is the class
    [Adapt], with the laws [AdaptLaws] that its clients are proved against; the
    UDP, TUN and TAP adapters, each of them with losses, and the adapter of lab7
    are instances.

    ** The files

    - Prelude.v: machine integers, bytes, exceptions, list and stream lemmas,
      the tactics [zmod_lia], [wsmall], [bool_to_prop], [inv_ok], [range_compute].
    - Buffers.v: util/buffer.*. [Buffer], [BufferList], [BufferViewList].
    - Wrapping.v: wrapping_integers.*. [unwrap] is the nearest preimage of
      [wrap], and the round trip.
    - Stream.v: byte_stream.*. [ByteStream] as a bounded FIFO (refinement).
    - Reassembly.v, ReassemblySpec.v: stream_reassembler.*. Reassembly is
      complete (exactly the longest gap-free prefix is written), sound (a prefix
      of the stream) and within its capacity.
    - Parsing.v, Checksum.v: util/parser.*, the class InternetChecksum of
      util/util.*; the predicate [reads] that the round trips share.
    - Segment.v, Ipv4.v, Link.v: tcp_header.*, tcp_segment.*, ipv4_header.*,
      ipv4_datagram.*, ethernet_*, arp_message.* of tcp_helpers/. Round trips
      through the bytes, checksums included; what the parsers check and what
      they let pass.
    - Printing.v: the functions to_string, summary and hexdump; what is printed of
      an address can be read back.
    - Receiver.v: tcp_receiver.*. Every branch of [segment_received], and what
      [ackno] and [window_size] report.
    - Sender.v, SenderSpec.v: tcp_sender.*, tcp_config.hh. [fill_window]
      terminates and respects the window, [ack_received] and [tick] on every
      branch, every segment ever sent carries the bytes written at its place, and
      the FIN comes after everything that was written.
    - Connection.v, ConnectionSpec.v: tcp_connection.*, tcp_state.*. Data is
      answered; when and how a connection dies; resets; a dead connection is
      silent.
    - EndToEnd.v: two connections over a network that loses, duplicates, delays
      and reorders, as explicit sequences of steps: delivery of a prefix of the
      stream in order, and of all that was written at its end.
    - Progress.v, Transit.v: what the operations of a connection achieve, and two
      connections with the segments in transit between them: nothing is lost, and
      when nothing is in transit both sides are up to date.
    - Benchmark.v, BenchmarkLive.v: apps/tcp_benchmark.cc. Two connections in one
      process, segments moved by hand, in order or reversed: the program ends, and
      what comes out is what went in.
    - Netif.v, NetifSpec.v: network_interface.*, AsyncNetworkInterface of
      router.hh. Sending, ARP replies and requests, and the whole exchange from
      an unknown neighbour to the delivered datagram.
    - Router.v, RouterSpec.v: router.*. Longest-prefix match against an
      executable contract, [route] empties the queues, and two runs in which the
      table goes wrong.
    - Simulator.v: apps/network_simulator.cc, as a program that runs.
    - Dump.v: apps/udp_tcpdump.cc, what is done with one packet. Which packets
      are read past their end.
    - Addresses.v: util/address.*. The raw socket address stands for a number and
      a port.
    - Adapters.v, AdaptersSpec.v: fd_adapter.*, tcp_over_ip.*, tuntap_adapter.*,
      lossy_fd_adapter.hh of tcp_helpers/. A segment written by one adapter is
      read by the other; what the filters let through. The template argument of
      the lossy adapter is the class [FdAdapter].
    - Options.v, Usage.v: get_config of apps/tcp_udp.cc, tcp_ipv4.cc,
      tcp_ip_ethernet.cc; the usage texts of the programs.
    - Robustness.v: no packet makes a parser or an adapter throw.
    - Outgoing.v: every segment a connection queues is well typed, and the
      adapters carry it.
    - Descriptors.v: util/file_descriptor.*, the class [Kernel] and its laws.
    - Events.v: util/eventloop.*. One round of the event loop does what [poll]
      answered, and keeps what all its rules keep.
    - Sockets.v: util/socket.*, util/tun.*. Datagrams come and go whole.
    - Resolve.v: the rest of util/address.*, on top of getaddrinfo and getnameinfo.
      Addresses and their text.
    - Confined.v: a toy kernel whose networks give only given packets.
    - Webget.v: apps/webget.cc. It returns, with all that the server sent.
    - Pipes.v, StreamCopy.v: apps/bidirectional_stream_copy.cc. Both directions
      are copied in order and, at the end, completely.
    - SpongeSocket.v, SpongeSocketSpec.v: tcp_sponge_socket.*. The invariant
      [live] of the socket is kept by the four rules of its event loop, for any
      behaviour of the owner and the network: nothing throws unless a system call
      fails, the owner reads what the peer wrote; when the thread ends; what the
      destructor does.
    - SocketExample.v: a whole session of the socket, run.
    - Threads.v: two threads of one process. The kernel of the one is the kernel
      with the other inside ([beside]), which takes the rounds a schedule gives it
      before each system call; the laws of the kernel hold again, so that a theorem
      on one thread over every lawful kernel is one on both under every schedule.
      The class [Thread], and the promises [ThreadLaws] of the thread inside.
    - SocketThread.v: _tcp_main of tcp_sponge_socket.cc, round by round, as an
      instance of [Thread] and of [ThreadLaws].
    - TcpPrograms.v: main of apps/tcp_udp.cc, tcp_ipv4.cc, tcp_ip_ethernet.cc. The
      stream copy beside the thread of the socket: nothing is thrown unless a
      system call fails, what is printed is a prefix of the peer's stream, what is
      sent one of what was typed.
    - SocketPair.v, Conversation.v: a kernel with a socket pair, a whole
      conversation, run, and one that a reset of the peer breaks off.
    - Bouncer.v: apps/bouncer.cc. What each socket of the relay passes on, and to
      whom.
    - Programs.v: apps/tun.cc, apps/tcp_native.cc, the rest of udp_tcpdump.cc and of
      webget.cc. The copy over a kernel socket, from the command line on; the
      capture loop.
    - Lab7.v, Lab7Spec.v, Lab7Example.v: apps/lab7.cc. The adapter keeps the laws
      that the theorems on sockets need; where the two routers send; the network
      thread keeps running, and a datagram that ends it.
    - Lab7Program.v, Lab7Run.v: program_body and main of apps/lab7.cc. Its three
      threads beside each other, from their start to the end of the program; and a
      whole run.

    The components build on each other as in the code: a connection holds a
    sender and a receiver, the receiver a reassembler, which holds a byte stream;
    an adapter wraps segments in datagrams and hands them to an interface; the
    router owns interfaces; the socket joins a connection, an adapter and a pair of
    descriptors in an event loop.

    ** Bounds and fuel

    Absolute stream positions stay below 2^62 ([window_end], lengths of streams),
    so that the 64-bit arithmetic on them does not wrap; the end-to-end theorem
    needs streams shorter than half the sequence space (2^31 - 3 bytes), because a
    delayed segment may carry any earlier number. [fill_window] runs on fuel
    window + 2: each round sends at least one sequence number. The carries of the
    checksum fold in two rounds, for sums below 2^32. The scans of the router run
    on fuel given as an argument: length of the table + 3 is enough, as proved. The
    loops of the event-driven programs run for a number of rounds that is an
    argument, and the theorems hold for every number: the flag in their results
    says whether the loop has ended. The loops of the benchmark end within two
    rounds more than the string has bytes, and within 665 rounds (four for the
    streams to finish, two for the network to fall silent, ten of the largest
    initial timeouts at a second a round). What the peer of a socket ever writes is
    below 2^31 - 16 bytes, and what a descriptor ever gives below 2^61.

    ** What is not modelled

    Threads interleave at system calls of the owner: between two of them another
    thread takes whole rounds of its loop, and a round is not interrupted. The
    threads share descriptors only; the counters of the handle that both the owner
    and the thread of a socket write, a data race in the code, are the owner's. The
    state after an exception that a caller catches is not kept. What
    getaddrinfo, getnameinfo and libpcap do inside, and the debug output (but the
    texts of frames, which can throw). get_random_generator of util.cc, which wraps
    the random device. That the network simulator delivers for all random numbers, and that
    TCP delivers over a network that loses segments but is fair, are not stated;
    over the lossless network of the benchmark it is proved. *)

From stdpp Require Export base tactics list option numbers strings gmap.
From Stdlib Require Export ZArith Lia.
From Stdlib Require Import Strings.Byte.

#[global] Open Scope Z_scope.
#[global] Open Scope list_scope.

(** ** Machine integers

    A C++ unsigned integer of [w] bits is a [Z]; every operation that the
    language computes modulo [2^w] is followed by the wrap of its width. *)

Definition w8 (z : Z) : Z := z mod 0x100.

Definition w16 (z : Z) : Z := z mod 0x10000.

Definition w32 (z : Z) : Z := z mod 0x100000000.

Definition w64 (z : Z) : Z := z mod 0x10000000000000000.

Definition UINT16_MAX : Z := 0xffff.

Definition UINT32_MAX : Z := 0xffffffff.

Definition is_u8 (z : Z) : Prop := 0 <= z < 0x100.

Definition is_u16 (z : Z) : Prop := 0 <= z < 0x10000.

Definition is_u32 (z : Z) : Prop := 0 <= z < 0x100000000.

Definition is_u64 (z : Z) : Prop := 0 <= z < 0x10000000000000000.

(** [zmod_lia] decides linear goals that still hold wraps: it unfolds them and
    turns every [mod] and [/] by a literal into its defining equation. *)
Ltac unfold_w :=
  unfold w8, w16, w32, w64, is_u8, is_u16, is_u32, is_u64, UINT16_MAX, UINT32_MAX in *.

Ltac zmod_lia := unfold_w; Z.div_mod_to_equations; lia.

(** Proves closed range facts by evaluation. *)
Ltac range_compute := repeat split; vm_compute; congruence.

Create HintDb sponge.
Create Rewrite HintDb sponge.

Lemma w8_small z : is_u8 z → w8 z = z.
Proof. apply Z.mod_small. Qed.

Lemma w16_small z : is_u16 z → w16 z = z.
Proof. apply Z.mod_small. Qed.

Lemma w32_small z : is_u32 z → w32 z = z.
Proof. apply Z.mod_small. Qed.

Lemma w64_small z : is_u64 z → w64 z = z.
Proof. apply Z.mod_small. Qed.

Lemma w8_range z : is_u8 (w8 z).
Proof. by apply Z.mod_pos_bound. Qed.

Lemma w16_range z : is_u16 (w16 z).
Proof. by apply Z.mod_pos_bound. Qed.

Lemma w32_range z : is_u32 (w32 z).
Proof. by apply Z.mod_pos_bound. Qed.

Lemma w64_range z : is_u64 (w64 z).
Proof. by apply Z.mod_pos_bound. Qed.

Lemma w32_add_idemp_l a b : w32 (w32 a + b) = w32 (a + b).
Proof. apply Zplus_mod_idemp_l. Qed.

Lemma w32_add_idemp_r a b : w32 (a + w32 b) = w32 (a + b).
Proof. apply Zplus_mod_idemp_r. Qed.

Lemma w32_add_ne n k : 1 <= k < 0x100000000 → w32 (n + k) ≠ n.
Proof.
  unfold w32. intros Hk Hn. pose proof (Z.mod_pos_bound (n + k) 0x100000000 ltac:(lia)). rewrite Z.mod_eq in Hn by lia. lia.
Qed.

Lemma w32_idemp a : w32 (w32 a) = w32 a.
Proof. apply Zmod_mod. Qed.

#[export] Hint Resolve w8_range w16_range w32_range w64_range : sponge.
#[export] Hint Rewrite w32_add_idemp_l w32_add_idemp_r w32_idemp : sponge.

(** Rewrites away the wraps whose argument is provably in range. *)
Ltac wsmall :=
  repeat first
    [ rewrite w64_small by (unfold_w; lia)
    | rewrite w32_small by (unfold_w; lia)
    | rewrite w16_small by (unfold_w; lia)
    | rewrite w8_small by (unfold_w; lia) ].

Ltac wsmall_in H :=
  repeat first
    [ rewrite w64_small in H by (unfold_w; lia)
    | rewrite w32_small in H by (unfold_w; lia)
    | rewrite w16_small in H by (unfold_w; lia)
    | rewrite w8_small in H by (unfold_w; lia) ].

(** Turns the boolean comparisons of the code into propositions. *)
Ltac bool_to_prop :=
  repeat match goal with
  | H : _ && _ = true |- _ => apply andb_prop in H as [? ?]
  | H : _ && _ = false |- _ => apply andb_false_iff in H
  | H : _ || _ = true |- _ => apply orb_prop in H
  | H : _ || _ = false |- _ => apply orb_false_elim in H as [? ?]
  | H : negb _ = true |- _ => apply negb_true_iff in H
  | H : negb _ = false |- _ => apply negb_false_iff in H
  | H : (_ =? _) = true |- _ => apply Z.eqb_eq in H
  | H : (_ =? _) = false |- _ => apply Z.eqb_neq in H
  | H : (_ <? _) = true |- _ => apply Z.ltb_lt in H
  | H : (_ <? _) = false |- _ => apply Z.ltb_ge in H
  | H : (_ <=? _) = true |- _ => apply Z.leb_le in H
  | H : (_ <=? _) = false |- _ => apply Z.leb_gt in H
  end.

(** ** Bytes and strings

    [std::string] and [std::string_view] are lists of bytes. *)

Abbreviation byte := Byte.byte.
Abbreviation bytes := (list Byte.byte).

#[export] Instance byte_eq_decision : EqDecision byte := Byte.byte_eq_dec.

(** The value of a byte as a [uint8_t], and the conversion of an integer to a
    [uint8_t]. *)
Definition b2z (b : byte) : Z := Z.of_N (Byte.to_N b).

Definition z2b (z : Z) : byte := default Byte.x00 (Byte.of_N (Z.to_N (w8 z))).

Lemma b2z_range b : is_u8 (b2z b).
Proof. unfold b2z, is_u8. pose proof (Byte.to_N_bounded b). lia. Qed.

Lemma b2z_z2b z : b2z (z2b z) = w8 z.
Proof.
  unfold b2z, z2b. pose proof (w8_range z) as Hr. unfold is_u8 in Hr.
  destruct (Byte.of_N (Z.to_N (w8 z))) as [b|] eqn:E; simpl.
  - apply Byte.to_of_N in E. rewrite E. lia.
  - apply Byte.of_N_None_iff in E. lia.
Qed.

Lemma z2b_b2z b : z2b (b2z b) = b.
Proof.
  unfold z2b. rewrite w8_small by apply b2z_range.
  unfold b2z. by rewrite N2Z.id, Byte.of_to_N.
Qed.

#[export] Hint Resolve b2z_range : sponge.
#[export] Hint Rewrite b2z_z2b z2b_b2z : sponge.

(** [s.size()]. *)
Definition blen {A} (s : list A) : Z := Z.of_nat (length s).

(** Prefixes and suffixes counted in [Z]; the count is clipped to the length
    before it becomes a [nat], so both evaluate on any 64-bit count. *)
Definition ztake {A} (n : Z) (s : list A) : list A := take (Z.to_nat (Z.min n (blen s))) s.

Definition zdrop {A} (n : Z) (s : list A) : list A := drop (Z.to_nat (Z.min n (blen s))) s.

Lemma blen_nil {A} : blen (@nil A) = 0.
Proof. done. Qed.

Lemma blen_cons {A} (x : A) s : blen (x :: s) = 1 + blen s.
Proof. unfold blen. simpl. lia. Qed.

Lemma blen_app {A} (s t : list A) : blen (s ++ t) = blen s + blen t.
Proof. unfold blen. rewrite length_app. lia. Qed.

Lemma blen_nonneg {A} (s : list A) : 0 <= blen s.
Proof. unfold blen. lia. Qed.

Lemma blen_0_nil {A} (s : list A) : blen s = 0 → s = [].
Proof. unfold blen. destruct s; [done | simpl; lia]. Qed.

Lemma ztake_alt {A} n (s : list A) : ztake n s = take (Z.to_nat n) s.
Proof.
  unfold ztake, blen. destruct (decide (n <= Z.of_nat (length s))).
  - by rewrite Z.min_l.
  - rewrite Z.min_r, Nat2Z.id, !take_ge by lia. done.
Qed.

Lemma zdrop_alt {A} n (s : list A) : zdrop n s = drop (Z.to_nat n) s.
Proof.
  unfold zdrop, blen. destruct (decide (n <= Z.of_nat (length s))).
  - by rewrite Z.min_l.
  - rewrite Z.min_r, Nat2Z.id, !drop_ge by lia. done.
Qed.

Lemma blen_ztake {A} n (s : list A) : 0 <= n → blen (ztake n s) = Z.min n (blen s).
Proof. intros. rewrite ztake_alt. unfold blen. rewrite length_take. lia. Qed.

Lemma blen_zdrop {A} n (s : list A) : 0 <= n → blen (zdrop n s) = Z.max 0 (blen s - n).
Proof. intros. rewrite zdrop_alt. unfold blen. rewrite length_drop. lia. Qed.

Lemma ztake_zdrop {A} n (s : list A) : ztake n s ++ zdrop n s = s.
Proof. unfold ztake, zdrop. apply take_drop. Qed.

Lemma ztake_all {A} n (s : list A) : blen s <= n → ztake n s = s.
Proof. intros. rewrite ztake_alt. apply take_ge. unfold blen in *. lia. Qed.

Lemma zdrop_all {A} n (s : list A) : blen s <= n → zdrop n s = [].
Proof. intros. rewrite zdrop_alt. apply drop_ge. unfold blen in *. lia. Qed.

Lemma ztake_0 {A} (s : list A) : ztake 0 s = [].
Proof. by rewrite ztake_alt. Qed.

Lemma zdrop_0 {A} (s : list A) : zdrop 0 s = s.
Proof. by rewrite zdrop_alt. Qed.

Lemma ztake_nil {A} n : ztake n (@nil A) = [].
Proof. by rewrite ztake_alt, take_nil. Qed.

Lemma zdrop_nil {A} n : zdrop n (@nil A) = [].
Proof. by rewrite zdrop_alt, drop_nil. Qed.

Lemma ztake_app_l {A} n (s t : list A) : n <= blen s → ztake n (s ++ t) = ztake n s.
Proof. intros. rewrite !ztake_alt. apply take_app_le. unfold blen in *. lia. Qed.

Lemma zdrop_app_l {A} n (s t : list A) : n <= blen s → zdrop n (s ++ t) = zdrop n s ++ t.
Proof. intros. rewrite !zdrop_alt. apply drop_app_le. unfold blen in *. lia. Qed.

Lemma zdrop_app_r {A} n (s t : list A) :
  blen s <= n → zdrop n (s ++ t) = zdrop (n - blen s) t.
Proof.
  intros. rewrite !zdrop_alt. unfold blen in *.
  rewrite drop_app_ge by lia. f_equal. lia.
Qed.

Lemma zdrop_zdrop {A} n m (s : list A) :
  0 <= n → 0 <= m → zdrop n (zdrop m s) = zdrop (m + n) s.
Proof. intros. rewrite !zdrop_alt, drop_drop. f_equal. lia. Qed.

#[export] Hint Rewrite @blen_cons @blen_app @ztake_0 @zdrop_0 : sponge.
#[export] Hint Resolve blen_nonneg : sponge.

(** [zsum f l] is the sum of [f] over [l]. *)
Definition zsum {A} (f : A → Z) (l : list A) : Z := foldr (λ x acc, f x + acc) 0 l.

Lemma zsum_app {A} (f : A → Z) l m : zsum f (l ++ m) = zsum f l + zsum f m.
Proof. induction l as [|x l IH]; simpl; lia. Qed.

Lemma zsum_nonneg {A} (f : A → Z) l : (∀ x, 0 <= f x) → 0 <= zsum f l.
Proof. intros H. induction l as [|x l IH]; simpl; [lia|]. pose proof (H x). lia. Qed.

Lemma blen_bind {A B} (f : A → list B) l : blen (l ≫= f) = zsum (λ x, blen (f x)) l.
Proof. induction l as [|x l IH]; [done|]. rewrite bind_cons, blen_app, IH. done. Qed.

(** Accumulating a sum in a [size_t] is exact while it fits. *)
Lemma foldl_w64_zsum {A} (f : A → Z) l acc :
  (∀ x, 0 <= f x) → 0 <= acc → is_u64 (acc + zsum f l) →
  foldl (λ ret x, w64 (ret + f x)) acc l = acc + zsum f l.
Proof.
  intros Hf. revert acc.
  induction l as [|x l IH]; intros acc Hacc Hb; simpl in *; [lia|].
  pose proof (Hf x). pose proof (zsum_nonneg f l Hf).
  rewrite w64_small by (unfold_w; lia). rewrite IH; unfold_w; lia.
Qed.

(** ** Exceptions

    The exceptions the code throws, with their messages. [terminate_called] stands
    for the end of the process that an exception in a thread of its own makes,
    which nobody can catch, [undefined_behaviour] for a step the C++ standard leaves
    undefined, and [out_of_fuel] for a loop that the fuel of its translation did not
    let finish. *)
Inductive exn :=
  | out_of_range (what : string)
  | runtime_error (what : string)
  | length_error (what : string)
  | bad_optional_access
  | unix_error (attempt : string) (errno : Z)
  | gai_error (attempt : string) (return_value : Z)
  | invalid_argument (what : string)
  | terminate_called
  | undefined_behaviour (what : string)
  | out_of_fuel.

Inductive result (A : Type) :=
  | Ok (a : A)
  | Err (e : exn).
Arguments Ok {A} _.
Arguments Err {A} _.

(** The status of a process. *)
Definition EXIT_SUCCESS : Z := 0.

Definition EXIT_FAILURE : Z := 1.

#[export] Instance result_ret : MRet result := @Ok.
#[export] Instance result_bind : MBind result :=
  λ A B f m, match m with Ok a => f a | Err e => Err e end.
#[export] Instance result_fmap : FMap result :=
  λ A B f m, match m with Ok a => Ok (f a) | Err e => Err e end.

Definition is_Ok {A} (m : result A) : Prop := ∃ a, m = Ok a.

(** [std::optional::value()]. *)
Definition value {A} (o : option A) : result A :=
  match o with Some a => Ok a | None => Err bad_optional_access end.

Lemma result_bind_Ok {A B} (m : result A) (f : A → result B) b :
  m ≫= f = Ok b ↔ ∃ a, m = Ok a ∧ f a = Ok b.
Proof. destruct m as [a|e]; simpl; [|naive_solver]. split; [eauto|]. by intros (? & [= ->] & ?). Qed.

Lemma result_bind_assoc {A B C} (m : result A) (f : A → result B) (g : B → result C) :
  (m ≫= f) ≫= g = m ≫= (λ a, f a ≫= g).
Proof. by destruct m. Qed.

(** Splits hypotheses of the form [(x ← m; k) = Ok b] into their steps. *)
Ltac inv_ok :=
  repeat match goal with
  | H : Ok _ = Ok _ |- _ => injection H as H; try subst
  | H : Err _ = Ok _ |- _ => discriminate H
  | H : mret _ = Ok _ |- _ => injection H as H; try subst
  | H : (_ ≫= _) = Ok _ |- _ =>
      let E := fresh "E" in apply result_bind_Ok in H as (? & E & H)
  end.

(** ** Streams as functions

    [slice f i n] is the piece of the stream [f] of length [n] that starts at
    position [i]. *)
Definition slice {A} (f : Z → A) (i n : Z) : list A := f <$> seqZ i n.

Lemma blen_slice {A} (f : Z → A) i n : 0 <= n → blen (slice f i n) = n.
Proof. intros. unfold slice, blen. rewrite length_fmap, length_seqZ. lia. Qed.

Lemma slice_app {A} (f : Z → A) i n m :
  0 <= n → 0 <= m → slice f i n ++ slice f (i + n) m = slice f i (n + m).
Proof. intros. unfold slice. by rewrite <- fmap_app, <- seqZ_app. Qed.

Lemma zdrop_slice {A} (f : Z → A) i n k :
  0 <= k <= n → zdrop k (slice f i n) = slice f (i + k) (n - k).
Proof.
  intros. replace n with (k + (n - k)) at 1 by lia.
  rewrite <- slice_app by lia.
  rewrite zdrop_app_r by (rewrite blen_slice; lia).
  rewrite blen_slice by lia. by rewrite Z.sub_diag, zdrop_0.
Qed.

Lemma ztake_slice {A} (f : Z → A) i n k :
  0 <= k <= n → ztake k (slice f i n) = slice f i k.
Proof.
  intros. replace n with (k + (n - k)) by lia.
  rewrite <- slice_app by lia.
  rewrite ztake_app_l by (rewrite blen_slice; lia).
  apply ztake_all. rewrite blen_slice; lia.
Qed.

Lemma slice_ext {A} (f g : Z → A) i n :
  (∀ k, i <= k < i + n → f k = g k) → slice f i n = slice g i n.
Proof.
  intros H. unfold slice. apply list_fmap_ext. intros j x Hx.
  apply lookup_seqZ in Hx. apply H. lia.
Qed.

Lemma slice_nil {A} (f : Z → A) i n : n <= 0 → slice f i n = [].
Proof. intros. unfold slice. by rewrite seqZ_nil. Qed.

#[export] Hint Rewrite @blen_slice using lia : sponge.

(** ** Helpers of the wire formats *)

(** [std::string::resize(n)] pads with zero bytes or cuts. *)
Definition resize (s : bytes) (n : Z) : bytes :=
  ztake n s ++ replicate (Z.to_nat (n - blen s)) Byte.x00.

Lemma resize_pad s n :
  blen s <= n → resize s n = s ++ replicate (Z.to_nat (n - blen s)) Byte.x00.
Proof. intros. unfold resize. by rewrite ztake_all. Qed.

(** [static_cast<bool>(b & mask)]. *)
Definition flag (b mask : Z) : bool := negb (Z.land b mask =? 0).
