(* ===== verification/Buffers.v ===== *)
(** * Buffers: the reference-counted strings of util/buffer.hh

    [Buffer] is a shared string plus an offset, [BufferList] a queue of them
    and [BufferViewList] a queue of views. The shared string is never written
    after its construction, so sharing is not observable and a value stands
    for it. The section on refinement relates each class to the plain string
    it stands for. *)

From S2P Require Import Prelude.

Module Buffer.

Record t := mk {
  storage : option bytes;      (* _storage: None is the null shared_ptr *)
  starting_offset : Z;         (* _starting_offset *)
}.

(** The default constructor, and the constructor from a string. *)
Definition empty : t := mk None 0.

Definition of_string (s : bytes) : t := mk (Some s) 0.

Definition str (b : t) : bytes :=
  match storage b with
  | None => []
  | Some s => zdrop (starting_offset b) s
  end.

Definition size (b : t) : Z := blen (str b).

Definition at_ (b : t) (n : Z) : result byte :=
  match str b !! Z.to_nat n with
  | Some c => Ok c
  | None => Err (out_of_range "basic_string_view::at")
  end.

Definition copy (b : t) : bytes := str b.

Definition remove_prefix (b : t) (n : Z) : result t :=
  if size b <? n then Err (out_of_range "Buffer::remove_prefix")
  else
    let off := w64 (starting_offset b + n) in
    match storage b with
    | Some s => if off =? blen s then Ok (mk None off) else Ok (mk (Some s) off)
    | None => Ok (mk None off)
    end.

(** The offset stays inside the string it points into. *)
Definition ok (b : t) : Prop :=
  match storage b with
  | None => True
  | Some s => 0 <= starting_offset b <= blen s ∧ is_u64 (blen s)
  end.

End Buffer.

Module BufferList.

Abbreviation t := (list Buffer.t).

Definition of_buffer (b : Buffer.t) : t := [b].

Definition append (l other : t) : t := l ++ other.

(** The constructor that takes ownership of a [std::string]. *)
Definition of_string (s : bytes) : t := append [] (of_buffer (Buffer.of_string s)).

Definition to_buffer (l : t) : result Buffer.t :=
  match l with
  | [] => Ok Buffer.empty
  | [b] => Ok b
  | _ => Err (runtime_error "BufferList: please use concatenate() to combine a multi-Buffer BufferList into one Buffer")
  end.

Fixpoint concatenate (l : t) : bytes :=
  match l with
  | [] => []
  | b :: rest => Buffer.str b ++ concatenate rest
  end.

Definition size (l : t) : Z := foldl (λ ret b, w64 (ret + Buffer.size b)) 0 l.

(** [while (n > 0)]: each round either ends with [n = 0] or pops a buffer. *)
Fixpoint remove_prefix (l : t) (n : Z) : result t :=
  if 0 <? n then
    match l with
    | [] => Err (out_of_range "BufferList::remove_prefix")
    | b :: rest =>
        if n <? Buffer.size b then
          b' ← Buffer.remove_prefix b n; Ok (b' :: rest)
        else remove_prefix rest (n - Buffer.size b)
    end
  else Ok l.

Definition ok (l : t) : Prop := Forall Buffer.ok l.

End BufferList.

Module BufferViewList.

Abbreviation t := (list bytes).

Record iovec := mk_iovec { iov_base : bytes; iov_len : Z }.

Definition of_string (s : bytes) : t := [s].

Definition of_buffer_list (l : BufferList.t) : t := Buffer.str <$> l.

Fixpoint remove_prefix (l : t) (n : Z) : result t :=
  if 0 <? n then
    match l with
    | [] => Err (out_of_range "BufferListView::remove_prefix")
    | v :: rest =>
        if n <? blen v then Ok (zdrop n v :: rest)
        else remove_prefix rest (n - blen v)
    end
  else Ok l.

Definition size (l : t) : Z := foldl (λ ret v, w64 (ret + blen v)) 0 l.

Definition as_iovecs (l : t) : list iovec := (λ v, mk_iovec v (blen v)) <$> l.

End BufferViewList.

(** ** Each class refines the plain string *)

Lemma buffer_of_string_ok s : is_u64 (blen s) → Buffer.ok (Buffer.of_string s).
Proof. unfold Buffer.ok. simpl. pose proof (blen_nonneg s). unfold_w. lia. Qed.

Lemma buffer_str_of_string s : Buffer.str (Buffer.of_string s) = s.
Proof. unfold Buffer.str. simpl. apply zdrop_0. Qed.

Lemma buffer_remove_prefix_spec b n :
  Buffer.ok b → 0 <= n <= Buffer.size b →
  ∃ b', Buffer.remove_prefix b n = Ok b' ∧ Buffer.ok b' ∧
        Buffer.str b' = zdrop n (Buffer.str b).
Proof.
  intros Hok Hn. unfold Buffer.remove_prefix.
  destruct (Z.ltb_spec (Buffer.size b) n) as [|_]; [lia|].
  unfold Buffer.ok, Buffer.size, Buffer.str in *.
  destruct b as [[s|] off]; simpl in *.
  - destruct Hok as [Hoff Hs]. rewrite blen_zdrop in Hn by lia.
    rewrite w64_small by (unfold_w; lia).
    rewrite zdrop_zdrop by lia.
    destruct (Z.eqb_spec (off + n) (blen s)) as [E|E];
      eexists; (split; [done|]); simpl.
    + split; [done|]. rewrite E. symmetry. apply zdrop_all. lia.
    + split; [split; [lia|done] | done].
  - eexists; split_and!; [done|done|]. simpl. by rewrite zdrop_nil.
Qed.

Lemma buffer_remove_prefix_throws b n :
  Buffer.size b < n →
  Buffer.remove_prefix b n = Err (out_of_range "Buffer::remove_prefix").
Proof. intros. unfold Buffer.remove_prefix. by rewrite (proj2 (Z.ltb_lt _ _)). Qed.

Lemma concatenate_app l m :
  BufferList.concatenate (BufferList.append l m) =
  BufferList.concatenate l ++ BufferList.concatenate m.
Proof. induction l as [|b l IH]; simpl; [done|]. by rewrite IH, app_assoc. Qed.

Lemma concatenate_of_string s : BufferList.concatenate (BufferList.of_string s) = s.
Proof. simpl. by rewrite buffer_str_of_string, app_nil_r. Qed.

Lemma buffer_list_append_ok l m :
  BufferList.ok l → BufferList.ok m → BufferList.ok (BufferList.append l m).
Proof. apply Forall_app_2. Qed.

Lemma buffer_list_of_string_ok s : is_u64 (blen s) → BufferList.ok (BufferList.of_string s).
Proof. intros H. constructor; [by apply buffer_of_string_ok | constructor]. Qed.

#[export] Hint Resolve buffer_list_append_ok buffer_list_of_string_ok : sponge.
#[export] Hint Rewrite concatenate_app concatenate_of_string : sponge.

Lemma blen_concatenate l : blen (BufferList.concatenate l) = zsum Buffer.size l.
Proof. induction l as [|b l IH]; simpl; [done|]. by rewrite blen_app, IH. Qed.

Lemma buffer_list_size_spec l :
  is_u64 (blen (BufferList.concatenate l)) →
  BufferList.size l = blen (BufferList.concatenate l).
Proof.
  rewrite blen_concatenate. intros Hb. unfold BufferList.size.
  by rewrite (foldl_w64_zsum Buffer.size) by (unfold Buffer.size; auto with sponge; done).
Qed.

(** [BufferList::remove_prefix] drops exactly the first [n] bytes of the
    string, and throws exactly when there are fewer. *)
Lemma buffer_list_remove_prefix_spec l n :
  BufferList.ok l → 0 <= n <= blen (BufferList.concatenate l) →
  ∃ l', BufferList.remove_prefix l n = Ok l' ∧ BufferList.ok l' ∧
        BufferList.concatenate l' = zdrop n (BufferList.concatenate l).
Proof.
  intros Hok. revert n. induction Hok as [|b l Hb Hl IH]; intros n Hn; simpl in *.
  - rewrite (@blen_nil byte) in Hn. rewrite (proj2 (Z.ltb_ge 0 n)) by lia. exists []. split_and!; [done|constructor|].
    by rewrite zdrop_nil.
  - rewrite blen_app in Hn. unfold Buffer.size.
    destruct (Z.ltb_spec 0 n) as [Hpos|Hpos]; cycle 1.
    { exists (b :: l). split_and!; [done|by constructor|].
      assert (n = 0) as -> by lia. by rewrite zdrop_0. }
    destruct (Z.ltb_spec n (blen (Buffer.str b))) as [Hlt|Hge].
    + destruct (buffer_remove_prefix_spec b n) as (b' & -> & Hb' & Hs);
        [done|unfold Buffer.size; lia|].
      exists (b' :: l). split_and!; [done|by constructor|].
      simpl. rewrite Hs, zdrop_app_l by lia. done.
    + destruct (IH (n - blen (Buffer.str b))) as (l' & E & Hok' & Hs); [lia|].
      exists l'. split_and!; [done..|]. rewrite Hs, zdrop_app_r by lia. done.
Qed.

Lemma buffer_list_remove_prefix_throws l n :
  blen (BufferList.concatenate l) < n →
  BufferList.remove_prefix l n = Err (out_of_range "BufferList::remove_prefix").
Proof.
  revert n. induction l as [|b l IH]; intros n Hn; simpl in *.
  - rewrite (@blen_nil byte) in Hn. rewrite (proj2 (Z.ltb_lt 0 n)) by lia. done.
  - rewrite blen_app in Hn. pose proof (blen_nonneg (Buffer.str b)).
    pose proof (blen_nonneg (BufferList.concatenate l)).
    rewrite (proj2 (Z.ltb_lt 0 n)) by lia. unfold Buffer.size.
    rewrite (proj2 (Z.ltb_ge n _)) by lia. apply IH. lia.
Qed.

Lemma view_list_remove_prefix_spec l n :
  0 <= n <= blen (mjoin l) →
  ∃ l', BufferViewList.remove_prefix l n = Ok l' ∧ mjoin l' = zdrop n (mjoin l).
Proof.
  revert n. induction l as [|v l IH]; intros n Hn; simpl in *.
  - rewrite (@blen_nil byte) in Hn. rewrite (proj2 (Z.ltb_ge 0 n)) by lia. exists []. split; [done|].
    by rewrite zdrop_nil.
  - rewrite blen_app in Hn. destruct (Z.ltb_spec 0 n) as [Hpos|Hpos]; cycle 1.
    { exists (v :: l). split; [done|]. assert (n = 0) as -> by lia. by rewrite zdrop_0. }
    destruct (Z.ltb_spec n (blen v)).
    + eexists. split; [done|]. simpl. rewrite zdrop_app_l by lia. done.
    + destruct (IH (n - blen v)) as (l' & E & Hs); [lia|].
      exists l'. split; [done|]. rewrite Hs, zdrop_app_r by lia. done.
Qed.
