(* ===== verification/Wrapping.v ===== *)
(** * Wrapping integers: wrapping_integers.hh and wrapping_integers.cc

    32-bit sequence numbers relative to an initial sequence number, and the
    conversions to and from 64-bit absolute sequence numbers. *)

From S2P Require Import Prelude.

Module WrappingInt32.

Record t := mk { raw_value : Z }.

(** [explicit WrappingInt32(uint32_t raw_value)]; the argument is converted to
    [uint32_t]. *)
Definition of_raw (z : Z) : t := mk (w32 z).

(** The object holds a [uint32_t]. *)
Definition ok (a : t) : Prop := is_u32 (raw_value a).

(** [operator-(a, b)], an [int32_t]. *)
Definition sub (a b : t) : Z :=
  let d := w32 (raw_value a - raw_value b) in
  if d <? 0x80000000 then d else d - 0x100000000.

Definition eqb (a b : t) : bool := raw_value a =? raw_value b.

Definition neqb (a b : t) : bool := negb (eqb a b).

Definition gtb (a b : t) : bool := raw_value b <? raw_value a.

Definition geb (a b : t) : bool := raw_value b <=? raw_value a.

Definition ltb (a b : t) : bool := raw_value a <? raw_value b.

Definition leb (a b : t) : bool := raw_value a <=? raw_value b.

(** [operator+(a, uint32_t)] and [operator-(a, uint32_t)], which adds [-b]. *)
Definition add (a : t) (b : Z) : t := of_raw (raw_value a + w32 b).

Definition sub_n (a : t) (b : Z) : t := add a (w32 (- b)).

End WrappingInt32.

Definition wrap (n : Z) (isn : WrappingInt32.t) : WrappingInt32.t :=
  WrappingInt32.of_raw (w64 (Z.land n 0xFFFFFFFF + WrappingInt32.raw_value isn)).

(** [UINT32_MAX + 1 - offset] is computed in [uint32_t]. *)
Definition unwrap (n isn : WrappingInt32.t) (checkpoint : Z) : Z :=
  let nn := WrappingInt32.raw_value n in
  let cn := WrappingInt32.raw_value (wrap checkpoint isn) in
  let cn_is_large := nn <=? cn in
  let offset := if cn_is_large then w32 (cn - nn) else w32 (nn - cn) in
  let of_large_half := UINT32_MAX / 2 <? offset in
  let backward :=
    (negb cn_is_large && of_large_half) || (cn_is_large && negb of_large_half) in
  let co_offset := w32 (UINT32_MAX + 1 - offset) in
  if backward then
    if (checkpoint <=? UINT32_MAX / 2) &&
       ((of_large_half && (UINT32_MAX <? w64 (checkpoint - co_offset))) ||
        (negb of_large_half && (UINT32_MAX <? w64 (checkpoint - offset))))
    then if cn <=? nn then w64 (checkpoint + offset) else w64 (checkpoint + co_offset)
    else if negb of_large_half then w64 (checkpoint - offset)
         else w64 (checkpoint - co_offset)
  else if negb of_large_half then w64 (checkpoint + offset)
       else w64 (checkpoint + co_offset).

Arguments wrap : simpl never.
Arguments unwrap : simpl never.

(** ** Laws of the conversions *)

Lemma wrap_raw n isn :
  0 <= n → WrappingInt32.ok isn →
  WrappingInt32.raw_value (wrap n isn) = w32 (n + WrappingInt32.raw_value isn).
Proof.
  unfold WrappingInt32.ok. intros Hn Hi. unfold wrap. simpl.
  change 0xFFFFFFFF with (Z.ones 32). rewrite Z.land_ones by lia.
  change (2 ^ 32) with 0x100000000. zmod_lia.
Qed.

Lemma wrap_ok n isn : WrappingInt32.ok (wrap n isn).
Proof. apply w32_range. Qed.

Lemma of_raw_ok z : WrappingInt32.ok (WrappingInt32.of_raw z).
Proof. apply w32_range. Qed.

Lemma add_ok a b : WrappingInt32.ok (WrappingInt32.add a b).
Proof. apply of_raw_ok. Qed.

Lemma sub_n_ok a b : WrappingInt32.ok (WrappingInt32.sub_n a b).
Proof. apply of_raw_ok. Qed.

#[export] Hint Resolve wrap_ok of_raw_ok add_ok sub_n_ok : sponge.

Lemma wrapping_eq (a b : WrappingInt32.t) :
  WrappingInt32.raw_value a = WrappingInt32.raw_value b → a = b.
Proof. destruct a, b. simpl. congruence. Qed.

(** Two absolute numbers wrap to the same 32-bit number exactly when they are
    congruent modulo [2^32]. *)
Lemma wrap_eq_iff a b isn :
  0 <= a → 0 <= b → WrappingInt32.ok isn →
  wrap a isn = wrap b isn ↔ w32 a = w32 b.
Proof.
  intros Ha Hb Hi. split.
  - intros E. apply (f_equal WrappingInt32.raw_value) in E.
    rewrite !wrap_raw in E by done. zmod_lia.
  - intros E. apply wrapping_eq. rewrite !wrap_raw by done. zmod_lia.
Qed.

Lemma wrap_add a k isn :
  0 <= a → 0 <= k → WrappingInt32.ok isn →
  WrappingInt32.add (wrap a isn) k = wrap (a + k) isn.
Proof.
  intros. apply wrapping_eq. unfold WrappingInt32.add, WrappingInt32.of_raw.
  cbn [WrappingInt32.raw_value]. rewrite !wrap_raw by (lia || done). zmod_lia.
Qed.

Lemma wrap_sub_n a k isn :
  0 <= k <= a → WrappingInt32.ok isn →
  WrappingInt32.sub_n (wrap a isn) k = wrap (a - k) isn.
Proof.
  intros. apply wrapping_eq.
  unfold WrappingInt32.sub_n, WrappingInt32.add, WrappingInt32.of_raw.
  cbn [WrappingInt32.raw_value]. rewrite !wrap_raw by (lia || done). zmod_lia.
Qed.

Lemma wrap_0 isn : WrappingInt32.ok isn → wrap 0 isn = isn.
Proof. intros H. apply wrapping_eq. rewrite wrap_raw by done. by apply w32_small. Qed.

(** Every 32-bit number is the wrap of some absolute number. *)
Lemma wrap_surj n isn :
  WrappingInt32.ok n → WrappingInt32.ok isn →
  wrap (w32 (WrappingInt32.raw_value n - WrappingInt32.raw_value isn)) isn = n.
Proof.
  unfold WrappingInt32.ok. intros Hn Hi. apply wrapping_eq.
  rewrite wrap_raw by (try done; apply w32_range). zmod_lia.
Qed.

(** [unwrap] never leaves the window of half the sequence space around the
    checkpoint, except when the numbers below it run out. *)
Lemma unwrap_cases n isn cp :
  WrappingInt32.ok n → WrappingInt32.ok isn → 0 <= cp → cp + 0x100000000 < 0x10000000000000000 →
  let r := unwrap n isn cp in
  0 <= r ∧ w32 (r + WrappingInt32.raw_value isn) = WrappingInt32.raw_value n ∧
  (Z.abs (r - cp) <= 0x80000000 ∨ cp < r < 0x100000000).
Proof.
  unfold WrappingInt32.ok. intros Hn Hi Hcp Hb. unfold unwrap.
  rewrite wrap_raw by done. cbv zeta.
  repeat case_match; bool_to_prop; unfold UINT32_MAX in *; simpl in *; zmod_lia.
Qed.

(** [unwrap] inverts [wrap] for every number less than half the sequence space
    away from the checkpoint. *)
Lemma unwrap_wrap a isn cp :
  WrappingInt32.ok isn → 0 <= a → 0 <= cp → cp + 0x100000000 < 0x10000000000000000 →
  Z.abs (a - cp) < 0x80000000 →
  unwrap (wrap a isn) isn cp = a.
Proof.
  intros Hi Ha Hcp Hb Hd.
  destruct (unwrap_cases (wrap a isn) isn cp) as (Hr & Hw & Hc); [auto with sponge..|].
  rewrite wrap_raw in Hw by done. unfold_w.
  destruct Hc; Z.div_mod_to_equations; lia.
Qed.

(** C24. [unwrap] returns an absolute sequence number that wraps to [n], and no
    other absolute number that wraps to [n] is closer to the checkpoint. *)
Theorem unwrap_closest n isn cp :
  WrappingInt32.ok n → WrappingInt32.ok isn →
  0 <= cp → cp + 0x100000000 < 0x10000000000000000 →
  let r := unwrap n isn cp in
  0 <= r ∧ wrap r isn = n ∧
  ∀ r', 0 <= r' → wrap r' isn = n → Z.abs (r - cp) <= Z.abs (r' - cp).
Proof.
  intros Hn Hi Hcp Hb.
  destruct (unwrap_cases n isn cp) as (Hr & Hw & Hc); [done..|].
  split_and!; [done| |].
  - apply wrapping_eq. by rewrite wrap_raw.
  - intros r' Hr' <-. rewrite wrap_raw in Hw by done. unfold_w.
    destruct Hc; Z.div_mod_to_equations; lia.
Qed.

Lemma unwrap_closest_witness :
  let r := unwrap (WrappingInt32.mk 15) (WrappingInt32.mk 16) 0 in
  r = 0xFFFFFFFF ∧ wrap r (WrappingInt32.mk 16) = WrappingInt32.mk 15.
Proof.
  pose proof (unwrap_closest (WrappingInt32.mk 15) (WrappingInt32.mk 16) 0) as H.
  destruct H as (_ & H & _); [unfold WrappingInt32.ok; unfold_w; simpl; lia..|].
  split; [reflexivity|exact H].
Defined.

(** Converting an absolute sequence number to its 32-bit form and back
    returns it, whatever the initial sequence number, as long as the checkpoint
    is less than half the sequence space away. *)
Theorem wrap_unwrap_roundtrip a isn cp :
  WrappingInt32.ok isn → 0 <= a → 0 <= cp → cp + 0x100000000 < 0x10000000000000000 →
  Z.abs (a - cp) < 0x80000000 →
  unwrap (wrap a isn) isn cp = a.
Proof. apply unwrap_wrap. Qed.

Lemma wrap_unwrap_roundtrip_witness :
  unwrap (wrap 0x300000007 (WrappingInt32.mk 0xFFFFFFFF)) (WrappingInt32.mk 0xFFFFFFFF) 0x280000008
  = 0x300000007.
Proof.
  apply (wrap_unwrap_roundtrip 0x300000007 (WrappingInt32.mk 0xFFFFFFFF) 0x280000008);
    unfold WrappingInt32.ok; unfold_w; simpl; lia.
Defined.
