(* ===== verification/Stream.v ===== *)
(** * The flow-controlled byte stream: byte_stream.hh and byte_stream.cc

    The module [ByteStream] translates the class. Its specification is a FIFO:
    [rep s w] says that [s] stands for the stream into which [w] was written in
    total and of which the first [read_count s] bytes were popped. *)

From S2P Require Import Prelude Buffers.

Module ByteStream.

Record t := mk {
  error_ : bool;               (* _error *)
  buffer : BufferList.t;       (* _buffer *)
  capacity : Z;                (* _capacity *)
  input_ended_flag : bool;     (* _input_ended_flag *)
  write_count : Z;             (* _write_count *)
  read_count : Z;              (* _read_count *)
}.

Definition new (cap : Z) : t := mk false [] cap false 0 0.

Definition error (s : t) : bool := error_ s.

Definition input_ended (s : t) : bool := input_ended_flag s.

Definition buffer_size (s : t) : Z := BufferList.size (buffer s).

Definition buffer_empty (s : t) : bool := BufferList.size (buffer s) =? 0.

Definition eof (s : t) : bool := input_ended s && buffer_empty s.

Definition bytes_written (s : t) : Z := write_count s.

Definition bytes_read (s : t) : Z := read_count s.

Definition remaining_capacity (s : t) : Z := w64 (capacity s - BufferList.size (buffer s)).

Definition set_error (s : t) : t :=
  mk true (buffer s) (capacity s) (input_ended_flag s) (write_count s) (read_count s).

Definition end_input (s : t) : t :=
  mk (error_ s) (buffer s) (capacity s) true (write_count s) (read_count s).

Definition write (s : t) (data : bytes) : t * Z :=
  let length := Z.min (blen data) (remaining_capacity s) in
  let buf :=
    if blen data =? 0 then buffer s
    else BufferList.append (buffer s) (BufferList.of_string (ztake length data)) in
  (mk (error_ s) buf (capacity s) (input_ended_flag s) (w64 (write_count s + length)) (read_count s),
   length).

Definition peek_output (s : t) (len : Z) : bytes := ztake len (BufferList.concatenate (buffer s)).

Definition pop_output (s : t) (len : Z) : result t :=
  let length := Z.min (BufferList.size (buffer s)) len in
  buf ← BufferList.remove_prefix (buffer s) length;
  Ok (mk (error_ s) buf (capacity s) (input_ended_flag s) (write_count s)
         (w64 (read_count s + length))).

Definition read (s : t) (len : Z) : result (t * bytes) :=
  let ret := peek_output s len in
  s' ← pop_output s len;
  Ok (s', ret).

Arguments write : simpl never.
Arguments peek_output : simpl never.
Arguments pop_output : simpl never.
Arguments read : simpl never.

(** ** The specification *)

(** What the stream holds. *)
Definition contents (s : t) : bytes := BufferList.concatenate (buffer s).

Record rep (s : t) (w : bytes) : Prop := mk_rep {
  rep_ok : BufferList.ok (buffer s);
  rep_contents : contents s = zdrop (read_count s) w;
  rep_written : write_count s = blen w;
  rep_read : 0 <= read_count s <= blen w;
  rep_capacity : blen w - read_count s <= capacity s;
  rep_cap_u64 : is_u64 (capacity s);
  rep_len_u64 : is_u64 (blen w);
}.

Lemma rep_blen_contents s w : rep s w → blen (contents s) = blen w - read_count s.
Proof. intros []. rewrite rep_contents0, blen_zdrop by lia. lia. Qed.

Lemma rep_size s w : rep s w → BufferList.size (buffer s) = blen w - read_count s.
Proof.
  intros H. rewrite buffer_list_size_spec; fold (contents s);
    rewrite (rep_blen_contents s w) by done; [done|].
  destruct H. unfold_w. lia.
Qed.

Lemma rep_remaining s w :
  rep s w → remaining_capacity s = capacity s - (blen w - read_count s).
Proof.
  intros H. unfold remaining_capacity. rewrite (rep_size s w) by done.
  apply w64_small. destruct H. unfold_w. lia.
Qed.

Lemma rep_new cap : is_u64 cap → rep (new cap) [].
Proof.
  intros H. split; simpl; rewrite ?(@blen_nil byte); unfold_w; try lia; [constructor|done].
Qed.

Lemma rep_set_error s w : rep s w → rep (set_error s) w.
Proof. by intros []. Qed.

Lemma rep_end_input s w : rep s w → rep (end_input s) w.
Proof. by intros []. Qed.

(** [write] accepts as much of the data as fits and appends exactly that. *)
Lemma write_spec s w data :
  rep s w → is_u64 (blen w + blen data) →
  let n := Z.min (blen data) (capacity s - (blen w - read_count s)) in
  ∃ s', write s data = (s', n) ∧ rep s' (w ++ ztake n data) ∧ 0 <= n ∧
        capacity s' = capacity s ∧ read_count s' = read_count s ∧
        error_ s' = error_ s ∧ input_ended_flag s' = input_ended_flag s.
Proof.
  intros H Hb n. unfold write. rewrite (rep_remaining s w H). fold n.
  pose proof (blen_nonneg data) as Hd.
  assert (Hn : 0 <= n) by (destruct H; lia).
  assert (Hlen : blen (ztake n data) = n) by (rewrite blen_ztake by lia; lia).
  eexists. split; [done|]. split; [|done]. destruct H.
  assert (Hread : read_count s <= blen w) by lia.
  split; simpl; rewrite ?blen_app, ?Hlen; try (unfold_w; lia).
  - destruct (_ =? 0); [done|]. apply buffer_list_append_ok; [done|].
    apply buffer_list_of_string_ok. rewrite Hlen. unfold_w. lia.
  - unfold contents in *. simpl. rewrite zdrop_app_l by lia. rewrite <- rep_contents0.
    destruct (Z.eqb_spec (blen data) 0) as [E|E].
    + apply blen_0_nil in E as ->. by rewrite ztake_nil, app_nil_r.
    + by rewrite concatenate_app, concatenate_of_string.
  - rewrite rep_written0. apply w64_small. unfold_w. lia.
Qed.

(** [pop_output] never throws and removes as much as there is. *)
Lemma pop_output_spec s w len :
  rep s w → 0 <= len →
  ∃ s', pop_output s len = Ok s' ∧ rep s' w ∧
        read_count s' = Z.min (blen w) (read_count s + len) ∧
        capacity s' = capacity s ∧ error_ s' = error_ s ∧
        input_ended_flag s' = input_ended_flag s.
Proof.
  intros H Hlen. unfold pop_output. rewrite (rep_size s w H).
  pose proof (rep_blen_contents s w H) as Hc. destruct H.
  destruct (buffer_list_remove_prefix_spec (buffer s) (Z.min (blen w - read_count s) len))
    as (l' & -> & Hok' & Hl'); [done|unfold contents in Hc; lia|].
  eexists. split; [done|]. simpl. rewrite w64_small by (unfold_w; lia).
  split_and!; [|lia|done..].
  split; simpl; try done; try (unfold_w; lia).
  unfold contents in *. simpl. rewrite Hl', rep_contents0, zdrop_zdrop by lia. done.
Qed.

Lemma peek_output_spec s w len :
  rep s w → peek_output s len = ztake len (zdrop (read_count s) w).
Proof. intros []. unfold peek_output. by fold (contents s); rewrite rep_contents0. Qed.

Lemma read_spec s w len :
  rep s w → 0 <= len →
  ∃ s', read s len = Ok (s', ztake len (zdrop (read_count s) w)) ∧ rep s' w ∧
        read_count s' = Z.min (blen w) (read_count s + len) ∧
        capacity s' = capacity s ∧ error_ s' = error_ s ∧
        input_ended_flag s' = input_ended_flag s.
Proof.
  intros H Hlen. destruct (pop_output_spec s w len) as (s' & E & Hs); [done..|].
  exists s'. unfold read. rewrite E, (peek_output_spec s w) by done. done.
Qed.

Lemma rep_eof s w : rep s w → eof s = true ↔ input_ended_flag s = true ∧ read_count s = blen w.
Proof.
  intros H. unfold eof, input_ended, buffer_empty. rewrite (rep_size s w H), andb_true_iff, Z.eqb_eq.
  destruct H. split; intros [? ?]; split; (done || lia).
Qed.

(** ** Runs of a stream *)

Inductive op :=
  | Write (data : bytes)
  | Read (len : Z)
  | Pop (len : Z)
  | End_input
  | Set_error.

(** One call by a client: the new state, the bytes the stream accepted and the
    bytes it handed out or discarded. *)
Definition step (o : op) (s : t) : result (t * bytes * bytes) :=
  match o with
  | Write data => let '(s', n) := write s data in Ok (s', ztake n data, [])
  | Read len => '(s', out) ← read s len; Ok (s', [], out)
  | Pop len => s' ← pop_output s len; Ok (s', [], peek_output s len)
  | End_input => Ok (end_input s, [], [])
  | Set_error => Ok (set_error s, [], [])
  end.

Fixpoint run (os : list op) (s : t) : result (t * bytes * bytes) :=
  match os with
  | [] => Ok (s, [], [])
  | o :: os' =>
      '(s1, w1, r1) ← step o s;
      '(s2, w2, r2) ← run os' s1;
      Ok (s2, w1 ++ w2, r1 ++ r2)
  end.

Definition op_ok (o : op) : Prop :=
  match o with
  | Read len | Pop len => 0 <= len
  | _ => True
  end.

Definition op_size (o : op) : Z := match o with Write d => blen d | _ => 0 end.

Lemma zdrop_split {A} a b (w : list A) :
  0 <= a → 0 <= b → ztake b (zdrop a w) ++ zdrop (Z.min (blen w) (a + b)) w = zdrop a w.
Proof.
  intros Ha Hb. rewrite <- (ztake_zdrop b (zdrop a w)) at 2. f_equal.
  rewrite zdrop_zdrop by lia. destruct (Z.min_spec (blen w) (a + b)) as [[? ->]|[? ->]]; [|done].
  rewrite !zdrop_all by lia. done.
Qed.

Lemma step_spec o s w :
  rep s w → op_ok o → is_u64 (blen w + op_size o) →
  ∃ s' a d, step o s = Ok (s', a, d) ∧ rep s' (w ++ a) ∧ blen a <= op_size o ∧
            contents s ++ a = d ++ contents s' ∧ capacity s' = capacity s.
Proof.
  intros H Ho Hb. pose proof (rep_contents _ _ H) as Hc.
  pose proof (rep_read _ _ H) as Hr.
  destruct o as [data|len|len| |]; cbn [step op_ok op_size] in *.
  - destruct (write_spec s w data) as (s' & -> & Hs & Hn & Hcap & Hrd & _); [done..|].
    eexists _, _, _. split; [done|]. split_and!; [done| |simpl|done].
    + rewrite blen_ztake by done. lia.
    + rewrite (rep_contents _ _ Hs), Hc, Hrd. by rewrite zdrop_app_l by lia.
  - destruct (read_spec s w len) as (s' & -> & Hs & Hrd & Hcap & _); [done..|].
    exists s', [], (ztake len (zdrop (read_count s) w)). rewrite !app_nil_r. split; [done|].
    split_and!; [done..| |done].
    rewrite (rep_contents _ _ Hs), Hc, Hrd. by rewrite zdrop_split by lia.
  - destruct (pop_output_spec s w len) as (s' & -> & Hs & Hrd & Hcap & _); [done..|].
    exists s', [], (peek_output s len). rewrite !app_nil_r. split; [done|].
    split_and!; [done..| |done].
    rewrite (peek_output_spec s w) by done.
    rewrite (rep_contents _ _ Hs), Hc, Hrd. by rewrite zdrop_split by lia.
  - exists (end_input s), [], []. rewrite !app_nil_r. by split_and!; [|apply rep_end_input|..].
  - exists (set_error s), [], []. rewrite !app_nil_r. by split_and!; [|apply rep_set_error|..].
Qed.

Lemma run_spec os s w :
  rep s w → Forall op_ok os → is_u64 (blen w + zsum op_size os) →
  ∃ s' a d, run os s = Ok (s', a, d) ∧ rep s' (w ++ a) ∧
            contents s ++ a = d ++ contents s' ∧ capacity s' = capacity s.
Proof.
  revert s w. induction os as [|o os IH]; intros s w H Hok Hb; simpl in *.
  { exists s, [], []. rewrite !app_nil_r. auto. }
  apply Forall_cons in Hok as [Ho Hok].
  assert (Hso : 0 <= op_size o) by (destruct o; simpl; auto with sponge; lia).
  assert (Hsos : 0 <= zsum op_size os).
  { apply zsum_nonneg. intros []; simpl; auto with sponge; lia. }
  pose proof (blen_nonneg w) as Hw.
  destruct (step_spec o s w) as (s1 & a1 & d1 & -> & H1 & Ha1 & E1 & C1); [done..|unfold_w; lia|].
  destruct (IH s1 (w ++ a1)) as (s2 & a2 & d2 & E & H2 & E2 & C2); [done..| |].
  { rewrite blen_app. pose proof (blen_nonneg a1). unfold_w. lia. }
  simpl. rewrite E. simpl. exists s2, (a1 ++ a2), (d1 ++ d2).
  split_and!; [done|by rewrite app_assoc| |congruence].
  by rewrite app_assoc, E1, <- !app_assoc, E2.
Qed.

End ByteStream.

(** C25. over any sequence of calls from construction, no call throws, the bytes
    handed out followed by the bytes still held are exactly the bytes accepted,
    in order, and the stream never holds more than its capacity. *)
Theorem byte_stream_fifo cap os :
  is_u64 cap → Forall ByteStream.op_ok os → is_u64 (zsum ByteStream.op_size os) →
  ∃ s accepted delivered,
    ByteStream.run os (ByteStream.new cap) = Ok (s, accepted, delivered) ∧
    delivered ++ ByteStream.contents s = accepted ∧
    ByteStream.bytes_written s = blen accepted ∧
    ByteStream.bytes_read s = blen delivered ∧
    ByteStream.buffer_size s <= cap.
Proof.
  intros Hcap Hok Hb.
  destruct (ByteStream.run_spec os (ByteStream.new cap) []) as (s & a & d & -> & H & E & C);
    [by apply ByteStream.rep_new|done|done|].
  simpl in *. exists s, a, d. split_and!; [done..|by apply ByteStream.rep_written| |].
  - unfold ByteStream.bytes_read. pose proof (ByteStream.rep_blen_contents _ _ H) as Hc.
    rewrite E, blen_app in Hc. lia.
  - unfold ByteStream.buffer_size. rewrite (ByteStream.rep_size _ _ H). destruct H. lia.
Qed.

Lemma byte_stream_fifo_witness :
  ∃ s, ByteStream.run
         [ByteStream.Write [Byte.x61; Byte.x62; Byte.x63]; ByteStream.Read 1;
          ByteStream.Write [Byte.x64; Byte.x65]; ByteStream.Pop 2; ByteStream.End_input]
         (ByteStream.new 3)
       = Ok (s, [Byte.x61; Byte.x62; Byte.x63; Byte.x64], [Byte.x61; Byte.x62; Byte.x63]) ∧
       ByteStream.contents s = [Byte.x64].
Proof.
  destruct (byte_stream_fifo 3
    [ByteStream.Write [Byte.x61; Byte.x62; Byte.x63]; ByteStream.Read 1;
     ByteStream.Write [Byte.x64; Byte.x65]; ByteStream.Pop 2; ByteStream.End_input])
    as (s & a & d & E & Hc & _).
  - unfold_w; lia.
  - repeat constructor; simpl; lia.
  - range_compute.
  - exists s. vm_compute in E. injection E as <- <- <-. split; [reflexivity|]. vm_compute. reflexivity.
Defined.
