(* ===== verification/Reassembly.v ===== *)
(** * The stream reassembler: stream_reassembler.hh and stream_reassembler.cc

    [_unassembled], a [std::map] from the first index of a segment to its last
    index and its bytes, is the list of its nodes in key order; an iterator is
    the pair of the nodes before it and the nodes from it on, and [end()] is the iterator with nothing from it on. *)

From S2P Require Import Prelude Buffers Stream.

Module StreamReassembler.

(** One node of [_unassembled]. *)
Record seg := mk_seg {
  seg_start : Z;               (* first *)
  seg_end : Z;                 (* second.first *)
  seg_buf : BufferList.t;      (* second.second *)
}.

Record t := mk {
  output : ByteStream.t;       (* _output *)
  capacity : Z;                (* _capacity *)
  unassembled : list seg;      (* _unassembled *)
  unassembled_bytes_ : Z;      (* _unassembled_bytes *)
  first_index : Z;             (* _first_index *)
  eof_index : Z;               (* _eof_index *)
  eof_ : bool;                 (* _eof *)
  eofed : bool;                (* _eofed *)
}.

Definition new (capacity : Z) : t :=
  mk (ByteStream.new capacity) capacity [] 0 0 0 false false.

Definition stream_out (r : t) : ByteStream.t := output r.

Definition unassembled_bytes (r : t) : Z := unassembled_bytes_ r.

Definition empty (r : t) : bool := unassembled_bytes_ r =? 0.

Definition first_unassembled (r : t) : Z := first_index r.

Definition eof (r : t) : bool := eofed r.

(** The owner's access to the stream through [stream_out()]. *)
Definition with_output (r : t) (o : ByteStream.t) : t :=
  mk o (capacity r) (unassembled r) (unassembled_bytes_ r) (first_index r)
     (eof_index r) (eof_ r) (eofed r).

(** [push_substring] reads [it->first] also when [it] is [end()]. What that read
    yields is not defined by the language; it is the operation of this class. *)
Class EndKey := end_key : list seg → Z.

(** In libstdc++ the key of the [end()] node overlays the node count of the map. *)
#[global] Instance libstdcxx_end_key : EndKey := λ m, blen m.

(** [lower_bound(k)] on the node list. *)
Fixpoint lower_bound (m : list seg) (k : Z) : list seg * list seg :=
  match m with
  | [] => ([], [])
  | s :: rest =>
      if seg_start s <? k then let '(pre, suf) := lower_bound rest k in (s :: pre, suf)
      else ([], m)
  end.

(** [insert] of a node: the nodes before, the node with that key (an existing
    one is kept) and the nodes after. *)
Definition map_insert (m : list seg) (s : seg) : list seg * seg * list seg :=
  let '(pre, suf) := lower_bound m (seg_start s) in
  match suf with
  | x :: rest => if seg_start x =? seg_start s then (pre, x, rest) else (pre, s, suf)
  | [] => (pre, s, [])
  end.

(** What the first part of [push_substring] leaves behind: the iterator [it] as
    the nodes before it, the node it designates and the nodes after it. *)
Inductive placement :=
  | Finish (pre : list seg) (it : seg) (post : list seg)
  | Merged (pre : list seg) (it : seg) (post : list seg) (ub : Z)
  | Apart.

(** Compares the candidate with the node [it], lines 66 to 79. *)
Definition try_merge (pre : list seg) (it : seg) (post : list seg)
    (index_c length_c end_index : Z) (buf : BufferList.t) (ub : Z) : result placement :=
  if index_c <=? w64 (seg_end it + 1) then
    if length_c <=? w64 (seg_end it - index_c + 1) then Ok (Finish pre it post)
    else
      let olap_len := w64 (seg_end it - index_c + 1) in
      buf' ← BufferList.remove_prefix buf olap_len;
      Ok (Merged pre (mk_seg (seg_start it) end_index (BufferList.append (seg_buf it) buf'))
                 post (w64 (ub + BufferList.size buf')))
  else Ok Apart.

(** Lines 54 to 80: finds the node at or before the candidate's start. *)
Definition place `{EndKey} (m : list seg) (index_c length_c end_index : Z)
    (buf : BufferList.t) (ub : Z) : result placement :=
  let '(pre, suf) := lower_bound m index_c in
  match suf with
  | x :: post =>
      if seg_start x =? index_c then try_merge pre x post index_c length_c end_index buf ub
      else match last pre with
           | Some p => try_merge (removelast pre) p suf index_c length_c end_index buf ub
           | None => Ok Apart
           end
  | [] =>
      match last pre with
      | Some p =>
          if end_key m =? index_c
          then Err (undefined_behaviour "push_substring: reads the mapped value of end()")
          else try_merge (removelast pre) p [] index_c length_c end_index buf ub
      | None => Ok Apart
      end
  end.

(** The loop of lines 89 to 107 over the nodes after [ins]. *)
Fixpoint absorb (ins : seg) (rest : list seg) (ub : Z) : result (seg * list seg * Z) :=
  match rest with
  | [] => Ok (ins, [], ub)
  | it :: rest' =>
      if seg_end it <=? seg_end ins then
        absorb ins rest' (w64 (ub - BufferList.size (seg_buf it)))
      else if seg_start it <=? w64 (seg_end ins + 1) then
        let olap_len := w64 (seg_end ins - seg_start it + 1) in
        b ← BufferList.remove_prefix (seg_buf it) olap_len;
        Ok (mk_seg (seg_start ins) (seg_end it) (BufferList.append (seg_buf ins) b),
            rest', w64 (ub - olap_len))
      else Ok (ins, rest, ub)
  end.

(** The test at the end of every path: the last byte has been written. *)
Definition check_eof (r : t) : t :=
  if eof_ r && (first_index r =? eof_index r) then
    mk (ByteStream.end_input (output r)) (capacity r) (unassembled r) (unassembled_bytes_ r)
       (first_index r) (eof_index r) (eof_ r) true
  else r.

(** Lines 109 to 115: writes the node [ins] out if it is the next one. *)
Definition flush (r : t) (pre : list seg) (ins : seg) (post : list seg) (ub : Z) : t :=
  if seg_start ins =? first_index r then
    let seg_len := BufferList.size (seg_buf ins) in
    let '(out, _) := ByteStream.write (output r) (BufferList.concatenate (seg_buf ins)) in
    mk out (capacity r) (pre ++ post) (w64 (ub - seg_len)) (w64 (first_index r + seg_len))
       (eof_index r) (eof_ r) (eofed r)
  else
    mk (output r) (capacity r) (pre ++ ins :: post) ub (first_index r)
       (eof_index r) (eof_ r) (eofed r).

(** Lines 82 to 115: what the placement of the candidate leads to. *)
Definition resume (r : t) (cand : seg) (p : placement) : result t :=
  match p with
  | Finish pre it post => Ok (flush r pre it post (unassembled_bytes_ r))
  | Merged pre it post ub =>
      '(ins, rest, ub') ← absorb it post ub;
      Ok (flush r pre ins rest ub')
  | Apart =>
      let '(pre, it, post) := map_insert (unassembled r) cand in
      '(ins, rest, ub') ←
        absorb it post (w64 (unassembled_bytes_ r + BufferList.size (seg_buf cand)));
      Ok (flush r pre ins rest ub')
  end.

(** Lines 53 to 115: stores the candidate and flushes. *)
Definition store `{EndKey} (r : t) (index_c length_c end_index : Z) (buf : BufferList.t)
  : result t :=
  p ← place (unassembled r) index_c length_c end_index buf (unassembled_bytes_ r);
  resume r (mk_seg index_c end_index buf) p.

(** Lines 21 to 24: notes where the stream ends, the first time it is told. *)
Definition note_eof (r : t) (data : bytes) (index : Z) (eof : bool) : t :=
  if eof && negb (eof_ r) then
    mk (output r) (capacity r) (unassembled r) (unassembled_bytes_ r) (first_index r)
       (w64 (index + blen data)) true (eofed r)
  else r.

(** Lines 26 to 119: the part of the data that is new and fits the window. *)
Definition push_open `{EndKey} (r : t) (data : bytes) (index : Z) : result t :=
  let end_index := w64 (index + blen data - 1) in
  let max_acindex := w64 (first_index r + ByteStream.remaining_capacity (output r)) in
  if (end_index <? first_index r) || (max_acindex <=? index) || (blen data =? 0)
  then Ok (check_eof r)
  else
    let '(index_c, offset, length_c) :=
      if index <? first_index r then
        (first_index r, first_index r - index, w64 (blen data - (first_index r - index)))
      else (index, 0, blen data) in
    let '(length_c, end_index) :=
      if max_acindex <? w64 (index_c + length_c) then
        (w64 (max_acindex - index_c), w64 (index_c + w64 (max_acindex - index_c) - 1))
      else (length_c, end_index) in
    let buf := BufferList.of_string (ztake length_c (zdrop offset data)) in
    r' ← store r index_c length_c end_index buf;
    Ok (check_eof r').

Definition push_substring `{EndKey} (r : t) (data : bytes) (index : Z) (eof : bool)
  : result t :=
  if eofed r then Ok r else push_open (note_eof r data index eof) data index.

End StreamReassembler.
