(* ===== verification/ReassemblySpec.v ===== *)
(** * Correctness of the stream reassembler

    The invariant [inv P r w]: the reassembler [r] has written [w] so far, its
    stored segments are disjoint, not even adjacent, lie strictly between the
    next index and the end of the window, and every byte written or stored sits
    at an index where [P] allows it. [P] is arbitrary: with [P i b := f i = b]
    the invariant says that the output is a prefix of the stream [f]. *)

From S2P Require Import Prelude Buffers Stream Reassembly.
Import StreamReassembler.

Section Placed.
Context (P : Z → byte → Prop).

(** The bytes [l], laid out from index [i] on, are allowed by [P]. *)
Definition placed (i : Z) (l : bytes) : Prop :=
  ∀ k b, l !! k = Some b → P (i + Z.of_nat k) b.

Lemma placed_nil i : placed i [].
Proof. intros k b H. by rewrite lookup_nil in H. Qed.

Lemma placed_app i l m : placed i (l ++ m) ↔ placed i l ∧ placed (i + blen l) m.
Proof.
  unfold placed, blen. split.
  - intros H. split; intros k b Hk.
    + apply H. by apply lookup_app_l_Some.
    + replace (i + Z.of_nat (length l) + Z.of_nat k) with (i + Z.of_nat (length l + k)) by lia.
      apply H. rewrite lookup_app_r by lia. by replace (length l + k - length l)%nat with k by lia.
  - intros [Hl Hm] k b Hk. apply lookup_app_Some in Hk as [Hk|[Hge Hk]]; [by apply Hl|].
    replace (i + Z.of_nat k) with (i + Z.of_nat (length l) + Z.of_nat (k - length l)) by lia.
    by apply Hm.
Qed.

Lemma placed_ztake i n l : placed i l → placed i (ztake n l).
Proof. intros H. rewrite <- (ztake_zdrop n l) in H. by apply placed_app in H as [? _]. Qed.

Lemma placed_zdrop i n l : 0 <= n <= blen l → placed i l → placed (i + n) (zdrop n l).
Proof.
  intros Hn H. rewrite <- (ztake_zdrop n l) in H. apply placed_app in H as [_ H].
  rewrite blen_ztake in H by lia. by rewrite Z.min_l in H by lia.
Qed.

End Placed.

Definition seg_len (s : seg) : Z := seg_end s - seg_start s + 1.

Record seg_ok (P : Z → byte → Prop) (s : seg) : Prop := mk_seg_ok {
  so_buf : BufferList.ok (seg_buf s);
  so_nonneg : 0 <= seg_start s;
  so_len : blen (BufferList.concatenate (seg_buf s)) = seg_len s;
  so_end : seg_end s + 1 < 0x10000000000000000;
  so_placed : placed P (seg_start s) (BufferList.concatenate (seg_buf s));
}.

(** The segments start after [lo] and are pairwise separated by a gap. *)
Fixpoint chain (lo : Z) (m : list seg) : Prop :=
  match m with
  | [] => True
  | s :: rest => lo < seg_start s <= seg_end s ∧ chain (seg_end s + 1) rest
  end.

(** The first index after the last segment. *)
Definition chain_end (lo : Z) (m : list seg) : Z := foldl (λ _ s, seg_end s + 1) lo m.

Arguments chain_end : simpl never.

Definition covered (m : list seg) (i : Z) : Prop :=
  ∃ s, s ∈ m ∧ seg_start s <= i <= seg_end s.

(** The indices the reassembler holds: written, or stored for later. *)
Definition known (r : t) (i : Z) : Prop :=
  0 <= i < first_index r ∨ covered (unassembled r) i.

(** The first index the window does not reach. *)
Definition window_end (r : t) : Z :=
  ByteStream.read_count (output r) + ByteStream.capacity (output r).

Record core (P : Z → byte → Prop) (r : t) (w : bytes) : Prop := mk_core {
  inv_rep : ByteStream.rep (output r) w;
  inv_first : first_index r = blen w;
  inv_placed : placed P 0 w;
  inv_chain : chain (first_index r) (unassembled r);
  inv_segs : Forall (seg_ok P) (unassembled r);
  inv_window : Forall (λ s, seg_end s < window_end r) (unassembled r);
  inv_bytes : unassembled_bytes_ r = zsum seg_len (unassembled r);
}.

Record inv (P : Z → byte → Prop) (r : t) (w : bytes) : Prop := mk_inv {
  inv_core : core P r w;
  inv_eof : eofed r = eof_ r && (first_index r =? eof_index r);
  inv_ended : ByteStream.input_ended_flag (output r) = eofed r;
}.

(** ** Chains *)

Lemma chain_app lo a b : chain lo (a ++ b) ↔ chain lo a ∧ chain (chain_end lo a) b.
Proof.
  unfold chain_end. revert lo. induction a as [|s a IH]; intros lo; simpl; [tauto|].
  rewrite IH. tauto.
Qed.

Lemma chain_end_ge lo m : chain lo m → lo <= chain_end lo m.
Proof.
  unfold chain_end. revert lo. induction m as [|s m IH]; intros lo; simpl; [lia|].
  intros [? H]. apply IH in H. lia.
Qed.

Lemma chain_weaken lo lo' m : lo' <= lo → chain lo m → chain lo' m.
Proof. destruct m; simpl; [done|]. intros ? [? ?]. split; [lia|done]. Qed.

Lemma chain_sum lo hi m :
  chain lo m → Forall (λ s, seg_end s < hi) m → lo <= hi → 0 <= zsum seg_len m <= hi - lo.
Proof.
  revert lo. induction m as [|s m IH]; intros lo; simpl; [lia|].
  intros [? H] [? Hm]%Forall_cons ?. apply IH in H; [|done|lia]. unfold seg_len in *. lia.
Qed.

Lemma chain_no_room lo hi m :
  chain lo m → Forall (λ s, seg_end s < hi) m → hi <= lo → m = [].
Proof. destruct m as [|s m]; [done|]. intros [? _] [? _]%Forall_cons ?. lia. Qed.

Lemma chain_covered lo m i : chain lo m → covered m i → lo < i.
Proof.
  revert lo. induction m as [|s m IH]; intros lo; simpl.
  { intros _ (s & Hs & _). by apply elem_of_nil in Hs. }
  intros [? H] (s' & Hs & Hi).
  apply elem_of_cons in Hs as [->|Hs]; [lia|].
  enough (seg_end s + 1 < i) by lia. apply IH; [done|]. by exists s'.
Qed.

Lemma covered_app a b i : covered (a ++ b) i ↔ covered a i ∨ covered b i.
Proof. unfold covered. set_solver. Qed.

Lemma covered_cons s m i : covered (s :: m) i ↔ seg_start s <= i <= seg_end s ∨ covered m i.
Proof. unfold covered. set_solver. Qed.

Lemma covered_nil i : ¬ covered [] i.
Proof. intros (s & Hs & _). by apply elem_of_nil in Hs. Qed.

(** A chain of [n] segments needs at least [n] indices: what makes the key read
    at [end()] differ from the candidate's index in libstdc++. *)
Lemma chain_length lo m k :
  chain lo m → Forall (λ s, seg_start s < k) m → lo < k → blen m + lo < k.
Proof.
  revert lo. induction m as [|s m IH]; intros lo; simpl; [intros; change (blen (@nil seg)) with 0; lia|].
  intros [? H] [Hs Hm]%Forall_cons Hk. rewrite blen_cons.
  destruct m as [|s' m']; [change (blen (@nil seg)) with 0; lia|].
  assert (seg_end s + 1 < k).
  { destruct H as [? _]. apply Forall_cons in Hm as [? _]. lia. }
  pose proof (IH _ H Hm ltac:(lia)). lia.
Qed.

(** What the reassembler needs of the implementation-defined read. *)
Class EndKeyFresh `{EK : EndKey} : Prop :=
  end_key_fresh : ∀ lo m k,
    0 <= lo → chain lo m → Forall (λ s, seg_start s < k) m → m ≠ [] → end_key m ≠ k.

#[global] Instance libstdcxx_fresh : EndKeyFresh (EK := libstdcxx_end_key).
Proof.
  intros lo m k Hlo Hc Hm Hne. unfold end_key, libstdcxx_end_key.
  destruct m as [|s m]; [done|].
  assert (lo < k) by (destruct Hc as [? _]; apply Forall_cons in Hm as [? _]; lia).
  pose proof (chain_length lo _ k Hc Hm ltac:(lia)). lia.
Qed.

(** ** The steps of [push_substring] *)

Lemma seg_size P s :
  seg_ok P s → BufferList.size (seg_buf s) = seg_len s ∧ 0 <= seg_len s < 0x10000000000000000.
Proof.
  intros []. pose proof (blen_nonneg (BufferList.concatenate (seg_buf s))) as Hn.
  unfold seg_len in *. split; [|lia].
  rewrite buffer_list_size_spec; [done|]. unfold_w. lia.
Qed.

Lemma lower_bound_spec m k :
  let '(pre, suf) := lower_bound m k in
  m = pre ++ suf ∧ Forall (λ s, seg_start s < k) pre ∧
  match suf with [] => True | x :: _ => k <= seg_start x end.
Proof.
  induction m as [|s m IH]; simpl; [by repeat split; constructor|].
  destruct (Z.ltb_spec (seg_start s) k).
  - destruct (lower_bound m k) as [pre suf]. destruct IH as (-> & ? & ?).
    split_and!; [done|by constructor|done].
  - split_and!; [done|constructor|done].
Qed.

Section Steps.
Context (P : Z → byte → Prop).

(** Gluing the tail of a segment onto one that ends inside or just before it. *)
Lemma seg_ok_glue a st en buf n :
  seg_ok P a → seg_start a <= seg_end a + 1 →
  BufferList.ok buf → placed P st (BufferList.concatenate buf) →
  blen (BufferList.concatenate buf) = en - st + 1 →
  n = seg_end a - st + 1 → 0 <= n <= en - st + 1 → en + 1 < 0x10000000000000000 →
  ∃ b, BufferList.remove_prefix buf n = Ok b ∧ BufferList.size b = en - seg_end a ∧
       seg_ok P (mk_seg (seg_start a) en (BufferList.append (seg_buf a) b)).
Proof.
  intros Ha Hle Hok Hp Hlen Hn Hr Hen. pose proof (seg_size P a Ha) as [_ Hsz].
  destruct (buffer_list_remove_prefix_spec buf n) as (b & E & Hb & Hs); [done|lia|].
  assert (Hbl : blen (BufferList.concatenate b) = en - seg_end a).
  { rewrite Hs, blen_zdrop by lia. lia. }
  exists b. destruct Ha. unfold seg_len in *. split_and!; [done| |].
  { rewrite buffer_list_size_spec; [done|]. unfold_w. lia. }
  split; simpl; unfold seg_len; simpl; auto with sponge.
  - rewrite concatenate_app, blen_app, so_len0, Hbl. lia.
  - rewrite concatenate_app, placed_app, so_len0. split; [done|].
    rewrite Hs. replace (seg_start a + _) with (st + n) by lia.
    apply placed_zdrop; [lia|done].
Qed.

Lemma absorb_spec ins rest lo hi ub K :
  seg_ok P ins → Forall (seg_ok P) rest → chain lo rest → seg_start ins <= lo →
  seg_start ins <= seg_end ins + 1 → seg_end ins < hi → Forall (λ s, seg_end s < hi) rest →
  0 <= K → ub = K + seg_len ins + zsum seg_len rest → is_u64 ub →
  ∃ ins' rest' ub',
    absorb ins rest ub = Ok (ins', rest', ub') ∧
    seg_ok P ins' ∧ Forall (seg_ok P) rest' ∧ chain (seg_end ins' + 1) rest' ∧
    seg_start ins' = seg_start ins ∧ seg_end ins <= seg_end ins' < hi ∧
    Forall (λ s, seg_end s < hi) rest' ∧
    ub' = K + seg_len ins' + zsum seg_len rest' ∧ is_u64 ub' ∧
    (∀ i, covered (ins' :: rest') i ↔ covered (ins :: rest) i).
Proof.
  intros Hins Hrest. revert lo ub K.
  induction Hrest as [|it rest Hit Hrest IH]; intros lo ub K Hc Hlo Hle Hhi Hb HK Hub Hu; simpl in *.
  { eexists _, _, _. split; [done|]. split_and!; (done || lia || (by constructor)). }
  destruct Hc as [Hc1 Hc2]. apply Forall_cons in Hb as [Hb1 Hb2].
  pose proof (seg_size P ins Hins) as [_ Hs0]. pose proof (seg_size P it Hit) as [Hsz Hs1].
  assert (Hsum : 0 <= zsum seg_len rest).
  { apply (chain_sum (seg_end it + 1) hi); [done..|lia]. }
  destruct (Z.leb_spec (seg_end it) (seg_end ins)) as [Hcov|Hcov].
  - (* the node lies inside [ins] *)
    rewrite Hsz. rewrite w64_small by (unfold_w; lia).
    destruct (IH (seg_end it + 1) (ub - seg_len it) K) as (i' & r' & u' & E & H1 & H2 & H3 & H4 & H5 & H6 & H7 & H8 & H9);
      [done|lia..|done|lia|lia|unfold_w; lia|].
    exists i', r', u'. split_and!; try done; try lia.
    intros i. rewrite H9, !covered_cons. intuition lia.
  - rewrite (w64_small (seg_end ins + 1)) by (destruct Hins; unfold_w; lia).
    destruct (Z.leb_spec (seg_start it) (seg_end ins + 1)) as [Hadj|Hadj].
    + (* overlap or adjacency on the right *)
      rewrite (w64_small (seg_end ins - _ + 1)) by (unfold_w; unfold seg_len in *; lia).
      destruct (seg_ok_glue ins (seg_start it) (seg_end it) (seg_buf it) (seg_end ins - seg_start it + 1))
        as (b & -> & _ & Hok'); try (destruct Hit; unfold seg_len in *; (done || lia)).
      simpl. eexists _, _, _. split; [done|]. unfold seg_len in *. simpl.
      split_and!; try done; try lia.
      * rewrite w64_small by (unfold_w; lia). lia.
      * apply w64_range.
      * intros i. rewrite !covered_cons. simpl. intuition lia.
    + (* a gap on the right *)
      exists ins, (it :: rest), ub. simpl. split_and!; try done; try lia; by constructor.
Qed.

(** A candidate [[a, e]] with its bytes. *)
Record cand_ok (a e len : Z) (buf : BufferList.t) : Prop := mk_cand_ok {
  ca_nonneg : 0 <= a;
  ca_len : len = e - a + 1;
  ca_pos : 0 <= len;
  ca_end : e + 1 < 0x10000000000000000;
  ca_seg : seg_ok P (mk_seg a e buf);
}.

Lemma try_merge_spec pre it post a e len buf ub :
  cand_ok a e len buf → 0 < len → seg_ok P it → seg_start it <= seg_end it → seg_start it <= a →
  is_u64 (ub + len) → 0 <= ub →
  (try_merge pre it post a len e buf ub = Ok (Finish pre it post) ∧ e <= seg_end it) ∨
  (∃ it', try_merge pre it post a len e buf ub = Ok (Merged pre it' post (ub + (e - seg_end it))) ∧
     seg_ok P it' ∧ seg_start it' = seg_start it ∧ seg_end it' = e ∧ a <= seg_end it + 1 ∧
     seg_end it < e) ∨
  (try_merge pre it post a len e buf ub = Ok Apart ∧ seg_end it + 1 < a).
Proof.
  intros [] Hpos Hit Hne Hst Hu Hub. unfold try_merge.
  rewrite (w64_small (seg_end it + 1)) by (destruct Hit; unfold_w; lia).
  destruct (Z.leb_spec a (seg_end it + 1)) as [Hadj|Hgap]; [|right; right; split; [done|lia]].
  rewrite (w64_small (seg_end it - a + 1)) by (destruct Hit; unfold_w; lia).
  destruct (Z.leb_spec len (seg_end it - a + 1)) as [Hin|Hout]; [left; split; [done|lia]|].
  right; left.
  destruct (seg_ok_glue it a e buf (seg_end it - a + 1)) as (b & -> & Hsz & Hok');
    try (destruct ca_seg0; unfold seg_len in *; simpl in *; (done || lia)); try (done || lia).
  simpl. rewrite Hsz, w64_small by (unfold_w; lia).
  eexists. split; [done|]. split_and!; (done || simpl; lia).
Qed.

(** The state in which the loop over the following nodes starts. *)
Record ready (lo a e : Z) (m pre : list seg) (ins : seg) (post : list seg) (ub : Z) : Prop := mk_ready {
  rd_ins : seg_ok P ins;
  rd_end : seg_end ins = e;
  rd_start : lo <= seg_start ins <= a;
  rd_pre : chain lo pre;
  rd_gap : chain_end lo pre < seg_start ins ∨ pre = [];
  rd_post : chain (seg_start ins) post;
  rd_pre_ok : Forall (seg_ok P) pre;
  rd_post_ok : Forall (seg_ok P) post;
  rd_sub : ∀ s, s ∈ pre ++ post → s ∈ m;
  rd_ub : ub = zsum seg_len pre + seg_len ins + zsum seg_len post;
  rd_cov : ∀ i, covered (pre ++ ins :: post) i ↔ covered m i ∨ a <= i <= e;
}.

Lemma ready_merged lo a e it it' m pre post ub :
  m = pre ++ it :: post → chain lo m → Forall (seg_ok P) m → ub = zsum seg_len m →
  seg_ok P it' → seg_start it' = seg_start it → seg_end it' = e → seg_start it <= a →
  a <= seg_end it + 1 → seg_end it < e →
  ready lo a e m pre it' post (ub + (e - seg_end it)).
Proof.
  intros -> Hc Hok -> Hit' Hs He Hsa Ha Hlt.
  apply chain_app in Hc as [Hc1 Hc2]. simpl in Hc2. destruct Hc2 as [Hit Hc3].
  apply Forall_app in Hok as [Hok1 Hok2]. apply Forall_cons in Hok2 as [_ Hok3].
  pose proof (chain_end_ge lo pre Hc1).
  split; try done; try lia.
  - eapply chain_weaken; [|done]. lia.
  - intros s. rewrite !elem_of_app, elem_of_cons. tauto.
  - rewrite zsum_app. simpl. unfold seg_len in *. lia.
  - intros i. rewrite !covered_app, !covered_cons. intuition lia.
Qed.

(** Every node of [suf], if there is one, starts after [a]. *)
Definition starts_after (a : Z) (suf : list seg) : Prop :=
  match suf with [] => True | x :: _ => a < seg_start x end.

Lemma map_insert_apart a e buf m pre suf :
  lower_bound m a = (pre, suf) → starts_after a suf →
  map_insert m (mk_seg a e buf) = (pre, mk_seg a e buf, suf).
Proof.
  intros E Hs. unfold map_insert. cbn [seg_start]. rewrite E.
  destruct suf as [|x post]; [done|]. simpl in Hs.
  rewrite (proj2 (Z.eqb_neq _ _)) by lia. done.
Qed.

Lemma ready_apart lo a e len buf m pre suf ub :
  cand_ok a e len buf → m = pre ++ suf → chain lo m → Forall (seg_ok P) m → lo <= a →
  chain_end lo pre < a ∨ pre = [] →
  starts_after a suf → ub = zsum seg_len m →
  ready lo a e m pre (mk_seg a e buf) suf (ub + len).
Proof.
  intros [] -> Hc Hok Hlo Hgap Hsuf ->.
  apply chain_app in Hc as [Hc1 Hc2]. apply Forall_app in Hok as [Hok1 Hok2].
  split; try done; simpl; try lia.
  - destruct suf as [|x post]; [done|]. simpl in *. split; [lia|tauto].
  - rewrite zsum_app. change (seg_len (mk_seg a e buf)) with (e - a + 1). lia.
  - intros i. rewrite !covered_app, !covered_cons. simpl. tauto.
Qed.

Lemma last_snoc_inv {A} (l : list A) :
  match last l with Some x => l = removelast l ++ [x] | None => l = [] end.
Proof.
  destruct l as [|y l _] using rev_ind; [done|].
  by rewrite last_snoc, removelast_last.
Qed.

Lemma chain_snoc lo pre p suf :
  chain lo ((pre ++ [p]) ++ suf) →
  chain_end lo (pre ++ [p]) = seg_end p + 1 ∧ seg_start p <= seg_end p ∧ lo < seg_start p.
Proof.
  intros H. apply chain_app in H as [H _]. apply chain_app in H as [Hpre [Hp _]].
  pose proof (chain_end_ge lo pre Hpre). unfold chain_end in *. rewrite foldl_app. simpl in *. lia.
Qed.

(** Either an existing node already covers the candidate, or the code goes on
    with the loop over the following nodes from a [ready] state. *)
Definition outcome (r : t) (a e : Z) (x : result t) : Prop :=
  (∃ pre it post, x = Ok (flush r pre it post (unassembled_bytes_ r)) ∧
     unassembled r = pre ++ it :: post ∧ seg_start it <= a ∧ e <= seg_end it) ∨
  (∃ pre ins post ub,
     x = ('(i, rest, u) ← absorb ins post ub; Ok (flush r pre i rest u)) ∧
     ready (first_index r) a e (unassembled r) pre ins post ub).

(** What [store] needs of its arguments. *)
Record store_pre (r : t) (a e len : Z) (buf : BufferList.t) : Prop := mk_store_pre {
  sp_cand : cand_ok a e len buf;
  sp_first : 0 <= first_index r <= a;
  sp_chain : chain (first_index r) (unassembled r);
  sp_segs : Forall (seg_ok P) (unassembled r);
  sp_ub : unassembled_bytes_ r = zsum seg_len (unassembled r);
  sp_ub_u64 : is_u64 (unassembled_bytes_ r + len);
  sp_ub_nonneg : 0 <= unassembled_bytes_ r;
  sp_empty : len = 0 → unassembled r = [];
}.

Lemma resume_apart r a e len buf pre suf :
  store_pre r a e len buf → lower_bound (unassembled r) a = (pre, suf) →
  unassembled r = pre ++ suf → chain_end (first_index r) pre < a ∨ pre = [] →
  starts_after a suf →
  outcome r a e (resume r (mk_seg a e buf) Apart).
Proof.
  intros [] Elb Hm Hgap Hs. unfold resume. rewrite (map_insert_apart a e buf _ pre suf Elb Hs).
  destruct (seg_size P _ (ca_seg _ _ _ _ sp_cand0)) as [Hsz _].
  right. exists pre, (mk_seg a e buf), suf, (unassembled_bytes_ r + len). split.
  - rewrite Hsz, w64_small; change (seg_len (mk_seg a e buf)) with (e - a + 1);
      destruct sp_cand0; [by subst len|unfold_w; lia].
  - eapply ready_apart; eauto. lia.
Qed.

Lemma merge_outcome r a e len buf pre suf pre0 it post :
  store_pre r a e len buf → lower_bound (unassembled r) a = (pre, suf) →
  unassembled r = pre ++ suf → unassembled r = pre0 ++ it :: post → seg_start it <= a →
  (seg_end it + 1 < a → chain_end (first_index r) pre < a ∨ pre = []) →
  (seg_end it + 1 < a → starts_after a suf) →
  outcome r a e (try_merge pre0 it post a len e buf (unassembled_bytes_ r)
                 ≫= resume r (mk_seg a e buf)).
Proof.
  intros Hsp Elb Hm Em Hst Hgap1 Hgap2.
  pose proof (sp_segs _ _ _ _ _ Hsp) as Hok. pose proof (sp_chain _ _ _ _ _ Hsp) as Hc.
  assert (Hpos : 0 < len).
  { destruct (decide (len = 0)) as [E0|]; [|destruct Hsp, sp_cand0; lia].
    apply (sp_empty _ _ _ _ _ Hsp) in E0. rewrite E0 in Em. by destruct pre0. }
  rewrite Em in Hok, Hc. apply Forall_app in Hok as [_ [Hit _]%Forall_cons].
  apply chain_app in Hc as [_ [Hne _]].
  destruct (try_merge_spec pre0 it post a e len buf (unassembled_bytes_ r))
    as [[-> He] | [(it' & -> & Hit' & Es & Ee & Ha & Hlt) | [-> Hg]]];
    try (destruct Hsp; (done || lia)).
  - left. exists pre0, it, post. done.
  - right. eexists pre0, it', post, _. split; [done|].
    destruct Hsp. eapply ready_merged; eauto.
  - eapply resume_apart; eauto.
Qed.

Lemma store_outcome `{EndKeyFresh} r a e len buf :
  store_pre r a e len buf → outcome r a e (store r a len e buf).
Proof.
  intros Hsp. unfold store, place.
  pose proof (lower_bound_spec (unassembled r) a) as Hlb.
  destruct (lower_bound (unassembled r) a) as [pre suf] eqn:Elb.
  destruct Hlb as (Hm & Hpre & Hsuf).
  pose proof (last_snoc_inv pre) as Hlast.
  assert (Hp : ∀ p, last pre = Some p →
    unassembled r = removelast pre ++ p :: suf ∧ seg_start p <= a ∧
    chain_end (first_index r) pre = seg_end p + 1).
  { intros p Ep. rewrite Ep in Hlast. split_and!.
    - rewrite Hm, Hlast at 1. by rewrite <- app_assoc.
    - rewrite Hlast in Hpre. apply Forall_app in Hpre as [_ [? _]%Forall_cons]. lia.
    - rewrite Hlast. eapply (chain_snoc _ _ _ suf). rewrite <- Hlast, <- Hm. apply Hsp. }
  destruct suf as [|x post].
  - destruct (last pre) as [p|] eqn:Ep.
    + destruct (Hp p eq_refl) as (Em & Hst & He).
      rewrite (proj2 (Z.eqb_neq (end_key _) a)).
      * eapply merge_outcome; eauto. rewrite He. auto.
      * rewrite app_nil_r in Hm. eapply end_key_fresh; [|apply Hsp|by rewrite Hm|].
        { destruct Hsp; lia. }
        rewrite Em. by destruct (removelast pre).
    + simpl. eapply resume_apart; eauto.
  - destruct (Z.eqb_spec (seg_start x) a) as [E|E].
    + eapply merge_outcome; eauto; [lia| |];
        rewrite <- E; pose proof (sp_chain _ _ _ _ _ Hsp) as Hc; rewrite Hm in Hc;
        apply chain_app in Hc as [_ [? _]]; lia.
    + destruct (last pre) as [p|] eqn:Ep.
      * destruct (Hp p eq_refl) as (Em & Hst & He).
        eapply merge_outcome; eauto; [rewrite He; auto|simpl; lia].
      * simpl. eapply resume_apart; eauto. simpl. lia.
Qed.

(** What [flush] needs: a list of nodes that is a chain, up to the node [ins],
    which may start exactly at the next index. *)
Record flushable (r : t) (pre : list seg) (ins : seg) (post : list seg) (ub : Z) : Prop := mk_flushable {
  fl_ins : seg_ok P ins;
  fl_start : first_index r <= seg_start ins;
  fl_nonempty : seg_start ins <= seg_end ins ∨ seg_start ins = first_index r;
  fl_pre : chain (first_index r) pre;
  fl_gap : chain_end (first_index r) pre < seg_start ins ∨ pre = [];
  fl_post : chain (seg_end ins + 1) post;
  fl_segs : Forall (seg_ok P) (pre ++ post);
  fl_window : Forall (λ s, seg_end s < window_end r) (pre ++ ins :: post);
  fl_ub : ub = zsum seg_len pre + seg_len ins + zsum seg_len post;
}.

(** The fields a push leaves alone. *)
Record same_outer (r r' : t) : Prop := mk_same_outer {
  sm_window : window_end r' = window_end r;
  sm_cap : ByteStream.capacity (output r') = ByteStream.capacity (output r);
  sm_read : ByteStream.read_count (output r') = ByteStream.read_count (output r);
  sm_error : ByteStream.error_ (output r') = ByteStream.error_ (output r);
  sm_capacity : capacity r' = capacity r;
}.

Lemma flush_store r w pre ins post ub :
  core P r w → flushable r pre ins post ub → seg_start ins ≠ first_index r →
  core P (flush r pre ins post ub) w ∧
  (∀ i, known (flush r pre ins post ub) i ↔ 0 <= i < first_index r ∨ covered (pre ++ ins :: post) i).
Proof.
  intros [] [] Hne. unfold flush. rewrite (proj2 (Z.eqb_neq _ _)) by done.
  split; [|done]. split; simpl; try done.
  - apply chain_app. split; [done|]. simpl. split; [|done].
    destruct fl_gap0 as [?| ->]; [lia|]. unfold chain_end. simpl. lia.
  - apply Forall_app in fl_segs0 as [? ?]. apply Forall_app. split; [done|]. by constructor.
  - rewrite zsum_app. simpl. lia.
Qed.

Lemma flush_write r w pre ins post ub :
  core P r w → flushable r pre ins post ub → seg_start ins = first_index r →
  window_end r < 0x4000000000000000 →
  ∃ w', core P (flush r pre ins post ub) (w ++ w') ∧
  (∀ i, known (flush r pre ins post ub) i ↔ 0 <= i < first_index r ∨ covered (pre ++ ins :: post) i).
Proof.
  intros [] [] Heq Hwin. unfold flush. rewrite (proj2 (Z.eqb_eq _ _)) by done.
  assert (pre = []) as ->.
  { destruct fl_gap0 as [?|]; [|done]. pose proof (chain_end_ge _ _ fl_pre0). lia. }
  rewrite !app_nil_l in *. change (zsum seg_len []) with 0 in fl_ub0.
  apply Forall_cons in fl_window0 as [Hend Hpost].
  pose proof (seg_size P ins fl_ins0) as [Hsz Hsr].
  pose proof (so_len _ _ fl_ins0) as Hlen. pose proof (so_placed _ _ fl_ins0) as Hpl.
  pose proof (ByteStream.rep_read _ _ inv_rep0) as Hrd.
  set (d := BufferList.concatenate (seg_buf ins)) in *.
  unfold window_end, seg_len in *.
  destruct (ByteStream.write_spec (output r) w d) as (o' & -> & Hrep & Hn & Hcap & Hread & Herr & Hfl);
    [done|unfold_w; lia|].
  assert (Hall : Z.min (blen d) (ByteStream.capacity (output r) - (blen w - ByteStream.read_count (output r)))
                 = blen d) by lia.
  rewrite Hall, ztake_all in Hrep by done.
  pose proof (chain_sum (seg_end ins + 1) (ByteStream.read_count (output r) + ByteStream.capacity (output r)) post
                fl_post0 Hpost ltac:(lia)) as Hsum.
  assert (Hf : w64 (first_index r + BufferList.size (seg_buf ins)) = seg_end ins + 1).
  { rewrite w64_small by (unfold_w; lia). lia. }
  exists d. split.
  - split; unfold window_end; simpl; rewrite ?Hf, ?blen_app, ?Hcap, ?Hread; try done; try lia.
    + apply placed_app. split; [done|]. by replace (0 + blen w) with (seg_start ins) by lia.
    + rewrite w64_small by (unfold_w; unfold seg_len in *; lia). unfold seg_len in *. lia.
  - intros i. unfold known. simpl. rewrite Hf, covered_cons. pose proof (chain_covered _ _ i fl_post0).
    pose proof (so_nonneg _ _ fl_ins0). intuition lia.
Qed.

Lemma flush_outer r w pre ins post ub :
  core P r w → same_outer r (flush r pre ins post ub) ∧
  eof_ (flush r pre ins post ub) = eof_ r ∧ eof_index (flush r pre ins post ub) = eof_index r ∧
  eofed (flush r pre ins post ub) = eofed r ∧
  ByteStream.input_ended_flag (output (flush r pre ins post ub)) =
  ByteStream.input_ended_flag (output r).
Proof. intros _. unfold flush. destruct (_ =? _); [unfold ByteStream.write|]; simpl; done. Qed.

(** [flush] in both its branches. *)
Lemma flush_spec r w pre ins post ub :
  core P r w → flushable r pre ins post ub → window_end r < 0x4000000000000000 →
  ∃ w', core P (flush r pre ins post ub) (w ++ w') ∧
  (∀ i, known (flush r pre ins post ub) i ↔ 0 <= i < first_index r ∨ covered (pre ++ ins :: post) i).
Proof.
  intros Hc Hf Hw. destruct (decide (seg_start ins = first_index r)) as [E|E].
  - by apply flush_write.
  - exists []. rewrite app_nil_r. by apply flush_store.
Qed.

Lemma ready_sub lo a e m pre ins post ub hi :
  ready lo a e m pre ins post ub → Forall (λ s, seg_end s < hi) m →
  Forall (λ s, seg_end s < hi) pre ∧ Forall (λ s, seg_end s < hi) post.
Proof.
  intros [] Hm. apply Forall_app. rewrite Forall_forall in Hm |- *.
  intros s Hs. apply Hm. by apply rd_sub0.
Qed.

Lemma ready_ub lo a e m pre ins post ub hi :
  ready lo a e m pre ins post ub → Forall (λ s, seg_end s < hi) m →
  0 <= lo <= hi → e < hi < 0x4000000000000000 → is_u64 ub.
Proof.
  intros Hrd Hm Hlo He. destruct (ready_sub _ _ _ _ _ _ _ _ hi Hrd Hm) as [Hpre Hpost].
  destruct Hrd. pose proof (seg_size P ins rd_ins0) as [_ ?].
  pose proof (chain_sum lo hi pre rd_pre0 Hpre ltac:(lia)).
  pose proof (chain_sum (seg_start ins) hi post rd_post0 Hpost) as Hs2.
  unfold seg_len in *. unfold_w. lia.
Qed.

Lemma ready_flushable r w a e pre ins post ub :
  core P r w → window_end r < 0x4000000000000000 → e < window_end r →
  first_index r <= window_end r → a <= e + 1 → (a <= e ∨ a = first_index r) →
  is_u64 ub → ready (first_index r) a e (unassembled r) pre ins post ub →
  ∃ ins' rest ub', absorb ins post ub = Ok (ins', rest, ub') ∧ flushable r pre ins' rest ub' ∧
    (∀ i, covered (pre ++ ins' :: rest) i ↔ covered (unassembled r) i ∨ a <= i <= e).
Proof.
  intros Hcore Hw He Hfw Hae Hne Hub Hrd. destruct Hcore.
  destruct (ready_sub _ _ _ _ _ _ _ _ (window_end r) Hrd) as [Hwpre Hwpost]; [done|]. destruct Hrd.
  pose proof (chain_sum (first_index r) (window_end r) pre rd_pre0 Hwpre Hfw) as Hsum.
  destruct (absorb_spec ins post (seg_start ins) (window_end r) ub (zsum seg_len pre))
    as (ins' & rest & ub' & E & H1 & H2 & H3 & H4 & H5 & H6 & H7 & H8 & H9); try done; try lia.
  exists ins', rest, ub'. split; [done|]. split.
  - split; try done; try lia.
    + by rewrite H4.
    + apply Forall_app. done.
    + apply Forall_app. split; [done|]. constructor; [lia|done].
  - intros i. rewrite <- rd_cov0, !covered_app, H9. done.
Qed.

Lemma finish_flushable r w pre it post :
  core P r w → unassembled r = pre ++ it :: post →
  flushable r pre it post (unassembled_bytes_ r).
Proof.
  intros [] Em. rewrite Em in *.
  apply Forall_app in inv_segs0 as [Hpre [Hit Hpost]%Forall_cons].
  apply chain_app in inv_chain0 as [Hc1 [Hc2 Hc3]]. pose proof (chain_end_ge _ _ Hc1).
  split; try done; try lia.
  - apply Forall_app. done.
  - rewrite inv_bytes0, zsum_app. simpl. lia.
Qed.

Lemma store_spec `{EndKeyFresh} r w a e len buf :
  core P r w → window_end r < 0x4000000000000000 → cand_ok a e len buf →
  first_index r <= a → e < window_end r → (len = 0 → a = first_index r ∧ unassembled r = []) →
  ∃ r' w', store r a len e buf = Ok r' ∧ core P r' (w ++ w') ∧ same_outer r r' ∧
    eof_ r' = eof_ r ∧ eof_index r' = eof_index r ∧ eofed r' = eofed r ∧
    ByteStream.input_ended_flag (output r') = ByteStream.input_ended_flag (output r) ∧
    (∀ i, known r' i ↔ known r i ∨ a <= i <= e).
Proof.
  intros Hcore Hw Hca Hfa He Hz.
  assert (Hf0 : 0 <= first_index r <= window_end r).
  { destruct Hcore, inv_rep0. unfold window_end. lia. }
  pose proof (chain_sum (first_index r) (window_end r) (unassembled r)
    (inv_chain _ _ _ Hcore) (inv_window _ _ _ Hcore) ltac:(lia)) as Hsum.
  pose proof (inv_bytes _ _ _ Hcore) as Hbytes.
  assert (Hsp : store_pre r a e len buf).
  { destruct Hcore, Hca. split; try done; try lia.
    - rewrite inv_bytes0. unfold_w. lia.
    - intros E. by apply Hz. }
  assert (Hae : 0 <= len ∧ len = e - a + 1) by (by destruct Hca).
  destruct (store_outcome r a e len buf Hsp)
    as [(pre & it & post & -> & Em & Hst & Hend) | (pre & ins & post & ub & -> & Hrd)].
  - pose proof (finish_flushable r w pre it post Hcore Em) as Hfl.
    destruct (flush_spec r w pre it post _ Hcore Hfl Hw) as (w' & Hc' & Hk).
    eexists _, w'. split; [done|]. split; [done|].
    destruct (flush_outer r w pre it post (unassembled_bytes_ r) Hcore) as (? & ? & ? & ? & ?).
    split_and!; try done. intros i. rewrite Hk. unfold known.
    rewrite Em, covered_app, covered_cons. intuition lia.
  - destruct (ready_flushable r w a e pre ins post ub) as (ins' & rest & ub' & -> & Hfl & Hcov);
      try done; try lia.
    { apply (ready_ub _ _ _ _ _ _ _ _ (window_end r) Hrd); (lia || by destruct Hcore). }
    simpl. destruct (flush_spec r w pre ins' rest _ Hcore Hfl Hw) as (w' & Hc' & Hk).
    eexists _, w'. split; [done|]. split; [done|].
    destruct (flush_outer r w pre ins' rest ub' Hcore) as (? & ? & ? & ? & ?).
    split_and!; try done. intros i. rewrite Hk, Hcov. unfold known. tauto.
Qed.

Lemma cut_cand a e len buf data offset index :
  placed P index data → 0 <= index → a = index + offset → 0 <= offset →
  len = e - a + 1 → 0 <= len <= blen data - offset → e + 1 < 0x10000000000000000 →
  buf = BufferList.of_string (ztake len (zdrop offset data)) →
  cand_ok a e len buf.
Proof.
  intros Hp Hi -> Ho Hl Hlen He ->. pose proof (blen_nonneg data).
  assert (Hbl : blen (ztake len (zdrop offset data)) = len).
  { rewrite blen_ztake, blen_zdrop by lia. lia. }
  split; try done; try lia. split; cbn [seg_buf seg_start seg_end]; try lia.
  - apply buffer_list_of_string_ok. rewrite Hbl. unfold_w. lia.
  - rewrite concatenate_of_string, Hbl. unfold seg_len. simpl. lia.
  - rewrite concatenate_of_string. apply placed_ztake. apply placed_zdrop; [lia|done].
Qed.

Lemma core_remaining r w :
  core P r w → window_end r < 0x4000000000000000 →
  0 <= first_index r <= window_end r ∧
  w64 (first_index r + ByteStream.remaining_capacity (output r)) = window_end r.
Proof.
  intros [] Hw. rewrite (ByteStream.rep_remaining _ w) by done.
  destruct inv_rep0. unfold window_end in *. split; [lia|]. rewrite w64_small by (unfold_w; lia). lia.
Qed.

Lemma check_eof_inv r w :
  core P r w → eofed r = false → ByteStream.input_ended_flag (output r) = false →
  inv P (check_eof r) w ∧ (∀ i, known (check_eof r) i ↔ known r i) ∧ same_outer r (check_eof r) ∧
  eof_ (check_eof r) = eof_ r ∧ eof_index (check_eof r) = eof_index r ∧
  first_index (check_eof r) = first_index r.
Proof.
  intros Hc He Hf. unfold check_eof.
  destruct (eof_ r && (first_index r =? eof_index r)) eqn:E.
  - split_and!; try done. split; simpl; try done.
    destruct Hc. split; try done. by apply ByteStream.rep_end_input.
  - split_and!; try done. split; [done| |congruence]. congruence.
Qed.

Lemma note_eof_core r w data index eof :
  core P r w →
  core P (note_eof r data index eof) w ∧ same_outer r (note_eof r data index eof) ∧
  (∀ i, known (note_eof r data index eof) i ↔ known r i) ∧
  eofed (note_eof r data index eof) = eofed r ∧
  output (note_eof r data index eof) = output r ∧
  first_index (note_eof r data index eof) = first_index r.
Proof.
  intros Hc. unfold note_eof. destruct (_ && _); split_and!; try done.
  destruct Hc. by split.
Qed.

(** The candidate [push_open] cuts out of the data. *)
Lemma push_open_cand `{EndKey} r w data index :
  core P r w → window_end r < 0x4000000000000000 → 0 <= index → is_u64 (index + blen data) →
  0 < blen data → first_index r <= index + blen data - 1 → index < window_end r →
  let a := Z.max index (first_index r) in
  let e := Z.min (index + blen data - 1) (window_end r - 1) in
  push_open r data index =
    (r' ← store r a (e - a + 1) e
            (BufferList.of_string (ztake (e - a + 1) (zdrop (a - index) data)));
     Ok (check_eof r')).
Proof.
  intros Hc Hw Hi Hu Hd Hend Hlt a e. unfold push_open.
  destruct (core_remaining r w Hc Hw) as [Hf ->].
  rewrite (w64_small (index + blen data - 1)) by (unfold_w; lia).
  rewrite (proj2 (Z.ltb_ge _ _)), (proj2 (Z.leb_gt _ _)), (proj2 (Z.eqb_neq _ _)) by lia.
  cbn [orb].
  assert (Hcut : (if index <? first_index r
    then (first_index r, first_index r - index, w64 (blen data - (first_index r - index)))
    else (index, 0, blen data)) = (a, a - index, blen data - (a - index))).
  { subst a. destruct (Z.ltb_spec index (first_index r)).
    - rewrite Z.max_r, w64_small by (unfold_w; lia). done.
    - rewrite Z.max_l by lia. f_equal; [f_equal|]; lia. }
  rewrite Hcut. rewrite (w64_small (a + _)) by (unfold_w; lia).
  assert (Htrim : (if window_end r <? a + (blen data - (a - index))
    then (w64 (window_end r - a), w64 (a + w64 (window_end r - a) - 1))
    else (blen data - (a - index), index + blen data - 1)) = (e - a + 1, e)).
  { subst e. destruct (Z.ltb_spec (window_end r) (a + (blen data - (a - index)))).
    - rewrite (w64_small (window_end r - a)) by (unfold_w; lia).
      rewrite w64_small by (unfold_w; lia). f_equal; lia.
    - f_equal; lia. }
  rewrite Htrim. done.
Qed.

Lemma push_open_spec `{EndKeyFresh} r w data index :
  core P r w → eofed r = false → ByteStream.input_ended_flag (output r) = false →
  placed P index data → 0 <= index → is_u64 (index + blen data) →
  window_end r < 0x4000000000000000 →
  ∃ r' w', push_open r data index = Ok r' ∧ inv P r' (w ++ w') ∧ same_outer r r' ∧
    (∀ i, known r' i ↔ known r i ∨ (index <= i < index + blen data ∧ i < window_end r)) ∧
    eof_ r' = eof_ r ∧ eof_index r' = eof_index r.
Proof.
  intros Hc Hed Hended Hp Hi Hu Hw. pose proof (blen_nonneg data) as Hd.
  destruct (core_remaining r w Hc Hw) as [Hf Hmax].
  destruct (decide (0 < blen data ∧ first_index r <= index + blen data - 1 ∧ index < window_end r))
    as [(Hpos & Hend & Hlt)|Hexit].
  - (* a candidate inside the window *)
    rewrite (push_open_cand r w) by done.
    set (a := Z.max index (first_index r)).
    set (e := Z.min (index + blen data - 1) (window_end r - 1)).
    destruct (store_spec r w a e (e - a + 1) _ Hc Hw
      (cut_cand a e (e - a + 1) _ data (a - index) index Hp Hi ltac:(lia) ltac:(lia) eq_refl
         ltac:(lia) ltac:(lia) eq_refl))
      as (r2 & w' & -> & Hc2 & Hso2 & He2 & Hei2 & Hed2 & Hin2 & Hk2); [lia|lia| |].
    { intros E. split; [lia|]. apply (chain_no_room (first_index r) (window_end r)); [apply Hc..|lia]. }
    destruct (check_eof_inv r2 (w ++ w') Hc2 ltac:(congruence) ltac:(congruence))
      as (Hinv & Hk & Hso' & ? & ? & Hfi').
    exists (check_eof r2), w'. split_and!; try done; try congruence.
    + destruct Hso2, Hso'. split; congruence.
    + intros i. rewrite Hk, Hk2. unfold known. intuition lia.
  - (* nothing to store *)
    unfold push_open. rewrite Hmax.
    destruct (check_eof_inv r w Hc Hed Hended) as (Hinv & Hk & Hso' & ? & ? & Hfi').
    exists (check_eof r), []. rewrite app_nil_r. split.
    + destruct (_ || _) eqn:Eexit; [done|]. bool_to_prop.
      rewrite w64_small in * by (unfold_w; lia). lia.
    + split_and!; try done. intros i. rewrite Hk. unfold known. intuition lia.
Qed.

Lemma push_spec `{EndKeyFresh} r w data index eof :
  inv P r w → placed P index data → 0 <= index → is_u64 (index + blen data) →
  window_end r < 0x4000000000000000 →
  ∃ r' w', push_substring r data index eof = Ok r' ∧ inv P r' (w ++ w') ∧ same_outer r r' ∧
    (∀ i, known r' i ↔
       known r i ∨ (eofed r = false ∧ index <= i < index + blen data ∧ i < window_end r)) ∧
    (eofed r = false → eof_ r' = eof_ (note_eof r data index eof) ∧
                       eof_index r' = eof_index (note_eof r data index eof)) ∧
    (eofed r = true → r' = r).
Proof.
  intros Hinv0 Hp Hi Hu Hw. pose proof Hinv0 as [Hcore Heof Hended]. unfold push_substring.
  destruct (eofed r) eqn:Eed.
  { exists r, []. rewrite app_nil_r. split_and!; try done. intros i. split; [by left|].
    by intros [?|[? _]]. }
  destruct (note_eof_core r w data index eof Hcore) as (Hc & Hso & Hkn & Hed & Hout & Hfi).
  destruct (push_open_spec (note_eof r data index eof) w data index)
    as (r' & w' & E & Hinv & Hso' & Hk & He & Hei); try done; try congruence.
  { by rewrite (sm_window _ _ Hso). }
  exists r', w'. split_and!; try done.
  - destruct Hso, Hso'. split; congruence.
  - intros i. rewrite Hk, Hkn, (sm_window _ _ Hso). tauto.
Qed.
End Steps.

(** ** Consequences of the invariant *)

Lemma inv_new P cap : is_u64 cap → inv P (new cap) [].
Proof.
  intros H. split; [|done..].
  split; simpl; [by apply ByteStream.rep_new|done|apply placed_nil|done|constructor|constructor|done].
Qed.

(** The first index is the least one the reassembler does not hold. *)
Lemma core_frontier P r w i :
  core P r w → 0 <= i → (i < first_index r ↔ ∀ j, 0 <= j <= i → known r j).
Proof.
  intros [] Hi. split.
  - intros Hlt j Hj. left. lia.
  - intros Hall. destruct (decide (i < first_index r)) as [|Hge]; [done|].
    destruct (Hall (first_index r)) as [?|Hcov]; [|lia|].
    { rewrite inv_first0. pose proof (blen_nonneg w). lia. }
    apply chain_covered with (lo := first_index r) in Hcov; [lia|done].
Qed.

Lemma inv_capacity P r w :
  inv P r w →
  ByteStream.buffer_size (output r) + unassembled_bytes r <= ByteStream.capacity (output r).
Proof.
  intros [[]]. unfold ByteStream.buffer_size, unassembled_bytes.
  rewrite (ByteStream.rep_size _ w) by done.
  pose proof (chain_sum (first_index r) (window_end r) (unassembled r)) as Hs.
  destruct inv_rep0. unfold window_end in *. rewrite inv_bytes0. destruct Hs; [done..|lia|lia].
Qed.

(** Consuming the output keeps the invariant and moves the window. *)
Lemma pop_inv P r w len :
  inv P r w → 0 <= len →
  ∃ o, ByteStream.pop_output (output r) len = Ok o ∧ inv P (with_output r o) w ∧
       (∀ i, known (with_output r o) i ↔ known r i) ∧
       ByteStream.capacity o = ByteStream.capacity (output r).
Proof.
  intros [[] He Hf] Hl.
  destruct (ByteStream.pop_output_spec (output r) w len) as (o & E & Hrep & Hrd & Hcap & Her & Hfl);
    [done..|].
  exists o. split_and!; try done. split; simpl; [|done|congruence].
  split; simpl; try done. eapply Forall_impl; [done|]. simpl. unfold window_end. simpl.
  intros s Hs. rewrite Hcap, Hrd. destruct inv_rep0. lia.
Qed.

(** ** Runs of a reassembler with its reader *)

Inductive op :=
  | Push (data : bytes) (index : Z) (eof : bool)
  | Pop (len : Z).

Definition step `{EndKey} (o : op) (r : t) : result t :=
  match o with
  | Push data index eof => push_substring r data index eof
  | Pop len => o ← ByteStream.pop_output (output r) len; Ok (with_output r o)
  end.

Fixpoint run `{EndKey} (os : list op) (r : t) : result t :=
  match os with
  | [] => Ok r
  | o :: os' => r' ← step o r; run os' r'
  end.

(** The substrings are excerpts of the stream [f], which has fewer than [n]
    bytes. *)
Definition op_ok (f : Z → byte) (n : Z) (o : op) : Prop :=
  match o with
  | Push data index _ => 0 <= index ∧ index + blen data <= n ∧ data = slice f index (blen data)
  | Pop len => 0 <= len
  end.

(** [b] is the byte of [f] at [i]. *)
Definition at_stream (f : Z → byte) (i : Z) (b : byte) : Prop := f i = b.

Lemma placed_slice f i l : placed (at_stream f) i l ↔ l = slice f i (blen l).
Proof.
  unfold placed, at_stream, slice. split.
  - intros H. apply list_eq. intros k. rewrite list_lookup_fmap.
    destruct (l !! k) as [b|] eqn:E.
    + pose proof (lookup_lt_Some _ _ _ E). rewrite lookup_seqZ_lt by (unfold blen; lia).
      simpl. f_equal. symmetry. by apply H.
    + apply lookup_ge_None in E. rewrite lookup_seqZ_ge by (unfold blen; lia). done.
  - intros -> k b Hk. rewrite list_lookup_fmap in Hk.
    destruct (seqZ _ _ !! k) eqn:E; simplify_eq/=. apply lookup_seqZ in E. by destruct E as [-> _].
Qed.

Lemma core_first_le P r w n :
  core P r w → 0 <= n → (∀ i, known r i → i < n) → first_index r <= n.
Proof.
  intros [] Hn Hk. pose proof (blen_nonneg w).
  destruct (decide (first_index r = 0)) as [|Hne]; [lia|].
  assert (first_index r - 1 < n); [|lia]. apply Hk. left. lia.
Qed.

Lemma step_inv `{EndKeyFresh} f n o r w :
  inv (at_stream f) r w → op_ok f n o → 0 <= n → (∀ i, known r i → i < n) →
  n + ByteStream.capacity (output r) < 0x4000000000000000 →
  ∃ r' w', step o r = Ok r' ∧ inv (at_stream f) r' (w ++ w') ∧ (∀ i, known r' i → i < n) ∧
           ByteStream.capacity (output r') = ByteStream.capacity (output r).
Proof.
  intros Hinv Ho Hn0 Hn Hb. destruct o as [data index eof|len]; cbn [step op_ok] in *.
  - destruct Ho as (Hi & Hlen & Hd).
    pose proof (core_first_le _ r w n (inv_core _ _ _ Hinv) Hn0 Hn) as Hf.
    destruct (push_spec (at_stream f) r w data index eof) as (r' & w' & E & Hinv' & Hso & Hk & _);
      [done|by apply placed_slice|done| | |].
    + pose proof (blen_nonneg data). destruct Hinv as [[[]]]. unfold_w. lia.
    + destruct Hinv as [[[]]]. unfold window_end. lia.
    + exists r', w'. split_and!; try done; [|by destruct Hso].
      intros i. rewrite Hk. intros [?|(_ & ? & _)]; [by apply Hn|lia].
  - destruct (pop_inv _ r w len Hinv Ho) as (o & -> & Hinv' & Hk & Hcap).
    eexists _, []. split; [done|]. rewrite app_nil_r. split_and!; done.
Qed.

Lemma run_inv `{EndKeyFresh} f n os r w :
  inv (at_stream f) r w → Forall (op_ok f n) os → 0 <= n → (∀ i, known r i → i < n) →
  n + ByteStream.capacity (output r) < 0x4000000000000000 →
  ∃ r' w', run os r = Ok r' ∧ inv (at_stream f) r' (w ++ w').
Proof.
  revert r w. induction os as [|o os IH]; intros r w Hinv Hok Hn0 Hn Hb.
  { exists r, []. by rewrite app_nil_r. }
  apply Forall_cons in Hok as [Ho Hok]. cbn [run].
  destruct (step_inv f n o r w Hinv Ho Hn0 Hn Hb) as (r1 & w1 & -> & Hinv1 & Hn1 & Hc1).
  destruct (IH r1 (w ++ w1)) as (r' & w' & E & Hinv'); try done; [by rewrite Hc1|].
  exists r', (w1 ++ w'). simpl. rewrite app_assoc. done.
Qed.

(** C6. pushing an excerpt never throws, and afterwards the reassembler holds
    exactly the indices it held before plus those of the excerpt that lie inside
    the window; it has written out precisely the longest gap-free prefix of what
    it holds, and the stream is ended exactly when that prefix reaches the
    announced end. This holds whatever byte the implementation reads at
    [end()], provided it is not the candidate's index. *)
Theorem push_substring_complete `{EndKeyFresh} P r w data index eof :
  inv P r w → placed P index data → 0 <= index → is_u64 (index + blen data) →
  window_end r < 0x4000000000000000 →
  ∃ r' w',
    push_substring r data index eof = Ok r' ∧ inv P r' (w ++ w') ∧
    (∀ i, known r' i ↔
       known r i ∨ (eofed r = false ∧ index <= i < index + blen data ∧ i < window_end r)) ∧
    (∀ i, 0 <= i → (i < first_unassembled r' ↔ ∀ j, 0 <= j <= i → known r' j)) ∧
    ByteStream.input_ended (stream_out r') =
      eof_ r' && (first_unassembled r' =? eof_index r').
Proof.
  intros Hinv Hp Hi Hu Hw.
  destruct (push_spec P r w data index eof) as (r' & w' & E & Hinv' & _ & Hk & _); [done..|].
  exists r', w'. split_and!; [done..| |].
  - intros i Hi'. eapply core_frontier; [apply Hinv'|done].
  - destruct Hinv' as [_ He Hf]. etransitivity; [exact Hf|exact He].
Qed.

Lemma push_substring_complete_witness :
  ∃ r', push_substring (new 8) [Byte.x63; Byte.x64] 2 true = Ok r' ∧
        first_unassembled r' = 0 ∧ known r' 3 ∧ unassembled_bytes r' = 2.
Proof.
  destruct (push_substring_complete (λ _ _, True) (new 8) [] [Byte.x63; Byte.x64] 2 true)
    as (r' & w' & E & _ & Hk & _).
  - apply inv_new. range_compute.
  - done.
  - lia.
  - range_compute.
  - vm_compute. done.
  - exists r'. split; [exact E|]. split_and!.
    + vm_compute in E. injection E as <-. reflexivity.
    + apply Hk. right. split_and!; vm_compute; congruence.
    + vm_compute in E. injection E as <-. reflexivity.
Defined.

(** C7. whatever order excerpts of a stream arrive in, however they overlap and
    repeat, and however the reader consumes the output in between, no call
    throws and what the reassembler has written is always a prefix of that
    stream, of length [first_unassembled]. *)
Theorem reassembler_output_is_prefix `{EndKeyFresh} f n cap os :
  0 <= n → 0 <= cap → n + cap < 0x4000000000000000 → Forall (op_ok f n) os →
  ∃ r, run os (new cap) = Ok r ∧
       ByteStream.rep (stream_out r) (slice f 0 (first_unassembled r)) ∧
       ByteStream.contents (stream_out r) =
         slice f (ByteStream.bytes_read (stream_out r))
                 (first_unassembled r - ByteStream.bytes_read (stream_out r)).
Proof.
  intros Hn Hc Hb Hok.
  destruct (run_inv f n os (new cap) []) as (r & w & E & Hinv); try done.
  - apply inv_new. unfold_w. lia.
  - intros i [?|Hcov]; simpl in *; [lia|by apply covered_nil in Hcov].
  - exists r. split; [done|]. simpl in Hinv. destruct Hinv as [[] _ _].
    apply placed_slice in inv_placed0. unfold first_unassembled, stream_out.
    rewrite inv_first0, <- inv_placed0. split; [done|].
    rewrite (ByteStream.rep_contents _ _ inv_rep0). rewrite inv_placed0 at 1.
    destruct inv_rep0. unfold ByteStream.bytes_read.
    rewrite zdrop_slice by lia. done.
Qed.

Definition alphabet (i : Z) : byte := z2b (0x61 + i mod 26).

Lemma reassembler_output_is_prefix_witness :
  ∃ r, run [Push (slice alphabet 4 3) 4 true; Push (slice alphabet 1 2) 1 false;
            Push (slice alphabet 2 4) 2 false; Push (slice alphabet 0 3) 0 false; Pop 2] (new 10)
         = Ok r ∧
       ByteStream.contents (stream_out r) = slice alphabet 2 5.
Proof.
  destruct (reassembler_output_is_prefix alphabet 7 10
    [Push (slice alphabet 4 3) 4 true; Push (slice alphabet 1 2) 1 false;
     Push (slice alphabet 2 4) 2 false; Push (slice alphabet 0 3) 0 false; Pop 2])
    as (r & E & _ & Hc); [lia|lia|lia| |].
  - repeat (apply Forall_cons; split; [vm_compute; repeat split; congruence|]).
    apply Forall_nil. exact I.
  - exists r. split; [exact E|]. vm_compute in E. injection E as <-. rewrite Hc. reflexivity.
Defined.

(** the bytes waiting in the output and the bytes stored for reassembly
    together never exceed the capacity, and [unassembled_bytes] counts every
    stored index once. *)
Theorem reassembler_within_capacity `{EndKeyFresh} P r w data index eof r' :
  inv P r w → placed P index data → 0 <= index → is_u64 (index + blen data) →
  window_end r < 0x4000000000000000 → push_substring r data index eof = Ok r' →
  ByteStream.buffer_size (stream_out r') + unassembled_bytes r'
    <= ByteStream.capacity (stream_out r) ∧
  unassembled_bytes r' = zsum seg_len (unassembled r') ∧
  chain (first_unassembled r') (unassembled r').
Proof.
  intros Hinv Hp Hi Hu Hw E.
  destruct (push_spec P r w data index eof) as (r1 & w' & E1 & Hinv' & Hso & _); [done..|].
  rewrite E in E1. injection E1 as <-. split_and!.
  - pose proof (inv_capacity _ _ _ Hinv') as Hc. by rewrite (sm_cap _ _ Hso) in Hc.
  - apply Hinv'.
  - apply Hinv'.
Qed.

Lemma reassembler_within_capacity_witness :
  ∃ r', push_substring (new 3) [Byte.x62; Byte.x63; Byte.x64; Byte.x65] 1 false = Ok r' ∧
        unassembled_bytes r' = 2 ∧
        ByteStream.buffer_size (stream_out r') + unassembled_bytes r' <= 3.
Proof.
  eexists. split; [vm_compute; reflexivity|]. split; [reflexivity|].
  eapply (reassembler_within_capacity (λ _ _, True) (new 3) []
            [Byte.x62; Byte.x63; Byte.x64; Byte.x65] 1 false).
  - apply inv_new. range_compute.
  - done.
  - lia.
  - range_compute.
  - vm_compute. done.
  - vm_compute. reflexivity.
Defined.
