(* ===== verification/Parsing.v ===== *)
(** * Reading and writing network integers: util/parser.hh and util/parser.cc

    [NetParser] is a state monad over the remaining buffer and the sticky error;
    [NetUnparser] appends big-endian integers to a string. *)

From S2P Require Import Prelude Buffers.

Inductive ParseResult :=
  | NoError
  | BadChecksum
  | PacketTooShort
  | WrongIPVersion
  | HeaderTooShort
  | TruncatedPacket
  | Unsupported.

#[export] Instance ParseResult_eq_decision : EqDecision ParseResult.
Proof. solve_decision. Defined.

(** [static_cast<size_t>(r)]. *)
Definition ParseResult_index (r : ParseResult) : nat :=
  match r with
  | NoError => 0
  | BadChecksum => 1
  | PacketTooShort => 2
  | WrongIPVersion => 3
  | HeaderTooShort => 4
  | TruncatedPacket => 5
  | Unsupported => 6
  end.

(** [as_string] indexes a table of six names; an index past its end is
    undefined. *)
Definition as_string (r : ParseResult) : result string :=
  match ["NoError"; "BadChecksum"; "PacketTooShort"; "WrongIPVersion"; "HeaderTooShort";
         "TruncatedPacket"]%string !! ParseResult_index r with
  | Some s => Ok s
  | None => Err (undefined_behaviour "as_string: index past the end of _names")
  end.

Module NetParser.

Record t := mk {
  buffer : Buffer.t;           (* _buffer *)
  error_ : ParseResult;        (* _error *)
}.

Definition new (b : Buffer.t) : t := mk b NoError.

Definition get_error (p : t) : ParseResult := error_ p.

Definition set_error (p : t) (r : ParseResult) : t := mk (buffer p) r.

Definition error (p : t) : bool := negb (bool_decide (error_ p = NoError)).

Definition check_size (p : t) (size : Z) : t :=
  if Buffer.size (buffer p) <? size then set_error p PacketTooShort else p.

(** The loop of [_parse_int] in an integer type of [len] bytes. *)
Fixpoint parse_loop (len : nat) (b : Buffer.t) (i : nat) (n : nat) (ret : Z) : result Z :=
  match n with
  | O => Ok ret
  | S n' =>
      c ← Buffer.at_ b (Z.of_nat i);
      let ret := (Z.shiftl ret 8) mod 2 ^ (8 * Z.of_nat len) in
      parse_loop len b (S i) n' ((ret + b2z c) mod 2 ^ (8 * Z.of_nat len))
  end.

Definition parse_int (len : nat) (p0 : t) : result (Z * t) :=
  let p := check_size p0 (Z.of_nat len) in
  if error p then Ok (0, p)
  else
    ret ← parse_loop len (buffer p) 0 len 0;
    b ← Buffer.remove_prefix (buffer p) (Z.of_nat len);
    Ok (ret, mk b (error_ p)).

Definition remove_prefix (n : Z) (p0 : t) : result (unit * t) :=
  let p := check_size p0 n in
  if error p then Ok (tt, p)
  else
    b ← Buffer.remove_prefix (buffer p) n;
    Ok (tt, mk b (error_ p)).

(** Computations that consume a [NetParser]. *)
Definition M (A : Type) : Type := t → result (A * t).

#[global] Instance M_ret : MRet M := λ A a p, Ok (a, p).
#[global] Instance M_bind : MBind M :=
  λ A B f m p, match m p with Ok (a, p') => f a p' | Err e => Err e end.

Definition u32 : M Z := parse_int 4.

Definition u16 : M Z := parse_int 2.

Definition u8 : M Z := parse_int 1.

Definition skip (n : Z) : M unit := remove_prefix n.

(** The buffer left to read, [p.buffer()]. *)
Definition rest : M Buffer.t := λ p, Ok (buffer p, p).

Definition error_state : M ParseResult := λ p, Ok (get_error p, p).

(** [for (auto &byte : array) byte = p.u8();] over an array of [n] bytes. *)
Fixpoint u8_array (n : nat) : M bytes :=
  match n with
  | O => mret []
  | S n' => b ← u8; l ← u8_array n'; mret (z2b b :: l)
  end.

End NetParser.

Module NetUnparser.

(** The bytes [_unparse_int] pushes, most significant first. *)
Definition unparse_bytes (len : nat) (val : Z) : bytes :=
  (λ i, z2b (Z.land (Z.shiftr val ((Z.of_nat len - Z.of_nat i - 1) * 8)) 0xff)) <$> seq 0 len.

Definition unparse_int (len : nat) (s : bytes) (val : Z) : bytes := s ++ unparse_bytes len val.

Definition u32 (s : bytes) (val : Z) : bytes := unparse_int 4 s val.

Definition u16 (s : bytes) (val : Z) : bytes := unparse_int 2 s val.

Definition u8 (s : bytes) (val : Z) : bytes := unparse_int 1 s val.

End NetUnparser.

(** ** Big-endian integers *)

Definition be_val (l : bytes) : Z := foldl (λ acc b, acc * 0x100 + b2z b) 0 l.

Lemma be_val_foldl acc l :
  foldl (λ acc b, acc * 0x100 + b2z b) acc l = acc * 0x100 ^ blen l + be_val l.
Proof.
  unfold be_val. revert acc. induction l as [|b l IH]; intros acc.
  { simpl. change (blen (@nil byte)) with 0. lia. }
  cbn [foldl]. rewrite IH, (IH (0 * 0x100 + b2z b)), blen_cons, Z.pow_add_r by auto with sponge lia. lia.
Qed.

Lemma be_val_cons b l : be_val (b :: l) = b2z b * 0x100 ^ blen l + be_val l.
Proof. unfold be_val at 1. simpl. apply be_val_foldl. Qed.

Lemma be_val_range l : 0 <= be_val l < 0x100 ^ blen l.
Proof.
  induction l as [|b l IH]; [done|].
  rewrite be_val_cons, blen_cons, Z.pow_add_r by auto with sponge lia.
  pose proof (b2z_range b). unfold_w. nia.
Qed.

Lemma unparse_bytes_S n val :
  NetUnparser.unparse_bytes (S n) val =
  z2b (Z.shiftr val (8 * Z.of_nat n)) :: NetUnparser.unparse_bytes n val.
Proof.
  unfold NetUnparser.unparse_bytes. cbn [seq]. rewrite fmap_cons. f_equal.
  - replace ((Z.of_nat (S n) - Z.of_nat 0 - 1) * 8) with (8 * Z.of_nat n) by lia.
    unfold z2b. do 3 f_equal. change 0xff with (Z.ones 8). rewrite Z.land_ones by lia.
    change (2 ^ 8) with 0x100. unfold w8. apply Zmod_mod.
  - rewrite <- fmap_S_seq, <- list_fmap_compose. apply list_fmap_ext. intros i x _. simpl.
    do 3 f_equal. lia.
Qed.

Lemma blen_unparse n val : blen (NetUnparser.unparse_bytes n val) = Z.of_nat n.
Proof. unfold blen, NetUnparser.unparse_bytes. by rewrite length_fmap, length_seq. Qed.

Lemma be_val_unparse n val :
  be_val (NetUnparser.unparse_bytes n val) = val mod 2 ^ (8 * Z.of_nat n).
Proof.
  induction n as [|n IH]; [by rewrite Z.mod_1_r|].
  rewrite unparse_bytes_S, be_val_cons, blen_unparse, IH, b2z_z2b.
  rewrite Z.shiftr_div_pow2 by lia. unfold w8.
  replace (0x100 ^ Z.of_nat n) with (2 ^ (8 * Z.of_nat n)) by (by rewrite Z.pow_mul_r by lia).
  replace (2 ^ (8 * Z.of_nat (S n))) with (2 ^ (8 * Z.of_nat n) * 0x100).
  2:{ rewrite Nat2Z.inj_succ. replace (8 * Z.succ (Z.of_nat n)) with (8 * Z.of_nat n + 8) by lia.
      rewrite Z.pow_add_r by lia. done. }
  rewrite Z.rem_mul_r by (try lia; apply Z.pow_nonzero; lia). lia.
Qed.

(** ** What a parser reads *)

(** The parser stands before the bytes [s] and has met no error. *)
Definition stands_at (s : bytes) (p : NetParser.t) : Prop :=
  Buffer.ok (NetParser.buffer p) ∧ Buffer.str (NetParser.buffer p) = s ∧
  NetParser.error_ p = NoError.

(** From [s], the computation reads [a] and leaves [s']. *)
Definition reads {A} (m : NetParser.M A) (s : bytes) (a : A) (s' : bytes) : Prop :=
  ∀ p, stands_at s p → ∃ p', m p = Ok (a, p') ∧ stands_at s' p'.

Lemma parser_bind_inv {A B} (m : NetParser.M A) (f : A → NetParser.M B) p r :
  (m ≫= f) p = Ok r → ∃ a p', m p = Ok (a, p') ∧ f a p' = Ok r.
Proof.
  unfold mbind, NetParser.M_bind. destruct (m p) as [[a p']|e]; [eauto|done].
Qed.

(** Takes a successful run of a parser apart, step by step. *)
Ltac parser_inv H :=
  repeat (let a := fresh "v" in let p := fresh "p" in let E := fresh "E" in
    apply parser_bind_inv in H as (a & p & E & H); cbv beta zeta in H).

Lemma stands_at_new b : Buffer.ok b → stands_at (Buffer.str b) (NetParser.new b).
Proof. by intros. Qed.

Lemma stands_at_string s : is_u64 (blen s) → stands_at s (NetParser.new (Buffer.of_string s)).
Proof.
  intros H. pose proof (stands_at_new _ (buffer_of_string_ok s H)) as Hs.
  by rewrite buffer_str_of_string in Hs.
Qed.

Lemma reads_ret {A} (a : A) s : reads (mret a) s a s.
Proof. intros p Hp. by exists p. Qed.

Lemma reads_bind {A B} (m : NetParser.M A) (f : A → NetParser.M B) s a s' b s'' :
  reads m s a s' → reads (f a) s' b s'' → reads (m ≫= f) s b s''.
Proof.
  intros Hm Hf p Hp. destruct (Hm p Hp) as (p' & E & Hp').
  destruct (Hf p' Hp') as (p'' & E' & Hp''). exists p''. split; [|done].
  unfold mbind, NetParser.M_bind. by rewrite E.
Qed.

(** A computation that first looks at the whole buffer left. *)
Lemma reads_rest {A} (f : Buffer.t → NetParser.M A) s a s' :
  (∀ b, Buffer.ok b → Buffer.str b = s → reads (f b) s a s') →
  reads (NetParser.rest ≫= f) s a s'.
Proof.
  intros H p Hp. pose proof Hp as (Hok & Hs & _).
  destruct (H _ Hok Hs p Hp) as (p' & ? & ?). by exists p'.
Qed.

Lemma parse_loop_spec len b pre l rest ret :
  Buffer.str b = pre ++ l ++ rest → 0 <= ret →
  ret * 0x100 ^ blen l + be_val l < 2 ^ (8 * Z.of_nat len) →
  NetParser.parse_loop len b (length pre) (length l) ret = Ok (ret * 0x100 ^ blen l + be_val l).
Proof.
  revert pre ret. induction l as [|c l IH]; intros pre ret Hs Hret Hb.
  { simpl. f_equal. change (be_val []) with 0. change (blen (@nil byte)) with 0. lia. }
  cbn [length NetParser.parse_loop]. unfold Buffer.at_. rewrite Hs, Nat2Z.id, lookup_app_r by lia.
  rewrite Nat.sub_diag. simpl. pose proof (b2z_range c) as Hc. pose proof (be_val_range l) as Hl.
  rewrite be_val_cons, blen_cons, Z.pow_add_r in * by auto with sponge lia. unfold_w.
  rewrite Z.shiftl_mul_pow2 by lia. change (2 ^ 8) with 0x100.
  assert (ret * 0x100 + b2z c < 2 ^ (8 * Z.of_nat len)) by nia.
  rewrite (Z.mod_small (ret * 0x100)), Z.mod_small by lia.
  replace (S (length pre)) with (length (pre ++ [c])) by (rewrite length_app; simpl; lia).
  rewrite IH; [f_equal; lia|by rewrite Hs, <- app_assoc|lia|lia].
Qed.

Lemma reads_parse_int n l rest :
  length l = n → reads (NetParser.parse_int n) (l ++ rest) (be_val l) rest.
Proof.
  intros <- [b e] (Hok & Hs & He). simpl in *. subst e. unfold NetParser.parse_int, NetParser.check_size.
  assert (Hsz : Buffer.size b = blen l + blen rest) by (unfold Buffer.size; by rewrite Hs, blen_app).
  simpl. pose proof (blen_nonneg rest).
  rewrite (proj2 (Z.ltb_ge _ _)) by (unfold blen in *; lia). simpl.
  pose proof (be_val_range l) as Hr.
  assert (Hp : 0x100 ^ blen l = 2 ^ (8 * Z.of_nat (length l))) by (by rewrite Z.pow_mul_r by lia).
  pose proof (parse_loop_spec (length l) b [] l rest 0 Hs) as Hloop. rewrite Z.mul_0_l, Z.add_0_l in Hloop.
  simpl in Hloop. rewrite Hloop by lia. simpl.
  destruct (buffer_remove_prefix_spec b (Z.of_nat (length l))) as (b' & -> & Hok' & Hs');
    [done|unfold blen in *; lia|].
  eexists. split; [done|]. split_and!; [done| |done]. simpl.
  rewrite Hs', Hs, zdrop_app_r by (unfold blen; lia). unfold blen. by rewrite Z.sub_diag, zdrop_0.
Qed.

Lemma reads_unparse n val rest :
  reads (NetParser.parse_int n) (NetUnparser.unparse_bytes n val ++ rest)
        (val mod 2 ^ (8 * Z.of_nat n)) rest.
Proof.
  rewrite <- be_val_unparse. apply reads_parse_int.
  pose proof (blen_unparse n val). unfold blen in *. lia.
Qed.

Lemma reads_u8 val rest :
  is_u8 val → reads NetParser.u8 (NetUnparser.unparse_bytes 1 val ++ rest) val rest.
Proof. intros H. rewrite <- (w8_small val H) at 2. apply reads_unparse. Qed.

Lemma reads_u16 val rest :
  is_u16 val → reads NetParser.u16 (NetUnparser.unparse_bytes 2 val ++ rest) val rest.
Proof. intros H. rewrite <- (w16_small val H) at 2. apply reads_unparse. Qed.

Lemma reads_u32 val rest :
  is_u32 val → reads NetParser.u32 (NetUnparser.unparse_bytes 4 val ++ rest) val rest.
Proof. intros H. rewrite <- (w32_small val H) at 2. apply reads_unparse. Qed.

Lemma reads_skip l rest : reads (NetParser.skip (blen l)) (l ++ rest) tt rest.
Proof.
  intros [b e] (Hok & Hs & He). simpl in *. subst e.
  unfold NetParser.skip, NetParser.remove_prefix, NetParser.check_size.
  assert (Hsz : Buffer.size b = blen l + blen rest) by (unfold Buffer.size; by rewrite Hs, blen_app).
  pose proof (blen_nonneg rest). pose proof (blen_nonneg l).
  simpl. rewrite (proj2 (Z.ltb_ge _ _)) by lia. simpl.
  destruct (buffer_remove_prefix_spec b (blen l)) as (b' & -> & Hok' & Hs'); [done|lia|].
  eexists. split; [done|]. split_and!; [done| |done]. simpl.
  rewrite Hs', Hs, zdrop_app_r by lia. by rewrite Z.sub_diag, zdrop_0.
Qed.

Lemma reads_error_state s : reads NetParser.error_state s NoError s.
Proof. intros p (? & ? & He). exists p. unfold NetParser.error_state, NetParser.get_error. by rewrite He. Qed.

Lemma unparse_byte b : NetUnparser.unparse_bytes 1 (b2z b) = [b].
Proof.
  rewrite unparse_bytes_S. simpl. rewrite Z.shiftr_0_r, z2b_b2z. done.
Qed.

Lemma reads_u8_array l rest : reads (NetParser.u8_array (length l)) (l ++ rest) l rest.
Proof.
  induction l as [|b l IH]; [apply reads_ret|]. cbn [length NetParser.u8_array app].
  eapply reads_bind.
  - change (b :: l ++ rest) with ([b] ++ (l ++ rest)). rewrite <- unparse_byte. apply reads_u8.
    apply b2z_range.
  - eapply reads_bind; [apply IH|]. rewrite z2b_b2z. apply reads_ret.
Qed.

(** ** Errors are sticky *)

Definition too_short (p : NetParser.t) : Prop := NetParser.error_ p = PacketTooShort.

Lemma parse_int_short n p :
  NetParser.error_ p = NoError → Buffer.size (NetParser.buffer p) < Z.of_nat n →
  NetParser.parse_int n p = Ok (0, NetParser.mk (NetParser.buffer p) PacketTooShort).
Proof.
  intros He Hs. unfold NetParser.parse_int, NetParser.check_size.
  by rewrite (proj2 (Z.ltb_lt _ _)) by done.
Qed.

Lemma parse_int_sticky n p :
  too_short p → NetParser.parse_int n p = Ok (0, p).
Proof.
  destruct p as [b e]. unfold too_short. simpl. intros ->.
  unfold NetParser.parse_int, NetParser.check_size, NetParser.set_error. by destruct (_ <? _).
Qed.
