(* ===== verification/Checksum.v ===== *)
(** * The Internet checksum: class InternetChecksum of util/util.hh, util/util.cc *)

From S2P Require Import Prelude Parsing.

Module InternetChecksum.

Record t := mk {
  sum : Z;                     (* _sum, a uint32_t *)
  parity : bool;               (* _parity *)
}.

Definition new (initial_sum : Z) : t := mk initial_sum false.

(** One round of the loop of [add]. *)
Definition add_byte (c : t) (b : byte) : t :=
  let val := b2z b in
  let val := if parity c then val else w16 (Z.shiftl val 8) in
  mk (w32 (sum c + val)) (negb (parity c)).

Definition add (c : t) (data : bytes) : t := foldl add_byte c data.

(** [while (ret > 0xffff) ret = (ret >> 16) + (ret & 0xffff)], with fuel. *)
Fixpoint fold_carries (fuel : nat) (ret : Z) : Z :=
  match fuel with
  | O => ret
  | S fuel' =>
      if 0xffff <? ret
      then fold_carries fuel' (w32 (Z.shiftr ret 16 + Z.land ret 0xffff))
      else ret
  end.

(** Two rounds bring any 32-bit sum down to 16 bits, so the loop stops. *)
Definition value (c : t) : Z := w16 (Z.lnot (fold_carries 2 (sum c))).

End InternetChecksum.

Import InternetChecksum.

Lemma fold_round x :
  is_u32 x → w32 (Z.shiftr x 16 + Z.land x 0xffff) = x / 0x10000 + x mod 0x10000.
Proof.
  intros Hx. rewrite Z.shiftr_div_pow2 by lia. change 0xffff with (Z.ones 16).
  rewrite Z.land_ones by lia. change (2 ^ 16) with 0x10000. zmod_lia.
Qed.

(** The fuel is enough: the result fits 16 bits, so the loop condition is false
    there. The result is congruent to the sum modulo [2^16 - 1] and vanishes
    only with it. *)
Lemma fold_carries_spec x :
  is_u32 x →
  let r := fold_carries 2 x in
  0 <= r <= 0xffff ∧ r mod 0xffff = x mod 0xffff ∧ (r = 0 ↔ x = 0).
Proof.
  intros Hx. simpl.
  destruct (Z.ltb_spec 0xffff x) as [H1|H1]; [|unfold_w; split_and!; lia].
  rewrite fold_round by done.
  set (y := x / 0x10000 + x mod 0x10000) in *.
  assert (Hy : 0 < y <= 0x1fffe ∧ y mod 0xffff = x mod 0xffff).
  { subst y. split; zmod_lia. }
  clearbody y. destruct Hy as [Hy Hm].
  destruct (Z.ltb_spec 0xffff y) as [H2|H2]; [|split_and!; lia].
  rewrite fold_round by (unfold_w; lia). rewrite <- Hm. clear Hm. zmod_lia.
Qed.

Lemma fold_carries_more n x :
  is_u32 x → fold_carries (2 + n) x = fold_carries 2 x.
Proof.
  intros Hx. destruct (fold_carries_spec x Hx) as [Hr _].
  assert (Hstop : ∀ m y, y <= 0xffff → fold_carries m y = y).
  { intros [|m] y Hy; simpl; [done|]. by rewrite (proj2 (Z.ltb_ge _ _)) by lia. }
  revert Hr. cbn [Nat.add fold_carries].
  do 2 (destruct (_ <? _); [|done]). intros Hr. apply Hstop. lia.
Qed.

(** ** Sums of 16-bit words *)

(** The sum of the big-endian 16-bit words of a string of even length. *)
Fixpoint word_sum (l : bytes) : Z :=
  match l with
  | a :: b :: l' => b2z a * 0x100 + b2z b + word_sum l'
  | [a] => b2z a * 0x100
  | [] => 0
  end.

Lemma bytes_pair_ind (Q : bytes → Prop) :
  Q [] → (∀ a, Q [a]) → (∀ a b l, Q l → Q (a :: b :: l)) → ∀ l, Q l.
Proof.
  intros H0 H1 H2. fix IH 1. intros [|a [|b l]]; [done|apply H1|apply H2; apply IH].
Qed.

Lemma word_sum_bounds l : 0 <= word_sum l <= 0xffff * blen l.
Proof.
  induction l as [|a|a b l IH] using bytes_pair_ind; simpl; rewrite ?blen_cons.
  - change (blen (@nil byte)) with 0. lia.
  - change (blen (@nil byte)) with 0. pose proof (b2z_range a). unfold_w. lia.
  - pose proof (b2z_range a). pose proof (b2z_range b). unfold_w. lia.
Qed.

Lemma word_sum_app l m : Z.even (blen l) = true → word_sum (l ++ m) = word_sum l + word_sum m.
Proof.
  induction l as [|a|a b l IH] using bytes_pair_ind; intros He; simpl.
  - done.
  - done.
  - rewrite !blen_cons in He. replace (1 + (1 + blen l)) with (blen l + 2) in He by lia.
    rewrite Z.even_add in He. rewrite IH; [lia|]. by destruct (Z.even (blen l)).
Qed.

Lemma add_word s a b :
  is_u32 s → is_u32 (s + (b2z a * 0x100 + b2z b)) →
  add_byte (add_byte (mk s false) a) b = mk (s + (b2z a * 0x100 + b2z b)) false.
Proof.
  intros Hs Hb. unfold add_byte. cbn [parity sum negb].
  rewrite Z.shiftl_mul_pow2 by lia. change (2 ^ 8) with 0x100.
  pose proof (b2z_range a). pose proof (b2z_range b).
  rewrite (w16_small (b2z a * 0x100)) by (unfold_w; lia).
  rewrite (w32_small (s + _)), w32_small by (unfold_w; lia). f_equal. lia.
Qed.

Lemma add_spec s l :
  is_u32 s → is_u32 (s + word_sum l) →
  add (mk s false) l = mk (s + word_sum l) (negb (Z.even (blen l))).
Proof.
  revert s. induction l as [|a|a b l IH] using bytes_pair_ind; intros s Hs Hb; cbn [word_sum] in *.
  - by rewrite Z.add_0_r.
  - unfold add, add_byte. simpl. rewrite Z.shiftl_mul_pow2 by lia. change (2 ^ 8) with 0x100.
    pose proof (b2z_range a). rewrite w16_small, w32_small by (unfold_w; lia). done.
  - change (add (mk s false) (a :: b :: l)) with (add (add_byte (add_byte (mk s false) a) b) l).
    pose proof (b2z_range a). pose proof (b2z_range b). pose proof (word_sum_bounds l).
    rewrite add_word by (unfold_w; lia). rewrite IH by (unfold_w; lia).
    rewrite !blen_cons. replace (1 + (1 + blen l)) with (blen l + 2) by lia.
    rewrite Z.even_add. f_equal; [lia|]. by destruct (Z.even (blen l)).
Qed.

Lemma value_range c : is_u16 (value c).
Proof. apply w16_range. Qed.

Lemma value_complement s p :
  is_u32 s → value (mk s p) = 0xffff - fold_carries 2 s.
Proof.
  intros Hs. unfold value. cbn [sum]. destruct (fold_carries_spec s Hs) as [Hr _].
  rewrite Z.lnot_eq_pred_opp. set (r := fold_carries 2 s) in *. clearbody r. zmod_lia.
Qed.

(** The checksum of a sum, added to that sum, gives checksum zero. *)
Lemma checksum_cancels s p p' :
  is_u32 (s + 0xffff) → 0 <= s → value (mk (s + value (mk s p)) p') = 0.
Proof.
  intros Hs H0.
  assert (Hu : is_u32 s) by (unfold_w; lia). pose proof (value_range (mk s p)) as Hv.
  rewrite (value_complement (s + _)) by (unfold_w; lia).
  rewrite (value_complement s) by done.
  destruct (fold_carries_spec s Hu) as (Hr & Hm & Hz).
  set (r := fold_carries 2 s) in *. clearbody r.
  destruct (fold_carries_spec (s + (0xffff - r))) as (Hr' & Hm' & Hz'); [unfold_w; lia|].
  set (r' := fold_carries 2 (s + (0xffff - r))) in *. clearbody r'.
  assert (r' ≠ 0). { intros E. apply Hz' in E. lia. }
  Z.div_mod_to_equations; lia.
Qed.

Lemma word_sum_unparse2 c : is_u16 c → word_sum (NetUnparser.unparse_bytes 2 c) = c.
Proof.
  intros H. rewrite !unparse_bytes_S. change (NetUnparser.unparse_bytes 0 c) with (@nil byte).
  cbn [word_sum]. rewrite !b2z_z2b, Z.shiftr_0_r, Z.shiftr_div_pow2 by lia.
  change (2 ^ (8 * Z.of_nat 1)) with 0x100. zmod_lia.
Qed.

Lemma word_sum_zeros n : word_sum (replicate n Byte.x00) = 0.
Proof.
  induction n as [n IH] using lt_wf_ind. destruct n as [|[|n]]; [done..|].
  cbn [replicate word_sum]. rewrite IH by lia. done.
Qed.
