(* ===== verification/Segment.v ===== *)
(** * TCP headers and segments: tcp_helpers/tcp_header.* and tcp_segment.* *)

From S2P Require Import Prelude Buffers Parsing Checksum Wrapping.

Module TCPHeader.

Definition LENGTH : Z := 20.

Record t := mk {
  sport : Z;
  dport : Z;
  seqno : WrappingInt32.t;
  ackno : WrappingInt32.t;
  doff : Z;
  urg : bool;
  ack : bool;
  psh : bool;
  rst : bool;
  syn : bool;
  fin : bool;
  win : Z;
  cksum : Z;
  uptr : Z;
}.

(** The member initialisers. *)
Definition default : t :=
  mk 0 0 (WrappingInt32.of_raw 0) (WrappingInt32.of_raw 0) (LENGTH / 4)
     false false false false false false 0 0 0.

(** Assignments to single members. *)
Definition set_ports (h : t) (s d : Z) : t :=
  mk s d (seqno h) (ackno h) (doff h) (urg h) (ack h) (psh h) (rst h) (syn h) (fin h)
     (win h) (cksum h) (uptr h).

Definition set_seqno (h : t) (n : WrappingInt32.t) : t :=
  mk (sport h) (dport h) n (ackno h) (doff h) (urg h) (ack h) (psh h) (rst h) (syn h) (fin h)
     (win h) (cksum h) (uptr h).

Definition set_ack (h : t) (n : WrappingInt32.t) : t :=
  mk (sport h) (dport h) (seqno h) n (doff h) (urg h) true (psh h) (rst h) (syn h) (fin h)
     (win h) (cksum h) (uptr h).

Definition set_rst (h : t) : t :=
  mk (sport h) (dport h) (seqno h) (ackno h) (doff h) (urg h) (ack h) (psh h) true (syn h) (fin h)
     (win h) (cksum h) (uptr h).

Definition set_syn (h : t) (b : bool) : t :=
  mk (sport h) (dport h) (seqno h) (ackno h) (doff h) (urg h) (ack h) (psh h) (rst h) b (fin h)
     (win h) (cksum h) (uptr h).

Definition set_fin (h : t) (b : bool) : t :=
  mk (sport h) (dport h) (seqno h) (ackno h) (doff h) (urg h) (ack h) (psh h) (rst h) (syn h) b
     (win h) (cksum h) (uptr h).

Definition set_win (h : t) (w : Z) : t :=
  mk (sport h) (dport h) (seqno h) (ackno h) (doff h) (urg h) (ack h) (psh h) (rst h) (syn h) (fin h)
     w (cksum h) (uptr h).

Definition set_cksum (h : t) (c : Z) : t :=
  mk (sport h) (dport h) (seqno h) (ackno h) (doff h) (urg h) (ack h) (psh h) (rst h) (syn h) (fin h)
     (win h) c (uptr h).

(** The members are assigned as they are read, whatever the outcome. *)
Definition parse : NetParser.M (t * ParseResult) :=
  sport ← NetParser.u16;
  dport ← NetParser.u16;
  seqno ← NetParser.u32;
  ackno ← NetParser.u32;
  doff_b ← NetParser.u8;
  fl_b ← NetParser.u8;
  win ← NetParser.u16;
  cksum ← NetParser.u16;
  uptr ← NetParser.u16;
  let doff := Z.shiftr doff_b 4 in
  let h :=
    mk sport dport (WrappingInt32.of_raw seqno) (WrappingInt32.of_raw ackno) doff
       (flag fl_b 0x20) (flag fl_b 0x10) (flag fl_b 0x08) (flag fl_b 0x04) (flag fl_b 0x02)
       (flag fl_b 0x01) win cksum uptr in
  if doff <? 5 then mret (h, HeaderTooShort)
  else
    _ ← NetParser.skip (w64 (doff * 4 - LENGTH));
    e ← NetParser.error_state;
    mret (h, e).

(** The byte that holds the flags. *)
Definition flags_byte (h : t) : Z :=
  let bit (b : bool) (m : Z) := if b then m else 0 in
  Z.lor (Z.lor (Z.lor (Z.lor (Z.lor (bit (urg h) 0x20) (bit (ack h) 0x10)) (bit (psh h) 0x08))
    (bit (rst h) 0x04)) (bit (syn h) 0x02)) (bit (fin h) 0x01).

Definition serialize (h : t) : result bytes :=
  if doff h <? 5 then Err (runtime_error "TCP header too short")
  else
    let ret := [] in
    let ret := NetUnparser.u16 ret (sport h) in
    let ret := NetUnparser.u16 ret (dport h) in
    let ret := NetUnparser.u32 ret (WrappingInt32.raw_value (seqno h)) in
    let ret := NetUnparser.u32 ret (WrappingInt32.raw_value (ackno h)) in
    let ret := NetUnparser.u8 ret (w8 (Z.shiftl (doff h) 4)) in
    let ret := NetUnparser.u8 ret (flags_byte h) in
    let ret := NetUnparser.u16 ret (win h) in
    let ret := NetUnparser.u16 ret (cksum h) in
    let ret := NetUnparser.u16 ret (uptr h) in
    Ok (resize ret (4 * doff h)).

(** [operator==], which leaves out the ports and the checksum. *)
Definition eqb (h o : t) : bool :=
  WrappingInt32.eqb (seqno h) (seqno o) && WrappingInt32.eqb (ackno h) (ackno o) &&
  (doff h =? doff o) && Bool.eqb (urg h) (urg o) && Bool.eqb (ack h) (ack o) &&
  Bool.eqb (psh h) (psh o) && Bool.eqb (rst h) (rst o) && Bool.eqb (syn h) (syn o) &&
  Bool.eqb (fin h) (fin o) && (win h =? win o) && (uptr h =? uptr o).

(** Every member holds a value of its C++ type, and [doff] fits its four bits. *)
Record ok (h : t) : Prop := mk_ok {
  ok_sport : is_u16 (sport h);
  ok_dport : is_u16 (dport h);
  ok_seqno : WrappingInt32.ok (seqno h);
  ok_ackno : WrappingInt32.ok (ackno h);
  ok_doff : 5 <= doff h < 16;
  ok_win : is_u16 (win h);
  ok_cksum : is_u16 (cksum h);
  ok_uptr : is_u16 (uptr h);
}.

End TCPHeader.

Module TCPSegment.

Record t := mk {
  header : TCPHeader.t;        (* _header *)
  payload : Buffer.t;          (* _payload *)
}.

Definition default : t := mk TCPHeader.default Buffer.empty.

(** Parsing changes the segment [s]; the result of the header's own [parse] is
    dropped. *)
Definition parse (s : t) (buffer : Buffer.t) (datagram_layer_checksum : Z)
  : result (t * ParseResult) :=
  let check := InternetChecksum.add (InternetChecksum.new datagram_layer_checksum) (Buffer.str buffer) in
  if negb (InternetChecksum.value check =? 0) then Ok (s, BadChecksum)
  else
    '((h, _), p) ← TCPHeader.parse (NetParser.new buffer);
    Ok (mk h (NetParser.buffer p), NetParser.get_error p).

Definition length_in_sequence_space (s : t) : Z :=
  blen (Buffer.str (payload s)) + (if TCPHeader.syn (header s) then 1 else 0)
  + (if TCPHeader.fin (header s) then 1 else 0).

Definition serialize (s : t) (datagram_layer_checksum : Z) : result BufferList.t :=
  let header_out := TCPHeader.set_cksum (header s) 0 in
  hdr ← TCPHeader.serialize header_out;
  let check := InternetChecksum.new datagram_layer_checksum in
  let check := InternetChecksum.add check hdr in
  let check := InternetChecksum.add check (Buffer.str (payload s)) in
  let header_out := TCPHeader.set_cksum header_out (InternetChecksum.value check) in
  hdr ← TCPHeader.serialize header_out;
  Ok (BufferList.append (BufferList.append [] (BufferList.of_string hdr))
        (BufferList.of_buffer (payload s))).

End TCPSegment.

(** ** The header on the wire *)

(** The bytes of a header before its checksum, and its twenty fixed bytes. *)
Definition header_front (h : TCPHeader.t) : bytes :=
  NetUnparser.unparse_bytes 2 (TCPHeader.sport h) ++
  NetUnparser.unparse_bytes 2 (TCPHeader.dport h) ++
  NetUnparser.unparse_bytes 4 (WrappingInt32.raw_value (TCPHeader.seqno h)) ++
  NetUnparser.unparse_bytes 4 (WrappingInt32.raw_value (TCPHeader.ackno h)) ++
  NetUnparser.unparse_bytes 1 (w8 (Z.shiftl (TCPHeader.doff h) 4)) ++
  NetUnparser.unparse_bytes 1 (TCPHeader.flags_byte h) ++
  NetUnparser.unparse_bytes 2 (TCPHeader.win h).

Definition header_bytes (h : TCPHeader.t) : bytes :=
  header_front h ++
  NetUnparser.unparse_bytes 2 (TCPHeader.cksum h) ++
  NetUnparser.unparse_bytes 2 (TCPHeader.uptr h).

Definition header_padding (h : TCPHeader.t) : bytes :=
  replicate (Z.to_nat (4 * TCPHeader.doff h - 20)) Byte.x00.

Lemma blen_header_bytes h : blen (header_bytes h) = 20.
Proof. unfold header_bytes, header_front. by rewrite !blen_app, !blen_unparse. Qed.

Lemma blen_header_padding h :
  5 <= TCPHeader.doff h → blen (header_padding h) = 4 * TCPHeader.doff h - 20.
Proof. intros. unfold header_padding, blen. rewrite length_replicate. lia. Qed.

Lemma header_serialize_spec h :
  5 <= TCPHeader.doff h → TCPHeader.serialize h = Ok (header_bytes h ++ header_padding h).
Proof.
  intros Hd. unfold TCPHeader.serialize. rewrite (proj2 (Z.ltb_ge _ _)) by lia.
  unfold NetUnparser.u8, NetUnparser.u16, NetUnparser.u32, NetUnparser.unparse_int.
  cbv zeta. rewrite app_nil_l.
  match goal with |- context [resize ?x] => replace x with (header_bytes h) end.
  2:{ unfold header_bytes, header_front. by rewrite <- !app_assoc. }
  unfold resize. pose proof (blen_header_bytes h) as Hb.
  rewrite ztake_all, Hb by lia. done.
Qed.

Lemma flags_byte_spec h :
  let b := TCPHeader.flags_byte h in
  is_u8 b ∧
  flag b 0x20 = TCPHeader.urg h ∧ flag b 0x10 = TCPHeader.ack h ∧
  flag b 0x08 = TCPHeader.psh h ∧ flag b 0x04 = TCPHeader.rst h ∧
  flag b 0x02 = TCPHeader.syn h ∧ flag b 0x01 = TCPHeader.fin h.
Proof.
  unfold TCPHeader.flags_byte. destruct h as [????? u a p r s f ???]. simpl.
  destruct u, a, p, r, s, f; vm_compute; repeat split; congruence.
Qed.

Lemma doff_spec d : 5 <= d < 16 → Z.shiftr (w8 (Z.shiftl d 4)) 4 = d ∧ is_u8 (w8 (Z.shiftl d 4)).
Proof.
  intros H. rewrite Z.shiftl_mul_pow2, Z.shiftr_div_pow2 by lia.
  change (2 ^ 4) with 16. split; [zmod_lia|apply w8_range].
Qed.

Lemma of_raw_raw a : WrappingInt32.ok a → WrappingInt32.of_raw (WrappingInt32.raw_value a) = a.
Proof. intros H. apply wrapping_eq. by apply w32_small. Qed.

(** Parsing what [serialize] wrote gives the header back and stops after it. *)
Lemma header_reads h rest :
  TCPHeader.ok h →
  reads TCPHeader.parse (header_bytes h ++ header_padding h ++ rest) (h, NoError) rest.
Proof.
  intros []. unfold TCPHeader.parse, header_bytes, header_front. rewrite <- !app_assoc.
  destruct (doff_spec (TCPHeader.doff h)) as [Hdoff Hd8]; [done|].
  destruct (flags_byte_spec h) as (Hf8 & Hu & Ha & Hp & Hr & Hs & Hf).
  eapply reads_bind; [by apply reads_u16|].
  eapply reads_bind; [by apply reads_u16|].
  eapply reads_bind; [by apply reads_u32|].
  eapply reads_bind; [by apply reads_u32|].
  eapply reads_bind; [by apply reads_u8|].
  eapply reads_bind; [by apply reads_u8|].
  eapply reads_bind; [by apply reads_u16|].
  eapply reads_bind; [by apply reads_u16|].
  eapply reads_bind; [by apply reads_u16|].
  cbv zeta. rewrite Hdoff, (proj2 (Z.ltb_ge _ _)) by lia.
  rewrite Hu, Ha, Hp, Hr, Hs, Hf, !of_raw_raw by done.
  unfold TCPHeader.LENGTH. rewrite w64_small by (unfold_w; lia).
  replace (TCPHeader.doff h * 4 - 20) with (blen (header_padding h))
    by (rewrite blen_header_padding; lia).
  eapply reads_bind; [apply reads_skip|].
  eapply reads_bind; [apply reads_error_state|].
  destruct h. apply reads_ret.
Qed.

(** ** Checksums of segments *)

(** Setting the checksum field adds its value to the sum of the header. *)
Lemma word_sum_header h c :
  is_u16 c →
  word_sum (header_bytes (TCPHeader.set_cksum h c)) =
  word_sum (header_bytes (TCPHeader.set_cksum h 0)) + c.
Proof.
  intros Hc. unfold header_bytes.
  change (header_front (TCPHeader.set_cksum h c)) with (header_front h).
  change (header_front (TCPHeader.set_cksum h 0)) with (header_front h).
  rewrite !word_sum_app by (unfold header_front; by rewrite ?blen_app, ?blen_unparse).
  cbn [TCPHeader.set_cksum TCPHeader.cksum TCPHeader.uptr].
  rewrite (word_sum_unparse2 c), (word_sum_unparse2 0) by (done || (unfold_w; lia)). lia.
Qed.

Lemma word_sum_header_bound h : 0 <= word_sum (header_bytes h) <= 0xffff * 20.
Proof. rewrite <- (blen_header_bytes h). apply word_sum_bounds. Qed.

(** The checksum [serialize] computes, over a pseudo-header sum [init]. *)
Definition segment_cksum (s : TCPSegment.t) (init : Z) : Z :=
  InternetChecksum.value (InternetChecksum.mk
    (init + word_sum (header_bytes (TCPHeader.set_cksum (TCPSegment.header s) 0))
     + word_sum (Buffer.str (TCPSegment.payload s)))
    (negb (Z.even (blen (Buffer.str (TCPSegment.payload s)))))).

Lemma header_sum h init p :
  5 <= TCPHeader.doff h → is_u32 init →
  is_u32 (init + word_sum (header_bytes h) + word_sum p) →
  InternetChecksum.add (InternetChecksum.new init) (header_bytes h ++ header_padding h ++ p) =
  InternetChecksum.mk (init + word_sum (header_bytes h) + word_sum p) (negb (Z.even (blen p))).
Proof.
  intros Hd Hi Hb. unfold InternetChecksum.new.
  assert (He : Z.even (blen (header_padding h)) = true).
  { rewrite blen_header_padding by done.
    replace (4 * TCPHeader.doff h - 20) with (2 * (2 * TCPHeader.doff h - 10)) by lia.
    by rewrite Z.even_mul. }
  assert (Hsum : word_sum (header_bytes h ++ header_padding h ++ p) = word_sum (header_bytes h) + word_sum p).
  { rewrite word_sum_app by (by rewrite blen_header_bytes). rewrite word_sum_app by done.
    unfold header_padding. rewrite word_sum_zeros. lia. }
  rewrite add_spec by (done || (rewrite Hsum, Z.add_assoc; done)).
  rewrite Hsum, Z.add_assoc, !blen_app, blen_header_bytes. f_equal.
  rewrite !Z.even_add, He. by destruct (Z.even (blen p)).
Qed.

Lemma segment_serialize_spec s init :
  5 <= TCPHeader.doff (TCPSegment.header s) → is_u32 init →
  is_u32 (init + 0xffff * 20 + word_sum (Buffer.str (TCPSegment.payload s))) →
  ∃ l, TCPSegment.serialize s init = Ok l ∧
    let h := TCPHeader.set_cksum (TCPSegment.header s) (segment_cksum s init) in
    BufferList.concatenate l = header_bytes h ++ header_padding h ++ Buffer.str (TCPSegment.payload s).
Proof.
  intros Hd Hi Hb. unfold TCPSegment.serialize.
  set (h0 := TCPHeader.set_cksum (TCPSegment.header s) 0).
  pose proof (word_sum_header_bound h0) as Hh.
  pose proof (word_sum_bounds (Buffer.str (TCPSegment.payload s))) as Hp.
  rewrite header_serialize_spec by done. cbn [mbind result_bind].
  assert (Hck : InternetChecksum.value (InternetChecksum.add (InternetChecksum.add
      (InternetChecksum.new init) (header_bytes h0 ++ header_padding h0)) (Buffer.str (TCPSegment.payload s)))
    = segment_cksum s init).
  { unfold InternetChecksum.add. rewrite <- foldl_app.
    fold (InternetChecksum.add (InternetChecksum.new init)
      ((header_bytes h0 ++ header_padding h0) ++ Buffer.str (TCPSegment.payload s))).
    rewrite <- app_assoc, header_sum by (done || (unfold_w; lia)). done. }
  rewrite Hck. rewrite header_serialize_spec by done. cbn [mbind result_bind].
  eexists. split; [done|]. rewrite !concatenate_app, concatenate_of_string.
  cbn [BufferList.concatenate BufferList.of_buffer app]. by rewrite app_nil_r, <- app_assoc.
Qed.

(** The sum over a whole serialised segment, checksum included, is the one the
    checksum cancels. *)
Lemma segment_sum_cancels s init :
  TCPHeader.ok (TCPSegment.header s) → is_u32 init →
  is_u32 (init + 0xffff * 21 + word_sum (Buffer.str (TCPSegment.payload s))) →
  let h := TCPHeader.set_cksum (TCPSegment.header s) (segment_cksum s init) in
  InternetChecksum.value (InternetChecksum.add (InternetChecksum.new init)
    (header_bytes h ++ header_padding h ++ Buffer.str (TCPSegment.payload s))) = 0.
Proof.
  intros Hok Hi Hb h. pose proof (TCPHeader.ok_doff _ Hok) as Hd.
  assert (Hc : is_u16 (segment_cksum s init)) by apply value_range.
  pose proof (word_sum_header_bound (TCPHeader.set_cksum (TCPSegment.header s) 0)).
  pose proof (word_sum_bounds (Buffer.str (TCPSegment.payload s))).
  pose proof (word_sum_header (TCPSegment.header s) _ Hc) as Hh. fold h in Hh.
  assert (5 <= TCPHeader.doff h) by (simpl; lia).
  assert (is_u32 (init + word_sum (header_bytes h) + word_sum (Buffer.str (TCPSegment.payload s))))
    by (rewrite Hh; unfold_w; lia).
  rewrite header_sum, Hh by assumption. unfold segment_cksum.
  set (sum0 := init + word_sum (header_bytes (TCPHeader.set_cksum (TCPSegment.header s) 0))
     + word_sum (Buffer.str (TCPSegment.payload s))) in *.
  replace (init + _ + word_sum (Buffer.str (TCPSegment.payload s))) with
    (sum0 + InternetChecksum.value (InternetChecksum.mk sum0
       (negb (Z.even (blen (Buffer.str (TCPSegment.payload s)))))))
    by (subst sum0; lia).
  apply checksum_cancels; subst sum0; unfold_w; lia.
Qed.

(** Serialising a well-formed segment, and parsing any buffer that holds the
    bytes. *)
Lemma segment_parse_core (s s0 : TCPSegment.t) (init : Z) :
  TCPHeader.ok (TCPSegment.header s) → is_u32 init →
  is_u64 (60 + Buffer.size (TCPSegment.payload s)) →
  is_u32 (init + 0xffff * 21 + word_sum (Buffer.str (TCPSegment.payload s))) →
  ∃ l, TCPSegment.serialize s init = Ok l ∧
    blen (BufferList.concatenate l) =
      4 * TCPHeader.doff (TCPSegment.header s) + Buffer.size (TCPSegment.payload s) ∧
    ∀ b, Buffer.ok b → Buffer.str b = BufferList.concatenate l →
    ∃ p, TCPSegment.parse s0 b init =
      Ok (TCPSegment.mk (TCPHeader.set_cksum (TCPSegment.header s) (segment_cksum s init)) p, NoError) ∧
    Buffer.str p = Buffer.str (TCPSegment.payload s).
Proof.
  intros Hok Hi Hlen Hb. pose proof (word_sum_bounds (Buffer.str (TCPSegment.payload s))).
  pose proof (TCPHeader.ok_doff _ Hok) as Hd.
  destruct (segment_serialize_spec s init) as (l & Hl & Hc); [lia|done|unfold_w; lia|].
  cbv zeta in Hc. pose proof (segment_sum_cancels s init Hok Hi Hb) as Hz. cbv zeta in Hz.
  set (h := TCPHeader.set_cksum (TCPSegment.header s) (segment_cksum s init)) in *.
  assert (Hok' : TCPHeader.ok h).
  { destruct Hok; split; try done. apply value_range. }
  exists l. split; [done|]. split.
  { rewrite Hc, !blen_app, blen_header_bytes, blen_header_padding by (simpl; lia).
    unfold Buffer.size. change (TCPHeader.doff h) with (TCPHeader.doff (TCPSegment.header s)). lia. }
  intros b Hbo Hbs.
  destruct (header_reads h (Buffer.str (TCPSegment.payload s)) Hok' (NetParser.new b)) as (p' & Hp & Hat).
  { rewrite <- Hc, <- Hbs. by apply stands_at_new. }
  exists (NetParser.buffer p'). unfold TCPSegment.parse. rewrite Hbs, Hc, Hz. cbn [Z.eqb negb].
  rewrite Hp. cbn [mbind result_bind]. destruct Hat as (? & ? & ?).
  split; [|done]. do 2 f_equal. done.
Qed.

(** C26. Round trip of a segment: [TCPSegment::serialize] succeeds on every
    well-formed segment, and [TCPSegment::parse] of its bytes, over the same
    pseudo-header sum, accepts the checksum and gives back every header member
    (with the checksum field filled in) and the payload, whatever the object
    parsed into held before.  The bound says that the 32-bit accumulator of
    the checksum does not overflow. *)
Theorem segment_roundtrip (s s0 : TCPSegment.t) (init : Z) :
  TCPHeader.ok (TCPSegment.header s) → is_u32 init →
  is_u64 (60 + Buffer.size (TCPSegment.payload s)) →
  is_u32 (init + 0xffff * 21 + word_sum (Buffer.str (TCPSegment.payload s))) →
  ∃ l p, TCPSegment.serialize s init = Ok l ∧
    TCPSegment.parse s0 (Buffer.of_string (BufferList.concatenate l)) init =
      Ok (TCPSegment.mk (TCPHeader.set_cksum (TCPSegment.header s) (segment_cksum s init)) p, NoError) ∧
    Buffer.str p = Buffer.str (TCPSegment.payload s).
Proof.
  intros Hok Hi Hlen Hb. destruct (segment_parse_core s s0 init Hok Hi Hlen Hb) as (l & Hl & Hll & H).
  destruct (H (Buffer.of_string (BufferList.concatenate l))) as (p & Hp & Hs).
  - apply buffer_of_string_ok. rewrite Hll. destruct Hok. revert Hlen. unfold Buffer.size.
    pose proof (blen_nonneg (Buffer.str (TCPSegment.payload s))). unfold_w. lia.
  - apply buffer_str_of_string.
  - by exists l, p.
Qed.

Definition sample_segment : TCPSegment.t :=
  TCPSegment.mk
    (TCPHeader.mk 4321 80 (WrappingInt32.of_raw 0xfffffffe) (WrappingInt32.of_raw 7) 6
       false true false false false true 4096 0 0)
    (Buffer.of_string [Byte.x61; Byte.x62; Byte.x63]).

Lemma sample_header_ok : TCPHeader.ok (TCPSegment.header sample_segment).
Proof. split; range_compute. Qed.

Lemma segment_roundtrip_witness :
  ∃ l p, TCPSegment.serialize sample_segment 6000 = Ok l ∧
    TCPSegment.parse TCPSegment.default (Buffer.of_string (BufferList.concatenate l)) 6000 =
      Ok (TCPSegment.mk (TCPHeader.set_cksum (TCPSegment.header sample_segment)
            (segment_cksum sample_segment 6000)) p, NoError) ∧
    Buffer.str p = [Byte.x61; Byte.x62; Byte.x63].
Proof.
  apply (segment_roundtrip sample_segment TCPSegment.default 6000 sample_header_ok);
    range_compute.
Defined.

(** A header whose data offset is below five words, on the wire. *)
Definition short_header_bytes : bytes := replicate 16 Byte.x00 ++ [Byte.xff; Byte.xff; Byte.x00; Byte.x00].

(** [TCPHeader::parse] reports [HeaderTooShort] on a data offset below five,
    but [TCPSegment::parse] drops that result: the same bytes, with a good
    checksum, are accepted as a segment without error. *)
Theorem segment_parse_drops_header_error :
  (∃ h p, TCPHeader.parse (NetParser.new (Buffer.of_string short_header_bytes)) =
     Ok ((h, HeaderTooShort), p)) ∧
  (∃ s, TCPSegment.parse TCPSegment.default (Buffer.of_string short_header_bytes) 0 = Ok (s, NoError) ∧
     TCPHeader.doff (TCPSegment.header s) = 0).
Proof.
  split.
  - do 2 eexists. vm_compute. reflexivity.
  - eexists. split; [vm_compute; reflexivity|reflexivity].
Qed.
