(* ===== verification/Ipv4.v ===== *)
(** * IPv4 headers and datagrams: tcp_helpers/ipv4_header.* and ipv4_datagram.*

    The wire format of a datagram, the pseudo-header sum that TCP checksums
    start from, and the round trip of [IPv4Datagram::serialize] and [parse]. *)

From S2P Require Import Prelude Buffers Parsing Checksum.

Module IPv4Header.

Definition LENGTH : Z := 20.

Definition DEFAULT_TTL : Z := 128.

Definition PROTO_TCP : Z := 6.

Record t := mk {
  ver : Z;
  hlen : Z;
  tos : Z;
  len : Z;
  id : Z;
  df : bool;
  mf : bool;
  offset : Z;
  ttl : Z;
  proto : Z;
  cksum : Z;
  src : Z;
  dst : Z;
}.

(** The member initialisers. *)
Definition default : t :=
  mk 4 (LENGTH / 4) 0 0 0 true false 0 DEFAULT_TTL PROTO_TCP 0 0 0.

(** Assignments to single members. *)
Definition set_cksum (h : t) (c : Z) : t :=
  mk (ver h) (hlen h) (tos h) (len h) (id h) (df h) (mf h) (offset h) (ttl h) (proto h) c (src h) (dst h).

Definition set_ttl (h : t) (x : Z) : t :=
  mk (ver h) (hlen h) (tos h) (len h) (id h) (df h) (mf h) (offset h) x (proto h) (cksum h) (src h) (dst h).

(** [parse] changes the header [h0], which keeps its members when the data is
    shorter than a header. *)
Definition parse (h0 : t) : NetParser.M (t * ParseResult) :=
  original_serialized_version ← NetParser.rest;
  let data_size := Buffer.size original_serialized_version in
  if data_size <? LENGTH then mret (h0, PacketTooShort)
  else
    first_byte ← NetParser.u8;
    let ver := Z.shiftr first_byte 4 in
    let hlen := Z.land first_byte 0x0f in
    tos ← NetParser.u8;
    len ← NetParser.u16;
    id ← NetParser.u16;
    fo_val ← NetParser.u16;
    let df := flag fo_val 0x4000 in
    let mf := flag fo_val 0x2000 in
    let offset := Z.land fo_val 0x1fff in
    ttl ← NetParser.u8;
    proto ← NetParser.u8;
    cksum ← NetParser.u16;
    src ← NetParser.u32;
    dst ← NetParser.u32;
    let h := mk ver hlen tos len id df mf offset ttl proto cksum src dst in
    if data_size <? 4 * hlen then mret (h, PacketTooShort)
    else if negb (ver =? 4) then mret (h, WrongIPVersion)
    else if hlen <? 5 then mret (h, HeaderTooShort)
    else if negb (data_size =? len) then mret (h, TruncatedPacket)
    else
      _ ← NetParser.skip (w64 (hlen * 4 - LENGTH));
      e ← NetParser.error_state;
      if negb (bool_decide (e = NoError)) then mret (h, e)
      else
        let check := InternetChecksum.add (InternetChecksum.new 0)
          (ztake (4 * hlen) (Buffer.str original_serialized_version)) in
        if negb (InternetChecksum.value check =? 0) then mret (h, BadChecksum)
        else mret (h, NoError).

(** The two bytes that hold the fragmentation flags and offset. *)
Definition fo_val (h : t) : Z :=
  Z.lor (Z.lor (if df h then 0x4000 else 0) (if mf h then 0x2000 else 0)) (Z.land (offset h) 0x1fff).

Definition first_byte (h : t) : Z :=
  w8 (Z.lor (Z.shiftl (ver h) 4) (Z.land (hlen h) 0xf)).

Definition serialize (h : t) : result bytes :=
  if negb (ver h =? 4) then Err (runtime_error "wrong IP version")
  else if 4 * hlen h <? LENGTH then Err (runtime_error "IP header too short")
  else
    let ret := [] in
    let ret := NetUnparser.u8 ret (first_byte h) in
    let ret := NetUnparser.u8 ret (tos h) in
    let ret := NetUnparser.u16 ret (len h) in
    let ret := NetUnparser.u16 ret (id h) in
    let ret := NetUnparser.u16 ret (fo_val h) in
    let ret := NetUnparser.u8 ret (ttl h) in
    let ret := NetUnparser.u8 ret (proto h) in
    let ret := NetUnparser.u16 ret (cksum h) in
    let ret := NetUnparser.u32 ret (src h) in
    let ret := NetUnparser.u32 ret (dst h) in
    Ok (resize ret (4 * hlen h)).

Definition payload_length (h : t) : Z := w16 (len h - 4 * hlen h).

Definition pseudo_cksum (h : t) : Z :=
  let pcksum := w32 (Z.shiftr (src h) 16 + Z.land (src h) 0xffff) in
  let pcksum := w32 (pcksum + w32 (Z.shiftr (dst h) 16 + Z.land (dst h) 0xffff)) in
  let pcksum := w32 (pcksum + proto h) in
  w32 (pcksum + payload_length h).

(** Every member holds a value of its bit field, and the lengths are consistent. *)
Record ok (h : t) : Prop := mk_ok {
  ok_ver : ver h = 4;
  ok_hlen : 5 <= hlen h < 16;
  ok_tos : is_u8 (tos h);
  ok_len : is_u16 (len h);
  ok_id : is_u16 (id h);
  ok_offset : 0 <= offset h < 0x2000;
  ok_ttl : is_u8 (ttl h);
  ok_proto : is_u8 (proto h);
  ok_cksum : is_u16 (cksum h);
  ok_src : is_u32 (src h);
  ok_dst : is_u32 (dst h);
}.

End IPv4Header.

Module IPv4Datagram.

Record t := mk {
  header : IPv4Header.t;       (* _header *)
  payload : BufferList.t;      (* _payload *)
}.

Definition default : t := mk IPv4Header.default [].

(** The result of the header's own [parse] is dropped. *)
Definition parse (d : t) (buffer : Buffer.t) : result (t * ParseResult) :=
  '((h, _), p) ← IPv4Header.parse (header d) (NetParser.new buffer);
  let payload := BufferList.of_buffer (NetParser.buffer p) in
  if negb (BufferList.size payload =? IPv4Header.payload_length h)
  then Ok (mk h payload, PacketTooShort)
  else Ok (mk h payload, NetParser.get_error p).

Definition serialize (d : t) : result BufferList.t :=
  if negb (BufferList.size (payload d) =? IPv4Header.payload_length (header d))
  then Err (runtime_error "IPv4Datagram::serialize: payload is wrong size")
  else
    let header_out := IPv4Header.set_cksum (header d) 0 in
    header_zero_checksum ← IPv4Header.serialize header_out;
    let check := InternetChecksum.add (InternetChecksum.new 0) header_zero_checksum in
    let header_out := IPv4Header.set_cksum header_out (InternetChecksum.value check) in
    hdr ← IPv4Header.serialize header_out;
    Ok (BufferList.append (BufferList.append [] (BufferList.of_string hdr)) (payload d)).

End IPv4Datagram.

(** ** The header on the wire *)

Definition ip_front (h : IPv4Header.t) : bytes :=
  NetUnparser.unparse_bytes 1 (IPv4Header.first_byte h) ++
  NetUnparser.unparse_bytes 1 (IPv4Header.tos h) ++
  NetUnparser.unparse_bytes 2 (IPv4Header.len h) ++
  NetUnparser.unparse_bytes 2 (IPv4Header.id h) ++
  NetUnparser.unparse_bytes 2 (IPv4Header.fo_val h) ++
  NetUnparser.unparse_bytes 1 (IPv4Header.ttl h) ++
  NetUnparser.unparse_bytes 1 (IPv4Header.proto h).

Definition ip_back (h : IPv4Header.t) : bytes :=
  NetUnparser.unparse_bytes 4 (IPv4Header.src h) ++
  NetUnparser.unparse_bytes 4 (IPv4Header.dst h).

Definition ip_bytes (h : IPv4Header.t) : bytes :=
  ip_front h ++ NetUnparser.unparse_bytes 2 (IPv4Header.cksum h) ++ ip_back h.

Definition ip_padding (h : IPv4Header.t) : bytes :=
  replicate (Z.to_nat (4 * IPv4Header.hlen h - 20)) Byte.x00.

Lemma blen_ip_bytes h : blen (ip_bytes h) = 20.
Proof. unfold ip_bytes, ip_front, ip_back. by rewrite !blen_app, !blen_unparse. Qed.

Lemma blen_ip_padding h :
  5 <= IPv4Header.hlen h → blen (ip_padding h) = 4 * IPv4Header.hlen h - 20.
Proof. intros. unfold ip_padding, blen. rewrite length_replicate. lia. Qed.

Lemma ip_serialize_spec h :
  IPv4Header.ver h = 4 → 5 <= IPv4Header.hlen h →
  IPv4Header.serialize h = Ok (ip_bytes h ++ ip_padding h).
Proof.
  intros Hv Hd. unfold IPv4Header.serialize, IPv4Header.LENGTH. rewrite Hv. cbn [Z.eqb Pos.eqb negb].
  rewrite (proj2 (Z.ltb_ge _ _)) by lia.
  unfold NetUnparser.u8, NetUnparser.u16, NetUnparser.u32, NetUnparser.unparse_int.
  cbv zeta. rewrite app_nil_l.
  match goal with |- context [resize ?x] => replace x with (ip_bytes h) end.
  2:{ unfold ip_bytes, ip_front, ip_back. by rewrite <- !app_assoc. }
  rewrite resize_pad; rewrite blen_ip_bytes; [done|lia].
Qed.

Lemma first_byte_spec h :
  IPv4Header.ok h →
  is_u8 (IPv4Header.first_byte h) ∧ Z.shiftr (IPv4Header.first_byte h) 4 = IPv4Header.ver h ∧
  Z.land (IPv4Header.first_byte h) 0x0f = IPv4Header.hlen h.
Proof.
  intros []. unfold IPv4Header.first_byte. rewrite ok_ver.
  assert (Hc : ∀ x, 5 ≤ x < 16 → x = 5 ∨ x = 6 ∨ x = 7 ∨ x = 8 ∨ x = 9 ∨ x = 10 ∨ x = 11 ∨
    x = 12 ∨ x = 13 ∨ x = 14 ∨ x = 15) by lia.
  destruct (Hc _ ok_hlen) as [->|[->|[->|[->|[->|[->|[->|[->|[->|[->| ->]]]]]]]]]];
    vm_compute; repeat split; congruence.
Qed.

(** A value below [2^n] has no bit in common with a multiple of [2^n]. *)
Lemma land_low_high o k n : 0 <= n → 0 <= o < 2 ^ n → Z.land o (Z.shiftl k n) = 0.
Proof.
  intros Hn Ho. apply Z.bits_inj'. intros i Hi. rewrite Z.land_spec, Z.bits_0.
  destruct (decide (i < n)).
  - rewrite Z.shiftl_spec_low by done. by rewrite andb_false_r.
  - rewrite <- (Z.mod_small o (2 ^ n)), Z.mod_pow2_bits_high by lia. done.
Qed.

Lemma fo_val_spec h :
  IPv4Header.ok h →
  is_u16 (IPv4Header.fo_val h) ∧ flag (IPv4Header.fo_val h) 0x4000 = IPv4Header.df h ∧
  flag (IPv4Header.fo_val h) 0x2000 = IPv4Header.mf h ∧
  Z.land (IPv4Header.fo_val h) 0x1fff = IPv4Header.offset h.
Proof.
  intros []. unfold IPv4Header.fo_val, flag.
  change 0x1fff with (Z.ones 13). rewrite (Z.land_ones (IPv4Header.offset h)) by lia.
  change (2 ^ 13) with 0x2000. rewrite Z.mod_small by done.
  set (o := IPv4Header.offset h) in *.
  assert (Hk : ∃ k, 0 <= k < 4 ∧ Z.lor (if IPv4Header.df h then 0x4000 else 0)
    (if IPv4Header.mf h then 0x2000 else 0) = Z.shiftl k 13 ∧
    (negb (Z.land k 2 =? 0) = IPv4Header.df h) ∧ (negb (Z.land k 1 =? 0) = IPv4Header.mf h)).
  { destruct (IPv4Header.df h), (IPv4Header.mf h); [exists 3|exists 2|exists 1|exists 0]; done. }
  destruct Hk as (k & Hk & -> & <- & <-).
  rewrite !Z.land_lor_distr_l.
  change 0x4000 with (Z.shiftl 2 13). change 0x2000 with (Z.shiftl 1 13).
  rewrite !(land_low_high o) by lia. rewrite !Z.lor_0_r, <- !Z.shiftl_land.
  rewrite !Z.land_ones by lia. change (2 ^ 13) with 0x2000. rewrite (Z.mod_small o) by done.
  assert (Hm : Z.shiftl k 13 mod 0x2000 = 0) by (rewrite Z.shiftl_mul_pow2 by lia; apply Z.mod_mul; lia).
  rewrite Hm, Z.lor_0_l. split.
  - pose proof (Z.add_lor_land o (Z.shiftl k 13)) as E. rewrite land_low_high, Z.lor_comm in E by lia.
    rewrite Z.shiftl_mul_pow2 in E |- * by lia. change (2 ^ 13) with 0x2000 in *. unfold_w. lia.
  - assert (k = 0 ∨ k = 1 ∨ k = 2 ∨ k = 3) as [->|[->|[->| ->]]] by lia; done.
Qed.

Lemma ip_header_sum h :
  5 <= IPv4Header.hlen h →
  InternetChecksum.add (InternetChecksum.new 0) (ip_bytes h ++ ip_padding h) =
  InternetChecksum.mk (word_sum (ip_bytes h)) false.
Proof.
  intros Hd. unfold InternetChecksum.new.
  pose proof (word_sum_bounds (ip_bytes h)) as Hb. rewrite blen_ip_bytes in Hb.
  assert (Hs : word_sum (ip_bytes h ++ ip_padding h) = word_sum (ip_bytes h)).
  { rewrite word_sum_app by (by rewrite blen_ip_bytes). unfold ip_padding.
    rewrite word_sum_zeros. lia. }
  rewrite add_spec by (rewrite ?Hs; unfold_w; lia). rewrite Hs, blen_app, blen_ip_bytes, blen_ip_padding by done.
  f_equal. replace (20 + (4 * IPv4Header.hlen h - 20)) with (2 * (2 * IPv4Header.hlen h)) by lia.
  by rewrite Z.even_mul.
Qed.

(** The checksum that [IPv4Datagram::serialize] fills in. *)
Definition ip_cksum (h : IPv4Header.t) : Z :=
  InternetChecksum.value (InternetChecksum.mk (word_sum (ip_bytes (IPv4Header.set_cksum h 0))) false).

Lemma word_sum_ip h c :
  is_u16 c →
  word_sum (ip_bytes (IPv4Header.set_cksum h c)) = word_sum (ip_bytes (IPv4Header.set_cksum h 0)) + c.
Proof.
  intros Hc. unfold ip_bytes.
  change (ip_front (IPv4Header.set_cksum h c)) with (ip_front h).
  change (ip_front (IPv4Header.set_cksum h 0)) with (ip_front h).
  rewrite !word_sum_app by (unfold ip_front; by rewrite ?blen_app, ?blen_unparse).
  cbn [IPv4Header.set_cksum IPv4Header.cksum].
  change (ip_back (IPv4Header.set_cksum h c)) with (ip_back (IPv4Header.set_cksum h 0)).
  rewrite (word_sum_unparse2 c), (word_sum_unparse2 0) by (done || (unfold_w; lia)). lia.
Qed.

Lemma ip_sum_cancels h :
  5 <= IPv4Header.hlen h →
  let h' := IPv4Header.set_cksum h (ip_cksum h) in
  InternetChecksum.value (InternetChecksum.add (InternetChecksum.new 0) (ip_bytes h' ++ ip_padding h')) = 0.
Proof.
  intros Hd h'. rewrite ip_header_sum by done. subst h'.
  rewrite word_sum_ip by apply value_range.
  pose proof (word_sum_bounds (ip_bytes (IPv4Header.set_cksum h 0))) as Hb. rewrite blen_ip_bytes in Hb.
  apply checksum_cancels; unfold_w; lia.
Qed.

Lemma ip_datagram_serialize_spec d :
  IPv4Header.ok (IPv4Datagram.header d) →
  BufferList.size (IPv4Datagram.payload d) = IPv4Header.payload_length (IPv4Datagram.header d) →
  ∃ l, IPv4Datagram.serialize d = Ok l ∧
    let h := IPv4Header.set_cksum (IPv4Datagram.header d) (ip_cksum (IPv4Datagram.header d)) in
    BufferList.concatenate l = (ip_bytes h ++ ip_padding h) ++ BufferList.concatenate (IPv4Datagram.payload d).
Proof.
  intros [] Hs. unfold IPv4Datagram.serialize. rewrite Hs, Z.eqb_refl. cbn [negb].
  rewrite ip_serialize_spec by (simpl; lia). cbn [mbind result_bind].
  rewrite ip_header_sum by (simpl; lia). rewrite ip_serialize_spec by (simpl; lia).
  cbn [mbind result_bind]. eexists. split; [done|].
  rewrite !concatenate_app, concatenate_of_string. done.
Qed.

(** Parsing what [serialize] wrote gives the header back, with every check of
    [parse] passed, and stops at the payload. *)
Lemma ip_header_reads h0 h payload :
  IPv4Header.ok h → blen payload = IPv4Header.len h - 4 * IPv4Header.hlen h →
  InternetChecksum.value (InternetChecksum.add (InternetChecksum.new 0) (ip_bytes h ++ ip_padding h)) = 0 →
  reads (IPv4Header.parse h0) ((ip_bytes h ++ ip_padding h) ++ payload) (h, NoError) payload.
Proof.
  intros Hok Hlen Hck. pose proof Hok as []. unfold IPv4Header.parse.
  destruct (first_byte_spec h Hok) as (Hb8 & Hver & Hhlen).
  destruct (fo_val_spec h Hok) as (Hf16 & Hdf & Hmf & Hoff).
  set (s := (ip_bytes h ++ ip_padding h) ++ payload) in *. pose proof (blen_nonneg payload).
  apply reads_rest. intros orig _ Hstr.
  assert (Hsz : Buffer.size orig = IPv4Header.len h).
  { unfold Buffer.size. rewrite Hstr. subst s.
    rewrite !blen_app, blen_ip_bytes, blen_ip_padding by lia. lia. }
  rewrite Hsz. unfold IPv4Header.LENGTH. rewrite (proj2 (Z.ltb_ge _ _)) by lia.
  assert (Ht : ztake (4 * IPv4Header.hlen h) (Buffer.str orig) = ip_bytes h ++ ip_padding h).
  { rewrite Hstr. subst s.
    rewrite ztake_app_l, ztake_all; rewrite ?blen_app, ?blen_ip_bytes, ?blen_ip_padding by lia; done || lia. }
  subst s. unfold ip_bytes at 1, ip_front, ip_back. rewrite <- !app_assoc.
  eapply reads_bind; [by apply reads_u8|]. rewrite Hver, Hhlen, Ht, Hck.
  eapply reads_bind; [by apply reads_u8|].
  eapply reads_bind; [by apply reads_u16|].
  eapply reads_bind; [by apply reads_u16|].
  eapply reads_bind; [by apply reads_u16|]. rewrite Hdf, Hmf, Hoff.
  eapply reads_bind; [by apply reads_u8|].
  eapply reads_bind; [by apply reads_u8|].
  eapply reads_bind; [by apply reads_u16|].
  eapply reads_bind; [by apply reads_u32|].
  eapply reads_bind; [by apply reads_u32|].
  cbv zeta. rewrite !(proj2 (Z.ltb_ge _ _)) by lia. rewrite ok_ver, !Z.eqb_refl. cbn [Z.eqb Pos.eqb negb].
  rewrite w64_small by (unfold_w; lia).
  replace (IPv4Header.hlen h * 4 - 20) with (blen (ip_padding h)) by (rewrite blen_ip_padding; lia).
  eapply reads_bind; [apply reads_skip|].
  eapply reads_bind; [apply reads_error_state|].
  cbn. rewrite <- ok_ver. destruct h. apply reads_ret.
Qed.

(** Serialising a datagram whose payload has the announced length, and parsing
    any buffer that holds the bytes. *)
Lemma datagram_parse_core (d d0 : IPv4Datagram.t) :
  IPv4Header.ok (IPv4Datagram.header d) →
  4 * IPv4Header.hlen (IPv4Datagram.header d) <= IPv4Header.len (IPv4Datagram.header d) →
  blen (BufferList.concatenate (IPv4Datagram.payload d)) =
    IPv4Header.len (IPv4Datagram.header d) - 4 * IPv4Header.hlen (IPv4Datagram.header d) →
  let h := IPv4Header.set_cksum (IPv4Datagram.header d) (ip_cksum (IPv4Datagram.header d)) in
  ∃ l, IPv4Datagram.serialize d = Ok l ∧
    blen (BufferList.concatenate l) = IPv4Header.len (IPv4Datagram.header d) ∧
    ∀ b, Buffer.ok b → Buffer.str b = BufferList.concatenate l →
    ∃ p, (∃ q, IPv4Header.parse (IPv4Datagram.header d0) (NetParser.new b) = Ok ((h, NoError), q)) ∧
    IPv4Datagram.parse d0 b = Ok (IPv4Datagram.mk h (BufferList.of_buffer p), NoError) ∧
    Buffer.ok p ∧ Buffer.str p = BufferList.concatenate (IPv4Datagram.payload d).
Proof.
  intros Hok Hle Hlen h. set (h1 := IPv4Datagram.header d) in *. pose proof Hok as [].
  pose proof (blen_nonneg (BufferList.concatenate (IPv4Datagram.payload d))) as Hn.
  assert (Hpl : IPv4Header.payload_length h1 = IPv4Header.len h1 - 4 * IPv4Header.hlen h1).
  { unfold IPv4Header.payload_length. apply w16_small. revert ok_len. unfold_w. lia. }
  assert (Hok' : IPv4Header.ok h). { split; try done. apply value_range. }
  destruct (ip_datagram_serialize_spec d Hok) as (l & Hl & Hc).
  { rewrite buffer_list_size_spec; fold h1; [lia|]. rewrite Hlen. revert ok_len. unfold_w. lia. }
  cbv zeta in Hc. fold h1 in Hc. fold h in Hc.
  pose proof (ip_sum_cancels h1 ltac:(lia)) as Hz. cbv zeta in Hz. fold h in Hz.
  exists l. split; [done|]. split.
  { rewrite Hc, !blen_app, blen_ip_bytes, blen_ip_padding by (simpl; lia). simpl. lia. }
  intros b Hb Hbs.
  destruct (ip_header_reads (IPv4Datagram.header d0) h (BufferList.concatenate (IPv4Datagram.payload d)) Hok' Hlen Hz
    (NetParser.new b)) as (q & Hq & Hat).
  { rewrite <- Hc, <- Hbs. by apply stands_at_new. }
  exists (NetParser.buffer q).
  split; [by exists q|]. destruct Hat as (Hbo & Hstr & He).
  unfold IPv4Datagram.parse. rewrite Hq. cbn [mbind result_bind].
  assert (Hcat : BufferList.concatenate (BufferList.of_buffer (NetParser.buffer q)) =
    BufferList.concatenate (IPv4Datagram.payload d)) by (simpl; by rewrite Hstr, app_nil_r).
  change (IPv4Header.payload_length h) with (IPv4Header.payload_length h1).
  rewrite buffer_list_size_spec; rewrite Hcat, Hlen; [|revert ok_len; unfold_w; lia].
  rewrite Hpl, Z.eqb_refl. split; [|done]. cbn [negb]. unfold NetParser.get_error. by rewrite He.
Qed.

(** C27. Round trip of a datagram: [IPv4Datagram::serialize] succeeds whenever
    the payload has the length the header announces, the header parser accepts
    the bytes with every one of its checks passed, the header checksum
    included, and [IPv4Datagram::parse] gives back the header (with its checksum
    filled in) and the payload bytes. *)
Theorem datagram_roundtrip (d d0 : IPv4Datagram.t) :
  IPv4Header.ok (IPv4Datagram.header d) →
  4 * IPv4Header.hlen (IPv4Datagram.header d) <= IPv4Header.len (IPv4Datagram.header d) →
  blen (BufferList.concatenate (IPv4Datagram.payload d)) =
    IPv4Header.len (IPv4Datagram.header d) - 4 * IPv4Header.hlen (IPv4Datagram.header d) →
  let h := IPv4Header.set_cksum (IPv4Datagram.header d) (ip_cksum (IPv4Datagram.header d)) in
  ∃ l p, IPv4Datagram.serialize d = Ok l ∧
    let b := Buffer.of_string (BufferList.concatenate l) in
    (∃ q, IPv4Header.parse (IPv4Datagram.header d0) (NetParser.new b) = Ok ((h, NoError), q)) ∧
    IPv4Datagram.parse d0 b = Ok (IPv4Datagram.mk h p, NoError) ∧
    BufferList.concatenate p = BufferList.concatenate (IPv4Datagram.payload d).
Proof.
  intros Hok Hle Hlen h. destruct (datagram_parse_core d d0 Hok Hle Hlen) as (l & Hl & Hll & H).
  destruct (H (Buffer.of_string (BufferList.concatenate l))) as (p & Hq & Hp & _ & Hs).
  - apply buffer_of_string_ok. rewrite Hll. destruct Hok. revert ok_len. unfold_w. lia.
  - apply buffer_str_of_string.
  - exists l, (BufferList.of_buffer p). split; [done|]. split; [done|]. split; [done|].
    simpl. by rewrite Hs, app_nil_r.
Qed.

Definition sample_datagram : IPv4Datagram.t :=
  IPv4Datagram.mk
    (IPv4Header.mk 4 6 0 27 77 true false 0 64 6 0 0x0a000001 0xc0a80102)
    [Buffer.of_string [Byte.x61]; Buffer.of_string [Byte.x62; Byte.x63]].

Lemma sample_ip_header_ok : IPv4Header.ok (IPv4Datagram.header sample_datagram).
Proof. split; range_compute. Qed.

Lemma datagram_roundtrip_witness :
  ∃ l p, IPv4Datagram.serialize sample_datagram = Ok l ∧
    let h := IPv4Header.set_cksum (IPv4Datagram.header sample_datagram)
      (ip_cksum (IPv4Datagram.header sample_datagram)) in
    let b := Buffer.of_string (BufferList.concatenate l) in
    (∃ q, IPv4Header.parse IPv4Header.default (NetParser.new b) = Ok ((h, NoError), q)) ∧
    IPv4Datagram.parse IPv4Datagram.default b = Ok (IPv4Datagram.mk h p, NoError) ∧
    BufferList.concatenate p = [Byte.x61; Byte.x62; Byte.x63].
Proof.
  apply (datagram_roundtrip sample_datagram IPv4Datagram.default sample_ip_header_ok);
    range_compute.
Defined.

(** [IPv4Header::parse] makes the checks its comment lists: when it
    reports no error, the version is 4, the header is at least five words
    and lies inside the data, the data has exactly the announced length, and
    the checksum over the whole header is right. *)
Theorem ipv4_header_parse_checks (h0 h : IPv4Header.t) (b : Buffer.t) (q : NetParser.t) :
  IPv4Header.parse h0 (NetParser.new b) = Ok ((h, NoError), q) →
  IPv4Header.ver h = 4 ∧ 5 <= IPv4Header.hlen h ∧
  4 * IPv4Header.hlen h <= Buffer.size b ∧ Buffer.size b = IPv4Header.len h ∧
  InternetChecksum.value (InternetChecksum.add (InternetChecksum.new 0)
    (ztake (4 * IPv4Header.hlen h) (Buffer.str b))) = 0.
Proof.
  intros H. unfold IPv4Header.parse in H.
  apply parser_bind_inv in H as (o & p0 & E & H). injection E as <- <-. cbn [NetParser.buffer NetParser.new] in H.
  destruct (Z.ltb_spec (Buffer.size b) IPv4Header.LENGTH) as [|Hs]; [discriminate H|].
  parser_inv H. repeat case_match; try discriminate; try (apply parser_bind_inv in H as (? & ? & ? & H)).
  all: apply parser_bind_inv in H as (e & ? & He & H);
    destruct (bool_decide_reflect (e = NoError)); cbn [negb] in H; injection H as <- ?; try congruence.
  bool_to_prop. done.
Qed.

(** A datagram of one bare header whose checksum is wrong. *)
Definition bad_checksum_bytes : bytes :=
  [Byte.x45; Byte.x00; Byte.x00; Byte.x14] ++ replicate 16 Byte.x00.

(** The same header with the right checksum. *)
Definition good_checksum_bytes : bytes :=
  [Byte.x45; Byte.x00; Byte.x00; Byte.x14] ++ replicate 6 Byte.x00 ++ [Byte.xba; Byte.xeb] ++
  replicate 8 Byte.x00.

Lemma ipv4_header_parse_checks_witness :
  ∃ h, IPv4Header.ver h = 4 ∧ 5 <= IPv4Header.hlen h ∧
    Buffer.size (Buffer.of_string good_checksum_bytes) = IPv4Header.len h.
Proof.
  destruct (IPv4Header.parse IPv4Header.default (NetParser.new (Buffer.of_string good_checksum_bytes)))
    as [[[h e] q]|] eqn:E; [|vm_compute in E; discriminate E].
  assert (e = NoError) as -> by (vm_compute in E; congruence).
  apply ipv4_header_parse_checks in E. exists h. tauto.
Defined.

(** [IPv4Datagram::parse] drops the verdict of its header parser: on a
    datagram whose header checksum is wrong the header parser reports
    [BadChecksum], and the datagram parser reports no error. *)
Theorem datagram_parse_drops_header_error :
  let b := Buffer.of_string bad_checksum_bytes in
  (∃ h p, IPv4Header.parse IPv4Header.default (NetParser.new b) = Ok ((h, BadChecksum), p)) ∧
  (∃ d, IPv4Datagram.parse IPv4Datagram.default b = Ok (d, NoError)).
Proof.
  split.
  - do 2 eexists. vm_compute. reflexivity.
  - eexists. vm_compute. reflexivity.
Qed.
