(* ===== verification/Link.v ===== *)
(** * The link layer: tcp_helpers/ethernet_header.*, ethernet_frame.*, arp_message.*

    Ethernet frames and ARP messages on the wire, and their round trips. *)

From S2P Require Import Prelude Buffers Parsing.

(** [std::array<uint8_t, 6>]: six bytes. *)
Definition EthernetAddress : Type := bytes.

Definition address_ok (a : EthernetAddress) : Prop := length a = 6%nat.

Definition ETHERNET_BROADCAST : EthernetAddress := replicate 6 Byte.xff.

(** The value-initialised address. *)
Definition zero_address : EthernetAddress := replicate 6 Byte.x00.

(** [for (auto &byte : a) NetUnparser::u8(ret, byte);] *)
Definition unparse_address (ret : bytes) (a : EthernetAddress) : bytes :=
  foldl (λ ret b, NetUnparser.u8 ret (b2z b)) ret a.

Module EthernetHeader.

Definition LENGTH : Z := 14.

Definition TYPE_IPv4 : Z := 0x800.

Definition TYPE_ARP : Z := 0x806.

Record t := mk {
  dst : EthernetAddress;
  src : EthernetAddress;
  type : Z;
}.

Definition default : t := mk zero_address zero_address 0.

Definition parse (h0 : t) : NetParser.M (t * ParseResult) :=
  b ← NetParser.rest;
  if Buffer.size b <? LENGTH then mret (h0, PacketTooShort)
  else
    dst ← NetParser.u8_array 6;
    src ← NetParser.u8_array 6;
    type ← NetParser.u16;
    e ← NetParser.error_state;
    mret (mk dst src type, e).

Definition serialize (h : t) : bytes :=
  let ret := [] in
  let ret := unparse_address ret (dst h) in
  let ret := unparse_address ret (src h) in
  NetUnparser.u16 ret (type h).

Record ok (h : t) : Prop := mk_ok {
  ok_dst : address_ok (dst h);
  ok_src : address_ok (src h);
  ok_type : is_u16 (type h);
}.

End EthernetHeader.

Module EthernetFrame.

Record t := mk {
  header : EthernetHeader.t;   (* _header *)
  payload : BufferList.t;      (* _payload *)
}.

Definition default : t := mk EthernetHeader.default [].

(** The result of the header's own [parse] is dropped. *)
Definition parse (f : t) (buffer : Buffer.t) : result (t * ParseResult) :=
  '((h, _), p) ← EthernetHeader.parse (header f) (NetParser.new buffer);
  Ok (mk h (BufferList.of_buffer (NetParser.buffer p)), NetParser.get_error p).

Definition serialize (f : t) : BufferList.t :=
  BufferList.append (BufferList.append [] (BufferList.of_string (EthernetHeader.serialize (header f))))
    (payload f).

End EthernetFrame.

Module ARPMessage.

Definition LENGTH : Z := 28.

Definition TYPE_ETHERNET : Z := 1.

Definition OPCODE_REQUEST : Z := 1.

Definition OPCODE_REPLY : Z := 2.

Record t := mk {
  hardware_type : Z;
  protocol_type : Z;
  hardware_address_size : Z;
  protocol_address_size : Z;
  opcode : Z;
  sender_ethernet_address : EthernetAddress;
  sender_ip_address : Z;
  target_ethernet_address : EthernetAddress;
  target_ip_address : Z;
}.

(** The member initialisers; [sizeof(EthernetHeader::src)] is 6 and
    [sizeof(IPv4Header::src)] is 4. *)
Definition default : t :=
  mk TYPE_ETHERNET EthernetHeader.TYPE_IPv4 6 4 0 zero_address 0 zero_address 0.

Definition supported (m : t) : bool :=
  (hardware_type m =? TYPE_ETHERNET) && (protocol_type m =? EthernetHeader.TYPE_IPv4) &&
  (hardware_address_size m =? 6) && (protocol_address_size m =? 4) &&
  ((opcode m =? OPCODE_REQUEST) || (opcode m =? OPCODE_REPLY)).

(** The five fixed fields are assigned before the message is found unsupported. *)
Definition parse_fields (m0 : t) : NetParser.M (t * ParseResult) :=
  b ← NetParser.rest;
  if Buffer.size b <? LENGTH then mret (m0, PacketTooShort)
  else
    hardware_type ← NetParser.u16;
    protocol_type ← NetParser.u16;
    hardware_address_size ← NetParser.u8;
    protocol_address_size ← NetParser.u8;
    opcode ← NetParser.u16;
    let m := mk hardware_type protocol_type hardware_address_size protocol_address_size opcode
      (sender_ethernet_address m0) (sender_ip_address m0)
      (target_ethernet_address m0) (target_ip_address m0) in
    if negb (supported m) then mret (m, Unsupported)
    else
      sender_ethernet_address ← NetParser.u8_array 6;
      sender_ip_address ← NetParser.u32;
      target_ethernet_address ← NetParser.u8_array 6;
      target_ip_address ← NetParser.u32;
      e ← NetParser.error_state;
      mret (mk hardware_type protocol_type hardware_address_size protocol_address_size opcode
        sender_ethernet_address sender_ip_address target_ethernet_address target_ip_address, e).

Definition parse (m0 : t) (buffer : Buffer.t) : result (t * ParseResult) :=
  '(r, _) ← parse_fields m0 (NetParser.new buffer); Ok r.

Definition serialize (m : t) : result bytes :=
  if negb (supported m) then
    Err (runtime_error "ARPMessage::serialize(): unsupported field combination (must be Ethernet/IP, and request or reply)")
  else
    let ret := [] in
    let ret := NetUnparser.u16 ret (hardware_type m) in
    let ret := NetUnparser.u16 ret (protocol_type m) in
    let ret := NetUnparser.u8 ret (hardware_address_size m) in
    let ret := NetUnparser.u8 ret (protocol_address_size m) in
    let ret := NetUnparser.u16 ret (opcode m) in
    let ret := unparse_address ret (sender_ethernet_address m) in
    let ret := NetUnparser.u32 ret (sender_ip_address m) in
    let ret := unparse_address ret (target_ethernet_address m) in
    let ret := NetUnparser.u32 ret (target_ip_address m) in
    Ok ret.

Record ok (m : t) : Prop := mk_ok {
  ok_supported : supported m = true;
  ok_sender : address_ok (sender_ethernet_address m);
  ok_sender_ip : is_u32 (sender_ip_address m);
  ok_target : address_ok (target_ethernet_address m);
  ok_target_ip : is_u32 (target_ip_address m);
}.

End ARPMessage.

(** ** Round trips *)

Lemma unparse_address_spec ret a : unparse_address ret a = ret ++ a.
Proof.
  unfold unparse_address. revert ret. induction a as [|b a IH]; intros ret; simpl.
  - by rewrite app_nil_r.
  - rewrite IH. unfold NetUnparser.u8, NetUnparser.unparse_int. by rewrite unparse_byte, <- app_assoc.
Qed.

Lemma reads_address a rest : address_ok a → reads (NetParser.u8_array 6) (a ++ rest) a rest.
Proof. intros H. rewrite <- H. apply reads_u8_array. Qed.

Definition frame_header_bytes (h : EthernetHeader.t) : bytes :=
  EthernetHeader.dst h ++ EthernetHeader.src h ++ NetUnparser.unparse_bytes 2 (EthernetHeader.type h).

Lemma frame_header_serialize h : EthernetHeader.serialize h = frame_header_bytes h.
Proof.
  unfold EthernetHeader.serialize, frame_header_bytes, NetUnparser.u16, NetUnparser.unparse_int.
  cbv zeta. by rewrite !unparse_address_spec, app_nil_l, <- app_assoc.
Qed.

Lemma blen_address a : address_ok a → blen a = 6.
Proof. unfold address_ok, blen. lia. Qed.

Lemma blen_frame_header h : EthernetHeader.ok h → blen (frame_header_bytes h) = 14.
Proof. intros []. unfold frame_header_bytes. by rewrite !blen_app, blen_unparse, !blen_address. Qed.

Lemma frame_header_reads h0 h rest :
  EthernetHeader.ok h →
  reads (EthernetHeader.parse h0) (frame_header_bytes h ++ rest) (h, NoError) rest.
Proof.
  intros Hok. unfold EthernetHeader.parse. apply reads_rest. intros b _ Hb.
  pose proof (blen_nonneg rest).
  rewrite (proj2 (Z.ltb_ge _ _)).
  2:{ unfold Buffer.size, EthernetHeader.LENGTH. rewrite Hb, blen_app, blen_frame_header by done. lia. }
  destruct Hok. unfold frame_header_bytes. rewrite <- !app_assoc.
  eapply reads_bind; [by apply reads_address|].
  eapply reads_bind; [by apply reads_address|].
  eapply reads_bind; [by apply reads_u16|].
  eapply reads_bind; [apply reads_error_state|].
  destruct h. apply reads_ret.
Qed.

Lemma frame_roundtrip_core (f f0 : EthernetFrame.t) :
  EthernetHeader.ok (EthernetFrame.header f) →
  is_u64 (14 + blen (BufferList.concatenate (EthernetFrame.payload f))) →
  ∃ b, EthernetFrame.parse f0
      (Buffer.of_string (BufferList.concatenate (EthernetFrame.serialize f))) =
      Ok (EthernetFrame.mk (EthernetFrame.header f) (BufferList.of_buffer b), NoError) ∧
    Buffer.ok b ∧ Buffer.str b = BufferList.concatenate (EthernetFrame.payload f).
Proof.
  intros Hok Hlen.
  assert (Hc : BufferList.concatenate (EthernetFrame.serialize f) =
    frame_header_bytes (EthernetFrame.header f) ++ BufferList.concatenate (EthernetFrame.payload f)).
  { unfold EthernetFrame.serialize. by rewrite !concatenate_app, concatenate_of_string, frame_header_serialize. }
  rewrite Hc. set (s := _ ++ _) in *.
  destruct (frame_header_reads (EthernetFrame.header f0) _ (BufferList.concatenate (EthernetFrame.payload f)) Hok
    (NetParser.new (Buffer.of_string s))) as (q & Hq & Hbo & Hstr & He).
  { apply stands_at_string. subst s. by rewrite blen_app, blen_frame_header. }
  exists (NetParser.buffer q). unfold EthernetFrame.parse. rewrite Hq.
  cbn [mbind result_bind]. unfold NetParser.get_error. by rewrite He.
Qed.

(** Round trip of an Ethernet frame: parsing the bytes of a serialised
    frame gives back both addresses, the type and the payload bytes. *)
Theorem frame_roundtrip (f f0 : EthernetFrame.t) :
  EthernetHeader.ok (EthernetFrame.header f) →
  is_u64 (14 + blen (BufferList.concatenate (EthernetFrame.payload f))) →
  ∃ p, EthernetFrame.parse f0
      (Buffer.of_string (BufferList.concatenate (EthernetFrame.serialize f))) =
      Ok (EthernetFrame.mk (EthernetFrame.header f) p, NoError) ∧
    BufferList.concatenate p = BufferList.concatenate (EthernetFrame.payload f).
Proof.
  intros Hok Hlen. destruct (frame_roundtrip_core f f0 Hok Hlen) as (b & Hb & _ & Hs).
  exists (BufferList.of_buffer b). split; [done|]. simpl. by rewrite Hs, app_nil_r.
Qed.

Definition sample_frame : EthernetFrame.t :=
  EthernetFrame.mk (EthernetHeader.mk ETHERNET_BROADCAST zero_address EthernetHeader.TYPE_ARP)
    [Buffer.of_string [Byte.x01]; Buffer.of_string [Byte.x02]].

Lemma frame_roundtrip_witness :
  ∃ p, EthernetFrame.parse EthernetFrame.default
      (Buffer.of_string (BufferList.concatenate (EthernetFrame.serialize sample_frame))) =
      Ok (EthernetFrame.mk (EthernetFrame.header sample_frame) p, NoError) ∧
    BufferList.concatenate p = [Byte.x01; Byte.x02].
Proof.
  apply (frame_roundtrip sample_frame EthernetFrame.default); [split|]; range_compute.
Defined.

(** A frame shorter than an Ethernet header is not an error for
    [EthernetFrame::parse], which drops the [PacketTooShort] of its header
    parser: the frame keeps the header it had, and takes all the bytes as
    payload. *)
Theorem short_frame_accepted (f0 : EthernetFrame.t) (b : Buffer.t) :
  Buffer.size b < EthernetHeader.LENGTH →
  EthernetHeader.parse (EthernetFrame.header f0) (NetParser.new b) =
    Ok ((EthernetFrame.header f0, PacketTooShort), NetParser.new b) ∧
  EthernetFrame.parse f0 b =
    Ok (EthernetFrame.mk (EthernetFrame.header f0) (BufferList.of_buffer b), NoError).
Proof.
  intros Hs.
  assert (E : EthernetHeader.parse (EthernetFrame.header f0) (NetParser.new b) =
    Ok ((EthernetFrame.header f0, PacketTooShort), NetParser.new b)).
  { unfold EthernetHeader.parse, mbind, NetParser.M_bind, NetParser.rest. simpl.
    by rewrite (proj2 (Z.ltb_lt _ _)) by done. }
  split; [done|]. unfold EthernetFrame.parse. by rewrite E.
Qed.

Lemma short_frame_accepted_witness :
  EthernetFrame.parse EthernetFrame.default (Buffer.of_string [Byte.x01]) =
    Ok (EthernetFrame.mk EthernetHeader.default [Buffer.of_string [Byte.x01]], NoError).
Proof. apply (short_frame_accepted EthernetFrame.default (Buffer.of_string [Byte.x01])). range_compute. Defined.

Lemma arp_roundtrip_core (m m0 : ARPMessage.t) :
  (ARPMessage.supported m = false → ∃ e, ARPMessage.serialize m = Err e) ∧
  (ARPMessage.ok m → ∃ s, ARPMessage.serialize m = Ok s ∧ blen s = ARPMessage.LENGTH ∧
     ∀ b, Buffer.ok b → Buffer.str b = s → ARPMessage.parse m0 b = Ok (m, NoError)).
Proof.
  split; [intros H; unfold ARPMessage.serialize; rewrite H; eauto|].
  intros []. unfold ARPMessage.serialize. rewrite ok_supported. cbn [negb].
  unfold NetUnparser.u8, NetUnparser.u16, NetUnparser.u32, NetUnparser.unparse_int.
  cbv zeta. rewrite !unparse_address_spec. rewrite app_nil_l.
  eexists. split; [done|]. rewrite <- !app_assoc. set (s := _ ++ _).
  assert (Hlen : blen s = 28).
  { subst s. by rewrite !blen_app, !blen_unparse, !blen_address. }
  split; [done|].
  assert (Hr : reads (ARPMessage.parse_fields m0) s (m, NoError) []).
  { apply reads_rest. intros b _ Hb. unfold Buffer.size. rewrite Hb, Hlen. cbn [Z.ltb Z.compare].
    pose proof ok_supported as Hs. unfold ARPMessage.supported in Hs. bool_to_prop.
    subst s. destruct m as [ht pt hs ps oc sea sia tea tia]. simpl in *.
    eapply reads_bind; [apply reads_u16; subst; range_compute|].
    eapply reads_bind; [apply reads_u16; subst; range_compute|].
    eapply reads_bind; [apply reads_u8; subst; range_compute|].
    eapply reads_bind; [apply reads_u8; subst; range_compute|].
    eapply reads_bind; [apply reads_u16; destruct_or!; bool_to_prop; subst; range_compute|].
    cbv zeta. change (ARPMessage.supported _) with
      (ARPMessage.supported (ARPMessage.mk ht pt hs ps oc sea sia tea tia)). rewrite ok_supported. cbn [negb].
    eapply reads_bind; [by apply reads_address|].
    eapply reads_bind; [by apply reads_u32|].
    eapply reads_bind; [by apply reads_address|].
    eapply reads_bind; [rewrite <- (app_nil_r (NetUnparser.unparse_bytes 4 tia)); by apply reads_u32|].
    eapply reads_bind; [apply reads_error_state|]. apply reads_ret. }
  intros b Hb Hbs. destruct (Hr (NetParser.new b)) as (q & Hq & _).
  { rewrite <- Hbs. by apply stands_at_new. }
  unfold ARPMessage.parse. by rewrite Hq.
Qed.

(** ARP messages: [serialize] succeeds exactly on supported messages,
    and [parse] of what it wrote gives the message back. *)
Theorem arp_roundtrip (m m0 : ARPMessage.t) :
  (ARPMessage.supported m = false → ∃ e, ARPMessage.serialize m = Err e) ∧
  (ARPMessage.ok m → ∃ s, ARPMessage.serialize m = Ok s ∧ blen s = ARPMessage.LENGTH ∧
     ARPMessage.parse m0 (Buffer.of_string s) = Ok (m, NoError)).
Proof.
  split; [apply (arp_roundtrip_core m m0)|]. intros Hok.
  destruct (proj2 (arp_roundtrip_core m m0) Hok) as (s & Hs & Hl & Hp). exists s. split_and!; [done..|].
  apply Hp; [|apply buffer_str_of_string]. apply buffer_of_string_ok. rewrite Hl. range_compute.
Qed.

Definition sample_arp : ARPMessage.t :=
  ARPMessage.mk 1 0x800 6 4 2 ETHERNET_BROADCAST 0x0a000001 zero_address 0x0a000002.

Lemma arp_roundtrip_witness :
  ∃ s, ARPMessage.serialize sample_arp = Ok s ∧ blen s = 28 ∧
    ARPMessage.parse ARPMessage.default (Buffer.of_string s) = Ok (sample_arp, NoError).
Proof. apply (arp_roundtrip sample_arp ARPMessage.default). split; range_compute. Defined.
