(* ===== verification/Printing.v ===== *)
(** * What the program prints of its data

    The functions to_string and summary of the headers, of Ethernet addresses and
    of ARP messages, and hexdump. A stream is the string that is written to it;
    its number base and fill character are arguments of what prints. *)

From S2P Require Import Prelude Buffers Wrapping Parsing Segment Ipv4 Link.
From Stdlib Require Import Ascii.

(** ** Numbers *)

Definition digit (d : Z) : ascii := ascii_of_N (Z.to_N (if d <? 10 then 48 + d else 87 + d)).

(** The digits of [z] in front of [acc]; each one divides [z] by [base]. *)
Fixpoint digits (base : Z) (fuel : nat) (z : Z) (acc : string) : string :=
  match fuel with
  | O => acc
  | S fuel =>
      let acc := String (digit (z mod base)) acc in
      if z <? base then acc else digits base fuel (z / base) acc
  end.

(** [ss << z] in base 10 or, after [hex], in base 16. *)
Definition print (base z : Z) : string := digits base (S (Z.to_nat (Z.log2 z))) z "".

Definition to_string (z : Z) : string := print 10 z.

Definition hex (z : Z) : string := print 16 z.

Fixpoint repeat_string (n : nat) (c : ascii) : string :=
  match n with O => "" | S n => String c (repeat_string n c) end.

(** [setw(n) << setfill(c)]. *)
Definition pad (n : nat) (c : ascii) (s : string) : string := (repeat_string (n - String.length s) c ++ s)%string.

Definition boolalpha (b : bool) : string := if b then "true" else "false".

Definition NEWLINE : ascii := "010".

Definition nl : string := String NEWLINE "".

(** [inet_ntoa] of a number in the byte order of the host: the four bytes. *)
Definition inet_ntoa (ip : Z) : string :=
  (to_string (Z.land (Z.shiftr ip 24) 0xff) ++ "." ++ to_string (Z.land (Z.shiftr ip 16) 0xff) ++ "." ++
   to_string (Z.land (Z.shiftr ip 8) 0xff) ++ "." ++ to_string (Z.land ip 0xff))%string.

(** ** Headers *)

(** [operator<<(ostream &, WrappingInt32)]. *)
Definition wrapping_to_string (base : Z) (w : WrappingInt32.t) : string := print base (WrappingInt32.raw_value w).

Definition tcp_to_string (h : TCPHeader.t) : string :=
  ("TCP source port: " ++ hex (TCPHeader.sport h) ++ nl ++
   "TCP dest port: " ++ hex (TCPHeader.dport h) ++ nl ++
   "TCP seqno: " ++ wrapping_to_string 16 (TCPHeader.seqno h) ++ nl ++
   "TCP ackno: " ++ wrapping_to_string 16 (TCPHeader.ackno h) ++ nl ++
   "TCP doff: " ++ hex (TCPHeader.doff h) ++ nl ++
   "Flags: urg: " ++ boolalpha (TCPHeader.urg h) ++ " ack: " ++ boolalpha (TCPHeader.ack h) ++ " psh: " ++ boolalpha (TCPHeader.psh h) ++
   " rst: " ++ boolalpha (TCPHeader.rst h) ++ " syn: " ++ boolalpha (TCPHeader.syn h) ++ " fin: " ++ boolalpha (TCPHeader.fin h) ++ nl ++
   "TCP winsize: " ++ hex (TCPHeader.win h) ++ nl ++
   "TCP cksum: " ++ hex (TCPHeader.cksum h) ++ nl ++
   "TCP uptr: " ++ hex (TCPHeader.uptr h) ++ nl)%string.

Definition tcp_summary (h : TCPHeader.t) : string :=
  ("Header(flags=" ++ (if TCPHeader.syn h then "S" else "") ++ (if TCPHeader.ack h then "A" else "") ++
   (if TCPHeader.rst h then "R" else "") ++ (if TCPHeader.fin h then "F" else "") ++
   ",seqno=" ++ wrapping_to_string 10 (TCPHeader.seqno h) ++ ",ack=" ++ wrapping_to_string 10 (TCPHeader.ackno h) ++
   ",win=" ++ to_string (TCPHeader.win h) ++ ")")%string.

Definition ipv4_to_string (h : IPv4Header.t) : string :=
  ("IP version: " ++ hex (IPv4Header.ver h) ++ nl ++
   "IP hdr len: " ++ hex (IPv4Header.hlen h) ++ nl ++
   "IP tos: " ++ hex (IPv4Header.tos h) ++ nl ++
   "IP dgram len: " ++ hex (IPv4Header.len h) ++ nl ++
   "IP id: " ++ hex (IPv4Header.id h) ++ nl ++
   "Flags: df: " ++ boolalpha (IPv4Header.df h) ++ " mf: " ++ boolalpha (IPv4Header.mf h) ++ nl ++
   "Offset: " ++ hex (IPv4Header.offset h) ++ nl ++
   "TTL: " ++ hex (IPv4Header.ttl h) ++ nl ++
   "Protocol: " ++ hex (IPv4Header.proto h) ++ nl ++
   "Checksum: " ++ hex (IPv4Header.cksum h) ++ nl ++
   "Src addr: " ++ hex (IPv4Header.src h) ++ nl ++
   "Dst addr: " ++ hex (IPv4Header.dst h) ++ nl)%string.

Definition ipv4_summary (h : IPv4Header.t) : string :=
  ("IPv" ++ hex (IPv4Header.ver h) ++ ", len=" ++ hex (IPv4Header.len h) ++ ", protocol=" ++ hex (IPv4Header.proto h) ++ ", " ++
   (if (10 <=? IPv4Header.ttl h)%Z then "" else "ttl=" ++ to_string (IPv4Header.ttl h) ++ ", ") ++
   "src=" ++ inet_ntoa (IPv4Header.src h) ++ ", dst=" ++ inet_ntoa (IPv4Header.dst h))%string.

(** Two digits for every byte, and colons between them. *)
Fixpoint ethernet_address_to_string (address : EthernetAddress) : string :=
  match address with
  | [] => ""
  | b :: rest =>
      (pad 2 "0" (hex (b2z b)) ++ (match rest with [] => "" | _ => ":" end) ++ ethernet_address_to_string rest)%string
  end.

Definition ethernet_to_string (h : EthernetHeader.t) : string :=
  ("dst=" ++ ethernet_address_to_string (EthernetHeader.dst h) ++ ", src=" ++ ethernet_address_to_string (EthernetHeader.src h) ++
   ", type=" ++
   (if (EthernetHeader.type h =? EthernetHeader.TYPE_IPv4)%Z then "IPv4"
    else if (EthernetHeader.type h =? EthernetHeader.TYPE_ARP)%Z then "ARP"
    else "[unknown type " ++ hex (EthernetHeader.type h) ++ "!]"))%string.

Definition arp_to_string (m : ARPMessage.t) : string :=
  let opcode_str := "(unknown type)"%string in
  let opcode_str := if ARPMessage.opcode m =? ARPMessage.OPCODE_REQUEST then "REQUEST"%string else opcode_str in
  let opcode_str := if ARPMessage.opcode m =? ARPMessage.OPCODE_REPLY then "REPLY"%string else opcode_str in
  ("opcode=" ++ opcode_str ++ ", sender=" ++ ethernet_address_to_string (ARPMessage.sender_ethernet_address m) ++ "/" ++
   inet_ntoa (ARPMessage.sender_ip_address m) ++ ", target=" ++ ethernet_address_to_string (ARPMessage.target_ethernet_address m) ++ "/" ++
   inet_ntoa (ARPMessage.target_ip_address m))%string.

(** ** Hexdump *)

(** [isprint] in the C locale. *)
Definition isprint (b : byte) : bool := (0x20 <=? b2z b) && (b2z b <=? 0x7e).

Definition char_of (b : byte) : ascii := ascii_of_N (Z.to_N (b2z b)).

(** [pchars.str()]: the stream starts as one space, which the first character
    written replaces. *)
Definition pchars_str (written : string) : string := if String.eqb written "" then " " else written.

(** The loop: what is printed, the characters of the line so far, and the count. *)
Fixpoint hexdump_loop (indent : nat) (data : bytes) (printed : Z) (pchars : string) : string * string * Z :=
  match data with
  | [] => (""%string, pchars, printed)
  | b :: data =>
      let '(lead, pchars) :=
        if Z.land printed 0xf =? 0 then
          let '(old, pchars) :=
            if negb (printed =? 0) then (("    " ++ pchars_str pchars ++ nl)%string, ""%string) else (""%string, pchars) in
          ((old ++ repeat_string indent " " ++ pad 8 "0" (hex printed) ++ ":    ")%string, pchars)
        else if Z.land printed 1 =? 0 then (" "%string, pchars)
        else (""%string, pchars) in
      let pchars := (pchars ++ String (if isprint b then char_of b else "."%char) "")%string in
      let '(out, pchars, printed) := hexdump_loop indent data (printed + 1) pchars in
      ((lead ++ pad 2 "0" (hex (b2z b)) ++ out)%string, pchars, printed)
  end.

Definition hexdump (data : bytes) (indent : nat) : string :=
  let '(out, pchars, printed) := hexdump_loop indent data 0 "" in
  let print_rem := Z.rem (16 - Z.land printed 0xf) 16 in
  (out ++ repeat_string (Z.to_nat (2 * print_rem + Z.quot print_rem 2 + 4)) " " ++ pchars_str pchars ++ nl ++ nl)%string.

(** ** Reading numbers and addresses back

    [getaddrinfo] reads numeric hosts and services as inet(3) says: one number or
    four bytes, in decimal. *)

Definition digit_value (c : ascii) : option Z :=
  let n := Z.of_N (N_of_ascii c) in
  if (48 <=? n) && (n <=? 57) then Some (n - 48) else None.

Fixpoint read_digits (s : string) (v : Z) : option Z :=
  match s with
  | "" => Some v
  | String c s => match digit_value c with Some d => read_digits s (10 * v + d) | None => None end
  end%string.

Definition read_number (s : string) : option Z := if String.eqb s "" then None else read_digits s 0.

(** The parts of [s] between dots, of which [part] is the first so far. *)
Fixpoint split_dots (s part : string) : list string :=
  match s with
  | "" => [part]
  | String c s => if Ascii.eqb c "." then part :: split_dots s "" else split_dots s (part ++ String c "")
  end%string.

Definition read_host (s : string) : option Z :=
  match read_number <$> split_dots s "" with
  | [Some a] => if a <? 0x100000000 then Some a else None
  | [Some a; Some b; Some c; Some d] =>
      if (a <? 256) && (b <? 256) && (c <? 256) && (d <? 256)
      then Some (Z.shiftl a 24 + Z.shiftl b 16 + Z.shiftl c 8 + d) else None
  | _ => None
  end.

Lemma digit_value_digit d : 0 <= d < 10 → digit_value (digit d) = Some d.
Proof.
  intros Hd. assert (Hcases : d ∈ seqZ 0 10) by (apply elem_of_seqZ; lia). clear Hd.
  unfold seqZ in Hcases. simpl in Hcases. repeat (apply elem_of_cons in Hcases as [->|Hcases]; [done|]). by apply elem_of_nil in Hcases.
Qed.

Lemma read_digits_print fuel z acc :
  0 <= z < 2 ^ Z.of_nat fuel → read_digits (digits 10 fuel z acc) 0 = read_digits acc z.
Proof.
  revert z acc. induction fuel as [|fuel IH]; intros z acc Hz; [change (2 ^ Z.of_nat 0) with 1 in Hz; by replace z with 0 by lia|].
  simpl. rewrite Nat2Z.inj_succ, Z.pow_succ_r in Hz by lia. destruct (Z.ltb_spec z 10).
  - rewrite Z.mod_small by lia. simpl. rewrite digit_value_digit by lia. by rewrite Z.add_0_l.
  - pose proof (Z.div_mod z 10 ltac:(lia)). pose proof (Z.mod_pos_bound z 10 ltac:(lia)).
    rewrite IH by (split; [apply Z.div_pos; lia|apply Z.div_lt_upper_bound; lia]).
    simpl. rewrite digit_value_digit by done. f_equal. lia.
Qed.

Lemma to_string_cons z : ∃ c s, to_string z = String c s.
Proof.
  assert (Hacc : ∀ fuel x c s, ∃ c' s', digits 10 fuel x (String c s) = String c' s').
  { induction fuel as [|fuel IH]; intros x c s; simpl; [by eexists _, _|]. destruct (x <? 10); [by eexists _, _|apply IH]. }
  unfold to_string, print. simpl. destruct (z <? 10); [by eexists _, _|apply Hacc].
Qed.

(** A number that is printed and read is the same: ports, which the code passes
    as strings. *)
Lemma read_number_to_string z : 0 <= z → read_number (to_string z) = Some z.
Proof.
  intros Hz. unfold read_number. destruct (to_string_cons z) as (c & s & Es).
  replace (String.eqb (to_string z) "") with false by (by rewrite Es).
  unfold to_string, print. rewrite read_digits_print; [done|].
  split; [done|]. rewrite Nat2Z.inj_succ, Z2Nat.id by apply Z.log2_nonneg.
  destruct (Z.eq_dec z 0) as [->|]; [done|]. by apply Z.log2_spec; lia.
Qed.

Fixpoint no_dot (s : string) : bool :=
  match s with "" => true | String c s => negb (Ascii.eqb c ".") && no_dot s end%string.

Lemma append_cons c a b : (String c a ++ b)%string = String c (a ++ b)%string.
Proof. reflexivity. Qed.

Lemma append_nil_l s : ("" ++ s)%string = s.
Proof. reflexivity. Qed.

Lemma append_nil s : (s ++ "")%string = s.
Proof. induction s as [|c s IH]; [done|]. by rewrite append_cons, IH. Qed.

Lemma append_assoc a b c : ((a ++ b) ++ c)%string = (a ++ (b ++ c))%string.
Proof. induction a as [|x a IH]; [done|]. by rewrite !append_cons, IH. Qed.

Lemma split_part s rest part :
  no_dot s = true → split_dots (s ++ String "." rest)%string part = (part ++ s)%string :: split_dots rest "".
Proof.
  revert part. induction s as [|c s IH]; intros part Hs; [simpl; by rewrite append_nil|].
  apply andb_prop in Hs as [Hc Hs]. apply negb_true_iff in Hc. rewrite ?append_cons. simpl. rewrite Hc, IH by done. by rewrite append_assoc.
Qed.

Lemma split_last s part : no_dot s = true → split_dots s part = [(part ++ s)%string].
Proof.
  revert part. induction s as [|c s IH]; intros part Hs; [simpl; by rewrite append_nil|].
  apply andb_prop in Hs as [Hc Hs]. apply negb_true_iff in Hc. rewrite ?append_cons. simpl. rewrite Hc, IH by done. by rewrite append_assoc.
Qed.

Lemma no_dot_byte z : is_u8 z → no_dot (to_string z) = true.
Proof.
  intros Hz. rewrite <- (w8_small z Hz), <- b2z_z2b. by destruct (z2b z).
Qed.

(** An address is not changed by printing it as four bytes with dots and reading
    that, as the listening adapters do. *)
Lemma read_host_inet_ntoa ip : is_u32 ip → read_host (inet_ntoa ip) = Some ip.
Proof.
  intros Hip. unfold read_host, inet_ntoa.
  assert (Hb : ∀ k, is_u8 (Z.land k 0xff)) by (intros k; change 0xff with (Z.ones 8); rewrite Z.land_ones by lia; apply Z.mod_pos_bound; done).
  rewrite !append_cons, !append_nil_l, !split_part, split_last by (apply no_dot_byte, Hb). rewrite !(append_nil_l _). cbn [fmap list_fmap].
  assert (Hr : ∀ k, read_number (to_string (Z.land k 0xff)) = Some (Z.land k 0xff)) by (intros k; apply read_number_to_string, Hb).
  rewrite !Hr. rewrite !(proj2 (Z.ltb_lt _ _)) by apply Hb. cbn [andb]. f_equal.
  change 0xff with (Z.ones 8). rewrite !Z.land_ones, !Z.shiftr_div_pow2, !Z.shiftl_mul_pow2 by lia.
  change (2 ^ 24) with 0x1000000. change (2 ^ 16) with 0x10000. change (2 ^ 8) with 0x100. unfold_w. Z.to_euclidean_division_equations. lia.
Qed.

Definition hex_value (c : ascii) : Z :=
  let n := Z.of_N (N_of_ascii c) in if n <? 58 then n - 48 else n - 87.

Lemma byte_text b : ∃ c d, pad 2 "0" (hex (b2z b)) = String c (String d "") ∧ 16 * hex_value c + hex_value d = b2z b.
Proof. destruct b; eexists _, _; split; reflexivity. Qed.

Lemma ethernet_address_inj a b :
  length a = length b → ethernet_address_to_string a = ethernet_address_to_string b → a = b.
Proof.
  revert b. induction a as [|x a IH]; intros [|y b] Hl E; try done. injection Hl as Hl. simpl in E.
  destruct (byte_text x) as (c & d & Ex & Hx), (byte_text y) as (c' & d' & Ey & Hy). rewrite Ex, Ey, !append_cons, !append_nil_l in E.
  injection E as -> -> E. assert (x = y) as ->.
  { rewrite <- (z2b_b2z x), <- (z2b_b2z y). congruence. }
  f_equal. apply IH; [done|]. destruct a, b; try done. rewrite !append_cons, !append_nil_l in E. by injection E.
Qed.

(** What the program prints of an address can be read back. The numbers and
    dots of inet_ntoa, which the listening adapters pass through [Address], stand
    for exactly the number printed, and a port printed by to_string for the
    port; and the text of an Ethernet address determines its bytes. *)
Theorem printed_addresses_read_back ip port a b :
  is_u32 ip → 0 <= port → length a = length b →
  read_host (inet_ntoa ip) = Some ip ∧ read_number (to_string port) = Some port ∧
  (ethernet_address_to_string a = ethernet_address_to_string b ↔ a = b).
Proof.
  intros Hip Hp Hl. split; [by apply read_host_inet_ntoa|]. split; [by apply read_number_to_string|].
  split; [by apply ethernet_address_inj|by intros ->].
Qed.

Lemma printed_addresses_read_back_witness :
  read_host (inet_ntoa 0xa9fe9009) = Some 0xa9fe9009 ∧ inet_ntoa 0xa9fe9009 = "169.254.144.9"%string ∧
  read_number (to_string 1440) = Some 1440 ∧
  ethernet_address_to_string ETHERNET_BROADCAST = "ff:ff:ff:ff:ff:ff"%string.
Proof.
  destruct (printed_addresses_read_back 0xa9fe9009 1440 ETHERNET_BROADCAST ETHERNET_BROADCAST) as (Hip & Hport & _).
  - range_compute.
  - lia.
  - reflexivity.
  - split; [exact Hip|]. split; [reflexivity|]. split; [exact Hport|reflexivity].
Defined.
