(* ===== verification/Receiver.v ===== *)
(** * The TCP receiver: tcp_receiver.hh and tcp_receiver.cc

    The module [TCPReceiver] translates the class. Its invariant ties the
    acknowledgment number it would send to the first byte the reassembler lacks. *)

From S2P Require Import Prelude Buffers Wrapping Stream Reassembly ReassemblySpec.
From S2P Require Import Segment.

Module TCPReceiver.

Record t := mk {
  reassembler : StreamReassembler.t;    (* _reassembler *)
  capacity : Z;                         (* _capacity *)
  syn : bool;                           (* _syn *)
  fin : Z;                              (* _fin: 0, 1 or 2 *)
  isn : WrappingInt32.t;                (* _isn *)
  last_abseqno : Z;                     (* _last_abseqno *)
  ackno_ : option WrappingInt32.t;      (* _ackno *)
}.

Definition new (capacity : Z) : t :=
  mk (StreamReassembler.new capacity) capacity false 0 (WrappingInt32.of_raw 0) 0 None.

Definition full_fined (r : t) : bool := 2 <=? fin r.

Definition fined (r : t) : bool := fin r =? 1.

Definition stream_out (r : t) : ByteStream.t := StreamReassembler.stream_out (reassembler r).

(** The owner's access to the stream through [stream_out()]. *)
Definition with_stream (r : t) (o : ByteStream.t) : t :=
  mk (StreamReassembler.with_output (reassembler r) o) (capacity r) (syn r) (fin r) (isn r)
     (last_abseqno r) (ackno_ r).

Definition unassembled_bytes (r : t) : Z := StreamReassembler.unassembled_bytes (reassembler r).

Definition ackno (r : t) : result (option WrappingInt32.t) :=
  if fin r =? 2 then a ← value (ackno_ r); Ok (Some (WrappingInt32.add a 1))
  else Ok (ackno_ r).

Definition window_size (r : t) : Z := ByteStream.remaining_capacity (stream_out r).

(** Lines 34 to 42: what the reassembler has assembled so far. *)
Definition note_progress (r : t) : t :=
  let fu := StreamReassembler.first_unassembled (reassembler r) in
  if negb (fu =? 0) then
    let last := w64 (fu - 1) in
    let a := WrappingInt32.add (wrap (w64 (last + 1)) (isn r)) 1 in
    let a := if negb (syn r) then WrappingInt32.sub_n a 1 else a in
    mk (reassembler r) (capacity r) (syn r) (fin r) (isn r) last (Some a)
  else r.

(** Lines 43 to 50. *)
Definition note_syn (hder : TCPHeader.t) (r : t) : t :=
  if TCPHeader.syn hder then
    let isn := TCPHeader.seqno hder in
    let a := match ackno_ r with
             | Some a => WrappingInt32.add (WrappingInt32.add isn 1) (WrappingInt32.raw_value a)
             | None => WrappingInt32.add isn 1
             end in
    mk (reassembler r) (capacity r) true (fin r) isn (last_abseqno r) (Some a)
  else r.

(** Lines 51 to 60. *)
Definition note_fin (hder : TCPHeader.t) (r : t) : t :=
  let f := if TCPHeader.fin hder then 1 else fin r in
  if (f =? 1) && StreamReassembler.eof (reassembler r) then
    mk (StreamReassembler.with_output (reassembler r) (ByteStream.end_input (stream_out r)))
       (capacity r) (syn r) 2 (isn r) (last_abseqno r) (ackno_ r)
  else mk (reassembler r) (capacity r) (syn r) f (isn r) (last_abseqno r) (ackno_ r).

Definition segment_received `{StreamReassembler.EndKey} (r : t) (seg : TCPSegment.t) : result t :=
  let hder := TCPSegment.header seg in
  if (negb (TCPHeader.syn hder) && negb (syn r)) || (TCPHeader.syn hder && syn r) then Ok r
  else
    let stream_index :=
      if syn r then unwrap (WrappingInt32.sub_n (TCPHeader.seqno hder) 1) (isn r) (last_abseqno r)
      else 0 in
    if syn r && (unwrap (TCPHeader.seqno hder) (isn r) (last_abseqno r) =? 0) then Ok r
    else
      re ← StreamReassembler.push_substring (reassembler r) (Buffer.copy (TCPSegment.payload seg))
             stream_index (TCPHeader.fin hder);
      let r := mk re (capacity r) (syn r) (fin r) (isn r) (last_abseqno r) (ackno_ r) in
      Ok (note_fin hder (note_syn hder (note_progress r))).

End TCPReceiver.

Import TCPReceiver.

(** ** The invariant *)

(** [rinv P r w]: the stream the receiver reassembles is described by [P], and [w]
    has been written to its output so far. *)
Record rinv (P : Z → byte → Prop) (r : t) (w : bytes) : Prop := mk_rinv {
  ri_re : inv P (reassembler r) w;
  ri_isn : WrappingInt32.ok (isn r);
  ri_fin : fin r = if StreamReassembler.eofed (reassembler r) then 2
                   else if StreamReassembler.eof_ (reassembler r) then 1 else 0;
  ri_syn : if syn r
           then ackno_ r = Some (wrap (blen w + 1) (isn r)) ∧ last_abseqno r = Z.max 0 (blen w - 1)
           else ackno_ r = None ∧ last_abseqno r = 0 ∧ isn r = WrappingInt32.of_raw 0 ∧ w = [] ∧
                StreamReassembler.unassembled (reassembler r) = [] ∧
                StreamReassembler.eof_ (reassembler r) = false;
}.

Lemma rinv_new P cap : is_u64 cap → rinv P (new cap) [].
Proof. intros H. split; simpl; [by apply inv_new|auto with sponge|done|done]. Qed.

(** Reading from the output keeps the invariant. *)
Lemma rinv_pop P r w len :
  rinv P r w → 0 <= len →
  ∃ o, ByteStream.pop_output (stream_out r) len = Ok o ∧ rinv P (with_stream r o) w.
Proof.
  intros [] Hl. destruct (pop_inv P _ w len ri_re0 Hl) as (o & E & Hinv & _).
  exists o. split; [exact E|]. by split.
Qed.

(** Where the payload of a segment belongs in the stream, as the peer means
    it: the segment carries absolute sequence number [n], and its payload
    starts at the next index when it carries the SYN. *)
Definition payload_index (n : Z) (hder : TCPHeader.t) : Z := if TCPHeader.syn hder then n else n - 1.

(** The segment is one of the stream [P] of a peer whose initial sequence
    number is [isn0]: it carries the absolute number [n], is less than half
    the sequence space away from what the receiver expects, and carries the
    SYN exactly at the start. *)
Record genuine (P : Z → byte → Prop) (isn0 : WrappingInt32.t) (last n : Z) (seg : TCPSegment.t) : Prop := mk_genuine {
  ge_seqno : TCPHeader.seqno (TCPSegment.header seg) = wrap n isn0;
  ge_nonneg : 0 <= n;
  ge_syn : TCPHeader.syn (TCPSegment.header seg) = true → n = 0;
  ge_near : Z.abs (n - last) < 0x7fffffff;
  ge_placed : n = 0 ∧ TCPHeader.syn (TCPSegment.header seg) = false ∨
    placed P (payload_index n (TCPSegment.header seg)) (Buffer.str (TCPSegment.payload seg));
}.

Lemma inv_end_input P re w :
  inv P re w → StreamReassembler.eofed re = true →
  inv P (StreamReassembler.with_output re (ByteStream.end_input (StreamReassembler.output re))) w.
Proof. intros [[] He Hf] Hed. split; simpl; [|done..]. split; try done. by apply ByteStream.rep_end_input. Qed.

(** [_fin] follows the state of the reassembler. *)
Definition fin_state (re : StreamReassembler.t) : Z :=
  if StreamReassembler.eofed re then 2 else if StreamReassembler.eof_ re then 1 else 0.

Lemma note_fin_spec P hder r w :
  inv P (reassembler r) w →
  (if TCPHeader.fin hder then 1 else fin r) = 2 ∨
  (if TCPHeader.fin hder then 1 else fin r) =
    (if StreamReassembler.eof_ (reassembler r) then 1 else 0) →
  ((if TCPHeader.fin hder then 1 else fin r) = 2 → StreamReassembler.eofed (reassembler r) = true) →
  let r' := note_fin hder r in
  inv P (reassembler r') w ∧ fin r' = fin_state (reassembler r') ∧
  (∀ i, known (reassembler r') i ↔ known (reassembler r) i) ∧
  window_end (reassembler r') = window_end (reassembler r) ∧
  ByteStream.capacity (stream_out r') = ByteStream.capacity (stream_out r) ∧
  StreamReassembler.eof_ (reassembler r') = StreamReassembler.eof_ (reassembler r) ∧
  StreamReassembler.eof_index (reassembler r') = StreamReassembler.eof_index (reassembler r) ∧
  StreamReassembler.unassembled (reassembler r') = StreamReassembler.unassembled (reassembler r) ∧
  (syn r' = syn r ∧ isn r' = isn r ∧ ackno_ r' = ackno_ r ∧ last_abseqno r' = last_abseqno r ∧
   capacity r' = capacity r).
Proof.
  intros Hinv Hf H2. unfold note_fin, fin_state. set (f := if TCPHeader.fin hder then 1 else fin r) in *.
  clearbody f. unfold StreamReassembler.eof.
  destruct ((f =? 1) && StreamReassembler.eofed (reassembler r)) eqn:E; bool_to_prop; simpl.
  - split_and!; try done; [by apply inv_end_input|]. by destruct (StreamReassembler.eofed _).
  - split_and!; try done. destruct (StreamReassembler.eofed (reassembler r)) eqn:Eed.
    + destruct E as [E|E]; [|done]. bool_to_prop. destruct Hf as [->|Hf]; [done|].
      destruct Hinv as [_ He _]. rewrite Eed in He. symmetry in He. bool_to_prop.
      rewrite H, Hf in *. done.
    + destruct Hf as [->|Hf]; [by specialize (H2 eq_refl)|done].
Qed.

(** The acknowledgment number after the payload went in: the number of the
    first byte the reassembler lacks, whether the SYN came earlier or with
    this segment. *)
Lemma progress_spec hder r re :
  let fu := StreamReassembler.first_index re in
  0 <= fu < 0x4000000000000000 → WrappingInt32.ok (isn r) → WrappingInt32.ok (TCPHeader.seqno hder) →
  (if syn r
   then TCPHeader.syn hder = false ∧
        (fu = 0 → ackno_ r = Some (wrap 1 (isn r)) ∧ last_abseqno r = 0)
   else TCPHeader.syn hder = true ∧ ackno_ r = None ∧ last_abseqno r = 0 ∧ isn r = WrappingInt32.of_raw 0) →
  let r1 := note_syn hder (note_progress
    (mk re (capacity r) (syn r) (fin r) (isn r) (last_abseqno r) (ackno_ r))) in
  reassembler r1 = re ∧ fin r1 = fin r ∧ capacity r1 = capacity r ∧ syn r1 = true ∧
  isn r1 = (if syn r then isn r else TCPHeader.seqno hder) ∧
  ackno_ r1 = Some (wrap (fu + 1) (isn r1)) ∧ last_abseqno r1 = Z.max 0 (fu - 1).
Proof.
  intros fu Hfu Hi Hq Hsyn. unfold note_progress, StreamReassembler.first_unassembled.
  cbn [reassembler isn syn]. fold fu.
  destruct (Z.eqb_spec fu 0) as [E|E]; cbn [negb]; unfold note_syn;
    destruct (syn r); destruct Hsyn as [Hs Hrest]; rewrite Hs; cbn [reassembler ackno_ isn last_abseqno syn fin capacity].
  - destruct (Hrest E) as [-> ->]. rewrite E. done.
  - destruct Hrest as (-> & -> & _). rewrite E. split_and!; try done.
    rewrite <- (wrap_0 (TCPHeader.seqno hder)) at 1 by done. by rewrite wrap_add.
  - rewrite (w64_small (fu - 1)), w64_small by (unfold_w; lia). rewrite wrap_add by (lia || done).
    split_and!; try done; [|lia]. do 2 f_equal. lia.
  - destruct Hrest as (_ & _ & ->). rewrite (w64_small (fu - 1)), w64_small by (unfold_w; lia).
    rewrite wrap_add, wrap_sub_n by (lia || auto with sponge).
    split_and!; try done; [|lia]. cbn [negb]. do 2 f_equal. apply wrapping_eq.
    unfold WrappingInt32.add, WrappingInt32.of_raw. cbn [WrappingInt32.raw_value].
    rewrite !wrap_raw by (lia || done || apply of_raw_ok). cbn [WrappingInt32.raw_value]. zmod_lia.
Qed.

(** What [segment_received] does once the payload is in the reassembler. *)
Lemma finish_spec P hder r re w :
  inv P re w → fin r = fin_state (reassembler r) → WrappingInt32.ok (isn r) →
  WrappingInt32.ok (TCPHeader.seqno hder) → blen w < 0x4000000000000000 →
  (if syn r
   then TCPHeader.syn hder = false ∧
        (blen w = 0 → ackno_ r = Some (wrap 1 (isn r)) ∧ last_abseqno r = 0)
   else TCPHeader.syn hder = true ∧ ackno_ r = None ∧ last_abseqno r = 0 ∧ isn r = WrappingInt32.of_raw 0) →
  (StreamReassembler.eofed (reassembler r) = false →
     StreamReassembler.eof_ re = StreamReassembler.eof_ (reassembler r) || TCPHeader.fin hder) →
  (StreamReassembler.eofed (reassembler r) = true → re = reassembler r) →
  let r' := note_fin hder (note_syn hder (note_progress
    (mk re (capacity r) (syn r) (fin r) (isn r) (last_abseqno r) (ackno_ r)))) in
  rinv P r' w ∧ syn r' = true ∧
  isn r' = (if syn r then isn r else TCPHeader.seqno hder) ∧ capacity r' = capacity r ∧
  (∀ i, known (reassembler r') i ↔ known re i) ∧ window_end (reassembler r') = window_end re ∧
  ByteStream.capacity (stream_out r') = ByteStream.capacity (StreamReassembler.output re) ∧
  StreamReassembler.eof_ (reassembler r') = StreamReassembler.eof_ re ∧
  StreamReassembler.eof_index (reassembler r') = StreamReassembler.eof_index re.
Proof.
  intros Hinv Hfin Hisn Hseq Hlen Hsyn Heof Heofed.
  set (r1 := note_syn hder (note_progress
    (mk re (capacity r) (syn r) (fin r) (isn r) (last_abseqno r) (ackno_ r)))).
  assert (Hr1 : reassembler r1 = re ∧ fin r1 = fin r ∧ capacity r1 = capacity r ∧ syn r1 = true ∧
    isn r1 = (if syn r then isn r else TCPHeader.seqno hder) ∧
    ackno_ r1 = Some (wrap (blen w + 1) (isn r1)) ∧ last_abseqno r1 = Z.max 0 (blen w - 1)).
  { subst r1. pose proof (inv_first _ _ _ (inv_core _ _ _ Hinv)) as Ef.
    pose proof (blen_nonneg w). rewrite <- Ef in *. by apply progress_spec. }
  destruct Hr1 as (Hre & Hf1 & Hc1 & Hs1 & Hi1 & Ha1 & Hl1).
  rewrite <- Hre in Hinv.
  destruct (note_fin_spec P hder r1 w Hinv) as (Hinv' & Hf' & Hk' & Hw' & Hca' & He' & Hx' & Hu' & Es & Ei & Ea & El & Ec).
  { rewrite Hf1, Hre. destruct (StreamReassembler.eofed (reassembler r)) eqn:Eed.
    - unfold fin_state in Hfin. rewrite Eed in Hfin. rewrite (Heofed eq_refl) in *.
      destruct (TCPHeader.fin hder); [right|by left].
      destruct Hinv as [_ He _]. rewrite Hre, Eed in He. symmetry in He. bool_to_prop. by rewrite H.
    - right. rewrite (Heof eq_refl). unfold fin_state in Hfin. rewrite Eed in Hfin. rewrite Hfin.
      by destruct (StreamReassembler.eof_ _), (TCPHeader.fin hder). }
  { rewrite Hf1, Hre, Hfin. unfold fin_state. intros E.
    destruct (StreamReassembler.eofed (reassembler r)) eqn:Eed; [by rewrite (Heofed eq_refl)|].
    by destruct (TCPHeader.fin hder), (StreamReassembler.eof_ (reassembler r)). }
  split_and!; try done; try congruence.
  - split; try done.
    + rewrite Ei, Hi1. by destruct (syn r).
    + rewrite Es, Hs1. split; congruence.
  - intros i. rewrite Hk', Hre. done.
  - rewrite Hca'. unfold stream_out. by rewrite Hre.
Qed.

(** The segment's payload reaches the reassembler: the handshake has begun, and
    this is neither a second SYN nor data in the place of the SYN. *)
Definition accepted (r : t) (n : Z) (hder : TCPHeader.t) : bool :=
  if syn r then negb (TCPHeader.syn hder) && negb (n =? 0) else TCPHeader.syn hder.

Section Steps.
Context `{EndKeyFresh} (P : Z → byte → Prop) (isn0 : WrappingInt32.t).
Hypothesis Hisn0 : WrappingInt32.ok isn0.

(** The receiver talks to the peer of initial sequence number [isn0]. *)
Definition peered (r : t) : Prop := syn r = true → isn r = isn0.

Lemma rinv_len r w :
  rinv P r w → window_end (reassembler r) < 0x4000000000000000 → 0 <= blen w <= window_end (reassembler r).
Proof.
  intros [] Hw. destruct (core_remaining P _ w (inv_core _ _ _ ri_re0) Hw) as [Hf _].
  by rewrite (inv_first _ _ _ (inv_core _ _ _ ri_re0)) in Hf.
Qed.

(** Where the code looks for the payload is where the peer put it. *)
Lemma stream_index_spec r w n seg :
  rinv P r w → window_end (reassembler r) < 0x4000000000000000 → peered r →
  genuine P isn0 (last_abseqno r) n seg → syn r = true →
  unwrap (TCPHeader.seqno (TCPSegment.header seg)) (isn r) (last_abseqno r) = n ∧
  (n ≠ 0 → unwrap (WrappingInt32.sub_n (TCPHeader.seqno (TCPSegment.header seg)) 1) (isn r)
             (last_abseqno r) = n - 1).
Proof.
  intros Hr Hw Hp [] Hs. pose proof (rinv_len r w Hr Hw). destruct Hr. rewrite Hs in ri_syn0.
  destruct ri_syn0 as [_ Hl]. rewrite (Hp Hs), ge_seqno0. split.
  - apply unwrap_wrap; (done || lia).
  - intros Hn. rewrite wrap_sub_n by (done || lia). apply unwrap_wrap; (done || lia).
Qed.

Lemma ignored_cases r w n seg :
  rinv P r w → window_end (reassembler r) < 0x4000000000000000 → peered r →
  genuine P isn0 (last_abseqno r) n seg → accepted r n (TCPSegment.header seg) = false →
  segment_received r seg = Ok r.
Proof.
  intros Hr Hw Hp Hg Ha. unfold accepted in Ha. unfold segment_received.
  destruct (syn r) eqn:Es.
  - destruct (stream_index_spec r w n seg Hr Hw Hp Hg Es) as [-> _].
    destruct (TCPHeader.syn _); [done|]. simpl in *. by destruct (n =? 0).
  - by rewrite Ha.
Qed.

Lemma accepted_cases r w n seg :
  rinv P r w → window_end (reassembler r) < 0x4000000000000000 → peered r →
  genuine P isn0 (last_abseqno r) n seg → accepted r n (TCPSegment.header seg) = true →
  let hder := TCPSegment.header seg in
  0 <= payload_index n hder ∧ placed P (payload_index n hder) (Buffer.str (TCPSegment.payload seg)) ∧
  segment_received r seg =
    (re ← StreamReassembler.push_substring (reassembler r) (Buffer.copy (TCPSegment.payload seg))
            (payload_index n hder) (TCPHeader.fin hder);
     Ok (note_fin hder (note_syn hder (note_progress
       (mk re (capacity r) (syn r) (fin r) (isn r) (last_abseqno r) (ackno_ r)))))).
Proof.
  intros Hr Hw Hp Hg Ha hder. unfold accepted in Ha. unfold segment_received, payload_index.
  fold hder in Ha |- *. pose proof Hg as [].
  destruct (syn r) eqn:Es.
  - apply andb_prop in Ha as [Hs Hn]. bool_to_prop.
    destruct (stream_index_spec r w n seg Hr Hw Hp Hg Es) as [E1 E2]. fold hder in E1, E2.
    rewrite Hs, E1, (E2 Hn), (proj2 (Z.eqb_neq _ _)) by done. cbn [negb andb orb].
    split_and!; [lia| |done]. destruct ge_placed0 as [[? _]|Hpl]; [done|].
    unfold payload_index in Hpl. fold hder in Hpl. by rewrite Hs in Hpl.
  - rewrite Ha. specialize (ge_syn0 Ha) as ->. cbn [negb andb orb].
    split_and!; [lia| |done]. destruct ge_placed0 as [[_ ?]|Hpl]; [subst hder; congruence|].
    unfold payload_index in Hpl. fold hder in Hpl. by rewrite Ha in Hpl.
Qed.

(** Where the receiver takes the end of the stream to be, after a segment. *)
Definition eof_from (re re' : StreamReassembler.t) (hder : TCPHeader.t) (acc : bool) (e : Z) : Prop :=
  StreamReassembler.eof_ re' = true →
  StreamReassembler.eof_ re = true ∧ StreamReassembler.eof_index re' = StreamReassembler.eof_index re ∨
  TCPHeader.fin hder = true ∧ acc = true ∧ StreamReassembler.eof_index re' = e.

(** What it knows of the end of the stream stays known, and an accepted FIN
    tells where it is. *)
Definition eof_kept (re re' : StreamReassembler.t) (hder : TCPHeader.t) (acc : bool) : Prop :=
  (StreamReassembler.eof_ re = true ∨ TCPHeader.fin hder = true ∧ acc = true → StreamReassembler.eof_ re' = true) ∧
  (StreamReassembler.eofed re = true → StreamReassembler.eofed re' = true).

(** One segment, on every branch. *)
Lemma segment_received_spec r w n seg :
  rinv P r w → window_end (reassembler r) < 0x4000000000000000 → peered r →
  genuine P isn0 (last_abseqno r) n seg → is_u32 (blen (Buffer.str (TCPSegment.payload seg))) →
  let hder := TCPSegment.header seg in
  let idx := payload_index n hder in
  ∃ r' w', segment_received r seg = Ok r' ∧ rinv P r' (w ++ w') ∧ peered r' ∧
    syn r' = syn r || TCPHeader.syn hder ∧ capacity r' = capacity r ∧
    window_end (reassembler r') = window_end (reassembler r) ∧
    ByteStream.capacity (stream_out r') = ByteStream.capacity (stream_out r) ∧
    (∀ i, known (reassembler r') i ↔ known (reassembler r) i ∨
       (accepted r n hder = true ∧ StreamReassembler.eofed (reassembler r) = false ∧
        idx <= i < idx + blen (Buffer.str (TCPSegment.payload seg)) ∧ i < window_end (reassembler r))) ∧
    eof_from (reassembler r) (reassembler r') hder (accepted r n hder)
      (idx + blen (Buffer.str (TCPSegment.payload seg))) ∧
    eof_kept (reassembler r) (reassembler r') hder (accepted r n hder).
Proof.
  intros Hr Hw Hp Hg Hlen hder idx. pose proof (rinv_len r w Hr Hw) as Hbw.
  destruct (accepted r n hder) eqn:Ha.
  2:{ exists r, []. rewrite app_nil_r. split; [by apply (ignored_cases r w n)|].
      split_and!; try done.
      - unfold accepted in Ha. destruct (syn r); [done|]. by rewrite Ha.
      - intros i. split; [by left|]. by intros [?|[? _]].
      - intros E. by left.
      - split; [|done]. by intros [?|[_ ?]]. }
  destruct (accepted_cases r w n seg Hr Hw Hp Hg Ha) as (Hi & Hpl & ->). fold hder idx in Hi, Hpl |- *.
  unfold Buffer.copy.
  pose proof Hg as []. pose proof Hr as [].
  assert (Hidx : is_u64 (idx + blen (Buffer.str (TCPSegment.payload seg)))).
  { assert (last_abseqno r <= blen w) by (destruct (syn r); destruct ri_syn0 as [? Hx]; lia || (destruct Hx; lia)).
    subst idx. unfold payload_index in *. destruct (TCPHeader.syn hder); revert Hlen; unfold_w; lia. }
  destruct (push_spec P (reassembler r) w _ idx (TCPHeader.fin hder) ri_re0 Hpl Hi Hidx Hw)
    as (re & w' & -> & Hinv & Hso & Hk & He & Hed).
  cbn [mbind result_bind].
  pose proof (core_remaining P re (w ++ w') (inv_core _ _ _ Hinv)) as Hcr.
  rewrite (sm_window _ _ Hso) in Hcr. specialize (Hcr Hw) as [Hfi _].
  rewrite (inv_first _ _ _ (inv_core _ _ _ Hinv)) in Hfi.
  edestruct (finish_spec P hder r re (w ++ w')) as (Hr' & Hs' & Hi' & Hc' & Hk' & Hw' & Hca' & He' & Hx'); try done.
  { subst hder. rewrite ge_seqno0. apply wrap_ok. }
  { lia. }
  { unfold accepted in Ha. destruct (syn r); [|by destruct ri_syn0 as (? & ? & ? & _)].
    apply andb_prop in Ha as [Ha _]. apply negb_true_iff in Ha. split; [done|].
    rewrite blen_app. pose proof (blen_nonneg w'). intros E.
    assert (blen w = 0) as E' by lia. rewrite E' in ri_syn0. done. }
  { intros E. destruct (He E) as [-> _]. unfold StreamReassembler.note_eof.
    by destruct (StreamReassembler.eof_ _) eqn:?, (TCPHeader.fin hder). }
  eexists _, w'. split; [done|]. split_and!; try done.
  - intros _. rewrite Hi'. unfold accepted in Ha. destruct (syn r) eqn:Es; [by apply Hp|].
    unfold hder. rewrite ge_seqno0, (ge_syn0 Ha). by apply wrap_0.
  - rewrite Hs'. unfold accepted in Ha. by destruct (syn r), (TCPHeader.syn hder).
  - rewrite Hw'. by apply sm_window.
  - rewrite Hca'. by apply sm_cap.
  - intros i. rewrite Hk', Hk. tauto.
  - unfold eof_from. rewrite He', Hx'. destruct (StreamReassembler.eofed (reassembler r)) eqn:Eed.
    { rewrite (Hed eq_refl). intros ?. by left. }
    destruct (He eq_refl) as [-> ->]. unfold StreamReassembler.note_eof.
    destruct (TCPHeader.fin hder), (StreamReassembler.eof_ (reassembler r)) eqn:Ee; simpl; intros ?;
      rewrite ?Ee in *; try (by left); try done.
    right. split_and!; try done. by apply w64_small.
  - split.
    + rewrite He'. destruct (StreamReassembler.eofed (reassembler r)) eqn:Eed.
      { rewrite (Hed eq_refl). intros _. pose proof (inv_eof _ _ _ ri_re0) as Hx. rewrite Eed in Hx.
        symmetry in Hx. by apply andb_prop in Hx as [? _]. }
      destruct (He eq_refl) as [-> _]. unfold StreamReassembler.note_eof.
      destruct (TCPHeader.fin hder), (StreamReassembler.eof_ (reassembler r)) eqn:Ee; simpl; try done; rewrite ?Ee; tauto.
    + intros Eed. rewrite (inv_eof _ _ _ (ri_re _ _ _ Hr')), He', Hx', (inv_first _ _ _ (inv_core _ _ _ (ri_re _ _ _ Hr'))).
      rewrite <- (inv_first _ _ _ (inv_core _ _ _ Hinv)), <- (inv_eof _ _ _ Hinv). by rewrite (Hed Eed).
Qed.
End Steps.

(** C8. One segment of the peer's stream, on every branch of
    [segment_received]: it never throws; the invariant of the receiver is kept
    while the output grows by [w'] only at its end; the receiver is
    synchronised exactly when it was or the segment carries the SYN; and the
    bytes it holds afterwards are those it held before plus, when the segment
    is accepted and the stream not yet complete, the payload bytes that lie
    inside the window, at the index the peer gave them. *)
Theorem receiver_segment_received `{EndKeyFresh} P isn0 r w n seg :
  WrappingInt32.ok isn0 → rinv P r w → window_end (reassembler r) < 0x4000000000000000 →
  peered isn0 r → genuine P isn0 (last_abseqno r) n seg →
  is_u32 (blen (Buffer.str (TCPSegment.payload seg))) →
  let hder := TCPSegment.header seg in
  let idx := payload_index n hder in
  ∃ r' w', segment_received r seg = Ok r' ∧ rinv P r' (w ++ w') ∧ peered isn0 r' ∧
    syn r' = syn r || TCPHeader.syn hder ∧
    (∀ i, known (reassembler r') i ↔ known (reassembler r) i ∨
       (accepted r n hder = true ∧ StreamReassembler.eofed (reassembler r) = false ∧
        idx <= i < idx + blen (Buffer.str (TCPSegment.payload seg)) ∧ i < window_end (reassembler r))).
Proof.
  intros Hi Hr Hw Hp Hg Hl hder idx.
  destruct (segment_received_spec P isn0 Hi r w n seg Hr Hw Hp Hg Hl) as (r' & w' & ? & ? & ? & ? & _ & _ & _ & ? & _).
  by exists r', w'.
Qed.

(** A SYN that carries three bytes. *)
Definition syn_abc : TCPSegment.t :=
  TCPSegment.mk (TCPHeader.set_syn (TCPHeader.set_seqno TCPHeader.default (WrappingInt32.mk 0xfffffffe)) true)
    (Buffer.of_string (slice alphabet 0 3)).

Lemma syn_abc_genuine :
  genuine (at_stream alphabet) (WrappingInt32.mk 0xfffffffe) 0 0 syn_abc.
Proof. split; [reflexivity|lia|done|lia|right]. by apply placed_slice. Qed.

Lemma receiver_segment_received_witness :
  ∃ r' w', segment_received (new 10) syn_abc = Ok r' ∧ rinv (at_stream alphabet) r' w' ∧
    known (reassembler r') 2.
Proof.
  destruct (receiver_segment_received (at_stream alphabet) (WrappingInt32.mk 0xfffffffe) (new 10) [] 0 syn_abc)
    as (r' & w' & E & Hr & _ & _ & Hk).
  - range_compute.
  - apply rinv_new. range_compute.
  - vm_compute. done.
  - intros E. discriminate E.
  - exact syn_abc_genuine.
  - range_compute.
  - exists r', w'. split_and!; [exact E|exact Hr|]. apply Hk. right. split_and!; vm_compute; congruence.
Defined.

(** What the receiver reports: see the next theorem. *)
Lemma receiver_report P r w :
  rinv P r w → window_end (reassembler r) < 0x4000000000000000 →
  let fu := StreamReassembler.first_unassembled (reassembler r) in
  fu = blen w ∧
  ackno r = Ok (if syn r
    then Some (wrap (1 + fu + (if ByteStream.input_ended (stream_out r) then 1 else 0)) (isn r))
    else None) ∧
  window_size r = window_end (reassembler r) - fu ∧
  full_fined r = ByteStream.input_ended (stream_out r).
Proof.
  intros Hr Hw fu. pose proof (rinv_len P r w Hr Hw) as Hl. destruct Hr as [Hre Hi Hf Hs].
  assert (Hfu : fu = blen w) by apply Hre. pose proof Hre as [Hcore Heof Hended].
  assert (Hin : ByteStream.input_ended (stream_out r) = StreamReassembler.eofed (reassembler r)) by exact Hended.
  split; [done|]. rewrite Hin, Hfu. split_and!.
  - unfold ackno. rewrite Hf. destruct (StreamReassembler.eofed _) eqn:Eed.
    + destruct (syn r).
      * destruct Hs as [-> _]. cbn. rewrite wrap_add by (done || lia). do 3 f_equal. lia.
      * destruct Hs as (_ & _ & _ & _ & _ & He). symmetry in Heof. by rewrite He in Heof.
    + destruct (StreamReassembler.eof_ _); cbn [Z.eqb Pos.eqb]; destruct (syn r);
        destruct Hs as [-> _]; try done; do 2 f_equal; f_equal; lia.
  - unfold window_size, stream_out, StreamReassembler.stream_out.
    rewrite (ByteStream.rep_remaining _ w) by apply Hcore. unfold window_end. lia.
  - unfold full_fined. rewrite Hf. by destruct (StreamReassembler.eofed _), (StreamReassembler.eof_ _).
Qed.

(** C30. What the receiver reports to the peer: no acknowledgment number before
    the SYN; afterwards the 32-bit number of the first byte it lacks, counting
    the SYN and, once the whole stream is assembled, the FIN; and as window
    the distance from that byte to the first one it would not accept. *)
Theorem receiver_ackno_window P r w :
  rinv P r w → window_end (reassembler r) < 0x4000000000000000 →
  let fu := StreamReassembler.first_unassembled (reassembler r) in
  fu = blen w ∧
  ackno r = Ok (if syn r
    then Some (wrap (1 + fu + (if ByteStream.input_ended (stream_out r) then 1 else 0)) (isn r))
    else None) ∧
  window_size r = window_end (reassembler r) - fu ∧
  full_fined r = ByteStream.input_ended (stream_out r).
Proof.
  exact (receiver_report P r w).
Qed.

Lemma receiver_ackno_window_witness :
  ∃ r, segment_received (new 10) syn_abc = Ok r ∧ ackno r = Ok (Some (WrappingInt32.mk 2)) ∧
    window_size r = 7.
Proof.
  destruct (segment_received_spec (at_stream alphabet) (WrappingInt32.mk 0xfffffffe) ltac:(range_compute)
    (new 10) [] 0 syn_abc) as (r & w & E & Hr & _).
  - apply rinv_new. range_compute.
  - vm_compute. done.
  - intros E. discriminate E.
  - exact syn_abc_genuine.
  - range_compute.
  - exists r. split; [exact E|].
    destruct (receiver_ackno_window _ r _ Hr) as (_ & Ha & Hw & _); vm_compute in E; injection E as <-.
    + vm_compute. done.
    + split; [rewrite Ha|rewrite Hw]; reflexivity.
Defined.
