(* ===== verification/Sender.v ===== *)
(** * The TCP sender: tcp_sender.hh, tcp_sender.cc and tcp_helpers/tcp_config.hh

    The module [TCPSender] translates the class. The loop of [fill_window] runs
    on fuel, one unit per segment; it never needs more than the window has
    sequence numbers. The loop of [ack_received] increments an iterator that its
    own [pop_front] has just invalidated; on a [std::deque] the increment steps to
    the element after the popped one, which is how it is translated. *)

From S2P Require Import Prelude Buffers Wrapping Stream Segment.

Module TCPConfig.

Definition DEFAULT_CAPACITY : Z := 64000.

Definition MAX_PAYLOAD_SIZE : Z := 1000.

Definition TIMEOUT_DFLT : Z := 1000.

Definition MAX_RETX_ATTEMPTS : Z := 8.

Record t := mk {
  rt_timeout : Z;
  recv_capacity : Z;
  send_capacity : Z;
  fixed_isn : option WrappingInt32.t;
}.

Definition default : t := mk TIMEOUT_DFLT DEFAULT_CAPACITY DEFAULT_CAPACITY None.

End TCPConfig.

Module TCPSender.

Record sent_t := mk_sent {
  expected_ack : Z;
  seg : TCPSegment.t;
}.

Record t := mk {
  isn : WrappingInt32.t;                  (* _isn *)
  segments_out : list TCPSegment.t;       (* _segments_out *)
  initial_retransmission_timeout : Z;     (* _initial_retransmission_timeout *)
  timeout : Z;                            (* _timeout *)
  stream : ByteStream.t;                  (* _stream *)
  next_abs_seqno : Z;                     (* _next_abs_seqno *)
  last_acked_abs_seqno : Z;               (* _last_acked_abs_seqno *)
  sent : list sent_t;                     (* _sent *)
  resend_try_times : Z;                   (* _resend_try_times *)
  last_time : Z;                          (* _last_time *)
  syned_ : bool;                          (* _syned *)
  fined_ : bool;                          (* _fined *)
  window_size : Z;                        (* _window_size *)
}.

(** The random initial sequence number is an argument. *)
Definition new (capacity retx_timeout : Z) (fixed_isn : option WrappingInt32.t) (random : Z) : t :=
  mk (default (WrappingInt32.of_raw random) fixed_isn) [] retx_timeout retx_timeout
     (ByteStream.new capacity) 0 0 [] 0 0 false false 1.

Definition bytes_in_flight (s : t) : Z := w64 (next_abs_seqno s - last_acked_abs_seqno s).

Definition remain_window_size (s : t) : Z := window_size s.

Definition fined (s : t) : bool := fined_ s.

Definition full_fined (s : t) : bool := fined_ s && (next_abs_seqno s =? last_acked_abs_seqno s).

Definition syned (s : t) : bool := syned_ s.

Definition stream_in (s : t) : ByteStream.t := stream s.

Definition consecutive_retransmissions (s : t) : Z := resend_try_times s.

Definition next_seqno_absolute (s : t) : Z := next_abs_seqno s.

Definition next_seqno (s : t) : WrappingInt32.t := wrap (next_abs_seqno s) (isn s).

(** The owner's access through [stream_in()] and [segments_out()]. *)
Definition with_stream (s : t) (st : ByteStream.t) : t :=
  mk (isn s) (segments_out s) (initial_retransmission_timeout s) (timeout s) st
     (next_abs_seqno s) (last_acked_abs_seqno s) (sent s) (resend_try_times s) (last_time s)
     (syned_ s) (fined_ s) (window_size s).

Definition with_segments_out (s : t) (q : list TCPSegment.t) : t :=
  mk (isn s) q (initial_retransmission_timeout s) (timeout s) (stream s)
     (next_abs_seqno s) (last_acked_abs_seqno s) (sent s) (resend_try_times s) (last_time s)
     (syned_ s) (fined_ s) (window_size s).

(** Lines 62 to 75: numbers the segment, queues it and remembers it. *)
Definition send (s : t) (segment : TCPSegment.t) : t :=
  let header := TCPHeader.set_seqno (TCPSegment.header segment) (wrap (next_abs_seqno s) (isn s)) in
  let segment := TCPSegment.mk header (TCPSegment.payload segment) in
  let next := w64 (next_abs_seqno s + TCPSegment.length_in_sequence_space segment) in
  mk (isn s) (segments_out s ++ [segment]) (initial_retransmission_timeout s) (timeout s) (stream s)
     next (last_acked_abs_seqno s) (sent s ++ [mk_sent next segment]) (resend_try_times s) (last_time s)
     (syned_ s) (fined_ s) (window_size s).

(** Lines 33 to 75, one round of the loop; the flag says whether the loop goes on. *)
Definition fill_once (s : t) (allow_size : Z) : result (t * bool) :=
  let syn := negb (syned_ s) in
  let allow_size := if syn then w64 (allow_size - 1) else allow_size in
  let read_size :=
    if allow_size <? TCPConfig.MAX_PAYLOAD_SIZE then allow_size else TCPConfig.MAX_PAYLOAD_SIZE in
  '(st, data) ← ByteStream.read (stream s) read_size;
  let buf := Buffer.of_string data in
  let allow_size := w64 (allow_size - Buffer.size buf) in
  let fin := negb (fined_ s) && (0 <? allow_size) &&
             (ByteStream.input_ended st && ByteStream.buffer_empty st) in
  let segment := TCPSegment.mk (TCPHeader.set_fin (TCPHeader.set_syn TCPHeader.default syn) fin) buf in
  let s :=
    mk (isn s) (segments_out s) (initial_retransmission_timeout s) (timeout s) st
       (next_abs_seqno s) (last_acked_abs_seqno s) (sent s) (resend_try_times s) (last_time s)
       (syned_ s || syn) (fined_ s || fin) (window_size s) in
  if TCPSegment.length_in_sequence_space segment =? 0 then Ok (s, false)
  else Ok (send s segment, true).

Fixpoint fill_loop (fuel : nat) (ex : Z) (s : t) : result t :=
  match fuel with
  | O => Err out_of_fuel
  | S fuel' =>
      if bytes_in_flight s <? window_size s + ex then
        if fined_ s then Ok s
        else
          '(s', more) ← fill_once s (w64 (window_size s - bytes_in_flight s + ex));
          if (more : bool) then fill_loop fuel' 0 s' else Ok s'
      else Ok s
  end.

Definition fill_window (s : t) : result t :=
  let ex := if window_size s =? 0 then 1 else 0 in
  fill_loop (S (S (Z.to_nat (window_size s)))) ex s.

(** The loop of lines 106 to 110. *)
Fixpoint pop_acked (acked : Z) (l : list sent_t) : list sent_t :=
  match l with
  | [] => []
  | x :: rest => if expected_ack x <=? acked then pop_acked acked rest else l
  end.

Definition ack_received (s : t) (ackno : WrappingInt32.t) (win : Z) : t :=
  let tmp := unwrap ackno (isn s) (last_acked_abs_seqno s) in
  if (tmp <=? last_acked_abs_seqno s) || (next_abs_seqno s <? tmp) then
    mk (isn s) (segments_out s) (initial_retransmission_timeout s) (timeout s) (stream s)
       (next_abs_seqno s) (last_acked_abs_seqno s) (sent s) (resend_try_times s) (last_time s)
       (syned_ s) (fined_ s) win
  else if match sent s with [] => true | _ => false end then
    mk (isn s) (segments_out s) (initial_retransmission_timeout s) (timeout s) (stream s)
       (next_abs_seqno s) tmp (sent s) (resend_try_times s) (last_time s)
       (syned_ s) (fined_ s) win
  else
    mk (isn s) (segments_out s) (initial_retransmission_timeout s)
       (initial_retransmission_timeout s) (stream s)
       (next_abs_seqno s) tmp (pop_acked tmp (sent s)) 0 0
       (syned_ s) (fined_ s) win.

Definition tick (s : t) (ms_since_last_tick : Z) : t :=
  let time := w64 (last_time s + ms_since_last_tick) in
  match sent s with
  | x :: _ =>
      if timeout s <=? time then
        mk (isn s) (segments_out s ++ [seg x]) (initial_retransmission_timeout s)
           (if negb (window_size s =? 0) then w32 (2 * timeout s) else timeout s) (stream s)
           (next_abs_seqno s) (last_acked_abs_seqno s) (sent s)
           (if negb (window_size s =? 0) then w32 (resend_try_times s + 1) else resend_try_times s)
           0 (syned_ s) (fined_ s) (window_size s)
      else
        mk (isn s) (segments_out s) (initial_retransmission_timeout s) (timeout s) (stream s)
           (next_abs_seqno s) (last_acked_abs_seqno s) (sent s) (resend_try_times s) time
           (syned_ s) (fined_ s) (window_size s)
  | [] =>
      mk (isn s) (segments_out s) (initial_retransmission_timeout s) (timeout s) (stream s)
         (next_abs_seqno s) (last_acked_abs_seqno s) [] (resend_try_times s) 0
         (syned_ s) (fined_ s) (window_size s)
  end.

Definition send_empty_segment (s : t) : t :=
  let seg := TCPSegment.mk (TCPHeader.set_seqno TCPHeader.default (wrap (next_abs_seqno s) (isn s))) Buffer.empty in
  with_segments_out s (segments_out s ++ [seg]).

End TCPSender.
