(* ===== verification/SenderSpec.v ===== *)
(** * Correctness of the TCP sender

    The invariant [sinv s w]: the application has written [w] to the stream of
    [s]; the segments in flight are consecutive, cover exactly the sequence
    numbers from the oldest unacknowledged one to the next one to send, and carry
    the bytes that [w] has there; the retransmission timeout is the initial one
    doubled once per consecutive retransmission. *)

From S2P Require Import Prelude Buffers Wrapping Stream ReassemblySpec Segment Receiver Sender.
Import TCPSender.

(** [b] is the byte of the string [d] at index [i]. *)
Definition at_list (d : bytes) (i : Z) (b : byte) : Prop := 0 <= i ∧ d !! Z.to_nat i = Some b.

(** The bytes sent so far, when [w] was written. *)
Definition sent_data (s : t) (w : bytes) : bytes := ztake (ByteStream.read_count (stream s)) w.

(** The segment [g] carries absolute number [n] and its payload is part of
    [d]; it carries the SYN only at zero, and the FIN only after all of [d],
    once the sender is finished ([f]). *)
Record seg_at (isn : WrappingInt32.t) (d : bytes) (f : bool) (n : Z) (g : TCPSegment.t) : Prop := mk_seg_at {
  sg_nonneg : 0 <= n;
  sg_seqno : TCPHeader.seqno (TCPSegment.header g) = wrap n isn;
  sg_syn : TCPHeader.syn (TCPSegment.header g) = true → n = 0;
  sg_placed : blen (Buffer.str (TCPSegment.payload g)) = 0 ∨
    placed (at_list d) (payload_index n (TCPSegment.header g)) (Buffer.str (TCPSegment.payload g));
  sg_max : blen (Buffer.str (TCPSegment.payload g)) <= TCPConfig.MAX_PAYLOAD_SIZE;
  sg_win : is_u16 (TCPHeader.win (TCPSegment.header g));
  sg_fin : TCPHeader.fin (TCPSegment.header g) = true → f = true ∧
    payload_index n (TCPSegment.header g) + blen (Buffer.str (TCPSegment.payload g)) = blen d;
}.

(** Consecutive segments from number [lo] to number [hi]. *)
Fixpoint outstanding (isn : WrappingInt32.t) (d : bytes) (f : bool) (lo : Z) (l : list sent_t) (hi : Z) : Prop :=
  match l with
  | [] => lo = hi
  | x :: rest =>
      seg_at isn d f lo (seg x) ∧ TCPHeader.syn (TCPSegment.header (seg x)) = (lo =? 0) ∧
      expected_ack x = lo + TCPSegment.length_in_sequence_space (seg x) ∧ lo < expected_ack x ∧
      outstanding isn d f (expected_ack x) rest hi
  end.

(** The oldest number in flight is the oldest unacknowledged one, or lies
    before it in the same segment. *)
Definition oldest (s : t) (lo : Z) : Prop :=
  match sent s with
  | [] => lo = last_acked_abs_seqno s
  | x :: _ => lo <= last_acked_abs_seqno s < expected_ack x
  end.

Definition b2n (b : bool) : Z := if b then 1 else 0.

Record sinv (s : t) (w : bytes) : Prop := mk_sinv {
  si_rep : ByteStream.rep (stream s) w;
  si_isn : WrappingInt32.ok (isn s);
  si_next : next_abs_seqno s = b2n (syned_ s) + ByteStream.read_count (stream s) + b2n (fined_ s);
  si_syned : syned_ s = false → ByteStream.read_count (stream s) = 0 ∧ fined_ s = false;
  si_fined : fined_ s = true → ByteStream.input_ended_flag (stream s) = true;
  si_acked : 0 <= last_acked_abs_seqno s <= next_abs_seqno s;
  si_sent : ∃ lo, oldest s lo ∧
    outstanding (isn s) (sent_data s w) (fined_ s) lo (sent s) (next_abs_seqno s);
  si_queue : Forall (λ g, ∃ n, n <= next_abs_seqno s ∧ seg_at (isn s) (sent_data s w) (fined_ s) n g)
    (segments_out s);
  si_window : is_u16 (window_size s);
  si_initial : is_u16 (initial_retransmission_timeout s);
  si_tries : 0 <= resend_try_times s;
  si_timeout : timeout s = w32 (initial_retransmission_timeout s * 2 ^ resend_try_times s);
}.

(** ** Segments *)

Lemma at_list_app d d' i b : at_list d i b → at_list (d ++ d') i b.
Proof. intros [Hi H]. split; [done|]. by apply lookup_app_l_Some. Qed.

Lemma placed_mono (P Q : Z → byte → Prop) i l : (∀ i b, P i b → Q i b) → placed P i l → placed Q i l.
Proof. intros H Hp k b Hk. by apply H, Hp. Qed.

Lemma placed_at_list d i l :
  0 <= i → i + blen l <= blen d → l = ztake (blen l) (zdrop i d) → placed (at_list d) i l.
Proof.
  intros Hi Hle E k b Hk. pose proof (blen_nonneg l). split; [lia|]. rewrite E in Hk. unfold ztake, zdrop in Hk.
  apply lookup_take_Some in Hk as [Hk _]. rewrite lookup_drop, Z.min_l in Hk by lia.
  replace (Z.to_nat (i + Z.of_nat k)) with (Z.to_nat i + k)%nat by lia. done.
Qed.

Lemma seg_at_mono isn d d' f n g :
  seg_at isn d false n g → seg_at isn (d ++ d') f n g.
Proof.
  intros []. split; try done.
  - destruct sg_placed0 as [?|Hp]; [by left|right].
    eapply placed_mono; [|exact Hp]. intros i b. apply at_list_app.
  - intros Hf. by destruct (sg_fin0 Hf) as [? _].
Qed.

(** The data only grows, and not once the FIN is out. *)
Definition grows (d d' : bytes) (f f' : bool) : Prop :=
  d' = d ∧ f' = f ∨ f = false ∧ ∃ e, d' = d ++ e.

Lemma seg_at_grows isn d d' f f' n g : grows d d' f f' → seg_at isn d f n g → seg_at isn d' f' n g.
Proof. intros [[-> ->]|[-> [e ->]]]; [done|apply seg_at_mono]. Qed.

(** The segment [g], with a number not below [lo], spans the number [i]. *)
Definition spans (isn : WrappingInt32.t) (d : bytes) (f : bool) (lo i : Z) (g : TCPSegment.t) : Prop :=
  ∃ n, lo <= n ∧ seg_at isn d f n g ∧ TCPHeader.syn (TCPSegment.header g) = (n =? 0) ∧
    n <= i < n + TCPSegment.length_in_sequence_space g.

Lemma spans_grows isn d d' f f' lo lo' i g :
  grows d d' f f' → lo' <= lo → spans isn d f lo i g → spans isn d' f' lo' i g.
Proof. intros Hg Hlo (n & Hn & Hs & Hr). exists n. split; [lia|]. split; [by eapply seg_at_grows|done]. Qed.

Lemma outstanding_mono isn d d' f lo l hi :
  outstanding isn d false lo l hi → outstanding isn (d ++ d') f lo l hi.
Proof.
  revert lo. induction l as [|x l IH]; intros lo; simpl; [done|].
  intros (Hg & Hs & He & Hlt & H). split_and!; auto using seg_at_mono.
Qed.

Lemma outstanding_snoc isn d f lo l hi x :
  outstanding isn d f lo l hi → seg_at isn d f hi (seg x) →
  TCPHeader.syn (TCPSegment.header (seg x)) = (hi =? 0) →
  expected_ack x = hi + TCPSegment.length_in_sequence_space (seg x) → hi < expected_ack x →
  outstanding isn d f lo (l ++ [x]) (expected_ack x).
Proof.
  intros Ho Hg Hs He Hlt. revert lo Ho. induction l as [|y l IH]; intros lo; simpl.
  - intros ->. done.
  - intros (? & ? & ? & ? & H). split_and!; auto.
Qed.

Lemma outstanding_le isn d f lo l hi : outstanding isn d f lo l hi → lo <= hi.
Proof.
  revert lo. induction l as [|x l IH]; intros lo; simpl; [lia|].
  intros (_ & _ & _ & Hlt & H). apply IH in H. lia.
Qed.

(** Dropping the acknowledged segments leaves those that end after [a]. *)
Lemma pop_acked_spec isn d f lo l hi a :
  outstanding isn d f lo l hi → lo <= a <= hi →
  ∃ lo', outstanding isn d f lo' (pop_acked a l) hi ∧
    match pop_acked a l with [] => lo' = a | x :: _ => lo' <= a < expected_ack x end ∧
    ∃ popped, l = popped ++ pop_acked a l ∧ Forall (λ x, expected_ack x <= a) popped.
Proof.
  revert lo. induction l as [|x l IH]; intros lo; simpl.
  - intros -> Ha. exists a. split_and!; [lia|done|]. exists []. done.
  - intros (Hg & Hs & He & Hlt & Ho) Ha. destruct (Z.leb_spec (expected_ack x) a).
    + destruct (IH (expected_ack x) Ho ltac:(lia)) as (lo' & Ho' & Hm & p & Hp & Hf).
      exists lo'. split_and!; try done. exists (x :: p). simpl. split; [by rewrite <- Hp|by constructor].
    + exists lo. simpl. split_and!; try done; try lia. by exists [].
Qed.

(** ** Filling the window *)

Lemma ztake_split {A} a b (w : list A) :
  0 <= a <= blen w → 0 <= b → ztake (Z.min (blen w) (a + b)) w = ztake a w ++ ztake b (zdrop a w).
Proof.
  intros Ha Hb. unfold ztake, zdrop. rewrite take_take_drop. f_equal.
  unfold blen in *. rewrite length_drop. lia.
Qed.

(** What sending leaves alone. *)
Record same_timer (s s' : t) : Prop := mk_same_timer {
  st_isn : isn s' = isn s;
  st_initial : initial_retransmission_timeout s' = initial_retransmission_timeout s;
  st_timeout : timeout s' = timeout s;
  st_acked : last_acked_abs_seqno s' = last_acked_abs_seqno s;
  st_tries : resend_try_times s' = resend_try_times s;
  st_last_time : last_time s' = last_time s;
  st_window : window_size s' = window_size s;
}.

Lemma same_timer_refl s : same_timer s s.
Proof. by split. Qed.

Lemma same_timer_trans s1 s2 s3 : same_timer s1 s2 → same_timer s2 s3 → same_timer s1 s3.
Proof. intros [] []. split; congruence. Qed.

(** The segment of one round of the loop. *)
Definition round_segment (s : t) (data : bytes) (fin : bool) : TCPSegment.t :=
  TCPSegment.mk
    (TCPHeader.set_seqno (TCPHeader.set_fin (TCPHeader.set_syn TCPHeader.default (negb (syned_ s))) fin)
       (wrap (next_abs_seqno s) (isn s)))
    (Buffer.of_string data).

(** The state of one round before the segment is queued. *)
Definition round_state (s : t) (st : ByteStream.t) (fin : bool) : t :=
  mk (isn s) (segments_out s) (initial_retransmission_timeout s) (timeout s) st
     (next_abs_seqno s) (last_acked_abs_seqno s) (sent s) (resend_try_times s) (last_time s)
     (syned_ s || negb (syned_ s)) (fined_ s || fin) (window_size s).

Lemma fill_once_shape s w allow :
  sinv s w → fined_ s = false → blen w < 0x4000000000000000 → 1 <= allow <= 0x10000 →
  let room := allow - b2n (negb (syned_ s)) in
  let data := ztake (Z.min room TCPConfig.MAX_PAYLOAD_SIZE) (zdrop (ByteStream.read_count (stream s)) w) in
  ∃ st, ByteStream.rep st w ∧
    ByteStream.read_count st = ByteStream.read_count (stream s) + blen data ∧
    sent_data (with_stream s st) w = sent_data s w ++ data ∧
    ByteStream.input_ended_flag st = ByteStream.input_ended_flag (stream s) ∧
    ByteStream.capacity st = ByteStream.capacity (stream s) ∧
    ByteStream.error_ st = ByteStream.error_ (stream s) ∧
    blen data <= room ∧
    let fin := (blen data <? room) && (ByteStream.input_ended_flag st && (ByteStream.read_count st =? blen w)) in
    fill_once s allow =
      if TCPSegment.length_in_sequence_space (round_segment s data fin) =? 0
      then Ok (round_state s st fin, false)
      else Ok (send (round_state s st fin) (round_segment s data fin), true).
Proof.
  intros [] Hf Hw Ha room data. unfold fill_once. cbv zeta.
  assert (Hroom : (if negb (syned_ s) then w64 (allow - 1) else allow) = room).
  { subst room. destruct (syned_ s); simpl; [lia|]. rewrite w64_small by (unfold_w; lia). lia. }
  assert (0 <= room <= allow) by (subst room; destruct (syned_ s); simpl; lia).
  rewrite Hroom.
  assert (Hrs : (if room <? TCPConfig.MAX_PAYLOAD_SIZE then room else TCPConfig.MAX_PAYLOAD_SIZE)
    = Z.min room TCPConfig.MAX_PAYLOAD_SIZE) by (destruct (Z.ltb_spec room TCPConfig.MAX_PAYLOAD_SIZE); lia).
  rewrite Hrs. set (n := Z.min room TCPConfig.MAX_PAYLOAD_SIZE) in *.
  assert (0 <= n <= room) by (subst n; unfold TCPConfig.MAX_PAYLOAD_SIZE; lia).
  destruct (ByteStream.read_spec (stream s) w n) as (st & -> & Hrep & Hrc & Hcap & Herr & Hend); [done|lia|].
  fold data. cbn [mbind result_bind]. pose proof (ByteStream.rep_read _ _ si_rep0) as Hrd.
  assert (Hlen : blen data = Z.min n (blen w - ByteStream.read_count (stream s))).
  { subst data. rewrite blen_ztake, blen_zdrop by lia. lia. }
  exists st. split_and!; try done; try lia.
  - unfold sent_data. cbn [stream with_stream]. rewrite Hrc, ztake_split by lia. done.
  - rewrite Hf. cbn [negb andb]. unfold Buffer.size. rewrite buffer_str_of_string.
    rewrite w64_small by (unfold_w; lia).
    replace (0 <? room - blen data) with (blen data <? room)
      by (destruct (Z.ltb_spec (blen data) room), (Z.ltb_spec 0 (room - blen data)); lia).
    unfold ByteStream.input_ended, ByteStream.buffer_empty. rewrite (ByteStream.rep_size st w) by done.
    replace (blen w - ByteStream.read_count st =? 0) with (ByteStream.read_count st =? blen w)
      by (destruct (Z.eqb_spec (ByteStream.read_count st) (blen w)),
          (Z.eqb_spec (blen w - ByteStream.read_count st) 0); lia).
    unfold round_state. rewrite Hf. done.
Qed.

Lemma round_length s data fin :
  TCPSegment.length_in_sequence_space (round_segment s data fin) = blen data + b2n (negb (syned_ s)) + b2n fin.
Proof.
  unfold TCPSegment.length_in_sequence_space, round_segment. cbn [TCPSegment.payload].
  rewrite buffer_str_of_string. by destruct (syned_ s), fin.
Qed.

Lemma round_index s w :
  sinv s w → fined_ s = false →
  payload_index (next_abs_seqno s) (TCPSegment.header (round_segment s [] false)) =
  ByteStream.read_count (stream s) ∧ (next_abs_seqno s =? 0) = negb (syned_ s) ∧ 0 <= next_abs_seqno s.
Proof.
  intros [] Hf. pose proof (ByteStream.rep_read _ _ si_rep0). unfold payload_index. simpl.
  rewrite si_next0, Hf. destruct (syned_ s); simpl.
  - rewrite (proj2 (Z.eqb_neq _ _)) by lia. split_and!; [lia|done|lia].
  - destruct si_syned0 as [-> _]; done.
Qed.

Lemma blen_sent_data s w :
  ByteStream.rep (stream s) w → blen (sent_data s w) = ByteStream.read_count (stream s).
Proof. intros []. unfold sent_data. rewrite blen_ztake by lia. lia. Qed.

Lemma round_seg_at s w data fin :
  sinv s w → fined_ s = false → blen data <= TCPConfig.MAX_PAYLOAD_SIZE →
  seg_at (isn s) (sent_data s w ++ data) fin (next_abs_seqno s) (round_segment s data fin).
Proof.
  intros Hs Hf Hm. destruct (round_index s w Hs Hf) as (Hi & Hz & Hn).
  pose proof (blen_sent_data s w (si_rep s w Hs)) as Hd.
  assert (Hi' : payload_index (next_abs_seqno s) (TCPSegment.header (round_segment s data fin)) =
    blen (sent_data s w)) by (rewrite Hd; exact Hi).
  split; try done.
  - simpl. intros E. rewrite E in Hz. by apply Z.eqb_eq in Hz.
  - right. rewrite Hi'. cbn [TCPSegment.payload round_segment]. rewrite buffer_str_of_string.
    apply placed_at_list; [apply blen_nonneg|rewrite blen_app; lia|].
    rewrite zdrop_app_r by lia. rewrite Z.sub_diag, zdrop_0, ztake_all by lia. done.
  - cbn [TCPSegment.payload round_segment]. by rewrite buffer_str_of_string.
  - intros E. split; [exact E|]. rewrite Hi', blen_app. cbn [TCPSegment.payload round_segment].
    by rewrite buffer_str_of_string.
Qed.

Lemma round_idle_inv s w st :
  sinv s w → syned_ s = true → ByteStream.rep st w →
  ByteStream.read_count st = ByteStream.read_count (stream s) →
  ByteStream.input_ended_flag st = ByteStream.input_ended_flag (stream s) →
  sinv (round_state s st false) w.
Proof.
  intros [] Hs Hrep Hrc Hend.
  assert (Hd : sent_data (round_state s st false) w = sent_data s w)
    by (unfold sent_data; simpl; by rewrite Hrc).
  split; rewrite ?Hd; simpl; rewrite ?Hs, ?orb_false_r, ?Hrc, ?Hend; try done.
  by rewrite Hs in si_next0.
Qed.

Lemma round_send_inv s w st data fin :
  sinv s w → fined_ s = false → blen w < 0x4000000000000000 → ByteStream.rep st w →
  blen data <= TCPConfig.MAX_PAYLOAD_SIZE →
  ByteStream.read_count st = ByteStream.read_count (stream s) + blen data →
  sent_data (with_stream s st) w = sent_data s w ++ data →
  (fin = true → ByteStream.input_ended_flag st = true) →
  let g := round_segment s data fin in
  TCPSegment.length_in_sequence_space g ≠ 0 →
  let s' := send (round_state s st fin) g in
  sinv s' w ∧ next_abs_seqno s' = next_abs_seqno s + TCPSegment.length_in_sequence_space g ∧
  segments_out s' = segments_out s ++ [g] ∧ sent s' = sent s ++ [mk_sent (next_abs_seqno s') g].
Proof.
  intros Hs Hf Hw Hrep Hmax Hrc Hd Hin g Hlen s'.
  pose proof (round_seg_at s w data fin Hs Hf Hmax) as Hsg. fold g in Hsg.
  destruct (round_index s w Hs Hf) as (_ & Hz & Hn0).
  pose proof (round_length s data fin) as Hl. fold g in Hl. pose proof (blen_nonneg data) as Hdn.
  pose proof (ByteStream.rep_read _ _ Hrep) as Hrd1. pose proof Hs as [].
  assert (Hlp : 0 < TCPSegment.length_in_sequence_space g)
    by (destruct (syned_ s), fin; simpl in Hl; lia).
  assert (Hnext : next_abs_seqno s' = next_abs_seqno s + TCPSegment.length_in_sequence_space g).
  { apply w64_small. change (TCPSegment.length_in_sequence_space _) with (TCPSegment.length_in_sequence_space g).
    rewrite Hf in si_next0. destruct (syned_ s), fin; simpl in *; unfold_w; lia. }
  assert (Hd' : sent_data s' w = sent_data s w ++ data) by exact Hd.
  assert (Hfd : fined_ s' = fin) by (simpl; by rewrite Hf).
  split_and!; try done.
  split; rewrite ?Hd', ?Hfd; try done.
  - rewrite Hnext, Hl, si_next0, Hf. simpl. rewrite Hrc. destruct (syned_ s), fin; simpl; lia.
  - simpl. by destruct (syned_ s).
  - rewrite Hnext. simpl. lia.
  - destruct si_sent0 as (lo & Hlo & Ho). rewrite Hf in Ho. exists lo. split.
    + unfold oldest in *. change (sent s') with (sent s ++ [mk_sent (next_abs_seqno s') g]).
      change (last_acked_abs_seqno s') with (last_acked_abs_seqno s).
      destruct (sent s) as [|x l]; cbn [app expected_ack outstanding] in *; [lia|done].
    + change (sent s') with (sent s ++ [mk_sent (next_abs_seqno s') g]).
      change (next_abs_seqno s') with (expected_ack (mk_sent (next_abs_seqno s') g)) at 2.
      apply (outstanding_snoc _ _ _ _ _ (next_abs_seqno s));
        cbn [seg expected_ack]; rewrite ?Hnext; try done; try lia. by apply outstanding_mono.
  - change (segments_out s') with (segments_out s ++ [g]). rewrite Hnext. apply Forall_app. split.
    + eapply Forall_impl; [exact si_queue0|]. intros x (n & Hn & Hx). exists n.
      split; [lia|]. rewrite Hf in Hx. by apply seg_at_mono.
    + apply Forall_singleton. exists (next_abs_seqno s). split; [lia|done].
Qed.

(** One round: it keeps the invariant, sends at most [allow] numbers, and
    sends nothing only when there is nothing to send. *)
Lemma fill_once_spec s w allow :
  sinv s w → fined_ s = false → blen w < 0x4000000000000000 → 1 <= allow <= 0x10000 →
  ∃ s' more, fill_once s allow = Ok (s', more) ∧ sinv s' w ∧ same_timer s s' ∧ syned_ s' = true ∧
    next_abs_seqno s' <= next_abs_seqno s + allow ∧
    ByteStream.read_count (stream s) <= ByteStream.read_count (stream s') ∧
    ByteStream.input_ended_flag (stream s') = ByteStream.input_ended_flag (stream s) ∧
    ByteStream.capacity (stream s') = ByteStream.capacity (stream s) ∧
    ByteStream.error_ (stream s') = ByteStream.error_ (stream s) ∧
    (fined_ s' = true → ByteStream.read_count (stream s') = blen w) ∧
    (∃ segs, segments_out s' = segments_out s ++ segs ∧ map seg (sent s') = map seg (sent s) ++ segs ∧
       ∀ i, next_abs_seqno s <= i < next_abs_seqno s' →
         Exists (spans (isn s) (sent_data s' w) (fined_ s') (next_abs_seqno s) i) segs) ∧
    if more then next_abs_seqno s < next_abs_seqno s'
    else next_abs_seqno s' = next_abs_seqno s ∧ fined_ s' = false ∧
         ByteStream.read_count (stream s') = blen w ∧ ByteStream.input_ended_flag (stream s') = false.
Proof.
  intros Hs Hf Hw Ha.
  destruct (fill_once_shape s w allow Hs Hf Hw Ha) as (st & Hrep & Hrc & Hd & Hend & Hcap & Herr & Hroom & Hfo).
  cbv zeta in Hfo. set (data := ztake _ _) in *.
  set (fin := (blen data <? _) && _) in *. rewrite Hfo. clear Hfo.
  pose proof (round_length s data fin) as Hlen. pose proof (blen_nonneg data) as Hdn.
  destruct (round_index s w Hs Hf) as (_ & Hz & Hn0).
  assert (Hmax : blen data <= TCPConfig.MAX_PAYLOAD_SIZE).
  { subst data. rewrite blen_ztake by (unfold TCPConfig.MAX_PAYLOAD_SIZE; destruct (syned_ s); simpl; lia). lia. }
  pose proof (round_seg_at s w data fin Hs Hf Hmax) as Hsg.
  set (g := round_segment s data fin) in *.
  assert (Hfl : b2n fin = 1 → blen data < allow - b2n (negb (syned_ s))).
  { intros E. destruct (blen data <? allow - b2n (negb (syned_ s))) eqn:E'; [by apply Z.ltb_lt in E'|].
    subst fin. done. }
  pose proof (ByteStream.rep_read _ _ (si_rep _ _ Hs)) as Hrd0.
  pose proof (ByteStream.rep_read _ _ Hrep) as Hrd1.
  pose proof Hs as [].
  destruct (Z.eqb_spec (TCPSegment.length_in_sequence_space g) 0) as [E|E].
  - (* nothing to send *)
    assert (Hsy : syned_ s = true) by (destruct (syned_ s); [done|simpl in *; destruct fin; simpl in *; lia]).
    assert (Hfin : fin = false) by (destruct fin; [simpl in *; destruct (syned_ s); simpl in *; lia|done]).
    assert (Hdl : blen data = 0) by (rewrite Hsy, Hfin in Hlen; simpl in *; lia).
    rewrite Hfin. exists (round_state s st false), false. split; [done|].
    rewrite Hdl, Z.add_0_r in Hrc. rewrite Hsy in Hroom. cbn [negb b2n] in Hroom.
    assert (Hall : ByteStream.read_count st = blen w).
    { subst data. rewrite blen_ztake, blen_zdrop in Hdl by (unfold TCPConfig.MAX_PAYLOAD_SIZE; rewrite ?Hsy; simpl; lia).
      rewrite Hsy in Hdl. unfold TCPConfig.MAX_PAYLOAD_SIZE in Hdl. simpl in Hdl. lia. }
    assert (Hopen : ByteStream.input_ended_flag st = false).
    { revert Hfin. subst fin. rewrite Hdl, Hsy, Hall, Z.eqb_refl, andb_true_r. cbn [negb b2n].
      rewrite (proj2 (Z.ltb_lt _ _)) by lia. done. }
    split_and!; try done; try lia.
    + by apply round_idle_inv.
    + simpl. by rewrite Hsy.
    + simpl. lia.
    + simpl. lia.
    + exists []. rewrite !app_nil_r. split_and!; try done. simpl. lia.
    + simpl. by rewrite Hf.
  - (* a segment *)
    destruct (round_send_inv s w st data fin) as (Hs' & Hn' & Hq' & Hst'); try done.
    { intros E'. subst fin. by bool_to_prop. }
    eexists _, true. split; [done|]. fold g in Hs', Hn', Hq', Hst'. split_and!; try done.
    + simpl. by destruct (syned_ s).
    + rewrite Hn', Hlen. destruct fin; simpl in Hfl |- *; lia.
    + change (ByteStream.read_count (stream s) <= ByteStream.read_count st). lia.
    + simpl. rewrite Hf. intros E'. apply andb_prop in E' as [_ E']. apply andb_prop in E' as [_ E']. by apply Z.eqb_eq in E'.
    + exists [g]. split; [done|]. rewrite Hst', map_app. split; [done|]. intros i Hi. apply Exists_cons. left.
      exists (next_abs_seqno s). split; [lia|]. split_and!; [|by rewrite Hz| |lia].
      * change (sent_data _ w) with (sent_data (with_stream s st) w). rewrite Hd. by simpl; rewrite Hf.
      * lia.
    + rewrite Hn', Hlen in *. destruct (syned_ s), fin; simpl in *; lia.
Qed.

(** Sequence numbers in flight, and the limit [fill_window] works towards:
    the window, with an empty window taken as one. *)
Definition flight (s : t) : Z := next_abs_seqno s - last_acked_abs_seqno s.

Definition limit (s : t) : Z := Z.max 1 (window_size s).

(** Nothing more can be sent. *)
Definition saturated (s : t) (w : bytes) : Prop :=
  fined_ s = true ∨ limit s <= flight s ∨
  (syned_ s = true ∧ ByteStream.read_count (stream s) = blen w ∧
   ByteStream.input_ended_flag (stream s) = false).

(** What a run of the loop from [s] to [s'] has done. *)
Record filled (s s' : t) (w : bytes) : Prop := mk_filled {
  fi_inv : sinv s' w;
  fi_timer : same_timer s s';
  fi_next : next_abs_seqno s <= next_abs_seqno s';
  fi_grow : ByteStream.read_count (stream s) <= ByteStream.read_count (stream s') ∧
    (fined_ s = true → s' = s);
  fi_ended : ByteStream.input_ended_flag (stream s') = ByteStream.input_ended_flag (stream s);
  fi_capacity : ByteStream.capacity (stream s') = ByteStream.capacity (stream s);
  fi_error : ByteStream.error_ (stream s') = ByteStream.error_ (stream s);
  fi_fin : fined_ s' = true → fined_ s = true ∨ ByteStream.read_count (stream s') = blen w;
  fi_segs : ∃ segs, segments_out s' = segments_out s ++ segs ∧ map seg (sent s') = map seg (sent s) ++ segs ∧
    ∀ i, next_abs_seqno s <= i < next_abs_seqno s' →
      Exists (spans (isn s) (sent_data s' w) (fined_ s') (next_abs_seqno s) i) segs;
}.

Lemma filled_refl s w : sinv s w → filled s s w.
Proof. intros H. split; try done; [by left|]. exists []. rewrite !app_nil_r. split_and!; try done. lia. Qed.

Lemma filled_grows s s' w :
  sinv s w → filled s s' w → grows (sent_data s w) (sent_data s' w) (fined_ s) (fined_ s').
Proof.
  intros Hs []. destruct fi_grow0 as [Hg Hf]. destruct (fined_ s) eqn:E.
  - left. by rewrite (Hf eq_refl).
  - right. split; [done|].
    pose proof (ByteStream.rep_read _ _ (si_rep _ _ Hs)). pose proof (ByteStream.rep_read _ _ (si_rep _ _ fi_inv0)).
    exists (ztake (ByteStream.read_count (stream s') - ByteStream.read_count (stream s))
      (zdrop (ByteStream.read_count (stream s)) w)).
    unfold sent_data. rewrite <- ztake_split by lia. f_equal. lia.
Qed.

Lemma filled_trans s1 s2 s3 w : filled s1 s2 w → filled s2 s3 w → filled s1 s3 w.
Proof.
  intros [Hs2 Ht ? [? Hf] ? ? ? Hfin (a & Ha & Hb & Hsp)] H23. pose proof (filled_grows s2 s3 w Hs2 H23) as Hg.
  destruct H23 as [Hs3 ? ? [Hr Hf'] ? ? ? Hfin' (c & Hc & Hd & Hsp')].
  split; try congruence; try lia; try done.
  - by eapply same_timer_trans.
  - split; [lia|]. intros E. specialize (Hf E) as ->. by apply Hf'.
  - intros E. pose proof (ByteStream.rep_read _ _ (si_rep _ _ Hs3)).
    destruct (Hfin' E) as [E2|?]; [|by right]. destruct (Hfin E2) as [?|?]; [by left|right; lia].
  - exists (a ++ c). rewrite Hc, Ha, Hd, Hb, !app_assoc. split_and!; try done. intros i Hi. apply Exists_app.
    destruct (decide (i < next_abs_seqno s2)) as [Hlt|Hge]; [left|right].
    + eapply Exists_impl; [apply (Hsp i); lia|]. intros g. by apply spans_grows.
    + eapply Exists_impl; [apply (Hsp' i); lia|]. intros g. rewrite (st_isn _ _ Ht). apply spans_grows; [by left|lia].
Qed.

Lemma in_flight_spec s w :
  sinv s w → blen w < 0x4000000000000000 →
  bytes_in_flight s = flight s ∧ 0 <= flight s ∧ next_abs_seqno s <= blen w + 2.
Proof.
  intros [] Hw. pose proof (ByteStream.rep_read _ _ si_rep0). unfold bytes_in_flight, flight.
  assert (next_abs_seqno s <= blen w + 2) by (rewrite si_next0; destruct (syned_ s), (fined_ s); simpl; lia).
  split_and!; try lia. apply w64_small. unfold_w. lia.
Qed.

Lemma fill_loop_spec fuel ex s w :
  sinv s w → blen w < 0x4000000000000000 →
  (ex = 0 ∧ (window_size s = 0 → 1 <= flight s)) ∨ (ex = 1 ∧ window_size s = 0) →
  (Z.to_nat (window_size s + ex - flight s) < fuel)%nat →
  ∃ s', fill_loop fuel ex s = Ok s' ∧ filled s s' w ∧ saturated s' w ∧
    flight s' <= Z.max (flight s) (limit s).
Proof.
  revert ex s. induction fuel as [|fuel IH]; intros ex s Hs Hw Hex Hfuel; [lia|].
  destruct (in_flight_spec s w Hs Hw) as (Hbif & Hfl & _). cbn [fill_loop]. rewrite Hbif.
  pose proof (si_window s w Hs) as Hwin. unfold is_u16 in Hwin. unfold limit.
  destruct (Z.ltb_spec (flight s) (window_size s + ex)) as [Hlt|Hge].
  2:{ exists s. split; [done|]. split_and!; [by apply filled_refl| |lia].
      right. left. unfold limit. lia. }
  destruct (fined_ s) eqn:Hf.
  { exists s. split; [done|]. split_and!; [by apply filled_refl|by left|lia]. }
  rewrite w64_small by (unfold_w; lia).
  destruct (fill_once_spec s w (window_size s - flight s + ex)) as
    (s1 & more & -> & Hs1 & Ht1 & Hsy1 & Hn1 & Hg1 & He1 & Hc1 & Hr1 & Hfn1 & Hq1 & Hm1); [done|done|done|lia|].
  cbn [mbind result_bind].
  assert (Hfl1 : flight s1 = next_abs_seqno s1 - last_acked_abs_seqno s)
    by (unfold flight; by rewrite (st_acked _ _ Ht1)).
  assert (Hfil1 : filled s s1 w).
  { split; try done; [destruct more; lia| |by right; apply Hfn1]. split; [done|congruence]. }
  unfold flight in *. destruct more.
  - destruct (IH 0 s1 Hs1 Hw) as (s' & E & Hfil & Hsat & Hle).
    + left. split; [done|]. unfold flight. rewrite Hfl1. destruct Hs. lia.
    + rewrite (st_window _ _ Ht1). unfold flight. lia.
    + exists s'. split; [done|]. split_and!; [by eapply filled_trans|done|].
      unfold limit, flight in *. rewrite (st_window _ _ Ht1) in Hle. lia.
  - destruct Hm1 as (Hn & Hfd & Hrc & Hen). exists s1. split; [done|].
    split_and!; [done|by right; right|lia].
Qed.

Lemma fill_window_spec s w :
  sinv s w → blen w < 0x4000000000000000 →
  ∃ s', fill_window s = Ok s' ∧ filled s s' w ∧ saturated s' w ∧
    flight s' <= Z.max (flight s) (limit s).
Proof.
  intros Hs Hw. unfold fill_window. destruct (in_flight_spec s w Hs Hw) as (_ & Hfl & _).
  pose proof (si_window s w Hs) as Hwin. unfold is_u16 in Hwin.
  destruct (Z.eqb_spec (window_size s) 0); apply fill_loop_spec; try done; lia || tauto.
Qed.

(** ** The other operations *)

Lemma sinv_new cap rt fixed rand :
  is_u64 cap → is_u16 rt → (∀ i, fixed = Some i → WrappingInt32.ok i) → sinv (new cap rt fixed rand) [].
Proof.
  intros Hc Hr Hi. split; simpl; try done; try lia.
  - by apply ByteStream.rep_new.
  - destruct fixed as [i|]; simpl; [by apply Hi|auto with sponge].
  - by exists 0.
  - change (2 ^ 0) with 1. rewrite Z.mul_1_r. symmetry. apply w32_small. unfold is_u16 in Hr. unfold_w. lia.
Qed.

(** The queue of segments is the owner's to empty. *)
Lemma sinv_queue s w q :
  sinv s w → Forall (λ g, ∃ n, n <= next_abs_seqno s ∧ seg_at (isn s) (sent_data s w) (fined_ s) n g) q →
  sinv (with_segments_out s q) w.
Proof. intros [] Hq. by split. Qed.

(** The application writes. *)
Lemma sinv_write s w data :
  sinv s w → is_u64 (blen w + blen data) →
  ∃ st n, ByteStream.write (stream s) data = (st, n) ∧ sinv (with_stream s st) (w ++ ztake n data) ∧
    0 <= n <= blen data ∧ ByteStream.input_ended_flag st = ByteStream.input_ended_flag (stream s) ∧
    sent_data (with_stream s st) (w ++ ztake n data) = sent_data s w.
Proof.
  intros [] Hb. destruct (ByteStream.write_spec (stream s) w data si_rep0 Hb)
    as (st & E & Hrep & Hn & Hcap & Hrc & Herr & Hend).
  pose proof (blen_nonneg data). pose proof (ByteStream.rep_read _ _ si_rep0) as Hrd.
  eexists st, _. split; [exact E|].
  assert (Hd : sent_data (with_stream s st) (w ++ ztake (Z.min (blen data)
    (ByteStream.capacity (stream s) - (blen w - ByteStream.read_count (stream s)))) data) = sent_data s w).
  { unfold sent_data. simpl. rewrite Hrc. by rewrite ztake_app_l by lia. }
  split_and!; [|lia|lia|done|done]. split; rewrite ?Hd; simpl; rewrite ?Hrc, ?Hend; try done.
Qed.

Lemma sinv_end_input s w : sinv s w → sinv (with_stream s (ByteStream.end_input (stream s))) w.
Proof. intros []. split; simpl; try done. by apply ByteStream.rep_end_input. Qed.

Lemma sinv_set_error s w : sinv s w → sinv (with_stream s (ByteStream.set_error (stream s))) w.
Proof. intros []. split; simpl; try done. by apply ByteStream.rep_set_error. Qed.

Lemma send_empty_spec s w :
  sinv s w → ∃ g, send_empty_segment s = with_segments_out s (segments_out s ++ [g]) ∧
    TCPSegment.length_in_sequence_space g = 0 ∧
    TCPHeader.seqno (TCPSegment.header g) = next_seqno s ∧ sinv (send_empty_segment s) w.
Proof.
  intros Hs. eexists. split; [done|]. split_and!; try done. apply sinv_queue; [done|].
  apply Forall_app. split; [by apply si_queue|]. apply Forall_singleton. destruct Hs.
  exists (next_abs_seqno s). split; [lia|]. split; simpl; try done; [lia|by left].
Qed.

(** An acknowledgment that counts: it lies beyond the last one and not beyond
    what was sent. *)
Definition fresh_ack (s : t) (a : Z) : bool :=
  (last_acked_abs_seqno s <? a) && (a <=? next_abs_seqno s).

Lemma ack_received_spec s w ackno win :
  sinv s w → is_u16 win →
  let a := unwrap ackno (isn s) (last_acked_abs_seqno s) in
  let s' := ack_received s ackno win in
  sinv s' w ∧ window_size s' = win ∧ segments_out s' = segments_out s ∧ stream s' = stream s ∧
  next_abs_seqno s' = next_abs_seqno s ∧ isn s' = isn s ∧ syned_ s' = syned_ s ∧ fined_ s' = fined_ s ∧
  initial_retransmission_timeout s' = initial_retransmission_timeout s ∧
  if fresh_ack s a then
    last_acked_abs_seqno s' = a ∧ timeout s' = initial_retransmission_timeout s ∧
    last_time s' = 0 ∧ resend_try_times s' = 0 ∧
    (∃ popped, sent s = popped ++ sent s' ∧ Forall (λ x, expected_ack x <= a) popped ∧
       match sent s' with [] => a = next_abs_seqno s | x :: _ => a < expected_ack x end)
  else
    last_acked_abs_seqno s' = last_acked_abs_seqno s ∧ timeout s' = timeout s ∧
    last_time s' = last_time s ∧ resend_try_times s' = resend_try_times s ∧ sent s' = sent s.
Proof.
  intros Hs Hwin a. pose proof Hs as []. unfold ack_received, fresh_ack. fold a.
  destruct (Z.leb_spec a (last_acked_abs_seqno s)), (Z.ltb_spec (last_acked_abs_seqno s) a),
    (Z.ltb_spec (next_abs_seqno s) a), (Z.leb_spec a (next_abs_seqno s)); try lia; cbn [orb andb].
  1,2: split_and!; try done; split; done.
  destruct si_sent0 as (lo & Hlo & Ho). unfold oldest in Hlo.
  destruct (sent s) as [|x l] eqn:Es.
  { simpl in Ho. lia. }
  destruct (pop_acked_spec _ _ _ _ _ _ a Ho) as (lo' & Ho' & Hm & p & Hp & Hf); [lia|].
  split_and!; try done.
  - split; simpl; try done.
    + lia.
    + exists lo'. split; [exact Hm|done].
    + change (2 ^ 0) with 1. rewrite Z.mul_1_r. symmetry. apply w32_small. unfold is_u16 in *. unfold_w. lia.
  - cbn [sent]. exists p. split_and!; try done. destruct (pop_acked a (x :: l)); [|lia].
    simpl in Ho'. lia.
Qed.

(** The oldest segment in flight is due again. *)
Definition expired (s : t) (ms : Z) : bool :=
  match sent s with [] => false | _ => timeout s <=? w64 (last_time s + ms) end.

Lemma tick_spec s w ms :
  sinv s w → resend_try_times s < UINT32_MAX →
  let s' := tick s ms in
  sinv s' w ∧ stream s' = stream s ∧ next_abs_seqno s' = next_abs_seqno s ∧
  last_acked_abs_seqno s' = last_acked_abs_seqno s ∧ sent s' = sent s ∧ window_size s' = window_size s ∧
  isn s' = isn s ∧ syned_ s' = syned_ s ∧ fined_ s' = fined_ s ∧
  initial_retransmission_timeout s' = initial_retransmission_timeout s ∧
  if expired s ms then
    (∃ x, head (sent s) = Some x ∧ segments_out s' = segments_out s ++ [seg x]) ∧ last_time s' = 0 ∧
    if window_size s =? 0 then timeout s' = timeout s ∧ resend_try_times s' = resend_try_times s
    else timeout s' = w32 (2 * timeout s) ∧ resend_try_times s' = resend_try_times s + 1
  else
    segments_out s' = segments_out s ∧ timeout s' = timeout s ∧ resend_try_times s' = resend_try_times s ∧
    last_time s' = match sent s with [] => 0 | _ => w64 (last_time s + ms) end.
Proof.
  intros Hs Ht. pose proof Hs as []. unfold tick, expired.
  destruct (sent s) as [|x l] eqn:Es.
  { split_and!; try done. destruct si_sent0 as (lo & ? & ?). split; simpl; try done.
    exists lo. unfold oldest in *. simpl. rewrite Es in *. done. }
  destruct (Z.leb_spec (timeout s) (w64 (last_time s + ms))) as [Hle|Hgt].
  2:{ split_and!; try done. split; simpl; rewrite ?Es; try done.
      destruct si_sent0 as (lo & ? & ?). exists lo. unfold oldest in *. simpl. by rewrite Es in *. }
  assert (Hx : ∃ n, n <= next_abs_seqno s ∧ seg_at (isn s) (sent_data s w) (fined_ s) n (seg x)).
  { destruct si_sent0 as (lo & Hlo & Ho). unfold oldest in Hlo. rewrite Es in Hlo.
    pose proof (outstanding_le _ _ _ _ _ _ Ho). exists lo. split; [done|]. by destruct Ho. }
  assert (Hq : Forall (λ g, ∃ n, n <= next_abs_seqno s ∧ seg_at (isn s) (sent_data s w) (fined_ s) n g)
    (segments_out s ++ [seg x])).
  { apply Forall_app. split; [done|]. by apply Forall_singleton. }
  destruct (Z.eqb_spec (window_size s) 0); cbn [negb].
  - split_and!; try done; [|by exists x]. split; simpl; rewrite ?Es; try done.
    destruct si_sent0 as (lo & ? & ?). exists lo. unfold oldest in *. simpl. by rewrite Es in *.
  - assert (Ew : w32 (resend_try_times s + 1) = resend_try_times s + 1)
      by (apply w32_small; unfold_w; lia).
    split_and!; try done; [|by exists x]. split; simpl; rewrite ?Es, ?Ew; try done.
    + destruct si_sent0 as (lo & ? & ?). exists lo. unfold oldest in *. simpl. by rewrite Es in *.
    + lia.
    + rewrite si_timeout0, Z.pow_add_r, Z.pow_1_r by lia. unfold w32.
      rewrite Zmult_mod_idemp_r. f_equal. lia.
Qed.

(** ** A later state of the same sender *)

(** The data only grows, and the FIN leaves only after everything that had been
    written when the sender was not finished yet. *)
Record later (s s' : t) (v v' : bytes) : Prop := mk_later {
  la_inv : sinv s' v';
  la_isn : isn s' = isn s;
  la_next : next_abs_seqno s <= next_abs_seqno s';
  la_grows : grows (sent_data s v) (sent_data s' v') (fined_ s) (fined_ s');
  la_written : v `prefix_of` v';
  la_fin : fined_ s' = true → fined_ s = true ∨ v `prefix_of` sent_data s' v';
}.

Lemma grows_trans d1 d2 d3 f1 f2 f3 : grows d1 d2 f1 f2 → grows d2 d3 f2 f3 → grows d1 d3 f1 f3.
Proof.
  intros [[-> ->]|[-> [e ->]]] H23; [done|]. right. split; [done|].
  destruct H23 as [[-> _]|[_ [e' ->]]]; [by exists e|]. exists (e ++ e'). by rewrite app_assoc.
Qed.

Lemma grows_prefix d d' f f' : grows d d' f f' → d `prefix_of` d'.
Proof. intros [[-> _]|[_ [e ->]]]; [done|by exists e]. Qed.

Lemma later_trans s1 s2 s3 v1 v2 v3 : later s1 s2 v1 v2 → later s2 s3 v2 v3 → later s1 s3 v1 v3.
Proof.
  intros [] []. split; try congruence; try lia; try done.
  - by eapply grows_trans.
  - by etransitivity.
  - intros E. destruct (la_fin1 E) as [E2|?]; [|right; by etransitivity].
    destruct (la_fin0 E2) as [?|?]; [by left|right]. etransitivity; [done|]. by eapply grows_prefix.
Qed.

(** Operations that leave the data alone. *)
Lemma later_same s s' v :
  sinv s' v → isn s' = isn s → next_abs_seqno s' = next_abs_seqno s →
  ByteStream.read_count (stream s') = ByteStream.read_count (stream s) →
  fined_ s' = fined_ s → later s s' v v.
Proof.
  intros Hs Hi Hn Hr Hf. split; [done|done|lia| |done|left; congruence]. left. unfold sent_data. by rewrite Hr.
Qed.

Lemma later_refl s v : sinv s v → later s s v v.
Proof. intros Hs. by apply later_same. Qed.

(** The application writes. *)
Lemma later_written s st v e :
  sinv (with_stream s st) (v ++ e) → sent_data (with_stream s st) (v ++ e) = sent_data s v →
  later s (with_stream s st) v (v ++ e).
Proof. intros Hs Hd. split; try done; [by left|by apply prefix_app_r|by left]. Qed.

Lemma later_filled s s' v : sinv s v → filled s s' v → later s s' v v.
Proof.
  intros Hs Hf. pose proof (filled_grows s s' v Hs Hf). destruct Hf. split; try done; [apply fi_timer0|].
  intros E. destruct (fi_fin0 E) as [?|E']; [by left|right]. unfold sent_data. rewrite E'. by rewrite ztake_all.
Qed.

Lemma later_fill s v :
  sinv s v → blen v < 0x4000000000000000 →
  ∃ s', fill_window s = Ok s' ∧ later s s' v v ∧ filled s s' v ∧ saturated s' v.
Proof.
  intros Hs Hv. destruct (fill_window_spec s v Hs Hv) as (s' & E & Hf & Hsat & _).
  exists s'. split_and!; try done. by apply later_filled.
Qed.

Lemma later_ack s v ackno win : sinv s v → is_u16 win → later s (ack_received s ackno win) v v.
Proof.
  intros Hs Hw. destruct (ack_received_spec s v ackno win Hs Hw) as (? & _ & _ & Est & ? & ? & _ & ? & _).
  by apply later_same; rewrite ?Est.
Qed.

Lemma later_tick s v ms : sinv s v → resend_try_times s < UINT32_MAX → later s (tick s ms) v v.
Proof.
  intros Hs Ht. destruct (tick_spec s v ms Hs Ht) as (? & Est & ? & _ & _ & _ & ? & _ & ? & _).
  by apply later_same; rewrite ?Est.
Qed.

Lemma later_empty s v : sinv s v → later s (send_empty_segment s) v v.
Proof. intros Hs. destruct (send_empty_spec s v Hs) as (_ & _ & _ & _ & ?). by apply later_same. Qed.

(** ** Runs of a sender *)

Inductive op :=
  | Write (data : bytes)
  | End_input
  | Fill_window
  | Ack_received (ackno : WrappingInt32.t) (win : Z)
  | Tick (ms : Z)
  | Send_empty_segment
  | Dequeue.                   (* the owner takes the first segment out *)

(** The sender, everything accepted from the application so far, and what was
    taken out of the queue. *)
Definition sys : Type := t * bytes * list TCPSegment.t.

Definition step (o : op) (x : sys) : result sys :=
  let '(s, w, out) := x in
  match o with
  | Write data =>
      let '(st, n) := ByteStream.write (stream s) data in Ok (with_stream s st, w ++ ztake n data, out)
  | End_input => Ok (with_stream s (ByteStream.end_input (stream s)), w, out)
  | Fill_window => s' ← fill_window s; Ok (s', w, out)
  | Ack_received ackno win => Ok (ack_received s ackno win, w, out)
  | Tick ms => Ok (tick s ms, w, out)
  | Send_empty_segment => Ok (send_empty_segment s, w, out)
  | Dequeue =>
      match segments_out s with
      | [] => Ok x
      | g :: q => Ok (with_segments_out s q, w, out ++ [g])
      end
  end.

Fixpoint run (os : list op) (x : sys) : result sys :=
  match os with
  | [] => Ok x
  | o :: os' => x' ← step o x; run os' x'
  end.

Definition op_ok (o : op) : Prop :=
  match o with Ack_received _ win => is_u16 win | _ => True end.

Definition op_size (o : op) : Z := match o with Write data => blen data | _ => 0 end.

(** Ticks so far bound the retransmissions in a row. *)
Definition op_ticks (o : op) : Z := match o with Tick _ => 1 | _ => 0 end.

Lemma op_size_nonneg o : 0 <= op_size o.
Proof. destruct o; simpl; auto with sponge; lia. Qed.

Lemma op_ticks_nonneg o : 0 <= op_ticks o.
Proof. destruct o; simpl; lia. Qed.

(** Closes the part of a step that leaves the written bytes alone. *)
Ltac by_same := split; cbn [fst snd]; [by apply later_same|simpl; lia].

(** What holds of a sender and its environment after any operations. *)
Record sys_inv (x : sys) (ticks : Z) : Prop := mk_sys_inv {
  sy_inv : sinv x.1.1 x.1.2;
  sy_out : Forall (λ g, ∃ n, n <= next_abs_seqno x.1.1 ∧
    seg_at (isn x.1.1) (sent_data x.1.1 x.1.2) (fined_ x.1.1) n g) x.2;
  sy_tries : resend_try_times x.1.1 <= ticks;
}.

Lemma sender_step_inv o x ticks :
  sys_inv x ticks → op_ok o → blen x.1.2 + op_size o < 0x4000000000000000 → ticks < UINT32_MAX →
  ∃ x', step o x = Ok x' ∧ sys_inv x' (ticks + op_ticks o) ∧ later x.1.1 x'.1.1 x.1.2 x'.1.2 ∧
    blen x'.1.2 <= blen x.1.2 + op_size o.
Proof.
  destruct x as [[s w] out]. intros [Hs Ho Ht] Hok Hb Htk. cbn [fst snd] in *.
  destruct o as [data| | |ackno win|ms| |]; cbn [step op_ok op_size op_ticks] in *.
  - destruct (sinv_write s w data Hs) as (st & n & -> & Hs' & Hn & _ & Hd).
    { pose proof (blen_nonneg data). pose proof (blen_nonneg w). unfold_w. lia. }
    eexists. split; [done|]. split; [|split; cbn [fst snd]; [by apply later_written|]].
    + split; cbn [fst snd]; [done|by rewrite Hd|simpl; lia].
    + rewrite blen_app, blen_ztake by lia. lia.
  - pose proof (sinv_end_input s w Hs).
    eexists. split; [done|]. split; [|by_same]. split; simpl; [done|done|lia].
  - destruct (later_fill s w Hs ltac:(lia)) as (s' & -> & Hl & Hf & _). pose proof (la_grows _ _ _ _ Hl) as Hg.
    eexists. split; [done|]. split; [|by split; [|simpl; lia]]. destruct Hf. pose proof fi_timer0 as [].
    split; simpl; [done| |lia]. eapply Forall_impl; [exact Ho|]. intros g (n & Hn & Hsg).
    exists n. split; [lia|]. rewrite st_isn0. by eapply seg_at_grows.
  - pose proof (later_ack s w ackno win Hs Hok).
    destruct (ack_received_spec s w ackno win Hs Hok) as (Hs' & _ & _ & Est & En & Ei & _ & Ef & _ & Hrest).
    eexists. split; [done|]. split; [|by split; [|simpl; lia]].
    split; cbn [fst snd]; [done| |].
    + unfold sent_data. by rewrite Est, En, Ei, Ef.
    + destruct (fresh_ack _ _); destruct Hrest as (_ & _ & _ & -> & _); [|lia]. destruct Hs. lia.
  - pose proof (later_tick s w ms Hs ltac:(lia)).
    destruct (tick_spec s w ms Hs ltac:(lia)) as (Hs' & Est & En & _ & _ & _ & Ei & _ & Ef & _ & Hrest).
    eexists. split; [done|]. split; [|by split; [|simpl; lia]].
    split; cbn [fst snd]; [done| |].
    + unfold sent_data. by rewrite Est, En, Ei, Ef.
    + destruct (expired _ _); [|destruct Hrest as (_ & _ & -> & _); lia].
      destruct Hrest as (_ & _ & Hrest). destruct (_ =? _); destruct Hrest as [_ ->]; lia.
  - pose proof (later_empty s w Hs). destruct (send_empty_spec s w Hs) as (g & _ & _ & _ & Hs').
    eexists. split; [done|]. split; [|by split; [|simpl; lia]]. split; cbn [fst snd]; [done|done|simpl; lia].
  - pose proof (si_queue _ _ Hs) as Hq. destruct (segments_out s) as [|g q] eqn:Eq.
    + eexists. split; [done|]. split; [|by_same]. split; cbn [fst snd]; [done|done|lia].
    + apply Forall_cons in Hq as [Hg Hq]. pose proof (sinv_queue s w q Hs Hq).
      eexists. split; [done|]. split; [|by_same]. split; cbn [fst snd]; [done| |simpl; lia].
      apply Forall_app. split; [done|]. by apply Forall_singleton.
Qed.

Lemma sender_run_inv os x ticks :
  sys_inv x ticks → Forall op_ok os → blen x.1.2 + zsum op_size os < 0x4000000000000000 →
  ticks + zsum op_ticks os < UINT32_MAX →
  ∃ x', run os x = Ok x' ∧ sys_inv x' (ticks + zsum op_ticks os) ∧ later x.1.1 x'.1.1 x.1.2 x'.1.2 ∧
    blen x'.1.2 <= blen x.1.2 + zsum op_size os.
Proof.
  revert x ticks. induction os as [|o os IH]; intros x ticks Hx Hok Hb Ht; simpl in *.
  { exists x. rewrite Z.add_0_r. split_and!; try done; [|lia]. apply later_refl, Hx. }
  apply Forall_cons in Hok as [Ho Hok].
  pose proof (zsum_nonneg op_size os op_size_nonneg).
  pose proof (zsum_nonneg op_ticks os op_ticks_nonneg). pose proof (op_ticks_nonneg o).
  destruct (sender_step_inv o x ticks Hx Ho) as (x1 & -> & Hx1 & Hl1 & Hb1); [lia|lia|].
  destruct (IH x1 (ticks + op_ticks o)) as (x' & E & Hx' & Hl' & Hb'); [done|done|lia|lia|].
  cbn [mbind result_bind]. exists x'. rewrite Z.add_assoc. split_and!; try done; [|lia].
  by eapply later_trans.
Qed.

Lemma sender_run_app os1 os2 x : run (os1 ++ os2) x = (x1 ← run os1 x; run os2 x1).
Proof. revert x. induction os1 as [|o os1 IH]; intros x; [done|]. simpl. by destruct (step o x); simpl. Qed.

(** What had been written at any moment at which the input was still open is
    sent before the FIN. *)
Lemma sender_run_early os1 os2 x x1 x2 ticks :
  sys_inv x ticks → Forall op_ok (os1 ++ os2) → blen x.1.2 + zsum op_size (os1 ++ os2) < 0x4000000000000000 →
  ticks + zsum op_ticks (os1 ++ os2) < UINT32_MAX →
  run os1 x = Ok x1 → run (os1 ++ os2) x = Ok x2 →
  ByteStream.input_ended_flag (stream x1.1.1) = false → fined_ x2.1.1 = true →
  x1.1.2 `prefix_of` sent_data x2.1.1 x2.1.2.
Proof.
  intros Hx Hok Hb Ht E1 E2 Hopen Hfin. apply Forall_app in Hok as [Hok1 Hok2]. rewrite !zsum_app in *.
  pose proof (zsum_nonneg op_size os2 op_size_nonneg). pose proof (zsum_nonneg op_ticks os2 op_ticks_nonneg).
  destruct (sender_run_inv os1 x ticks Hx Hok1) as (y1 & F1 & Hy1 & _ & Hb1); [lia|lia|].
  assert (y1 = x1) as -> by congruence. rewrite sender_run_app, E1 in E2. cbn [mbind result_bind] in E2.
  destruct (sender_run_inv os2 x1 _ Hy1 Hok2) as (y2 & F2 & _ & Hl & _); [lia|lia|].
  assert (y2 = x2) as -> by congruence. destruct (la_fin _ _ _ _ Hl Hfin) as [Hf|?]; [|done].
  apply (si_fined _ _ (sy_inv _ _ Hy1)) in Hf. congruence.
Qed.

(** C9. [fill_window] terminates without throwing, within the fuel of its
    translation; what it queues is exactly what it adds to the segments in
    flight; the numbers in flight never pass the larger of what was in flight
    and the window (one for an empty window); and it stops only when the FIN
    is out, the window is full, or everything written has been sent. *)
Theorem sender_fill_window s w :
  sinv s w → blen w < 0x4000000000000000 →
  ∃ s' segs, fill_window s = Ok s' ∧ sinv s' w ∧
    segments_out s' = segments_out s ++ segs ∧ map seg (sent s') = map seg (sent s) ++ segs ∧
    bytes_in_flight s' <= Z.max (bytes_in_flight s) (limit s) ∧
    (fined s' = true ∨ limit s <= bytes_in_flight s' ∨
     (syned s' = true ∧ ByteStream.read_count (stream_in s') = blen w ∧
      ByteStream.input_ended (stream_in s') = false)).
Proof.
  intros Hs Hw. destruct (fill_window_spec s w Hs Hw) as (s' & E & Hf & Hsat & Hle). destruct Hf.
  destruct fi_segs0 as (segs & Hq & Hm & _). exists s', segs.
  destruct (in_flight_spec s w Hs Hw) as (-> & _). destruct (in_flight_spec s' w fi_inv0 Hw) as (-> & _).
  unfold saturated, limit in *. rewrite (st_window _ _ fi_timer0) in Hsat. done.
Qed.

Lemma sender_fill_window_witness :
  ∃ s', fill_window (new 10 1000 (Some (WrappingInt32.mk 5)) 0) = Ok s' ∧ bytes_in_flight s' <= 1.
Proof.
  destruct (sender_fill_window (new 10 1000 (Some (WrappingInt32.mk 5)) 0) []) as (s' & segs & E & _ & _ & _ & Hle & _).
  - apply sinv_new; [range_compute|range_compute|]. intros i Ei. injection Ei as <-. range_compute.
  - vm_compute. done.
  - exists s'. split; [exact E|exact Hle].
Defined.

(** C28. [ack_received] always takes over the window. An acknowledgment beyond
    the last one, and not beyond what was sent, drops exactly the segments it
    covers in full, restores the initial timeout, restarts the timer and clears
    the retransmission count; any other changes nothing else. *)
Theorem sender_ack_received s w a win :
  sinv s w → blen w < 0x4000000000000000 → is_u16 win → 0 <= a →
  Z.abs (a - last_acked_abs_seqno s) < 0x80000000 →
  let s' := ack_received s (wrap a (isn s)) win in
  sinv s' w ∧ window_size s' = win ∧ segments_out s' = segments_out s ∧
  if (last_acked_abs_seqno s <? a) && (a <=? next_abs_seqno s) then
    bytes_in_flight s' = next_abs_seqno s - a ∧ timeout s' = initial_retransmission_timeout s ∧
    last_time s' = 0 ∧ consecutive_retransmissions s' = 0 ∧
    (∃ popped, sent s = popped ++ sent s' ∧ Forall (λ x, expected_ack x <= a) popped ∧
       match sent s' with [] => a = next_abs_seqno s | x :: _ => a < expected_ack x end)
  else
    bytes_in_flight s' = bytes_in_flight s ∧ timeout s' = timeout s ∧ last_time s' = last_time s ∧
    consecutive_retransmissions s' = consecutive_retransmissions s ∧ sent s' = sent s.
Proof.
  intros Hs Hw Hwin Ha Hnear. pose proof (in_flight_spec s w Hs Hw) as (_ & _ & Hn).
  destruct (ack_received_spec s w (wrap a (isn s)) win Hs Hwin) as (Hs' & Hwi & Hq & Hst & Hnx & Hi & _ & _ & _ & Hrest).
  pose proof Hs as []. rewrite (unwrap_wrap a) in Hrest by (done || lia). unfold fresh_ack in Hrest.
  pose proof (in_flight_spec _ w Hs' Hw) as (Hb & _). unfold flight in Hb.
  split_and!; try done. destruct (_ && _).
  - destruct Hrest as (Ea & ? & ? & ? & ?). split_and!; try done. lia.
  - destruct Hrest as (Ea & ? & ? & ? & ?). split_and!; try done.
    pose proof (in_flight_spec s w Hs Hw) as (Hb' & _). unfold flight in Hb'. lia.
Qed.

(** A sender whose SYN is in flight. *)
Definition syn_sent : t :=
  match fill_window (new 10 1000 (Some (WrappingInt32.mk 5)) 0) with Ok s => s | Err _ => new 10 1000 None 0 end.

Lemma syn_sent_inv : sinv syn_sent [].
Proof.
  destruct (fill_window_spec (new 10 1000 (Some (WrappingInt32.mk 5)) 0) []) as (s' & E & Hf & _).
  - apply sinv_new; [range_compute|range_compute|]. intros i Ei. injection Ei as <-. range_compute.
  - vm_compute. done.
  - unfold syn_sent. rewrite E. apply Hf.
Qed.

Lemma sender_ack_received_witness :
  let s' := ack_received syn_sent (wrap 1 (isn syn_sent)) 7 in
  bytes_in_flight s' = 0 ∧ window_size s' = 7 ∧ sent s' = [].
Proof.
  destruct (sender_ack_received syn_sent [] 1 7 syn_sent_inv) as (_ & Hw & _ & Hb & _);
    [vm_compute; done|range_compute|lia|vm_compute; done|].
  split_and!; [exact Hb|exact Hw|reflexivity].
Defined.

(** C29. The retransmission timer, on every branch of [tick]. While nothing is
    in flight the timer does not run. When it expires the oldest segment in
    flight, and only that one, is queued again and the timer restarts; unless
    the window is empty the timeout doubles and the retransmission is counted.
    For up to sixteen retransmissions in a row the 32-bit timeout is exactly the
    initial one times that power of two. *)
Theorem sender_tick s w ms :
  sinv s w → resend_try_times s < UINT32_MAX →
  let s' := tick s ms in
  sinv s' w ∧ sent s' = sent s ∧ bytes_in_flight s' = bytes_in_flight s ∧
  (consecutive_retransmissions s' <= 16 →
     timeout s' = initial_retransmission_timeout s * 2 ^ consecutive_retransmissions s') ∧
  match sent s with
  | [] => last_time s' = 0 ∧ segments_out s' = segments_out s ∧
          consecutive_retransmissions s' = consecutive_retransmissions s
  | x :: _ =>
      if timeout s <=? w64 (last_time s + ms) then
        segments_out s' = segments_out s ++ [seg x] ∧ last_time s' = 0 ∧
        consecutive_retransmissions s' =
          consecutive_retransmissions s + (if window_size s =? 0 then 0 else 1)
      else
        segments_out s' = segments_out s ∧ last_time s' = w64 (last_time s + ms) ∧
        consecutive_retransmissions s' = consecutive_retransmissions s
  end.
Proof.
  intros Hs Ht. destruct (tick_spec s w ms Hs Ht) as (Hs' & _ & Hn & Ha & Hse & _ & _ & _ & _ & Hi & Hrest).
  set (s' := tick s ms) in *. cbv zeta. split_and!; [done|done|by unfold bytes_in_flight; rewrite Hn, Ha| |].
  - unfold consecutive_retransmissions. intros Hle. destruct Hs'. rewrite si_timeout0, Hi in *.
    apply w32_small. unfold is_u16 in si_initial0. unfold_w.
    pose proof (Z.pow_le_mono_r 2 (resend_try_times s') 16 ltac:(lia) Hle).
    pose proof (Z.pow_pos_nonneg 2 (resend_try_times s')). change (2 ^ 16) with 0x10000 in *. nia.
  - unfold consecutive_retransmissions, expired in *. destruct (sent s) as [|x l].
    { by destruct Hrest as (? & _ & ? & ?). }
    destruct (timeout s <=? w64 (last_time s + ms)); [|by destruct Hrest as (? & _ & ? & ?)].
    destruct Hrest as ((y & Hy & Hq) & Hl & Hrest). injection Hy as <-.
    split_and!; try done. destruct (_ =? _); destruct Hrest as [_ ->]; lia.
Qed.

Lemma sender_tick_witness :
  let s' := tick syn_sent 1000 in
  timeout s' = 2000 ∧ consecutive_retransmissions s' = 1 ∧ length (segments_out s') = 2%nat.
Proof.
  destruct (sender_tick syn_sent [] 1000 syn_sent_inv) as (_ & _ & _ & Ht & Hrest); [vm_compute; done|].
  split_and!; [apply Ht; vm_compute; discriminate|reflexivity|reflexivity].
Defined.

(** C10. A sender under any sequence of writes, acknowledgments, ticks, window
    fills and empty segments: no operation throws, and every segment that left
    it, or waits in its queue, new or retransmitted, carries at its sequence
    number bytes the application wrote there, the SYN only at the start and the
    FIN only after the last byte sent. The segments kept for retransmission are
    consecutive, end at the next number to send, and begin with the segment that
    holds the oldest unacknowledged number (none is kept when everything is
    acknowledged). The FIN is sent only when the application has ended its input,
    and everything it had written at any earlier moment with the input still open
    is sent before it. *)
Theorem sender_run_genuine cap rt fixed rand os :
  is_u64 cap → is_u16 rt → (∀ i, fixed = Some i → WrappingInt32.ok i) → Forall op_ok os →
  zsum op_size os < 0x4000000000000000 → zsum op_ticks os < UINT32_MAX →
  let start := (new cap rt fixed rand, [], []) in
  ∃ s w out, run os start = Ok (s, w, out) ∧
    isn s = default (WrappingInt32.of_raw rand) fixed ∧
    Forall (λ g, ∃ n, n <= next_seqno_absolute s ∧
      seg_at (isn s) (sent_data s w) (fined s) n g) (out ++ segments_out s) ∧
    (∃ lo, outstanding (isn s) (sent_data s w) (fined s) lo (sent s) (next_seqno_absolute s) ∧
       match sent s with
       | [] => last_acked_abs_seqno s = next_seqno_absolute s
       | x :: _ => lo <= last_acked_abs_seqno s < expected_ack x
       end) ∧
    next_seqno_absolute s = b2n (syned s) + blen (sent_data s w) + b2n (fined s) ∧
    (fined s = true → ByteStream.input_ended (stream_in s) = true) ∧
    ∀ os1 os2 s1 w1 out1, os = os1 ++ os2 → run os1 start = Ok (s1, w1, out1) →
      ByteStream.input_ended (stream_in s1) = false → fined s = true → w1 `prefix_of` sent_data s w.
Proof.
  intros Hc Hr Hi Hok Hb Ht start.
  assert (H0 : sys_inv start 0) by (split; simpl; [by apply sinv_new|by constructor|lia]).
  destruct (sender_run_inv os start 0 H0 Hok Hb Ht) as ([[s w] out] & E & [Hs Ho _] & Hl & _).
  cbn [fst snd] in *. exists s, w, out. split_and!; [done|apply (la_isn _ _ _ _ Hl)| | | | |].
  - apply Forall_app. split; [done|apply Hs].
  - destruct (si_sent _ _ Hs) as (lo & Hlo & Hout). exists lo. split; [done|].
    unfold oldest in Hlo. destruct (sent s); [simpl in Hout; unfold next_seqno_absolute; lia|done].
  - unfold next_seqno_absolute. rewrite (blen_sent_data s w) by apply Hs. apply Hs.
  - apply Hs.
  - intros os1 os2 s1 w1 out1 -> E1 Hopen Hfin.
    by apply (sender_run_early os1 os2 start (s1, w1, out1) (s, w, out) 0).
Qed.

Lemma sender_run_genuine_witness :
  let os := [Write (slice alphabet 0 5); Fill_window; Ack_received (WrappingInt32.mk 6) 9; End_input; Fill_window;
      Tick 1000; Dequeue; Dequeue; Dequeue] in
  ∃ s w out, run os (new 10 1000 (Some (WrappingInt32.mk 5)) 0, [], []) = Ok (s, w, out) ∧
    Forall (λ g, ∃ n, n <= next_seqno_absolute s ∧
      seg_at (isn s) (sent_data s w) (fined s) n g) (out ++ segments_out s) ∧
    length out = 3%nat ∧ fined s = true ∧ slice alphabet 0 5 `prefix_of` sent_data s w.
Proof.
  intros os. destruct (sender_run_genuine 10 1000 (Some (WrappingInt32.mk 5)) 0 os)
    as (s & w & out & E & _ & Hg & _ & _ & _ & Hall).
  - range_compute.
  - range_compute.
  - intros i Ei. injection Ei as <-. range_compute.
  - repeat (apply Forall_cons; split; [vm_compute; repeat split; congruence|]). apply Forall_nil. exact I.
  - vm_compute. done.
  - vm_compute. done.
  - exists s, w, out. split; [exact E|]. split; [exact Hg|].
    assert (Hf : fined s = true ∧ length out = 3%nat) by (vm_compute in E; injection E as <- <- <-; split; reflexivity).
    destruct Hf as [Hf Hl]. split; [exact Hl|]. split; [exact Hf|].
    eapply (Hall (take 3 os) (drop 3 os)); [reflexivity|vm_compute; reflexivity|reflexivity|exact Hf].
Defined.
