(* ===== verification/Connection.v ===== *)
(** * The TCP connection: tcp_connection.hh, tcp_connection.cc and tcp_helpers/tcp_state.*

    The module [TCPConnection] translates the class that joins a receiver and a
    sender; [TCPState] translates the summary of a connection as one of the
    states of the TCP specification. *)

From S2P Require Import Prelude Buffers Wrapping Stream Reassembly Segment Receiver Sender.

Module TCPState.

(** The summaries of the namespaces TCPReceiverStateSummary and
    TCPSenderStateSummary. *)
Definition R_ERROR : string := "error (connection was reset)".

Definition R_LISTEN : string := "waiting for SYN: ackno is empty".

Definition R_SYN_RECV : string := "SYN received (ackno exists), and input to stream hasn't ended".

Definition R_FIN_RECV : string := "input to stream has ended".

Definition S_ERROR : string := "error (connection was reset)".

Definition S_CLOSED : string := "waiting for stream to begin (no SYN sent)".

Definition S_SYN_SENT : string := "stream started but nothing acknowledged".

Definition S_SYN_ACKED : string := "stream ongoing".

Definition S_FIN_SENT : string := "stream finished (FIN sent) but not fully acknowledged".

Definition S_FIN_ACKED : string := "stream finished and fully acknowledged".

Inductive State :=
  | LISTEN | SYN_RCVD | SYN_SENT | ESTABLISHED | CLOSE_WAIT | LAST_ACK
  | FIN_WAIT_1 | FIN_WAIT_2 | CLOSING | TIME_WAIT | CLOSED | RESET.

Record t := mk {
  sender : string;                        (* _sender *)
  receiver : string;                      (* _receiver *)
  active : bool;                          (* _active *)
  linger_after_streams_finish : bool;     (* _linger_after_streams_finish *)
}.

Definition eqb (a b : t) : bool :=
  Bool.eqb (active a) (active b) &&
  Bool.eqb (linger_after_streams_finish a) (linger_after_streams_finish b) &&
  String.eqb (sender a) (sender b) && String.eqb (receiver a) (receiver b).

Definition neqb (a b : t) : bool := negb (eqb a b).

Definition name (s : t) : string :=
  let to_string (b : bool) := if b then "1"%string else "0"%string in
  ("sender=`" ++ sender s ++ "`, receiver=`" ++ receiver s ++ "`, active=" ++ to_string (active s) ++
   ", linger_after_streams_finish=" ++ to_string (linger_after_streams_finish s))%string.

Definition of_state (s : State) : t :=
  match s with
  | LISTEN => mk S_CLOSED R_LISTEN true true
  | SYN_RCVD => mk S_SYN_SENT R_SYN_RECV true true
  | SYN_SENT => mk S_SYN_SENT R_LISTEN true true
  | ESTABLISHED => mk S_SYN_ACKED R_SYN_RECV true true
  | CLOSE_WAIT => mk S_SYN_ACKED R_FIN_RECV true false
  | LAST_ACK => mk S_FIN_SENT R_FIN_RECV true false
  | CLOSING => mk S_FIN_SENT R_FIN_RECV true true
  | FIN_WAIT_1 => mk S_FIN_SENT R_SYN_RECV true true
  | FIN_WAIT_2 => mk S_FIN_ACKED R_SYN_RECV true true
  | TIME_WAIT => mk S_FIN_ACKED R_FIN_RECV true true
  | RESET => mk S_ERROR R_ERROR false false
  | CLOSED => mk S_FIN_ACKED R_FIN_RECV false false
  end.

Definition receiver_summary (r : TCPReceiver.t) : result string :=
  if ByteStream.error (TCPReceiver.stream_out r) then Ok R_ERROR
  else
    a ← TCPReceiver.ackno r;
    match a with
    | None => Ok R_LISTEN
    | Some _ =>
        if ByteStream.input_ended (TCPReceiver.stream_out r) then Ok R_FIN_RECV else Ok R_SYN_RECV
    end.

Definition sender_summary (s : TCPSender.t) : string :=
  if ByteStream.error (TCPSender.stream_in s) then S_ERROR
  else if TCPSender.next_seqno_absolute s =? 0 then S_CLOSED
  else if TCPSender.next_seqno_absolute s =? TCPSender.bytes_in_flight s then S_SYN_SENT
  else if negb (ByteStream.eof (TCPSender.stream_in s)) then S_SYN_ACKED
  else if TCPSender.next_seqno_absolute s <? w64 (ByteStream.bytes_written (TCPSender.stream_in s) + 2)
  then S_SYN_ACKED
  else if negb (TCPSender.bytes_in_flight s =? 0) then S_FIN_SENT
  else S_FIN_ACKED.

Definition of_parts (s : TCPSender.t) (r : TCPReceiver.t) (active linger : bool) : result t :=
  rs ← receiver_summary r;
  Ok (mk (sender_summary s) rs active (if active then linger else false)).

End TCPState.

Module TCPConnection.

Record t := mk {
  cfg : TCPConfig.t;                      (* _cfg *)
  receiver : TCPReceiver.t;               (* _receiver *)
  sender : TCPSender.t;                   (* _sender *)
  segments_out : list TCPSegment.t;       (* _segments_out *)
  linger_after_streams_finish : bool;     (* _linger_after_streams_finish *)
  active : bool;                          (* _active *)
  rst : bool;                             (* _rst *)
  last_seg_timer : Z;                     (* _last_seg_timer *)
}.

Definition new (cfg : TCPConfig.t) (random : Z) : t :=
  mk cfg (TCPReceiver.new (TCPConfig.recv_capacity cfg))
     (TCPSender.new (TCPConfig.send_capacity cfg) (TCPConfig.rt_timeout cfg) (TCPConfig.fixed_isn cfg) random)
     [] true true false 0.

(** Assignments to single members. *)
Definition with_receiver (c : t) (r : TCPReceiver.t) : t :=
  mk (cfg c) r (sender c) (segments_out c) (linger_after_streams_finish c) (active c) (rst c) (last_seg_timer c).

Definition with_sender (c : t) (s : TCPSender.t) : t :=
  mk (cfg c) (receiver c) s (segments_out c) (linger_after_streams_finish c) (active c) (rst c) (last_seg_timer c).

Definition with_segments_out (c : t) (q : list TCPSegment.t) : t :=
  mk (cfg c) (receiver c) (sender c) q (linger_after_streams_finish c) (active c) (rst c) (last_seg_timer c).

Definition with_linger (c : t) (b : bool) : t :=
  mk (cfg c) (receiver c) (sender c) (segments_out c) b (active c) (rst c) (last_seg_timer c).

Definition with_active (c : t) (b : bool) : t :=
  mk (cfg c) (receiver c) (sender c) (segments_out c) (linger_after_streams_finish c) b (rst c) (last_seg_timer c).

Definition with_rst (c : t) : t :=
  mk (cfg c) (receiver c) (sender c) (segments_out c) (linger_after_streams_finish c) (active c) true (last_seg_timer c).

Definition with_timer (c : t) (ms : Z) : t :=
  mk (cfg c) (receiver c) (sender c) (segments_out c) (linger_after_streams_finish c) (active c) (rst c) ms.

Definition remaining_outbound_capacity (c : t) : Z :=
  ByteStream.remaining_capacity (TCPSender.stream_in (sender c)).

Definition bytes_in_flight (c : t) : Z := TCPSender.bytes_in_flight (sender c).

Definition unassembled_bytes (c : t) : Z := TCPReceiver.unassembled_bytes (receiver c).

Definition time_since_last_segment_received (c : t) : Z := last_seg_timer c.

Definition inbound_stream (c : t) : ByteStream.t := TCPReceiver.stream_out (receiver c).

Definition state (c : t) : result TCPState.t :=
  TCPState.of_parts (sender c) (receiver c) (active c) (linger_after_streams_finish c).

(** Lines 49 to 60: what the connection writes into a segment of the sender. *)
Definition stamp (c : t) (seg : TCPSegment.t) : result TCPSegment.t :=
  let hder := TCPSegment.header seg in
  if rst c then Ok (TCPSegment.mk (TCPHeader.set_rst hder) (TCPSegment.payload seg))
  else
    a ← TCPReceiver.ackno (receiver c);
    let hder := match a with Some a => TCPHeader.set_ack hder a | None => hder end in
    let win := TCPReceiver.window_size (receiver c) in
    let hder := TCPHeader.set_win hder (if win <=? UINT16_MAX then win else UINT16_MAX) in
    Ok (TCPSegment.mk hder (TCPSegment.payload seg)).

(** The loop of lines 48 to 67. *)
Fixpoint pull_push (c : t) (queue out : list TCPSegment.t) : result (list TCPSegment.t) :=
  match queue with
  | [] => Ok out
  | seg :: queue' => seg' ← stamp c seg; pull_push c queue' (out ++ [seg'])
  end.

Definition pull_push_segments (c : t) : result t :=
  out ← pull_push c (TCPSender.segments_out (sender c)) (segments_out c);
  Ok (with_segments_out (with_sender c (TCPSender.with_segments_out (sender c) [])) out).

Definition set_errors (c : t) : t :=
  let c := with_receiver c (TCPReceiver.with_stream (receiver c)
    (ByteStream.set_error (TCPReceiver.stream_out (receiver c)))) in
  with_sender c (TCPSender.with_stream (sender c) (ByteStream.set_error (TCPSender.stream_in (sender c)))).

Definition fully_dead (c : t) (error_type : Z) : result t :=
  c ← (if error_type =? 0 then
         s ← TCPSender.fill_window (sender c); Ok (with_sender c s)
       else
         let c := with_rst c in
         let c := if (1 <? error_type) && match TCPSender.segments_out (sender c) with [] => true | _ => false end
                  then with_sender c (TCPSender.send_empty_segment (sender c)) else c in
         Ok (set_errors c));
  c ← pull_push_segments c;
  Ok (with_active c false).

Definition judge_do (c : t) : result t :=
  if negb (active c) then Ok c
  else if rst c then fully_dead c 1
  else if TCPConfig.MAX_RETX_ATTEMPTS <? TCPSender.consecutive_retransmissions (sender c) then fully_dead c 2
  else if linger_after_streams_finish c && TCPSender.full_fined (sender c) &&
          TCPReceiver.full_fined (receiver c) && (10 * TCPConfig.rt_timeout (cfg c) <=? last_seg_timer c)
  then fully_dead (with_linger c false) 0
  else if negb (linger_after_streams_finish c) && TCPSender.full_fined (sender c) then fully_dead c 0
  else pull_push_segments c.

Definition connect (c : t) : result t :=
  s ← TCPSender.fill_window (sender c);
  judge_do (with_sender c s).

(** [fill_window], once the SYN is out. *)
Definition fill_if_syned (c : t) : result t :=
  if TCPSender.syned (sender c)
  then s ← TCPSender.fill_window (sender c); Ok (with_sender c s)
  else Ok c.

(** Lines 157 to 171: is an empty segment owed to the peer? *)
Definition owes_segment (c : t) (seg : TCPSegment.t) : result bool :=
  let len := TCPSegment.length_in_sequence_space seg in
  let send_empty :=
    match TCPSender.segments_out (sender c) with [] => negb (len =? 0) | _ => false end in
  if len =? 0 then
    a ← TCPReceiver.ackno (receiver c);
    match a with
    | Some a =>
        if WrappingInt32.eqb (TCPHeader.seqno (TCPSegment.header seg)) (WrappingInt32.sub_n a 1)
        then Ok true else Ok send_empty
    | None => Ok send_empty
    end
  else Ok send_empty.

(** Lines 140 to 177: a segment that neither resets nor opens the connection. *)
Definition segment_handled (c : t) (seg : TCPSegment.t) : result t :=
  let hder := TCPSegment.header seg in
  let c := if TCPHeader.ack hder
           then with_sender c (TCPSender.ack_received (sender c) (TCPHeader.ackno hder) (TCPHeader.win hder))
           else c in
  c ← fill_if_syned c;
  let c := if TCPReceiver.full_fined (receiver c) && negb (TCPSender.fined (sender c))
           then with_linger c false else c in
  send_empty ← owes_segment c seg;
  judge_do (if (send_empty : bool) then with_sender c (TCPSender.send_empty_segment (sender c)) else c).

Definition segment_received `{StreamReassembler.EndKey} (c : t) (seg : TCPSegment.t) : result t :=
  let hder := TCPSegment.header seg in
  let c := with_timer c 0 in
  if TCPHeader.rst hder then judge_do (with_rst c)
  else
    r ← TCPReceiver.segment_received (receiver c) seg;
    let c := with_receiver c r in
    if TCPHeader.syn hder && negb (TCPSender.syned (sender c)) then connect c
    else segment_handled c seg.

Definition write (c : t) (data : bytes) : result (t * Z) :=
  let '(st, written) := ByteStream.write (TCPSender.stream_in (sender c)) data in
  c ← fill_if_syned (with_sender c (TCPSender.with_stream (sender c) st));
  c ← judge_do c;
  Ok (c, written).

Definition tick (c : t) (ms_since_last_tick : Z) : result t :=
  let c := with_timer c (w64 (last_seg_timer c + ms_since_last_tick)) in
  let c := with_sender c (TCPSender.tick (sender c) ms_since_last_tick) in
  c ← fill_if_syned c;
  judge_do c.

Definition end_input_stream (c : t) : result t :=
  let c := with_sender c (TCPSender.with_stream (sender c) (ByteStream.end_input (TCPSender.stream_in (sender c)))) in
  s ← TCPSender.fill_window (sender c);
  judge_do (with_sender c s).

(** The destructor; an exception inside it is caught. *)
Definition destroy (c : t) : t :=
  if active c then match fully_dead c 2 with Ok c' => c' | Err _ => c end else c.

End TCPConnection.
