(* ===== verification/ConnectionSpec.v ===== *)
(** * Correctness of the TCP connection

    The invariant [cinv P c w v]: the receiver has written [w] of the peer's
    stream [P], the application has written [v], and every segment the connection
    has queued for the network carries bytes of [v] at their sequence numbers. *)

From S2P Require Import Prelude Buffers Wrapping Stream Reassembly ReassemblySpec Segment.
From S2P Require Import Receiver Sender SenderSpec Connection.
Import TCPConnection.

(** The segment carries bytes of what the sender [s] was given. *)
Definition from_sender (s : TCPSender.t) (v : bytes) (g : TCPSegment.t) : Prop :=
  ∃ n, n <= TCPSender.next_abs_seqno s ∧
    seg_at (TCPSender.isn s) (sent_data s v) (TCPSender.fined_ s) n g.

Record cinv (P : Z → byte → Prop) (c : t) (w v : bytes) : Prop := mk_cinv {
  ci_recv : rinv P (receiver c) w;
  ci_send : sinv (sender c) v;
  ci_out : Forall (from_sender (sender c) v) (segments_out c);
}.

Lemma later_from_sender s s' v v' g : later s s' v v' → from_sender s v g → from_sender s' v' g.
Proof.
  intros [] (n & Hn & Hg). exists n. split; [lia|]. rewrite la_isn. by eapply seg_at_grows.
Qed.

Lemma later_sender P c s' w v v' :
  cinv P c w v → later (sender c) s' v v' → cinv P (with_sender c s') w v'.
Proof.
  intros [] Hl. split; simpl; [done|apply Hl|].
  eapply Forall_impl; [exact ci_out0|]. intros g. by apply later_from_sender.
Qed.

(** ** What the connection writes into segments *)

(** A segment with the reset flag, or with the receiver's acknowledgment and
    window. *)
Definition stamped (c : t) (a : option WrappingInt32.t) (g : TCPSegment.t) : TCPSegment.t :=
  let h := TCPSegment.header g in
  TCPSegment.mk
    (if rst c then TCPHeader.set_rst h
     else TCPHeader.set_win (match a with Some a => TCPHeader.set_ack h a | None => h end)
            (Z.min (TCPReceiver.window_size (receiver c)) UINT16_MAX))
    (TCPSegment.payload g).

Lemma stamp_spec c a g : TCPReceiver.ackno (receiver c) = Ok a → stamp c g = Ok (stamped c a g).
Proof.
  intros Ha. unfold stamp, stamped. destruct (rst c); [done|]. rewrite Ha. cbn [mbind result_bind].
  do 2 f_equal. f_equal. destruct (Z.leb_spec (TCPReceiver.window_size (receiver c)) UINT16_MAX); lia.
Qed.

Lemma pull_push_spec c a q out :
  TCPReceiver.ackno (receiver c) = Ok a → pull_push c q out = Ok (out ++ map (stamped c a) q).
Proof.
  intros Ha. revert out. induction q as [|g q IH]; intros out; simpl; [by rewrite app_nil_r|].
  rewrite (stamp_spec c a) by done. cbn [mbind result_bind]. by rewrite IH, <- app_assoc.
Qed.

Lemma window_u16 r : is_u16 (Z.min (TCPReceiver.window_size r) UINT16_MAX).
Proof.
  pose proof (w64_range (ByteStream.capacity (TCPReceiver.stream_out r)
    - BufferList.size (ByteStream.buffer (TCPReceiver.stream_out r)))) as H.
  unfold TCPReceiver.window_size, ByteStream.remaining_capacity. set (x := w64 _) in *. clearbody x. unfold_w. lia.
Qed.

Lemma stamped_seg_at c a isn d f n g : seg_at isn d f n g → seg_at isn d f n (stamped c a g).
Proof.
  intros []. split; unfold stamped, payload_index in *; simpl in *; destruct (rst c), a; try done; simpl; apply window_u16.
Qed.

Lemma stamped_from_sender c a s v g : from_sender s v g → from_sender s v (stamped c a g).
Proof. intros (n & Hn & Hg). exists n. split; [done|]. by apply stamped_seg_at. Qed.

Lemma receiver_ackno P r w :
  rinv P r w → ∃ a, TCPReceiver.ackno r = Ok a ∧ (TCPReceiver.syn r = true → ∃ k, a = Some k).
Proof.
  intros []. unfold TCPReceiver.ackno. rewrite ri_fin. destruct (TCPReceiver.syn r).
  - destruct ri_syn as [-> _]. 
    destruct (StreamReassembler.eofed _); [|destruct (StreamReassembler.eof_ _)]; simpl; eauto.
  - destruct ri_syn as (-> & _ & _ & _ & _ & He). rewrite He.
    destruct (StreamReassembler.eofed (TCPReceiver.reassembler r)) eqn:E; [|by eexists].
    destruct ri_re as [_ Heof _]. by rewrite He in Heof; rewrite Heof in E.
Qed.

Lemma pull_push_segments_spec P c w v :
  cinv P c w v →
  ∃ a, TCPReceiver.ackno (receiver c) = Ok a ∧
    let c' := with_segments_out (with_sender c (TCPSender.with_segments_out (sender c) []))
      (segments_out c ++ map (stamped c a) (TCPSender.segments_out (sender c))) in
    pull_push_segments c = Ok c' ∧ cinv P c' w v.
Proof.
  intros []. destruct (receiver_ackno P _ w ci_recv0) as (a & Ha & _). exists a. split; [done|].
  unfold pull_push_segments. rewrite (pull_push_spec c a) by done. cbn [mbind result_bind].
  split; [done|]. split; simpl; [done| |].
  - apply sinv_queue; [done|by constructor].
  - change (from_sender (TCPSender.with_segments_out (sender c) []) v) with (from_sender (sender c) v).
    apply Forall_app. split; [done|].
    apply Forall_map. eapply Forall_impl; [apply ci_send0|]. intros g Hg. by apply stamped_from_sender.
Qed.

Lemma rinv_set_error P r w :
  rinv P r w → rinv P (TCPReceiver.with_stream r (ByteStream.set_error (TCPReceiver.stream_out r))) w.
Proof.
  intros [[[] He Hf]]. split; try done. split; simpl; try done. split; try done.
  by apply ByteStream.rep_set_error.
Qed.

Lemma set_errors_cinv P c w v : cinv P c w v → cinv P (set_errors c) w v.
Proof.
  intros Hc. unfold set_errors.
  apply (later_sender P _ _ w v v).
  - destruct Hc. split; simpl; [by apply rinv_set_error|done|done].
  - simpl. apply later_same; try done. apply sinv_set_error. apply Hc.
Qed.

(** ** The decision taken after every event *)

Inductive verdict := Reset_by_peer | Given_up | Lingered | Passive_close | Carry_on.

Definition judge (c : t) : verdict :=
  if rst c then Reset_by_peer
  else if TCPConfig.MAX_RETX_ATTEMPTS <? TCPSender.consecutive_retransmissions (sender c) then Given_up
  else if linger_after_streams_finish c && TCPSender.full_fined (sender c) &&
          TCPReceiver.full_fined (receiver c) && (10 * TCPConfig.rt_timeout (cfg c) <=? last_seg_timer c)
  then Lingered
  else if negb (linger_after_streams_finish c) && TCPSender.full_fined (sender c) then Passive_close
  else Carry_on.

Lemma fill_window_fined s v :
  sinv s v → blen v < 0x4000000000000000 → TCPSender.fined_ s = true → TCPSender.fill_window s = Ok s.
Proof.
  intros Hs Hv Hf. destruct (fill_window_spec s v Hs Hv) as (s' & E & Hfi & _).
  destruct (fi_grow _ _ _ Hfi) as [_ H]. by rewrite (H Hf) in E.
Qed.

(** The connection's members that the decision does not touch. *)
Record same_conn (c c' : t) : Prop := mk_same_conn {
  sc_cfg : cfg c' = cfg c;
  sc_re : TCPReceiver.reassembler (receiver c') = TCPReceiver.reassembler (receiver c) ∨
    TCPReceiver.reassembler (receiver c') = StreamReassembler.with_output (TCPReceiver.reassembler (receiver c))
      (ByteStream.set_error (TCPReceiver.stream_out (receiver c)));
  sc_rsyn : TCPReceiver.syn (receiver c') = TCPReceiver.syn (receiver c);
  sc_risn : TCPReceiver.isn (receiver c') = TCPReceiver.isn (receiver c);
  sc_tries : TCPSender.resend_try_times (sender c') = TCPSender.resend_try_times (sender c);
  sc_timer : last_seg_timer c' = last_seg_timer c;
  sc_isn : TCPSender.isn (sender c') = TCPSender.isn (sender c);
  sc_next : TCPSender.next_abs_seqno (sender c') = TCPSender.next_abs_seqno (sender c);
  sc_read : ByteStream.read_count (TCPSender.stream (sender c')) = ByteStream.read_count (TCPSender.stream (sender c));
  sc_fined : TCPSender.fined_ (sender c') = TCPSender.fined_ (sender c);
}.

Lemma same_conn_later c c' v : same_conn c c' → sinv (sender c') v → later (sender c) (sender c') v v.
Proof. intros [] Hs. by apply later_same. Qed.

(** The segments the decision sends out, before they are stamped: those the
    sender queued, or one empty segment to carry the reset. *)
Definition pending (c : t) : list TCPSegment.t :=
  match judge c, TCPSender.segments_out (sender c) with
  | Given_up, [] => TCPSender.segments_out (TCPSender.send_empty_segment (sender c))
  | _, q => q
  end.

(** What [judge_do] does to an active connection. *)
Record judged (P : Z → byte → Prop) (c c' : t) (w v : bytes) : Prop := mk_judged {
  ju_inv : cinv P c' w v;
  ju_same : same_conn c c';
  ju_active : active c' = match judge c with Carry_on => true | _ => false end;
  ju_rst : rst c' = match judge c with Reset_by_peer | Given_up => true | _ => false end;
  ju_linger : linger_after_streams_finish c' =
    match judge c with Lingered => false | _ => linger_after_streams_finish c end;
  ju_queue : TCPSender.segments_out (sender c') = [];
  ju_errors : match judge c with
    | Reset_by_peer | Given_up => ByteStream.error (TCPReceiver.stream_out (receiver c')) = true ∧
        ByteStream.error (TCPSender.stream_in (sender c')) = true
    | _ => receiver c' = receiver c ∧ TCPSender.stream_in (sender c') = TCPSender.stream_in (sender c)
    end;
  ju_out : ∃ a, TCPReceiver.ackno (receiver c) = Ok a ∧ (TCPReceiver.syn (receiver c) = true → ∃ k, a = Some k) ∧
    segments_out c' = segments_out c ++
      map (stamped (if match judge c with Given_up => true | _ => false end then with_rst c else c) a) (pending c);
}.

Lemma stamped_ext c c' a g :
  rst c' = rst c → (rst c = true ∨ receiver c' = receiver c) → stamped c' a g = stamped c a g.
Proof.
  intros Hr Hrec. unfold stamped. rewrite Hr. destruct (rst c); [done|].
  by destruct Hrec as [?| ->].
Qed.

Lemma set_errors_ackno c : TCPReceiver.ackno (receiver (set_errors c)) = TCPReceiver.ackno (receiver c).
Proof. done. Qed.

(** Closing in error: the streams fail, the queue leaves with the reset flag. *)
Lemma reset_dead P c w v :
  cinv P c w v → rst c = true →
  ∃ c' a, (c1 ← pull_push_segments (set_errors c); Ok (with_active c1 false)) = Ok c' ∧
    TCPReceiver.ackno (receiver c) = Ok a ∧ cinv P c' w v ∧ same_conn c c' ∧ active c' = false ∧ rst c' = true ∧
    linger_after_streams_finish c' = linger_after_streams_finish c ∧
    TCPSender.segments_out (sender c') = [] ∧
    ByteStream.error (TCPReceiver.stream_out (receiver c')) = true ∧
    ByteStream.error (TCPSender.stream_in (sender c')) = true ∧
    segments_out c' = segments_out c ++ map (stamped c a) (TCPSender.segments_out (sender c)).
Proof.
  intros Hc Hr. pose proof (set_errors_cinv P c w v Hc) as Hc1.
  destruct (pull_push_segments_spec P _ w v Hc1) as (a & Ha & E & Hc2). rewrite E. cbn [mbind result_bind].
  eexists _, a. split; [done|]. rewrite set_errors_ackno in Ha. split_and!; try done.
  - by destruct Hc2.
  - split; try done. by right.
Qed.

(** Closing cleanly: nothing is left to send but the queue. *)
Lemma clean_dead P c w v :
  cinv P c w v → blen v < 0x4000000000000000 → TCPSender.fined_ (sender c) = true →
  ∃ c' a, fully_dead c 0 = Ok c' ∧
    TCPReceiver.ackno (receiver c) = Ok a ∧ cinv P c' w v ∧ same_conn c c' ∧ active c' = false ∧ rst c' = rst c ∧
    linger_after_streams_finish c' = linger_after_streams_finish c ∧
    TCPSender.segments_out (sender c') = [] ∧ receiver c' = receiver c ∧
    TCPSender.stream_in (sender c') = TCPSender.stream_in (sender c) ∧
    segments_out c' = segments_out c ++ map (stamped c a) (TCPSender.segments_out (sender c)).
Proof.
  intros Hc Hv Hf. unfold fully_dead. cbn [Z.eqb].
  rewrite (fill_window_fined _ v) by (done || apply Hc). cbn [mbind result_bind].
  assert (Ec : with_sender c (sender c) = c) by (by destruct c). rewrite Ec.
  destruct (pull_push_segments_spec P c w v Hc) as (a & Ha & E & Hc2). rewrite E. cbn [mbind result_bind].
  eexists _, a. split; [done|]. split_and!; try done.
  - by destruct Hc2.
  - split; try done. by left.
Qed.

Lemma full_fined_fined s : TCPSender.full_fined s = true → TCPSender.fined_ s = true.
Proof. unfold TCPSender.full_fined. by intros [? _]%andb_prop. Qed.

(** The peer reset the connection. *)
Lemma judged_reset P c w v :
  cinv P c w v → judge c = Reset_by_peer → rst c = true → ∃ c', fully_dead c 1 = Ok c' ∧ judged P c c' w v.
Proof.
  intros Hc Hj Er. pose proof (receiver_ackno P _ w (ci_recv _ _ _ _ Hc)) as (a & Ha & Hsome).
  destruct (reset_dead P c w v Hc Er) as (c' & a' & E & Ha' & Hc' & ? & ? & ? & ? & ? & ? & ? & Ho).
  assert (Ew : with_rst c = c) by (destruct c; simpl in *; by subst).
  assert (a' = a) as -> by congruence.
  exists c'. split; [unfold fully_dead; simpl; by rewrite Ew|].
  split; rewrite ?Hj; try done. exists a. split_and!; try done. unfold pending. by rewrite Hj.
Qed.

(** The sender has given up; if its queue is empty, an empty segment is made
    to carry the reset. *)
Lemma judged_given_up P c w v :
  cinv P c w v → judge c = Given_up → ∃ c', fully_dead c 2 = Ok c' ∧ judged P c c' w v.
Proof.
  intros Hc Hj. pose proof (receiver_ackno P _ w (ci_recv _ _ _ _ Hc)) as (a & Ha & Hsome).
  set (c1 := if match TCPSender.segments_out (sender c) with [] => true | _ => false end
    then with_sender (with_rst c) (TCPSender.send_empty_segment (sender c)) else with_rst c).
  assert (Hc1 : cinv P c1 w v ∧ segments_out c1 = segments_out c ∧ receiver c1 = receiver c ∧ rst c1 = true ∧
    TCPSender.segments_out (sender c1) = pending c ∧
    linger_after_streams_finish c1 = linger_after_streams_finish c ∧ same_conn c c1).
  { assert (Hcr : cinv P (with_rst c) w v) by (by destruct Hc). subst c1. unfold pending. rewrite Hj.
    destruct (TCPSender.segments_out (sender c)) as [|g q] eqn:Eq.
    - split_and!; try done; [|split; try done; by left].
      apply (later_sender P (with_rst c) _ w v v Hcr). simpl. apply later_empty. apply Hc.
    - split_and!; try done. split; try done. by left. }
  destruct Hc1 as (Hc1 & Eo & Erc & Err & Eq & El & Hsc1).
  destruct (reset_dead P c1 w v Hc1 Err) as (c' & a' & E & Ha' & Hc' & Hsc & ? & ? & ? & ? & ? & ? & Ho).
  rewrite Erc in Ha'. assert (a' = a) as -> by congruence.
  exists c'. split; [exact E|]. split; rewrite ?Hj; try done; try congruence.
  - destruct Hsc, Hsc1. rewrite Erc in *. split; try congruence; done.
  - exists a. split_and!; [done|done|]. rewrite Ho, Eo, Eq. f_equal. apply map_ext.
    intros g. apply stamped_ext; [by rewrite Err|by left].
Qed.

Lemma judge_do_spec P c w v :
  cinv P c w v → blen v < 0x4000000000000000 → active c = true →
  ∃ c', judge_do c = Ok c' ∧ judged P c c' w v.
Proof.
  intros Hc Hv Hact. unfold judge_do. rewrite Hact. cbn [negb].
  pose proof (receiver_ackno P _ w (ci_recv _ _ _ _ Hc)) as (a & Ha & Hsome).
  assert (Hj : judge c = judge c) by done. unfold judge at 2 in Hj.
  destruct (rst c) eqn:Er; [by apply judged_reset|].
  destruct (TCPConfig.MAX_RETX_ATTEMPTS <? _) eqn:Et; [by apply judged_given_up|].
  destruct (linger_after_streams_finish c && TCPSender.full_fined (sender c) &&
          TCPReceiver.full_fined (receiver c) && (10 * TCPConfig.rt_timeout (cfg c) <=? last_seg_timer c)) eqn:El.
  { assert (Hc1 : cinv P (with_linger c false) w v) by (by destruct Hc).
    destruct (clean_dead P (with_linger c false) w v Hc1 Hv) as (c' & a' & E & Ha' & Hc' & Hsc & ? & Er' & ? & ? & ? & ? & Ho).
    { simpl. bool_to_prop. by apply full_fined_fined. }
    simpl in Ha'. assert (a' = a) as -> by congruence.
    exists c'. split; [done|]. destruct Hsc. split; rewrite ?Hj, ?Er'; try done.
    exists a. split_and!; try done. rewrite Ho. unfold pending. by rewrite Hj. }
  destruct (negb (linger_after_streams_finish c) && TCPSender.full_fined (sender c)) eqn:Ep.
  { destruct (clean_dead P c w v Hc Hv) as (c' & a' & E & Ha' & Hc' & Hsc & ? & Er' & ? & ? & ? & ? & Ho).
    { bool_to_prop. by apply full_fined_fined. }
    assert (a' = a) as -> by congruence.
    exists c'. split; [done|]. split; rewrite ?Hj, ?Er'; try done.
    exists a. split_and!; try done. rewrite Ho. unfold pending. by rewrite Hj. }
  destruct (pull_push_segments_spec P c w v Hc) as (a' & Ha' & E & Hc2).
  assert (a' = a) as -> by congruence. eexists. split; [exact E|]. split; rewrite ?Hj; try done.
  - split; try done. by left.
  - exists a. split_and!; try done. simpl. unfold pending. by rewrite Hj.
Qed.

(** An inactive connection is left alone. *)
Lemma judge_do_inactive c : active c = false → judge_do c = Ok c.
Proof. intros H. unfold judge_do. by rewrite H. Qed.

(** ** The headers the sender makes *)

(** Neither acknowledgment nor reset: the connection adds those. *)
Definition plain_seg (g : TCPSegment.t) : Prop :=
  TCPHeader.ack (TCPSegment.header g) = false ∧ TCPHeader.rst (TCPSegment.header g) = false.

Definition plain (s : TCPSender.t) : Prop :=
  Forall plain_seg (map TCPSender.seg (TCPSender.sent s)) ∧ Forall plain_seg (TCPSender.segments_out s).

Lemma fill_window_plain s s' : plain s → TCPSender.fill_window s = Ok s' → plain s'.
Proof.
  unfold TCPSender.fill_window. generalize (S (S (Z.to_nat (TCPSender.window_size s)))).
  generalize (if TCPSender.window_size s =? 0 then 1 else 0). intros ex fuel. revert ex s.
  induction fuel as [|fuel IH]; intros ex s Hs Hf; simpl in Hf; [done|].
  destruct (_ <? _); [|by inv_ok]. destruct (TCPSender.fined_ s); [by inv_ok|].
  apply result_bind_Ok in Hf as ([s1 more] & E1 & Hf).
  assert (plain s1); [|destruct more; [by eapply IH|by inv_ok]].
  unfold TCPSender.fill_once in E1. cbv zeta in E1. apply result_bind_Ok in E1 as ([st data] & _ & E1).
  destruct Hs as [Hs1 Hs2]. destruct (_ =? 0) in E1; injection E1 as <- _; [done|].
  split; simpl; [rewrite map_app|]; apply Forall_app; (split; [done|]); by apply Forall_singleton.
Qed.

Lemma pop_acked_sublist a l : ∃ p, l = p ++ TCPSender.pop_acked a l.
Proof.
  induction l as [|x l [p IH]]; simpl; [by exists []|]. destruct (_ <=? _); [exists (x :: p)|by exists []].
  simpl. by rewrite <- IH.
Qed.

Lemma ack_received_plain s a win : plain s → plain (TCPSender.ack_received s a win).
Proof.
  intros [Hs Hq]. unfold TCPSender.ack_received. destruct (_ || _); [done|].
  destruct (TCPSender.sent s) as [|x l] eqn:Es; [by split; simpl; rewrite ?Es|]. split; [|done]. cbn [TCPSender.sent].
  set (k := unwrap _ _ _). destruct (pop_acked_sublist k (x :: l)) as [p Hp]. rewrite Hp, map_app in Hs.
  by apply Forall_app in Hs as [_ ?].
Qed.

Lemma sender_tick_plain s ms : plain s → plain (TCPSender.tick s ms).
Proof.
  intros [Hs Hq]. unfold TCPSender.tick. destruct (TCPSender.sent s) as [|x l] eqn:Es; [done|].
  destruct (_ <=? _); split; simpl; rewrite ?Es; try done. apply Forall_app. split; [done|].
  apply Forall_singleton. by apply Forall_cons in Hs as [? _].
Qed.

Lemma send_empty_plain s : plain s → plain (TCPSender.send_empty_segment s).
Proof. intros [Hs Hq]. split; [done|]. simpl. apply Forall_app. split; [done|]. by apply Forall_singleton. Qed.

#[export] Hint Resolve fill_window_plain ack_received_plain sender_tick_plain send_empty_plain : sponge.

(** What the segments of a connection whose receiver is [r] tell the peer. *)
Definition reported (r : TCPReceiver.t) (g : TCPSegment.t) : Prop :=
  let h := TCPSegment.header g in
  TCPHeader.rst h = false ∧ TCPHeader.win h = Z.min (TCPReceiver.window_size r) UINT16_MAX ∧
  TCPReceiver.ackno r = Ok (if TCPHeader.ack h then Some (TCPHeader.ackno h) else None).

Lemma stamped_reported c a g :
  rst c = false → plain_seg g → TCPReceiver.ackno (receiver c) = Ok a → reported (receiver c) (stamped c a g).
Proof.
  intros Hr [Ha Hrst] Hk. unfold reported, stamped. rewrite Hr. destruct a; simpl; split_and!; try done. by rewrite Ha.
Qed.

Lemma fill_if_syned_plain c s' : fill_if_syned c = Ok (with_sender c s') → plain (sender c) → plain s'.
Proof.
  unfold fill_if_syned. destruct (TCPSender.syned (sender c)).
  - intros H Hp. apply result_bind_Ok in H as (s & Hs & [= <-]). by eapply fill_window_plain.
  - intros [= E]. rewrite E. destruct c. simpl in *. congruence.
Qed.

(** ** Every operation keeps the invariant *)

(** The receiver has the same peer, stream and window. *)
Record same_recv (r r' : TCPReceiver.t) : Prop := mk_same_recv {
  sr_syn : TCPReceiver.syn r' = TCPReceiver.syn r;
  sr_isn : TCPReceiver.isn r' = TCPReceiver.isn r;
  sr_eof : StreamReassembler.eof_ (TCPReceiver.reassembler r') = StreamReassembler.eof_ (TCPReceiver.reassembler r);
  sr_eof_index : StreamReassembler.eof_index (TCPReceiver.reassembler r') =
    StreamReassembler.eof_index (TCPReceiver.reassembler r);
  sr_capacity : ByteStream.capacity (TCPReceiver.stream_out r') = ByteStream.capacity (TCPReceiver.stream_out r);
  sr_window : window_end (TCPReceiver.reassembler r') = window_end (TCPReceiver.reassembler r);
}.

Lemma same_recv_refl r : same_recv r r.
Proof. by split. Qed.

Lemma same_recv_trans r1 r2 r3 : same_recv r1 r2 → same_recv r2 r3 → same_recv r1 r3.
Proof. intros [] []. split; congruence. Qed.

(** The stream that the owner reads has the same reader position when window and
    capacity are the same. *)
Lemma same_recv_read c c' :
  same_recv (receiver c) (receiver c') →
  ByteStream.read_count (inbound_stream c') = ByteStream.read_count (inbound_stream c).
Proof.
  intros []. unfold inbound_stream, window_end in *. unfold TCPReceiver.stream_out, StreamReassembler.stream_out in *. lia.
Qed.

(** What an operation does to the connection as its environment sees it. *)
Record conn_step (P : Z → byte → Prop) (c c' : t) (w v v' : bytes) (ticks : Z) : Prop := mk_conn_step {
  cs_inv : cinv P c' w v';
  cs_later : later (sender c) (sender c') v v';
  cs_recv : same_recv (receiver c) (receiver c');
  cs_tries : TCPSender.resend_try_times (sender c') <= Z.max 0 (TCPSender.resend_try_times (sender c)) + ticks;
  cs_out : ∃ more, segments_out c' = segments_out c ++ more;
  cs_dead : active c = false → active c' = false ∧ segments_out c' = segments_out c;
}.

Lemma judge_do_step P c w v :
  cinv P c w v → blen v < 0x4000000000000000 →
  ∃ c', judge_do c = Ok c' ∧ conn_step P c c' w v v 0.
Proof.
  intros Hc Hv. destruct (active c) eqn:Ea.
  - destruct (judge_do_spec P c w v Hc Hv Ea) as (c' & E & []). exists c'. split; [done|].
    pose proof (same_conn_later _ _ v ju_same0 (ci_send _ _ _ _ ju_inv0)). destruct ju_same0.
    split; try done; [|lia|destruct ju_out0 as (a & _ & _ & ->); by eexists|congruence].
    unfold TCPReceiver.stream_out in *. destruct sc_re0 as [Hre|Hre]; split; unfold TCPReceiver.stream_out; rewrite ?Hre; try done.
  - exists c. split; [by apply judge_do_inactive|]. split; try done.
    + apply later_refl. apply Hc.
    + lia.
    + exists []. by rewrite app_nil_r.
Qed.

(** An operation that prepares the sender and then decides. *)
Lemma step_via P c c1 w v v1 ticks :
  cinv P c w v → blen v1 < 0x4000000000000000 →
  later (sender c) (sender c1) v v1 → rinv P (receiver c1) w → same_recv (receiver c) (receiver c1) →
  segments_out c1 = segments_out c → active c1 = active c →
  TCPSender.resend_try_times (sender c1) <= Z.max 0 (TCPSender.resend_try_times (sender c)) + ticks → 0 <= ticks →
  ∃ c', judge_do c1 = Ok c' ∧ conn_step P c c' w v v1 ticks.
Proof.
  intros Hc Hv Hl Hr Hsr Ho Ha Ht Htk.
  assert (Hc1 : cinv P c1 w v1).
  { split; [done|apply Hl|]. rewrite Ho. eapply Forall_impl; [apply Hc|].
    intros g. by apply later_from_sender. }
  destruct (judge_do_step P c1 w v1 Hc1 Hv) as (c' & E & []). exists c'. split; [done|].
  split; try done.
  - by eapply later_trans.
  - by eapply same_recv_trans.
  - lia.
  - by rewrite <- Ho.
  - rewrite <- Ha, <- Ho. done.
Qed.

Lemma fill_if_syned_spec c v :
  sinv (sender c) v → blen v < 0x4000000000000000 →
  ∃ s', fill_if_syned c = Ok (with_sender c s') ∧ later (sender c) s' v v ∧
    TCPSender.resend_try_times s' = TCPSender.resend_try_times (sender c) ∧
    ∃ more, TCPSender.segments_out s' = TCPSender.segments_out (sender c) ++ more.
Proof.
  intros Hs Hv. unfold fill_if_syned. destruct (TCPSender.syned (sender c)) eqn:E.
  - destruct (later_fill (sender c) v Hs Hv) as (s' & -> & Hl & Hf & Hsat). exists s'. split; [done|].
    split_and!; [done|apply Hf|]. destruct (fi_segs _ _ _ Hf) as (more & Hm & _). by exists more.
  - exists (sender c). split; [by destruct c|]. split_and!; [by apply later_refl|done|].
    exists []. by rewrite app_nil_r.
Qed.

Lemma write_step P c w v data :
  cinv P c w v → blen v + blen data < 0x4000000000000000 →
  ∃ c' n, write c data = Ok (c', n) ∧ 0 <= n <= blen data ∧
    conn_step P c c' w v (v ++ ztake n data) 0.
Proof.
  intros Hc Hb. pose proof Hc as [Hr Hs _]. pose proof (blen_nonneg v). pose proof (blen_nonneg data).
  destruct (sinv_write (sender c) v data Hs) as (st & n & Ew & Hs1 & Hn & Hin & Hd).
  { unfold_w. lia. }
  unfold write, TCPSender.stream_in. rewrite Ew.
  set (c1 := with_sender c (TCPSender.with_stream (sender c) st)).
  assert (Hb1 : blen (v ++ ztake n data) < 0x4000000000000000)
    by (rewrite blen_app, blen_ztake by lia; lia).
  assert (Hl1 : later (sender c) (sender c1) v (v ++ ztake n data)) by (by apply later_written).
  destruct (fill_if_syned_spec c1 _ Hs1 Hb1) as (s2 & -> & Hl2 & Ht2 & _). cbn [mbind result_bind].
  destruct (step_via P c (with_sender c1 s2) w v (v ++ ztake n data) 0) as (c' & -> & Hst); try done.
  - by eapply later_trans.
  - simpl. rewrite Ht2. simpl. lia.
  - exists c', n. done.
Qed.

Lemma tick_step P c w v ms :
  cinv P c w v → blen v < 0x4000000000000000 → TCPSender.resend_try_times (sender c) < UINT32_MAX →
  ∃ c', tick c ms = Ok c' ∧ conn_step P c c' w v v 1.
Proof.
  intros Hc Hv Ht. pose proof Hc as [Hr Hs _]. unfold tick.
  set (c0 := with_timer c _). pose proof (later_tick (sender c) v ms Hs Ht) as Hl1.
  set (c1 := with_sender c0 _).
  destruct (fill_if_syned_spec c1 v (la_inv _ _ _ _ Hl1) Hv) as (s2 & -> & Hl2 & Ht2 & _). cbn [mbind result_bind].
  apply (step_via P c (with_sender c1 s2) w v v 1); try done; try lia.
  - by eapply later_trans.
  - simpl. rewrite Ht2. simpl.
    destruct (tick_spec (sender c) v ms Hs Ht) as (_ & _ & _ & _ & _ & _ & _ & _ & _ & _ & Hrest).
    destruct (expired _ _); [|destruct Hrest as (_ & _ & -> & _); lia].
    destruct Hrest as (_ & _ & Hrest). destruct (_ =? _); destruct Hrest as [_ ->]; lia.
Qed.

Lemma connect_step P c w v :
  cinv P c w v → blen v < 0x4000000000000000 → ∃ c', connect c = Ok c' ∧ conn_step P c c' w v v 0.
Proof.
  intros Hc Hv. pose proof Hc as [Hr Hs _]. unfold connect.
  destruct (later_fill (sender c) v Hs Hv) as (s' & -> & Hl & Hf & _). cbn [mbind result_bind].
  apply (step_via P c (with_sender c s') w v v 0); try done; try lia.
  simpl. rewrite (st_tries _ _ (fi_timer _ _ _ Hf)). lia.
Qed.

Lemma end_input_step P c w v :
  cinv P c w v → blen v < 0x4000000000000000 → ∃ c', end_input_stream c = Ok c' ∧ conn_step P c c' w v v 0.
Proof.
  intros Hc Hv. pose proof Hc as [Hr Hs _]. unfold end_input_stream. set (c1 := with_sender c _).
  pose proof (sinv_end_input (sender c) v Hs) as Hs1.
  assert (Hl1 : later (sender c) (sender c1) v v) by (by apply later_same).
  destruct (later_fill (sender c1) v Hs1 Hv) as (s' & -> & Hl & Hf & _). cbn [mbind result_bind].
  apply (step_via P c (with_sender c1 s') w v v 0); try done; try lia.
  - by eapply later_trans.
  - simpl. rewrite (st_tries _ _ (fi_timer _ _ _ Hf)). simpl. lia.
Qed.

Lemma owes_segment_spec P c w seg :
  rinv P (receiver c) w → ∃ b, owes_segment c seg = Ok b ∧
    (TCPSegment.length_in_sequence_space seg ≠ 0 → TCPSender.segments_out (sender c) = [] → b = true).
Proof.
  intros Hr. destruct (receiver_ackno P _ w Hr) as (a & Ha & _). unfold owes_segment.
  destruct (Z.eqb_spec (TCPSegment.length_in_sequence_space seg) 0) as [E|E].
  - rewrite Ha. cbn [mbind result_bind]. destruct a; [destruct (WrappingInt32.eqb _ _)|]; eexists; by split.
  - eexists. split; [done|]. by intros _ ->.
Qed.

(** The connection as [segment_handled] leaves it to [judge_do]. *)
Lemma segment_handled_prepared P c w v seg :
  cinv P c w v → blen v < 0x4000000000000000 → is_u16 (TCPHeader.win (TCPSegment.header seg)) →
  ∃ c1, segment_handled c seg = judge_do c1 ∧ later (sender c) (sender c1) v v ∧
    receiver c1 = receiver c ∧ segments_out c1 = segments_out c ∧ active c1 = active c ∧ rst c1 = rst c ∧
    TCPSender.resend_try_times (sender c1) <= Z.max 0 (TCPSender.resend_try_times (sender c)) ∧
    (TCPSegment.length_in_sequence_space seg ≠ 0 → TCPSender.segments_out (sender c1) ≠ []) ∧
    (plain (sender c) → plain (sender c1)).
Proof.
  intros Hc Hv Hw. pose proof Hc as [Hr Hs _]. unfold segment_handled.
  set (c1 := if TCPHeader.ack _ then _ else _).
  assert (Hp1 : plain (sender c) → plain (sender c1)).
  { subst c1. destruct (TCPHeader.ack _); simpl; auto with sponge. }
  assert (H1 : later (sender c) (sender c1) v v ∧ receiver c1 = receiver c ∧ segments_out c1 = segments_out c ∧
    active c1 = active c ∧ rst c1 = rst c ∧
    TCPSender.resend_try_times (sender c1) <= Z.max 0 (TCPSender.resend_try_times (sender c))).
  { subst c1. destruct (TCPHeader.ack _); simpl; split_and!; try done; try lia; [by apply later_ack| |by apply later_refl].
    destruct (ack_received_spec (sender c) v (TCPHeader.ackno (TCPSegment.header seg)) _ Hs Hw)
      as (_ & _ & _ & _ & _ & _ & _ & _ & _ & Hrest).
    destruct (fresh_ack _ _); destruct Hrest as (_ & _ & _ & -> & _); lia. }
  destruct H1 as (Hl1 & Er1 & Eo1 & Ea1 & Et1 & Hn1).
  destruct (fill_if_syned_spec c1 v (la_inv _ _ _ _ Hl1) Hv) as (s2 & Ef2 & Hl2 & Ht2 & _).
  assert (Hp2 : plain (sender c) → plain s2) by (intros Hp; apply (fill_if_syned_plain _ _ Ef2); auto).
  rewrite Ef2. cbn [mbind result_bind].
  set (c2 := if TCPReceiver.full_fined _ && _ then _ else _).
  assert (H2 : sender c2 = s2 ∧ receiver c2 = receiver c ∧ segments_out c2 = segments_out c ∧
    active c2 = active c ∧ rst c2 = rst c).
  { subst c2. destruct (_ && _); simpl; split_and!; congruence. }
  destruct H2 as (Es2 & Er2 & Eo2 & Ea2 & Et2).
  destruct (owes_segment_spec P c2 w seg) as (b & -> & Hb); [by rewrite Er2|]. cbn [mbind result_bind].
  assert (Hl : later (sender c) s2 v v) by (by eapply later_trans).
  eexists. split; [done|]. destruct b; simpl; rewrite ?Es2; split_and!; try done; try lia.
  - eapply later_trans; [exact Hl|]. apply later_empty, Hl.
  - intros _ E. by apply app_eq_nil in E as [_ ?].
  - auto with sponge.
  - intros Hlen E. rewrite <- Es2 in E. by specialize (Hb Hlen E).
Qed.

Lemma segment_handled_step P c w v seg :
  cinv P c w v → blen v < 0x4000000000000000 → is_u16 (TCPHeader.win (TCPSegment.header seg)) →
  ∃ c', segment_handled c seg = Ok c' ∧ conn_step P c c' w v v 0.
Proof.
  intros Hc Hv Hw.
  destruct (segment_handled_prepared P c w v seg Hc Hv Hw) as (c1 & -> & Hl & Er & Eo & Ea & _ & Ht & _ & _).
  apply (step_via P c c1 w v v 0); rewrite ?Er; try done; try lia; apply Hc.
Qed.

(** A segment from the network, whatever its flags. *)
Lemma segment_step `{EndKeyFresh} P isn0 c w v n seg :
  WrappingInt32.ok isn0 → cinv P c w v → blen v < 0x4000000000000000 →
  window_end (TCPReceiver.reassembler (receiver c)) < 0x4000000000000000 → peered isn0 (receiver c) →
  genuine P isn0 (TCPReceiver.last_abseqno (receiver c)) n seg →
  is_u32 (blen (Buffer.str (TCPSegment.payload seg))) → is_u16 (TCPHeader.win (TCPSegment.header seg)) →
  ∃ c' w' r, segment_received c seg = Ok c' ∧ rinv P r (w ++ w') ∧ peered isn0 r ∧
    window_end (TCPReceiver.reassembler r) = window_end (TCPReceiver.reassembler (receiver c)) ∧
    ByteStream.capacity (TCPReceiver.stream_out r) = ByteStream.capacity (TCPReceiver.stream_out (receiver c)) ∧
    eof_from (TCPReceiver.reassembler (receiver c)) (TCPReceiver.reassembler r) (TCPSegment.header seg)
      (accepted (receiver c) n (TCPSegment.header seg))
      (payload_index n (TCPSegment.header seg) + blen (Buffer.str (TCPSegment.payload seg))) ∧
    conn_step P (with_receiver (with_timer c 0) r) c' (w ++ w') v v 0.
Proof.
  intros Hi Hc Hv Hw Hp Hg Hlen Hwin. pose proof Hc as [Hr Hs Ho]. unfold segment_received.
  destruct (TCPHeader.rst (TCPSegment.header seg)).
  { assert (Ec : with_receiver (with_timer c 0) (receiver c) = with_timer c 0) by done.
    destruct (judge_do_step P (with_rst (with_timer c 0)) w v) as (c' & E & []); [by split|done|].
    exists c', [], (receiver c). rewrite app_nil_r. split_and!; try done. by intros ?; left. }
  destruct (segment_received_spec P isn0 Hi (receiver c) w n seg Hr Hw Hp Hg Hlen)
    as (r & w' & E & Hr' & Hp' & _ & _ & Hwe & Hcap & _ & Heof & _).
  cbn [receiver with_timer]. rewrite E. cbn [mbind result_bind].
  set (c1 := with_receiver (with_timer c 0) r).
  assert (Hc1 : cinv P c1 (w ++ w') v) by (by split).
  destruct (TCPHeader.syn _ && _).
  - destruct (connect_step P c1 (w ++ w') v Hc1 Hv) as (c' & E' & Hst). by exists c', w', r.
  - destruct (segment_handled_step P c1 (w ++ w') v seg Hc1 Hv Hwin) as (c' & E' & Hst). by exists c', w', r.
Qed.

(** ** Consequences *)

(** Before the SYN is out there is nothing in flight, and filling the window
    sends it. *)
Lemma fill_window_sends_syn s v :
  sinv s v → blen v < 0x4000000000000000 → TCPSender.syned_ s = false →
  ∃ s' g more, TCPSender.fill_window s = Ok s' ∧ later s s' v v ∧ same_timer s s' ∧
    TCPSender.segments_out s' = TCPSender.segments_out s ++ g :: more.
Proof.
  intros Hs Hv Hsy. destruct (later_fill s v Hs Hv) as (s' & E & Hl & Hf & Hsat).
  destruct (fi_segs _ _ _ Hf) as ([|g more] & Hq & Hm & _); [exfalso|by exists s', g, more; split_and!; try done; apply Hf].
  pose proof (si_next _ _ Hs) as Hn. destruct (si_syned _ _ Hs Hsy) as [Hrc Hfd].
  rewrite Hsy, Hrc, Hfd in Hn. simpl in Hn. pose proof (si_acked _ _ Hs) as Ha.
  assert (Hse : TCPSender.sent s = []).
  { destruct (si_sent _ _ Hs) as (lo & _ & Ho). destruct (TCPSender.sent s) as [|x l]; [done|].
    destruct Ho as ([] & _ & _ & ? & Ho). apply outstanding_le in Ho. lia. }
  rewrite Hse, app_nil_r in Hm. pose proof (fi_inv _ _ _ Hf) as Hs'.
  assert (Hse' : TCPSender.sent s' = []) by (destruct (TCPSender.sent s'); [done|discriminate Hm]).
  destruct (si_sent _ _ Hs') as (lo & Hlo & Ho). unfold oldest in Hlo. rewrite Hse' in Hlo, Ho. simpl in Ho.
  pose proof (st_acked _ _ (fi_timer _ _ _ Hf)) as Ea.
  assert (Hn' : TCPSender.next_abs_seqno s' = 0) by lia.
  pose proof (si_next _ _ Hs') as Hnx. pose proof (ByteStream.rep_read _ _ (si_rep _ _ Hs')).
  destruct Hsat as [Hx|[Hx|[Hx _]]].
  - rewrite Hx in Hnx. destruct (TCPSender.syned_ s'); simpl in Hnx; lia.
  - unfold limit, flight in Hx. lia.
  - rewrite Hx in Hnx. destruct (TCPSender.fined_ s'); simpl in Hnx; lia.
Qed.

(** A segment sent along with a decision: with the reset flag when the
    connection is in its reset state, and otherwise without it and with the
    acknowledgment and window the receiver [r] reports. *)
Definition reports (reset : bool) (r : TCPReceiver.t) (g : TCPSegment.t) : Prop :=
  if reset then TCPHeader.rst (TCPSegment.header g) = true else reported r g.

(** If the sender has something queued, the decision sends it. *)
Lemma judge_do_sends P c w v :
  cinv P c w v → blen v < 0x4000000000000000 → active c = true → TCPSender.segments_out (sender c) ≠ [] →
  plain (sender c) →
  ∃ c' g more, judge_do c = Ok c' ∧ segments_out c' = segments_out c ++ g :: more ∧
    rst c' = rst c || (TCPConfig.MAX_RETX_ATTEMPTS <? TCPSender.consecutive_retransmissions (sender c')) ∧
    Forall (reports (rst c') (receiver c)) (g :: more).
Proof.
  intros Hc Hv Ha Hq [_ Hpl]. destruct (judge_do_spec P c w v Hc Hv Ha) as (c' & E & []).
  destruct ju_out0 as (a & Hak & _ & Ho). unfold pending in Ho.
  destruct (TCPSender.segments_out (sender c)) as [|g q] eqn:Eq; [done|].
  assert (Hp : match judge c, g :: q with Given_up, [] => TCPSender.segments_out
    (TCPSender.send_empty_segment (sender c)) | _, q0 => q0 end = g :: q) by (by destruct (judge c)).
  rewrite Hp in Ho. eexists c', _, _. split; [done|]. split; [exact Ho|].
  assert (Hr : rst c' = rst c || (TCPConfig.MAX_RETX_ATTEMPTS <? TCPSender.consecutive_retransmissions (sender c'))).
  { rewrite ju_rst0. unfold TCPSender.consecutive_retransmissions. rewrite (sc_tries _ _ ju_same0). unfold judge.
    destruct (rst c); [done|]. cbn [orb]. unfold TCPSender.consecutive_retransmissions.
    destruct (_ <? _); [done|]. by repeat destruct (_ && _). }
  split; [exact Hr|].
  change (Forall (reports (rst c') (receiver c)) (map (stamped (if match judge c with Given_up => true | _ => false end
    then with_rst c else c) a) (g :: q))).
  apply Forall_map. eapply Forall_impl; [exact Hpl|]. intros x Hx. rewrite ju_rst0. unfold reports.
  destruct (judge c) eqn:Ej; try done; try (unfold judge in Ej; destruct (rst c) eqn:Er; [done|by apply stamped_reported]).
  unfold judge in Ej. unfold stamped. destruct (rst c); [done|]. destruct (_ <? _); [done|].
  by repeat destruct (_ && _).
Qed.

(** C11. Every segment of the peer's stream that occupies sequence numbers is
    answered: an active connection handles it without throwing and sends at least
    one segment. Unless the connection is reset, because it already was or because
    it has given up retransmitting, no segment it sends has the RST flag, and each
    carries the window and the acknowledgment number the receiver reports after
    the new segment, with the ACK flag exactly when there is one to report; when
    it is reset, each has the RST flag. *)
Theorem connection_answers_data `{EndKeyFresh} P isn0 c w v n seg :
  WrappingInt32.ok isn0 → cinv P c w v → plain (sender c) → blen v < 0x4000000000000000 →
  window_end (TCPReceiver.reassembler (receiver c)) < 0x4000000000000000 → peered isn0 (receiver c) →
  genuine P isn0 (TCPReceiver.last_abseqno (receiver c)) n seg →
  is_u32 (blen (Buffer.str (TCPSegment.payload seg))) → is_u16 (TCPHeader.win (TCPSegment.header seg)) →
  active c = true → TCPHeader.rst (TCPSegment.header seg) = false →
  TCPSegment.length_in_sequence_space seg ≠ 0 →
  ∃ c' r g more, segment_received c seg = Ok c' ∧ TCPReceiver.segment_received (receiver c) seg = Ok r ∧
    segments_out c' = segments_out c ++ g :: more ∧
    rst c' = rst c || (TCPConfig.MAX_RETX_ATTEMPTS <? TCPSender.consecutive_retransmissions (sender c')) ∧
    Forall (λ x, let h := TCPSegment.header x in
      if rst c' then TCPHeader.rst h = true
      else TCPHeader.rst h = false ∧ TCPHeader.win h = Z.min (TCPReceiver.window_size r) UINT16_MAX ∧
           TCPReceiver.ackno r = Ok (if TCPHeader.ack h then Some (TCPHeader.ackno h) else None)) (g :: more).
Proof.
  intros Hi Hc Hpl Hv Hw Hp Hg Hlen Hwin Hact Hrst Hne. pose proof Hc as [Hr Hs Ho].
  unfold segment_received. rewrite Hrst.
  destruct (segment_received_spec P isn0 Hi (receiver c) w n seg Hr Hw Hp Hg Hlen) as (r & w' & E & Hr' & _).
  cbn [receiver with_timer]. rewrite E. cbn [mbind result_bind].
  set (c1 := with_receiver (with_timer c 0) r). assert (Hc1 : cinv P c1 (w ++ w') v) by (by split).
  assert (Hgoal : ∀ c2, later (sender c1) (sender c2) v v → receiver c2 = r → segments_out c2 = segments_out c →
    active c2 = active c → rst c2 = rst c → TCPSender.segments_out (sender c2) ≠ [] → plain (sender c2) →
    ∃ c' r' g more, judge_do c2 = Ok c' ∧ Ok r = Ok r' ∧ segments_out c' = segments_out c ++ g :: more ∧
      rst c' = rst c || (TCPConfig.MAX_RETX_ATTEMPTS <? TCPSender.consecutive_retransmissions (sender c')) ∧
      Forall (reports (rst c') r') (g :: more)).
  { intros c2 Hl Er Eo Ea Et Hq Hpl2.
    assert (Hc2 : cinv P c2 (w ++ w') v).
    { split; [by rewrite Er|apply Hl|]. rewrite Eo. eapply Forall_impl; [apply Ho|].
      intros g. by apply (later_from_sender (sender c1)). }
    destruct (judge_do_sends P c2 _ v Hc2 Hv ltac:(congruence) Hq Hpl2) as (c' & g & more & E' & Hout & Hre & Hall).
    exists c', r, g, more. rewrite Hout, Eo, <- Er, <- Et. done. }
  destruct (TCPHeader.syn _ && _) eqn:Esy.
  - apply andb_prop in Esy as [_ Esy]. apply negb_true_iff in Esy.
    destruct (fill_window_sends_syn (sender c1) v (ci_send _ _ _ _ Hc1) Hv Esy) as (s' & g & more & Ef & Hl & _ & Hq).
    pose proof (fill_window_plain _ _ Hpl Ef).
    unfold connect. rewrite Ef. cbn [mbind result_bind]. apply Hgoal; try done.
    simpl. rewrite Hq. intros E'. by apply app_eq_nil in E' as [_ ?].
  - destruct (segment_handled_prepared P c1 _ v seg Hc1 Hv Hwin) as (c2 & -> & Hl & Er & Eo & Ea & Et & _ & Hq & Hpl2).
    apply Hgoal; try done; [by apply Hq|by apply Hpl2].
Qed.

(** A fresh connection whose initial sequence number is 5. *)
Definition sample_cfg : TCPConfig.t := TCPConfig.mk 1000 10 10 (Some (WrappingInt32.mk 5)).

Lemma cinv_new P cfg rand :
  is_u64 (TCPConfig.recv_capacity cfg) → is_u64 (TCPConfig.send_capacity cfg) → is_u16 (TCPConfig.rt_timeout cfg) →
  (∀ i, TCPConfig.fixed_isn cfg = Some i → WrappingInt32.ok i) → cinv P (new cfg rand) [] [].
Proof. intros. split; simpl; [by apply rinv_new|by apply sinv_new|done]. Qed.

Lemma sample_cinv P : cinv P (new sample_cfg 0) [] [].
Proof.
  apply cinv_new; [range_compute|range_compute|range_compute|]. intros i Ei. injection Ei as <-. range_compute.
Qed.

Lemma connection_answers_data_witness :
  ∃ c' g more, segment_received (new sample_cfg 0) syn_abc = Ok c' ∧ segments_out c' = g :: more ∧
    TCPHeader.ackno (TCPSegment.header g) = WrappingInt32.mk 2 ∧ TCPHeader.syn (TCPSegment.header g) = true ∧
    TCPHeader.rst (TCPSegment.header g) = false.
Proof.
  destruct (connection_answers_data (at_stream alphabet) (WrappingInt32.mk 0xfffffffe) (new sample_cfg 0) [] [] 0 syn_abc)
    as (c' & r & g & more & E & _ & Ho & Hr & Hg).
  - range_compute.
  - apply sample_cinv.
  - by split.
  - vm_compute. done.
  - vm_compute. done.
  - intros E. discriminate E.
  - exact syn_abc_genuine.
  - range_compute.
  - range_compute.
  - done.
  - done.
  - vm_compute. done.
  - assert (Hc : c' = match segment_received (new sample_cfg 0) syn_abc with Ok x => x | Err _ => c' end)
      by (rewrite E; reflexivity).
    exists c', g, more. split; [exact E|]. split; [exact Ho|]. apply Forall_cons in Hg as [Hg _]. clear E Hr.
    vm_compute in Hc. subst c'. vm_compute in Ho. injection Ho as <- <-. destruct Hg as [Hg _].
    split; [reflexivity|]. split; [reflexivity|exact Hg].
Defined.

(** Both streams have failed and the connection is dead: the state RESET. *)
Lemma reset_state c :
  active c = false → ByteStream.error (TCPReceiver.stream_out (receiver c)) = true →
  ByteStream.error (TCPSender.stream_in (sender c)) = true →
  state c = Ok (TCPState.of_state TCPState.RESET).
Proof.
  intros Ha Hr Hs. unfold state, TCPState.of_parts, TCPState.receiver_summary, TCPState.sender_summary.
  by rewrite Hr, Hs, Ha.
Qed.

(** C31. A reset from the peer: an active connection that receives a segment
    with the RST flag, whatever its sequence number and whatever the state of the
    connection, is dead at once, both of its streams are in error and its state
    is RESET. It sends nothing of its own: only what was waiting in the queue of
    its sender leaves, each segment with the RST flag. *)
Theorem connection_reset_by_peer `{EndKeyFresh} P c w v seg :
  cinv P c w v → blen v < 0x4000000000000000 → active c = true →
  TCPHeader.rst (TCPSegment.header seg) = true →
  ∃ c', segment_received c seg = Ok c' ∧ active c' = false ∧
    ByteStream.error (inbound_stream c') = true ∧ ByteStream.error (TCPSender.stream_in (sender c')) = true ∧
    state c' = Ok (TCPState.of_state TCPState.RESET) ∧
    segments_out c' = segments_out c ++
      map (λ g, TCPSegment.mk (TCPHeader.set_rst (TCPSegment.header g)) (TCPSegment.payload g))
        (TCPSender.segments_out (sender c)).
Proof.
  intros [] Hv Ha Hrst. unfold segment_received. rewrite Hrst.
  destruct (judge_do_spec P (with_rst (with_timer c 0)) w v) as (c' & E & []); [by split|done|done|].
  assert (Hj : judge (with_rst (with_timer c 0)) = Reset_by_peer) by done.
  rewrite Hj in *. destruct ju_errors0 as [He1 He2]. exists c'.
  split_and!; try done; [by apply reset_state|].
  destruct ju_out0 as (a & _ & _ & Ho). unfold pending in Ho. by rewrite Hj in Ho.
Qed.

(** A bare reset. *)
Definition rst_segment : TCPSegment.t := TCPSegment.mk (TCPHeader.set_rst TCPHeader.default) Buffer.empty.

Lemma connection_reset_by_peer_witness :
  ∃ c', segment_received (new sample_cfg 0) rst_segment = Ok c' ∧
    state c' = Ok (TCPState.of_state TCPState.RESET) ∧ segments_out c' = [].
Proof.
  destruct (connection_reset_by_peer (λ _ _, True) (new sample_cfg 0) [] [] rst_segment)
    as (c' & E & _ & _ & _ & Hst & Ho); [apply sample_cinv|vm_compute; done|done|done|].
  exists c'. split_and!; [exact E|exact Hst|exact Ho].
Defined.

(** The calls of the owner. *)
Inductive event :=
  | Segment_received (seg : TCPSegment.t)
  | Write (data : bytes)
  | Tick (ms : Z)
  | End_input_stream
  | Connect.

Definition handle `{StreamReassembler.EndKey} (e : event) (c : t) : result t :=
  match e with
  | Segment_received seg => segment_received c seg
  | Write data => '(c', _) ← write c data; Ok c'
  | Tick ms => tick c ms
  | End_input_stream => end_input_stream c
  | Connect => connect c
  end.

Fixpoint handle_all `{StreamReassembler.EndKey} (es : list event) (c : t) : result t :=
  match es with [] => Ok c | e :: es' => c' ← handle e c; handle_all es' c' end.

(** Dead and with these segments out. *)
Definition silent (out : list TCPSegment.t) (c : t) : Prop := active c = false ∧ segments_out c = out.

Lemma judge_do_silent out c c' : silent out c → judge_do c = Ok c' → silent out c'.
Proof. intros [Ha Ho]. rewrite judge_do_inactive by done. by intros [= <-]. Qed.

Lemma connect_silent out c c' : silent out c → connect c = Ok c' → silent out c'.
Proof. intros Hs H. unfold connect in H. inv_ok. by eapply judge_do_silent; [|exact H]. Qed.

Lemma fill_if_syned_silent out c c' : silent out c → fill_if_syned c = Ok c' → silent out c'.
Proof. intros Hs H. unfold fill_if_syned in H. destruct (TCPSender.syned _); by inv_ok. Qed.

Lemma segment_handled_silent out c c' seg : silent out c → segment_handled c seg = Ok c' → silent out c'.
Proof.
  intros Hs H. unfold segment_handled in H. apply result_bind_Ok in H as (c1 & E & H).
  apply fill_if_syned_silent with (out := out) in E; [|by destruct (TCPHeader.ack _)].
  apply result_bind_Ok in H as (b & _ & H). eapply judge_do_silent; [|exact H].
  destruct (_ && _), b; done.
Qed.

Lemma handle_silent `{StreamReassembler.EndKey} out e c c' : silent out c → handle e c = Ok c' → silent out c'.
Proof.
  intros Hs H0. destruct e as [seg|data|ms| |]; cbn [handle] in H0.
  - unfold segment_received in H0. destruct (TCPHeader.rst _); [by eapply judge_do_silent; [|exact H0]|].
    apply result_bind_Ok in H0 as (r & _ & H0). destruct (_ && _);
      [by eapply connect_silent; [|exact H0]|by eapply segment_handled_silent; [|exact H0]].
  - apply result_bind_Ok in H0 as ([c1 n] & E & H0). injection H0 as <-. unfold write in E.
    destruct (ByteStream.write _ _) as [st n']. apply result_bind_Ok in E as (c2 & E2 & E).
    apply result_bind_Ok in E as (c3 & E3 & E). injection E as <- _.
    eapply judge_do_silent; [|exact E3]. by eapply fill_if_syned_silent; [|exact E2].
  - unfold tick in H0. apply result_bind_Ok in H0 as (c2 & E2 & H0).
    eapply judge_do_silent; [|exact H0]. by eapply fill_if_syned_silent; [|exact E2].
  - unfold end_input_stream in H0. apply result_bind_Ok in H0 as (s & _ & H0). by eapply judge_do_silent; [|exact H0].
  - by eapply connect_silent.
Qed.

(** C32. A dead connection stays dead and never sends again, whatever segments
    arrive, whatever the application does and however much time passes. *)
Theorem connection_stays_dead `{StreamReassembler.EndKey} es c c' :
  active c = false → handle_all es c = Ok c' → active c' = false ∧ segments_out c' = segments_out c.
Proof.
  intros Ha Hall. change (silent (segments_out c) c').
  assert (Hs : silent (segments_out c) c) by done. remember (segments_out c) as out eqn:Eo. clear Ha Eo.
  revert c Hs Hall. induction es as [|e es IH]; intros c Hs Hall; simpl in Hall.
  - by injection Hall as <-.
  - apply result_bind_Ok in Hall as (c1 & E & Hall). eapply IH; [|exact Hall]. by eapply handle_silent.
Qed.

Lemma connection_stays_dead_witness :
  ∃ c c', segment_received (new sample_cfg 0) rst_segment = Ok c ∧
    handle_all [Tick 5000; Connect; Segment_received syn_abc; Write (slice alphabet 0 2)] c = Ok c' ∧
    active c' = false ∧ segments_out c' = segments_out c.
Proof.
  destruct (segment_received (new sample_cfg 0) rst_segment) as [c|] eqn:E; [|vm_compute in E; discriminate E].
  destruct (handle_all [Tick 5000; Connect; Segment_received syn_abc; Write (slice alphabet 0 2)] c) as [c'|] eqn:E'.
  - exists c, c'. split; [reflexivity|]. split; [exact E'|].
    apply (connection_stays_dead _ _ _) in E'; [exact E'|]. vm_compute in E. injection E as <-. reflexivity.
  - vm_compute in E. injection E as <-. vm_compute in E'. discriminate E'.
Defined.

(** Filling the window never completes the stream: the FIN it may send is not
    acknowledged yet. *)
Lemma filled_full_fined s s' v :
  sinv s v → filled s s' v → TCPSender.full_fined s' = TCPSender.full_fined s.
Proof.
  intros Hs Hf. destruct (fi_grow _ _ _ Hf) as [Hrc Hfd]. pose proof (fi_inv _ _ _ Hf) as Hs'.
  unfold TCPSender.full_fined. destruct (TCPSender.fined_ s) eqn:Ef; [by rewrite (Hfd eq_refl), Ef|].
  destruct (TCPSender.fined_ s') eqn:Ef'; [|done]. simpl.
  pose proof (si_next _ _ Hs) as Hn. pose proof (si_next _ _ Hs') as Hn'. rewrite Ef in Hn. rewrite Ef' in Hn'.
  destruct (TCPSender.syned_ s') eqn:Es'; [|by destruct (si_syned _ _ Hs' Es') as [_ ?]; congruence].
  pose proof (si_acked _ _ Hs). rewrite (st_acked _ _ (fi_timer _ _ _ Hf)).
  apply Z.eqb_neq. destruct (TCPSender.syned_ s); simpl in *; lia.
Qed.

(** The connection as [tick] leaves it to [judge_do]. *)
Lemma tick_prepared P c w v ms :
  cinv P c w v → blen v < 0x4000000000000000 → TCPSender.resend_try_times (sender c) < UINT32_MAX →
  ∃ c1, tick c ms = judge_do c1 ∧ cinv P c1 w v ∧ active c1 = active c ∧ rst c1 = rst c ∧
    receiver c1 = receiver c ∧ segments_out c1 = segments_out c ∧ cfg c1 = cfg c ∧
    linger_after_streams_finish c1 = linger_after_streams_finish c ∧
    last_seg_timer c1 = w64 (last_seg_timer c + ms) ∧
    TCPSender.consecutive_retransmissions (sender c1) =
      TCPSender.consecutive_retransmissions (TCPSender.tick (sender c) ms) ∧
    TCPSender.full_fined (sender c1) = TCPSender.full_fined (sender c).
Proof.
  intros Hc Hv Ht. pose proof Hc as [Hr Hs Ho]. unfold tick.
  pose proof (later_tick (sender c) v ms Hs Ht) as Hl1. pose proof (la_inv _ _ _ _ Hl1) as Hs1.
  destruct (tick_spec (sender c) v ms Hs Ht) as (_ & _ & En & Ea & _ & _ & _ & _ & Ef & _).
  assert (Hff : TCPSender.full_fined (TCPSender.tick (sender c) ms) = TCPSender.full_fined (sender c))
    by (unfold TCPSender.full_fined; by rewrite En, Ea, Ef).
  set (c0 := with_sender (with_timer c _) _). unfold fill_if_syned.
  destruct (TCPSender.syned (sender c0)); cbn [mbind result_bind].
  - destruct (later_fill (sender c0) v Hs1 Hv) as (s' & -> & Hl & Hf & _). cbn [mbind result_bind].
    eexists. split; [done|]. split_and!; try done.
    + apply (later_sender P c0 _ w v v); [|done]. apply (later_sender P (with_timer c _) _ w v v); [by split|done].
    + simpl. apply Hf.
    + simpl. rewrite (filled_full_fined _ _ v Hs1 Hf). exact Hff.
  - exists c0. split_and!; try done. apply (later_sender P (with_timer c _) _ w v v); [by split|done].
Qed.

(** C12. The life of a connection under [tick]. An active connection that is
    not being reset dies in exactly three cases: more than eight retransmissions
    in a row; both streams finished and ten initial timeouts without a segment;
    or, when the peer finished first, everything sent being acknowledged. In
    the first case the streams fail, the state is RESET and at least one segment,
    every one with the RST flag, goes out; otherwise no stream fails. *)
Theorem connection_tick P c w v ms :
  cinv P c w v → blen v < 0x4000000000000000 → TCPSender.resend_try_times (sender c) < UINT32_MAX →
  active c = true → rst c = false →
  let gave_up := TCPConfig.MAX_RETX_ATTEMPTS <?
    TCPSender.consecutive_retransmissions (TCPSender.tick (sender c) ms) in
  let finished := TCPSender.full_fined (sender c) &&
    (negb (linger_after_streams_finish c) ||
     TCPReceiver.full_fined (receiver c) && (10 * TCPConfig.rt_timeout (cfg c) <=? w64 (last_seg_timer c + ms))) in
  ∃ c', tick c ms = Ok c' ∧ cinv P c' w v ∧ active c' = negb (gave_up || finished) ∧
    if gave_up then
      state c' = Ok (TCPState.of_state TCPState.RESET) ∧
      ∃ g more, segments_out c' = segments_out c ++ g :: more ∧
        Forall (λ x, TCPHeader.rst (TCPSegment.header x) = true) (g :: more)
    else rst c' = false ∧ receiver c' = receiver c.
Proof.
  intros Hc Hv Ht Hact Hrst gave_up finished.
  destruct (tick_prepared P c w v ms Hc Hv Ht)
    as (c1 & -> & Hc1 & Ea & Er & Erc & Eo & Ecfg & El & Etm & Etr & Eff).
  destruct (judge_do_spec P c1 w v Hc1 Hv ltac:(congruence)) as (c' & E & []). exists c'.
  assert (Hj : judge c1 = if gave_up then Given_up else
    if TCPSender.full_fined (sender c) then
      if linger_after_streams_finish c then
        if TCPReceiver.full_fined (receiver c) &&
           (10 * TCPConfig.rt_timeout (cfg c) <=? w64 (last_seg_timer c + ms)) then Lingered else Carry_on
      else Passive_close
    else Carry_on).
  { unfold judge. rewrite Er, Hrst, Etr, El, Eff, Erc, Ecfg, Etm. fold gave_up.
    destruct gave_up, (linger_after_streams_finish c), (TCPSender.full_fined (sender c)),
      (TCPReceiver.full_fined (receiver c)); try done. }
  split; [done|]. split; [done|]. rewrite Hj in *. subst finished.
  destruct gave_up; cbn [orb negb].
  - split; [done|]. destruct ju_errors0 as [He1 He2]. split; [by apply reset_state|].
    destruct ju_out0 as (a & _ & _ & Ho). rewrite Eo in Ho. unfold pending in Ho. rewrite Hj in Ho.
    assert (Hp : ∃ g q, match TCPSender.segments_out (sender c1) with
      [] => TCPSender.segments_out (TCPSender.send_empty_segment (sender c1)) | g :: q => g :: q end = g :: q).
    { destruct (TCPSender.segments_out (sender c1)) as [|g q] eqn:Eq; [|by exists g, q].
      unfold TCPSender.send_empty_segment. simpl. rewrite Eq. by eexists _, _. }
    destruct Hp as (g & q & Hp). rewrite Hp in Ho. eexists _, _. split; [exact Ho|].
    repeat constructor. apply Forall_map, Forall_forall. by intros x _.
  - destruct (TCPSender.full_fined (sender c)), (linger_after_streams_finish c); simpl; try (by rewrite <- Erc; destruct ju_errors0);
      destruct (TCPReceiver.full_fined (receiver c) && _); by rewrite <- Erc; destruct ju_errors0.
Qed.

Lemma connection_tick_witness :
  ∃ c', tick (new sample_cfg 0) 50 = Ok c' ∧ active c' = true ∧ rst c' = false.
Proof.
  destruct (connection_tick (λ _ _, True) (new sample_cfg 0) [] [] 50) as (c' & E & _ & Ha & Hr & _);
    [apply sample_cinv|vm_compute; done|vm_compute; done|done|done|].
  exists c'. split; [exact E|]. split; [exact Ha|exact Hr].
Defined.
