(* ===== verification/EndToEnd.v ===== *)
(** * Two connections over an unreliable network

    Two endpoints and, for each direction, the wire: every segment its endpoint
    ever transmitted. Any segment of a wire may be delivered at any time, any
    number of times, in any order, or never: the network loses, duplicates,
    delays and reorders, but it does not alter. *)

From S2P Require Import Prelude Buffers Wrapping Stream Reassembly ReassemblySpec Segment.
From S2P Require Import Receiver Sender SenderSpec Connection ConnectionSpec.

(** One endpoint with what its application wrote (as far as it was accepted)
    and the wire that leaves it. *)
Record endpoint := mk_endpoint {
  conn : TCPConnection.t;
  written : bytes;
  wire : list TCPSegment.t;
}.

Definition net : Type := endpoint * endpoint.

Inductive action :=
  | App_write (data : bytes)
  | App_read (len : Z)
  | App_end_input
  | App_connect
  | Clock (ms : Z)
  | Transmit                   (* the owner takes the first queued segment *)
  | Deliver (i : nat).         (* the [i]-th segment of the peer's wire arrives *)

(** One action at the endpoint [a], whose peer's wire is [peer]. *)
Definition act `{StreamReassembler.EndKey} (o : action) (a : endpoint) (peer : list TCPSegment.t) : result endpoint :=
  let c := conn a in
  match o with
  | App_write data =>
      '(c', n) ← TCPConnection.write c data;
      Ok (mk_endpoint c' (written a ++ ztake n data) (wire a))
  | App_read len =>
      st ← ByteStream.pop_output (TCPConnection.inbound_stream c) len;
      Ok (mk_endpoint (TCPConnection.with_receiver c (TCPReceiver.with_stream (TCPConnection.receiver c) st))
            (written a) (wire a))
  | App_end_input => c' ← TCPConnection.end_input_stream c; Ok (mk_endpoint c' (written a) (wire a))
  | App_connect => c' ← TCPConnection.connect c; Ok (mk_endpoint c' (written a) (wire a))
  | Clock ms => c' ← TCPConnection.tick c ms; Ok (mk_endpoint c' (written a) (wire a))
  | Transmit =>
      match TCPConnection.segments_out c with
      | [] => Ok a
      | g :: q => Ok (mk_endpoint (TCPConnection.with_segments_out c q) (written a) (wire a ++ [g]))
      end
  | Deliver i =>
      match peer !! i with
      | Some g => c' ← TCPConnection.segment_received c g; Ok (mk_endpoint c' (written a) (wire a))
      | None => Ok a
      end
  end.

(** The flag says which endpoint acts. *)
Definition net_step `{StreamReassembler.EndKey} (first : bool) (o : action) (x : net) : result net :=
  let '(a, b) := x in
  if first then a' ← act o a (wire b); Ok (a', b) else b' ← act o b (wire a); Ok (a, b').

Fixpoint net_run `{StreamReassembler.EndKey} (os : list (bool * action)) (x : net) : result net :=
  match os with
  | [] => Ok x
  | (s, o) :: os' => x' ← net_step s o x; net_run os' x'
  end.

(** ** The invariant *)

Definition data_of (a : endpoint) : bytes := sent_data (TCPConnection.sender (conn a)) (written a).

Definition stream_of (a : endpoint) : Z → byte → Prop := at_list (data_of a).

(** What the endpoint [b] knows of the stream of [a]. *)
Record link (a b : endpoint) : Prop := mk_link {
  li_peer : peered (TCPSender.isn (TCPConnection.sender (conn a))) (TCPConnection.receiver (conn b));
  li_wire : Forall (from_sender (TCPConnection.sender (conn a)) (written a)) (wire a);
  li_eof : let re := TCPReceiver.reassembler (TCPConnection.receiver (conn b)) in
    StreamReassembler.eof_ re = true →
    TCPSender.fined_ (TCPConnection.sender (conn a)) = true ∧ StreamReassembler.eof_index re = blen (data_of a);
}.

Definition recv_capacity (a : endpoint) : Z := ByteStream.capacity (TCPConnection.inbound_stream (conn a)).

Definition tries (a : endpoint) : Z := TCPSender.resend_try_times (TCPConnection.sender (conn a)).

(** [wa] and [wb] have come out at [a] and [b]. *)
Record ninv (a b : endpoint) (wa wb : bytes) (ticks : Z) : Prop := mk_ninv {
  ni_a : cinv (stream_of b) (conn a) wa (written a);
  ni_b : cinv (stream_of a) (conn b) wb (written b);
  ni_ab : link a b;
  ni_ba : link b a;
  ni_ticks : tries a <= ticks ∧ tries b <= ticks;
}.

Lemma ninv_sym a b wa wb ticks : ninv a b wa wb ticks → ninv b a wb wa ticks.
Proof. intros [????[]]. by split. Qed.

(** More of the stream becomes known. *)
Lemma rinv_mono (P Q : Z → byte → Prop) r w : (∀ i b, P i b → Q i b) → rinv P r w → rinv Q r w.
Proof.
  intros HPQ [[[] He Hf]]. split; try done. split; try done. split; try done.
  - by apply (placed_mono P).
  - eapply Forall_impl; [exact inv_segs|]. intros s []. split; try done. by apply (placed_mono P).
Qed.

Lemma cinv_mono (P Q : Z → byte → Prop) c w v : (∀ i b, P i b → Q i b) → cinv P c w v → cinv Q c w v.
Proof. intros HPQ []. split; try done. by apply (rinv_mono P). Qed.

Lemma grows_at_list d d' f f' i b : grows d d' f f' → at_list d i b → at_list d' i b.
Proof. intros [[-> _]|[_ [e ->]]]; [done|apply at_list_app]. Qed.

(** What has come out is part of what was sent. *)
Lemma placed_prefix d w : placed (at_list d) 0 w → w `prefix_of` d.
Proof.
  intros H. exists (drop (length w) d). rewrite <- (take_drop (length w) d) at 1. f_equal.
  apply list_eq. intros i. destruct (decide (i < length w)%nat) as [Hi|Hi].
  - destruct (lookup_lt_is_Some_2 w i Hi) as [b Hb]. rewrite Hb, lookup_take_lt by done.
    destruct (H i b Hb) as [_ Hd]. by replace (Z.to_nat (0 + Z.of_nat i)) with i in Hd by lia.
  - rewrite (lookup_ge_None_2 w) by lia. apply lookup_ge_None_2. rewrite length_take. lia.
Qed.

Lemma ninv_received a b wa wb ticks : ninv a b wa wb ticks → wb `prefix_of` data_of a.
Proof. intros []. apply placed_prefix. apply (ci_recv _ _ _ _ ni_b0). Qed.

Lemma blen_data_of a b wa wb ticks : ninv a b wa wb ticks → blen (data_of a) <= blen (written a).
Proof.
  intros []. destruct ni_a0 as [_ Hs _]. unfold data_of. rewrite blen_sent_data by apply Hs.
  pose proof (ByteStream.rep_read _ _ (si_rep _ _ Hs)). lia.
Qed.

(** ** One action *)

Lemma link_later a b c' v' k :
  ∀ P w, link a b → conn_step P (conn a) c' w (written a) v' k → link (mk_endpoint c' v' (wire a)) b.
Proof.
  intros P w [] []. destruct cs_later. split; simpl in *.
  - unfold peered. rewrite la_isn. done.
  - eapply Forall_impl; [exact li_wire0|]. intros g. apply later_from_sender. by split.
  - intros He. destruct (li_eof0 He) as [Hf Hx]. unfold data_of in *. simpl.
    destruct la_grows as [[-> ->]|[? _]]; [done|congruence].
Qed.

Lemma link_same a b c' v' :
  link b a → same_recv (TCPConnection.receiver (conn a)) (TCPConnection.receiver c') →
  link b (mk_endpoint c' v' (wire a)).
Proof.
  intros [] []. split; simpl in *; [|done|].
  - unfold peered in *. rewrite sr_syn, sr_isn. done.
  - rewrite sr_eof, sr_eof_index. done.
Qed.

(** A step of the connection [a] alone. *)
Lemma ninv_local a b wa wb ticks c' v' k :
  ninv a b wa wb ticks → 0 <= k → conn_step (stream_of b) (conn a) c' wa (written a) v' k →
  ninv (mk_endpoint c' v' (wire a)) b wa wb (ticks + k).
Proof.
  intros [] Hk Hst. pose proof (link_later a b c' v' k _ _ ni_ab0 Hst).
  pose proof (link_same a b c' v' ni_ba0 (cs_recv _ _ _ _ _ _ _ Hst)). destruct Hst. split; try done.
  - apply (cinv_mono (stream_of a)); [|done]. intros i x. eapply grows_at_list. apply cs_later.
  - pose proof (si_tries _ _ (ci_send _ _ _ _ ni_a0)). unfold tries in *. simpl in *. lia.
Qed.

(** The receiver of [a] has taken in a segment of [b]. *)
Lemma ninv_received_segment a b wa wb ticks r w' n g :
  ninv a b wa wb ticks → rinv (stream_of b) r (wa ++ w') →
  peered (TCPSender.isn (TCPConnection.sender (conn b))) r →
  seg_at (TCPSender.isn (TCPConnection.sender (conn b))) (data_of b)
    (TCPSender.fined_ (TCPConnection.sender (conn b))) n g →
  eof_from (TCPReceiver.reassembler (TCPConnection.receiver (conn a))) (TCPReceiver.reassembler r)
    (TCPSegment.header g) (accepted (TCPConnection.receiver (conn a)) n (TCPSegment.header g))
    (payload_index n (TCPSegment.header g) + blen (Buffer.str (TCPSegment.payload g))) →
  ninv (mk_endpoint (TCPConnection.with_receiver (TCPConnection.with_timer (conn a) 0) r) (written a) (wire a))
    b (wa ++ w') wb ticks.
Proof.
  intros [] Hr Hp Hg Heof. split; try done.
  - destruct ni_a0. by split.
  - by destruct ni_ab0.
  - destruct ni_ba0. split; try done. simpl. intros He. destruct (Heof He) as [[He' ->]|(Hf & _ & ->)].
    + by apply li_eof0.
    + by apply (sg_fin _ _ _ _ _ Hg).
Qed.

Lemma genuine_of_seg_at isn d f n last g :
  seg_at isn d f n g → Z.abs (n - last) < 0x7fffffff → genuine (at_list d) isn last n g.
Proof.
  intros [] Hn. split; try done. right. destruct sg_placed as [E|?]; [|done].
  assert (Buffer.str (TCPSegment.payload g) = []) as -> by (apply length_zero_iff_nil; unfold blen in E; lia).
  apply placed_nil.
Qed.

(** Where the receiver stands, and where its window ends. *)
Lemma receiver_bounds P r w :
  rinv P r w →
  0 <= TCPReceiver.last_abseqno r <= blen w ∧
  window_end (TCPReceiver.reassembler r) <= blen w + ByteStream.capacity (TCPReceiver.stream_out r).
Proof.
  intros []. pose proof (blen_nonneg w). split.
  - destruct (TCPReceiver.syn r); [destruct ri_syn as [_ ->]|destruct ri_syn as (_ & -> & _)]; lia.
  - unfold window_end. pose proof (ByteStream.rep_read _ _ (inv_rep _ _ _ (inv_core _ _ _ ri_re))).
    unfold TCPReceiver.stream_out, StreamReassembler.stream_out. lia.
Qed.

Definition action_ok (o : action) : Prop := match o with App_read len => 0 <= len | _ => True end.

Definition action_size (o : action) : Z := match o with App_write data => blen data | _ => 0 end.

Definition action_ticks (o : action) : Z := match o with Clock _ => 1 | _ => 0 end.

(** How far the owner has read. *)
Definition consumed (a : endpoint) : Z := ByteStream.read_count (TCPConnection.inbound_stream (conn a)).

Definition is_read (o : action) : bool := match o with App_read _ => true | _ => false end.

(** The sender and what was written, later on. *)
Definition further (a a' : endpoint) : Prop :=
  later (TCPConnection.sender (conn a)) (TCPConnection.sender (conn a')) (written a) (written a').

Lemma further_refl a b wa wb ticks : ninv a b wa wb ticks → further a a.
Proof. intros []. apply later_refl. apply (ci_send _ _ _ _ ni_a0). Qed.

Lemma further_trans a1 a2 a3 : further a1 a2 → further a2 a3 → further a1 a3.
Proof. apply later_trans. Qed.

(** What an action at [a] leaves. *)
Definition acted (o : action) (a a' b : endpoint) (wa wb : bytes) (ticks : Z) : Prop :=
  ∃ wa', ninv a' b (wa ++ wa') wb (ticks + action_ticks o) ∧
    blen (written a') <= blen (written a) + action_size o ∧ recv_capacity a' = recv_capacity a ∧
    (is_read o = false → consumed a' = consumed a) ∧ further a a'.

(** A call of the owner that does not involve the network. *)
Lemma acted_local o a b wa wb ticks c' v' :
  ninv a b wa wb ticks → conn_step (stream_of b) (conn a) c' wa (written a) v' (action_ticks o) →
  blen v' <= blen (written a) + action_size o →
  acted o a (mk_endpoint c' v' (wire a)) b wa wb ticks.
Proof.
  intros Hn Hst Hv. exists []. rewrite app_nil_r. split_and!; [|done| |intros _; apply same_recv_read, Hst|apply Hst].
  - apply ninv_local; try done. by destruct o.
  - apply (sr_capacity _ _ (cs_recv _ _ _ _ _ _ _ Hst)).
Qed.

Lemma acted_read a b wa wb ticks len :
  ninv a b wa wb ticks → 0 <= len →
  ∃ a', act (App_read len) a (wire b) = Ok a' ∧ acted (App_read len) a a' b wa wb ticks.
Proof.
  intros Hn Hl. pose proof Hn as [[Hr Hs Ho] Hb Hab Hba Ht].
  destruct (rinv_pop _ _ _ len Hr Hl) as (st & E & Hr').
  destruct (pop_inv _ _ wa len (ri_re _ _ _ Hr) Hl) as (st' & E' & _ & _ & Hcap).
  assert (st' = st) as -> by (unfold TCPReceiver.stream_out, StreamReassembler.stream_out in E; congruence).
  eexists. split; [unfold act, TCPConnection.inbound_stream; by rewrite E|].
  exists []. rewrite app_nil_r, Z.add_0_r. split_and!; [|simpl; lia|done|done|by apply (further_refl a b wa wb ticks)].
  split; try done; [by destruct Hab|by destruct Hba].
Qed.

Lemma acted_transmit a b wa wb ticks :
  ninv a b wa wb ticks → ∃ a', act Transmit a (wire b) = Ok a' ∧ acted Transmit a a' b wa wb ticks.
Proof.
  intros Hn. pose proof Hn as [[Hr Hs Ho] Hb Hab Hba Ht]. simpl.
  destruct (TCPConnection.segments_out (conn a)) as [|g q] eqn:Eq; eexists; (split; [done|]);
    exists []; rewrite app_nil_r, Z.add_0_r;
    (split_and!; [|simpl; lia|done|done|by apply (further_refl a b wa wb ticks)]); [done|].
  apply Forall_cons in Ho as [Hg Ho]. split; try done; [|by destruct Hba].
  destruct Hab. split; try done. simpl. apply Forall_app. split; [done|]. by apply Forall_singleton.
Qed.

Lemma acted_deliver `{EndKeyFresh} a b wa wb ticks i :
  ninv a b wa wb ticks → blen (written a) < 0x7ffffffd → blen (written b) < 0x7ffffffd →
  recv_capacity a < 0x2000000000000000 →
  ∃ a', act (Deliver i) a (wire b) = Ok a' ∧ acted (Deliver i) a a' b wa wb ticks.
Proof.
  intros Hn Hva Hvb Hcap. simpl. destruct (wire b !! i) as [g|] eqn:Eg.
  2:{ exists a. split; [done|]. exists []. rewrite app_nil_r, Z.add_0_r. split_and!; [done|simpl; lia|done|done|].
      by apply (further_refl a b wa wb ticks). }
  pose proof Hn as [Ha Hb Hab Hba Ht].
  assert (Hg : from_sender (TCPConnection.sender (conn b)) (written b) g).
  { destruct Hba. rewrite Forall_forall in li_wire0. apply li_wire0. by eapply list_elem_of_lookup_2. }
  destruct Hg as (n & Hnx & Hg). fold (data_of b) in Hg.
  pose proof (prefix_length _ _ (ninv_received b a wb wa ticks (ninv_sym _ _ _ _ _ Hn))) as Hpre.
  pose proof (blen_data_of b a wb wa ticks (ninv_sym _ _ _ _ _ Hn)) as Hdb.
  pose proof (receiver_bounds _ _ _ (ci_recv _ _ _ _ Ha)) as [Hlast Hwin].
  pose proof (ci_send _ _ _ _ Hb) as Hsb.
  pose proof (in_flight_spec _ _ Hsb ltac:(lia)) as (_ & _ & Hnext). pose proof (sg_nonneg _ _ _ _ _ Hg).
  assert (blen wa <= blen (written b)) by (unfold blen in *; lia).
  unfold recv_capacity, TCPConnection.inbound_stream in Hcap. pose proof (sg_max _ _ _ _ _ Hg) as Hmax.
  unfold TCPConfig.MAX_PAYLOAD_SIZE in Hmax. pose proof (blen_nonneg (Buffer.str (TCPSegment.payload g))).
  destruct (segment_step (stream_of b) (TCPSender.isn (TCPConnection.sender (conn b))) (conn a) wa (written a) n g)
    as (c' & w' & r & E & Hr & Hp & Hw & Hc & Heof & Hst); try done.
  - apply Hsb.
  - lia.
  - lia.
  - apply Hba.
  - apply (genuine_of_seg_at _ _ _ _ _ _ Hg). lia.
  - unfold_w. lia.
  - apply Hg.
  - rewrite E. cbn [mbind result_bind]. eexists. split; [done|]. exists w'.
    pose proof (ninv_received_segment a b wa wb ticks r w' n g Hn Hr Hp Hg Heof) as Hn'.
    split_and!; [|simpl; lia| |intros _|apply Hst].
    + apply (ninv_local _ _ _ _ _ _ _ 0 Hn' ltac:(lia) Hst).
    + unfold recv_capacity, TCPConnection.inbound_stream. simpl.
      rewrite (sr_capacity _ _ (cs_recv _ _ _ _ _ _ _ Hst)). exact Hc.
    + unfold consumed. simpl. rewrite (same_recv_read _ _ (cs_recv _ _ _ _ _ _ _ Hst)).
      unfold TCPConnection.inbound_stream, window_end in *. simpl. unfold TCPReceiver.stream_out, StreamReassembler.stream_out in *. lia.
Qed.

Lemma act_inv `{EndKeyFresh} o a b wa wb ticks :
  ninv a b wa wb ticks → action_ok o → blen (written a) + action_size o < 0x7ffffffd →
  blen (written b) < 0x7ffffffd → recv_capacity a < 0x2000000000000000 → ticks < UINT32_MAX →
  ∃ a', act o a (wire b) = Ok a' ∧ acted o a a' b wa wb ticks.
Proof.
  intros Hn Hok Hva Hvb Hcap Ht. pose proof (ni_a _ _ _ _ _ Hn) as Ha. pose proof (ni_ticks _ _ _ _ _ Hn) as [Hta _].
  destruct o as [data|len| | |ms| |i]; cbn [action_size] in Hva.
  - destruct (write_step _ _ _ _ data Ha ltac:(lia)) as (c' & n & E & Hnn & Hst).
    eexists. split; [unfold act; by rewrite E|]. apply acted_local; try done.
    rewrite blen_app, blen_ztake by lia. simpl. lia.
  - by apply acted_read.
  - destruct (end_input_step _ _ _ _ Ha ltac:(lia)) as (c' & E & Hst).
    eexists. split; [unfold act; by rewrite E|]. apply acted_local; try done. simpl. lia.
  - destruct (connect_step _ _ _ _ Ha ltac:(lia)) as (c' & E & Hst).
    eexists. split; [unfold act; by rewrite E|]. apply acted_local; try done. simpl. lia.
  - unfold tries in Hta. destruct (tick_step _ _ _ _ ms Ha ltac:(lia) ltac:(lia)) as (c' & E & Hst).
    eexists. split; [unfold act; by rewrite E|]. apply acted_local; try done. simpl. lia.
  - by apply acted_transmit.
  - apply acted_deliver; try done. lia.
Qed.

(** ** Runs *)

Lemma action_size_nonneg (o : bool * action) : 0 <= action_size o.2.
Proof. destruct o as [? []]; simpl; auto with sponge; lia. Qed.

Lemma action_ticks_nonneg (o : bool * action) : 0 <= action_ticks o.2.
Proof. destruct o as [? []]; simpl; lia. Qed.

(** What the bounds of a run leave for the actions [os]. *)
Record roomy (os : list (bool * action)) (a b : endpoint) (ticks : Z) : Prop := mk_roomy {
  ro_size : blen (written a) + blen (written b) + zsum (λ o, action_size o.2) os < 0x7ffffffd;
  ro_recv : recv_capacity a < 0x2000000000000000 ∧ recv_capacity b < 0x2000000000000000;
  ro_ticks : ticks + zsum (λ o, action_ticks o.2) os < UINT32_MAX;
}.

Lemma roomy_sym os a b ticks : roomy os a b ticks → roomy os b a ticks.
Proof. intros [? [? ?] ?]. split; [lia|by split|done]. Qed.

(** One action at the first endpoint. *)
Lemma act_roomy `{EndKeyFresh} o s os a b wa wb ticks :
  ninv a b wa wb ticks → action_ok o → roomy ((s, o) :: os) a b ticks →
  ∃ a' wa', act o a (wire b) = Ok a' ∧ ninv a' b wa' wb (ticks + action_ticks o) ∧
    roomy os a' b (ticks + action_ticks o) ∧ further a a'.
Proof.
  intros Hn Ho [Hsz [Ha Hb] Ht]. simpl in Hsz, Ht.
  pose proof (zsum_nonneg _ os action_size_nonneg). pose proof (zsum_nonneg _ os action_ticks_nonneg).
  pose proof (action_size_nonneg (s, o)). pose proof (action_ticks_nonneg (s, o)). simpl in *.
  pose proof (blen_nonneg (written a)). pose proof (blen_nonneg (written b)).
  destruct (act_inv o a b wa wb ticks Hn Ho) as (a' & E & wa' & Hn' & Hw & Hc & _ & Hl); [lia|lia|done|lia|].
  exists a', (wa ++ wa'). split_and!; try done. split; [lia|by rewrite Hc|lia].
Qed.

(** The bounds that are left after a run. *)
Lemma net_run_inv `{EndKeyFresh} os os' a b wa wb ticks :
  ninv a b wa wb ticks → Forall (λ o, action_ok o.2) os → roomy (os ++ os') a b ticks →
  ∃ a' b' wa' wb' ticks', net_run os (a, b) = Ok (a', b') ∧ ninv a' b' wa' wb' ticks' ∧ roomy os' a' b' ticks' ∧
    further a a' ∧ further b b'.
Proof.
  revert a b wa wb ticks. induction os as [|[s o] os IH]; intros a b wa wb ticks Hn Hok Hr; simpl in *.
  { exists a, b, wa, wb, ticks. split_and!; try done; eapply further_refl; [exact Hn|by apply ninv_sym]. }
  apply Forall_cons in Hok as [Ho Hok]. simpl in Ho. destruct s.
  - destruct (act_roomy o true (os ++ os') a b wa wb ticks Hn Ho Hr) as (a1 & wa1 & -> & Hn1 & Hr1 & Hl1).
    cbn [mbind result_bind]. destruct (IH a1 b wa1 wb _ Hn1 Hok Hr1) as (a' & b' & wa' & wb' & t' & E & Hn' & Hr' & Hla & Hlb).
    exists a', b', wa', wb', t'. split_and!; try done. by eapply further_trans.
  - destruct (act_roomy o false (os ++ os') b a wb wa ticks (ninv_sym _ _ _ _ _ Hn) Ho (roomy_sym _ _ _ _ Hr))
      as (b1 & wb1 & -> & Hn1 & Hr1 & Hl1). cbn [mbind result_bind].
    destruct (IH a b1 wa wb1 _ (ninv_sym _ _ _ _ _ Hn1) Hok (roomy_sym _ _ _ _ Hr1))
      as (a' & b' & wa' & wb' & t' & E & Hn' & Hr' & Hla & Hlb).
    exists a', b', wa', wb', t'. split_and!; try done. by eapply further_trans.
Qed.

Lemma net_run_app `{StreamReassembler.EndKey} os1 os2 x : net_run (os1 ++ os2) x = (x1 ← net_run os1 x; net_run os2 x1).
Proof. revert x. induction os1 as [|[s o] os1 IH]; intros x; [done|]. simpl. by destruct (net_step s o x); simpl. Qed.

(** What comes out at [b] is what was written at [a]: a prefix of it while the
    stream is open, and all that [a] sent once [b] sees the end. *)
Definition delivers (a b : endpoint) : Prop :=
  ∃ w, ByteStream.rep (TCPConnection.inbound_stream (conn b)) w ∧ w `prefix_of` written a ∧
    (ByteStream.input_ended (TCPConnection.inbound_stream (conn b)) = true →
       TCPSender.fined (TCPConnection.sender (conn a)) = true ∧ w = data_of a).

Lemma ninv_delivers a b wa wb ticks : ninv a b wa wb ticks → delivers a b.
Proof.
  intros Hn. pose proof (ninv_received _ _ _ _ _ Hn) as Hpre. pose proof Hn as [_ Hb Hab _ _].
  pose proof (ri_re _ _ _ (ci_recv _ _ _ _ Hb)) as [Hcore He Hend].
  exists wb. split_and!; [apply Hcore| |].
  - etransitivity; [exact Hpre|]. unfold data_of, sent_data, ztake. apply prefix_take.
  - intros Hin. assert (Hed : StreamReassembler.eofed (TCPReceiver.reassembler (TCPConnection.receiver (conn b))) = true)
      by (rewrite <- Hend; exact Hin).
    rewrite Hed in He. symmetry in He. apply andb_prop in He as [He Hi]. apply Z.eqb_eq in Hi.
    destruct (li_eof _ _ Hab He) as [Hf Hx]. split; [done|].
    rewrite Hx, (inv_first _ _ _ Hcore) in Hi. destruct Hpre as [k Hk]. rewrite Hk, blen_app in Hi.
    assert (k = []) as -> by (apply length_zero_iff_nil; unfold blen in Hi; lia). by rewrite app_nil_r in Hk.
Qed.

(** What the application at [a] had written at the moment [a1], when it had not
    ended its input yet, is among what [b] has got when [b] sees the end. *)
Definition delivers_all (a1 a b : endpoint) : Prop :=
  ByteStream.input_ended (TCPConnection.inbound_stream (conn b)) = true →
  ByteStream.input_ended (TCPSender.stream_in (TCPConnection.sender (conn a))) = true ∧
  (ByteStream.input_ended (TCPSender.stream_in (TCPConnection.sender (conn a1))) = false →
   ∃ w, ByteStream.rep (TCPConnection.inbound_stream (conn b)) w ∧ written a1 `prefix_of` w).

Lemma further_delivers a1 b1 a b wa1 wb1 wa wb t1 ticks :
  ninv a1 b1 wa1 wb1 t1 → ninv a b wa wb ticks → further a1 a → delivers_all a1 a b.
Proof.
  intros H1 Hn Hl Hend. destruct (ninv_delivers _ _ _ _ _ Hn) as (w & Hrep & _ & Hall).
  destruct (Hall Hend) as [Hf ->]. split.
  - apply (si_fined _ _ (ci_send _ _ _ _ (ni_a _ _ _ _ _ Hn))). exact Hf.
  - intros Hopen. exists (data_of a). split; [done|]. destruct (la_fin _ _ _ _ Hl Hf) as [Hf1|?]; [|done].
    apply (si_fined _ _ (ci_send _ _ _ _ (ni_a _ _ _ _ _ H1))) in Hf1.
    unfold ByteStream.input_ended, TCPSender.stream_in in Hopen. congruence.
Qed.

(** The configuration of a connection holds values of its types, and a
    receive capacity below [2^61]. *)
Record config_ok (cfg : TCPConfig.t) : Prop := mk_config_ok {
  co_recv : 0 <= TCPConfig.recv_capacity cfg < 0x2000000000000000;
  co_send : is_u64 (TCPConfig.send_capacity cfg);
  co_timeout : is_u16 (TCPConfig.rt_timeout cfg);
  co_isn : ∀ i, TCPConfig.fixed_isn cfg = Some i → WrappingInt32.ok i;
}.

Definition fresh (cfg : TCPConfig.t) (random : Z) : endpoint :=
  mk_endpoint (TCPConnection.new cfg random) [] [].

Lemma ninv_fresh ca cb ra rb : config_ok ca → config_ok cb → ninv (fresh ca ra) (fresh cb rb) [] [] 0.
Proof.
  intros [] []. split.
  - apply cinv_new; try done. unfold_w. lia.
  - apply cinv_new; try done. unfold_w. lia.
  - split; [intros E; discriminate E|apply Forall_nil_2|cbv zeta; intros E; discriminate E].
  - split; [intros E; discriminate E|apply Forall_nil_2|cbv zeta; intros E; discriminate E].
  - unfold tries. simpl. lia.
Qed.

(** C1. End to end: two connections over a network that loses, duplicates,
    delays and reorders segments at will, under any interleaving of the
    applications, the clocks and the network. No call throws; what the reader at
    either end has got, or can get next, is a prefix of what the other
    application wrote; and when a reader sees the end of the stream, the other
    application has ended its input and the reader has got everything that
    application had written before it did: whatever had been written at any
    earlier moment [os1] of the run at which the input was still open is a prefix
    of what the reader has. The streams are shorter than half the sequence space. *)
Theorem end_to_end_delivery `{EndKeyFresh} ca cb ra rb os :
  config_ok ca → config_ok cb → Forall (λ o, action_ok o.2) os →
  zsum (λ o, action_size o.2) os < 0x7ffffffd → zsum (λ o, action_ticks o.2) os < UINT32_MAX →
  let start := (fresh ca ra, fresh cb rb) in
  ∃ a b, net_run os start = Ok (a, b) ∧ delivers a b ∧ delivers b a ∧
    ∀ os1 os2, os = os1 ++ os2 →
      ∃ a1 b1, net_run os1 start = Ok (a1, b1) ∧ delivers_all a1 a b ∧ delivers_all b1 b a.
Proof.
  intros Ha Hb Hok Hv Ht start. pose proof (ninv_fresh ca cb ra rb Ha Hb) as Hn0.
  assert (Hr0 : roomy (os ++ []) (fresh ca ra) (fresh cb rb) 0).
  { rewrite app_nil_r. split; [exact Hv|split; [apply (co_recv _ Ha)|apply (co_recv _ Hb)]|exact Ht]. }
  destruct (net_run_inv os [] _ _ _ _ _ Hn0 Hok Hr0) as (a & b & wa & wb & ticks & E & Hn & _).
  exists a, b. split; [done|]. split; [by eapply ninv_delivers|]. split; [eapply ninv_delivers; by apply ninv_sym|].
  intros os1 os2 ->. rewrite app_nil_r in Hr0. apply Forall_app in Hok as [Hok1 Hok2].
  destruct (net_run_inv os1 os2 _ _ _ _ _ Hn0 Hok1 Hr0) as (a1 & b1 & wa1 & wb1 & t1 & E1 & Hn1 & Hr1 & _).
  exists a1, b1. split; [done|]. unfold start in E. rewrite net_run_app, E1 in E. cbn [mbind result_bind] in E.
  rewrite <- (app_nil_r os2) in Hr1.
  destruct (net_run_inv os2 [] _ _ _ _ _ Hn1 Hok2 Hr1) as (a' & b' & wa' & wb' & t' & E' & _ & _ & Hla & Hlb).
  rewrite E in E'. injection E' as <- <-. split; eapply further_delivers;
    [exact Hn1|exact Hn|exact Hla|by apply ninv_sym|by apply ninv_sym|exact Hlb].
Qed.

(** A handshake, data in one direction with a duplicated and a lost segment, and
    the end of the stream. *)
Definition sample_run : list (bool * action) :=
  [(true, App_connect); (true, Transmit); (false, Deliver 0); (false, Transmit); (true, Deliver 0);
   (true, Transmit); (false, Deliver 1);
   (true, App_write (slice alphabet 0 5)); (true, App_end_input); (true, Transmit); (true, Transmit);
   (false, Deliver 3); (false, Deliver 2); (false, Deliver 2); (false, App_read 2)].

Lemma sample_config_ok i : WrappingInt32.ok i → config_ok (TCPConfig.mk 1000 10 10 (Some i)).
Proof. intros Hi. split; simpl; [lia|range_compute|range_compute|]. intros j [= <-]. done. Qed.

Lemma end_to_end_delivery_witness :
  ∃ a b, net_run sample_run (fresh (TCPConfig.mk 1000 10 10 (Some (WrappingInt32.mk 5))) 0,
                             fresh (TCPConfig.mk 1000 10 10 (Some (WrappingInt32.mk 0xffffffff))) 0) = Ok (a, b) ∧
    delivers a b ∧ ByteStream.contents (TCPConnection.inbound_stream (conn b)) = slice alphabet 2 3 ∧
    ∃ w, ByteStream.rep (TCPConnection.inbound_stream (conn b)) w ∧ slice alphabet 0 5 `prefix_of` w.
Proof.
  destruct (end_to_end_delivery (TCPConfig.mk 1000 10 10 (Some (WrappingInt32.mk 5)))
    (TCPConfig.mk 1000 10 10 (Some (WrappingInt32.mk 0xffffffff))) 0 0 sample_run) as (a & b & E & Hd & _ & Hall).
  - apply sample_config_ok. range_compute.
  - apply sample_config_ok. range_compute.
  - repeat (apply Forall_cons; split; [vm_compute; done|]). apply Forall_nil. exact I.
  - vm_compute. done.
  - vm_compute. done.
  - exists a, b. split; [exact E|]. split; [exact Hd|].
    destruct (Hall (take 8 sample_run) (drop 8 sample_run)) as (a1 & b1 & E1 & Hab & _); [reflexivity|].
    vm_compute in E. injection E as <- <-. vm_compute in E1. injection E1 as <- <-.
    split; [reflexivity|]. destruct (Hab eq_refl) as [_ Hw]. exact (Hw eq_refl).
Defined.
