(* ===== verification/Progress.v ===== *)
(** * Progress of a connection

    What the operations of a connection achieve, beside keeping the invariant:
    the new sequence numbers leave in queued segments, every queued segment tells
    the peer what the receiver has, and a connection that is neither reset nor out
    of patience goes on until both streams are finished. *)

From S2P Require Import Prelude Buffers Wrapping Stream Reassembly ReassemblySpec Segment.
From S2P Require Import Receiver Sender SenderSpec Connection ConnectionSpec EndToEnd.
Import TCPConnection.

(** A connection between two operations: opened, not reset, with nothing left
    unsent that the window allows, and dead only when both streams are finished. *)
Record calm (c : t) (v : bytes) : Prop := mk_calm {
  ca_rst : rst c = false;
  ca_syned : TCPSender.syned_ (sender c) = true;
  ca_sat : saturated (sender c) v;
  ca_queue : active c = true → TCPSender.segments_out (sender c) = [];
  ca_linger : linger_after_streams_finish c = false → TCPReceiver.full_fined (receiver c) = true;
  ca_dead : active c = false → TCPSender.full_fined (sender c) = true ∧ TCPReceiver.full_fined (receiver c) = true;
}.

(** The segments the decision queues, from a connection whose receiver reports [a]. *)
Definition outgoing (c : t) (a : option WrappingInt32.t) : list TCPSegment.t :=
  if active c then map (stamped c a) (TCPSender.segments_out (sender c)) else [].

(** What [judge_do] makes of a connection that is not to be reset. *)
Record settled (c c' : t) (v : bytes) : Prop := mk_settled {
  se_recv : receiver c' = receiver c;
  se_cfg : cfg c' = cfg c;
  se_timer : last_seg_timer c' = last_seg_timer c;
  se_sender : sender c' = TCPSender.with_segments_out (sender c)
    (if active c then [] else TCPSender.segments_out (sender c));
  se_out : ∃ a, TCPReceiver.ackno (receiver c) = Ok a ∧ segments_out c' = segments_out c ++ outgoing c a;
  se_calm : calm c' v;
  se_life : active c' = true → active c = true ∧ (TCPSender.full_fined (sender c) = true →
    linger_after_streams_finish c' = true ∧
    (TCPReceiver.full_fined (receiver c) = true → last_seg_timer c < 10 * TCPConfig.rt_timeout (cfg c)));
}.

Lemma judge_do_settles P c w v :
  cinv P c w v → blen v < 0x4000000000000000 → rst c = false → TCPSender.resend_try_times (sender c) <= 8 →
  TCPSender.syned_ (sender c) = true → saturated (sender c) v →
  (linger_after_streams_finish c = false → TCPReceiver.full_fined (receiver c) = true) →
  (active c = false → TCPSender.full_fined (sender c) = true ∧ TCPReceiver.full_fined (receiver c) = true) →
  ∃ c', judge_do c = Ok c' ∧ settled c c' v.
Proof.
  intros Hc Hv Hr Ht Hsy Hsat Hl Hd. unfold judge_do.
  destruct (receiver_ackno P _ w (ci_recv _ _ _ _ Hc)) as (a & Ha & _).
  destruct (active c) eqn:Eact; cbn [negb].
  2:{ exists c. split; [done|]. split; try done; [by rewrite Eact; destruct c as [? ? []]| | |].
      - exists a. split; [done|]. unfold outgoing. by rewrite Eact, app_nil_r.
      - split; try done; by rewrite Eact.
      - by rewrite Eact. }
  rewrite Hr. unfold TCPConfig.MAX_RETX_ATTEMPTS, TCPSender.consecutive_retransmissions.
  rewrite (proj2 (Z.ltb_ge 8 (TCPSender.resend_try_times (sender c)))) by lia.
  assert (Hpp : ∀ c1, receiver c1 = receiver c → rst c1 = rst c →
    pull_push c1 (TCPSender.segments_out (sender c)) (segments_out c) = Ok (segments_out c ++ outgoing c a)).
  { intros c1 Erc Err. rewrite (pull_push_spec c1 a) by (by rewrite Erc). unfold outgoing. rewrite Eact.
    do 2 f_equal. apply map_ext. intros g. apply stamped_ext; [done|by right]. }
  assert (Hdead : ∀ lng, TCPSender.full_fined (sender c) = true → TCPReceiver.full_fined (receiver c) = true →
    ∃ c', fully_dead (with_linger c lng) 0 = Ok c' ∧ settled c c' v).
  { intros lng Hff Hrf. unfold fully_dead, pull_push_segments. cbn [Z.eqb sender with_linger].
    rewrite (fill_window_fined _ v) by (done || apply Hc || by apply full_fined_fined). cbn [mbind result_bind sender with_sender with_linger segments_out].
    rewrite Hpp by done. cbn [mbind result_bind]. eexists. split; [done|].
    split; try done; [by rewrite Eact|by exists a]. }
  destruct (linger_after_streams_finish c && _ && _ && _) eqn:El.
  { apply andb_prop in El as [[[_ Hff]%andb_prop Hrf]%andb_prop _]. by apply Hdead. }
  destruct (negb (linger_after_streams_finish c) && _) eqn:Ep.
  { apply andb_prop in Ep as [El'%negb_true_iff Hff].
    assert (Ec : with_linger c (linger_after_streams_finish c) = c) by (by destruct c).
    destruct (Hdead (linger_after_streams_finish c) Hff (Hl El')) as (c' & E & Hs). exists c'. by rewrite <- Ec at 1. }
  unfold pull_push_segments. rewrite Hpp by done. cbn [mbind result_bind]. eexists. split; [done|].
  split; try done; [by rewrite Eact|by exists a| |].
  - split; try done; simpl; by rewrite Eact.
  - intros _. split; [done|]. intros Hff. rewrite Hff in El, Ep. simpl in *.
    destruct (linger_after_streams_finish c) eqn:Elg; [|done]. split; [done|]. intros Hrf. rewrite Hrf in El.
    simpl in El. by apply Z.leb_gt in El.
Qed.

(** The segment [g] carries the number [i], the SYN only at the start. *)
Definition carries (s : TCPSender.t) (v : bytes) (i : Z) (g : TCPSegment.t) : Prop :=
  ∃ n, seg_at (TCPSender.isn s) (sent_data s v) (TCPSender.fined_ s) n g ∧
    TCPHeader.syn (TCPSegment.header g) = (n =? 0) ∧ (n =? 0) = (i =? 0) ∧
    n <= i < n + TCPSegment.length_in_sequence_space g.

Lemma carries_later s s' v v' i g : later s s' v v' → carries s v i g → carries s' v' i g.
Proof.
  intros [] (n & Hg & Hn). exists n. split; [|done]. rewrite la_isn. by eapply seg_at_grows.
Qed.

Lemma stamped_length c a g :
  TCPSegment.length_in_sequence_space (stamped c a g) = TCPSegment.length_in_sequence_space g.
Proof. unfold TCPSegment.length_in_sequence_space, stamped. by destruct (rst c), a. Qed.

Lemma stamped_carries c a s v i g : carries s v i g → carries s v i (stamped c a g).
Proof.
  intros (n & Hg & Hs & Hi & Hn). exists n. rewrite stamped_length. split_and!; try done; try lia; [by apply stamped_seg_at|].
  rewrite <- Hs. unfold stamped. by destruct (rst c), a.
Qed.

(** ** Filling the window and deciding *)

Lemma saturated_fill s s' v :
  sinv s v → sinv s' v → saturated s v → filled s s' v → flight s' <= Z.max (flight s) (limit s) →
  TCPSender.next_abs_seqno s' = TCPSender.next_abs_seqno s.
Proof.
  intros Hs Hs' Hsat [] Hle. destruct fi_grow as [Hrc Hfd]. unfold flight in *. rewrite (st_acked _ _ fi_timer) in Hle.
  destruct Hsat as [Hf|[Hl|(Hsy & Hr & He)]].
  - by rewrite (Hfd Hf).
  - unfold flight in Hl. lia.
  - destruct (TCPSender.fined_ s) eqn:Ef; [by rewrite (Hfd eq_refl)|].
    pose proof (si_next _ _ Hs) as Hn. pose proof (si_next _ _ Hs') as Hn'. rewrite Ef, Hsy in Hn.
    pose proof (ByteStream.rep_read _ _ (si_rep _ _ Hs')) as Hrd.
    assert (TCPSender.fined_ s' = false) as Hf'.
    { destruct (TCPSender.fined_ s') eqn:E; [|done]. pose proof (si_fined _ _ Hs' E). congruence. }
    rewrite Hf' in Hn'. destruct (TCPSender.syned_ s'); simpl in *; lia.
Qed.

(** The empty segment of [send_empty_segment]. *)
Definition empty_segment (s : TCPSender.t) : TCPSegment.t :=
  TCPSegment.mk (TCPHeader.set_seqno TCPHeader.default (wrap (TCPSender.next_abs_seqno s) (TCPSender.isn s))) Buffer.empty.

(** What an operation has done when it has filled the window and decided, in
    terms of the sender before it filled the window. *)
Record moved (c c' : t) (v : bytes) (empty : bool) (more : list TCPSegment.t) : Prop := mk_moved {
  mo_calm : calm c' v;
  mo_plain : plain (sender c');
  mo_recv : receiver c' = receiver c;
  mo_cfg : cfg c' = cfg c;
  mo_timer : last_seg_timer c' = last_seg_timer c;
  mo_later : later (sender c) (sender c') v v;
  mo_same : same_timer (sender c) (sender c');
  mo_ended : ByteStream.input_ended_flag (TCPSender.stream (sender c')) =
    ByteStream.input_ended_flag (TCPSender.stream (sender c));
  mo_capacity : ByteStream.capacity (TCPSender.stream (sender c')) = ByteStream.capacity (TCPSender.stream (sender c));
  mo_bound : TCPSender.next_abs_seqno (sender c') <=
    TCPSender.last_acked_abs_seqno (sender c) + Z.max (flight (sender c)) (limit (sender c));
  mo_sat : saturated (sender c) v → TCPSender.next_abs_seqno (sender c') = TCPSender.next_abs_seqno (sender c);
  mo_out : segments_out c' = segments_out c ++ more;
  mo_report : Forall (reported (receiver c)) more;
  mo_carry : ∀ i, TCPSender.next_abs_seqno (sender c) <= i < TCPSender.next_abs_seqno (sender c') →
    Exists (carries (sender c') v i) more;
  mo_answer : active c = true → ∀ s2, TCPSender.fill_window (sender c) = Ok s2 →
    empty = true ∨ TCPSender.segments_out s2 ≠ [] → more ≠ [];
  mo_fined : TCPSender.fined_ (sender c) = true → (active c = true → TCPSender.segments_out (sender c) = []) → ∃ a,
    more = if active c && empty then [stamped c a (empty_segment (sender c))] else [];
  mo_life : active c' = true → active c = true ∧ (TCPSender.full_fined (sender c) = true →
    linger_after_streams_finish c' = true ∧
    (TCPReceiver.full_fined (receiver c) = true → last_seg_timer c < 10 * TCPConfig.rt_timeout (cfg c)));
}.

(** A connection that may fill its window and decide. *)
Record prepared (P : Z → byte → Prop) (c : t) (w v : bytes) : Prop := mk_prepared {
  pr_inv : cinv P c w v;
  pr_size : blen v < 0x4000000000000000;
  pr_rst : rst c = false;
  pr_tries : TCPSender.resend_try_times (sender c) <= 8;
  pr_syned : TCPSender.syned_ (sender c) = true ∨ TCPSender.window_size (sender c) <= 1;
  pr_plain : plain (sender c);
  pr_linger : linger_after_streams_finish c = false → TCPReceiver.full_fined (receiver c) = true;
  pr_dead : active c = false → TCPSender.full_fined (sender c) = true ∧ TCPReceiver.full_fined (receiver c) = true;
}.

Lemma outgoing_report c a :
  rst c = false → plain (sender c) → TCPReceiver.ackno (receiver c) = Ok a → Forall (reported (receiver c)) (outgoing c a).
Proof.
  intros Hr [_ Hq] Ha. unfold outgoing. destruct (active c); [|done]. apply Forall_map.
  eapply Forall_impl; [exact Hq|]. intros g Hg. by apply stamped_reported.
Qed.

Lemma saturated_syned s v : sinv s v → saturated s v → TCPSender.syned_ s = true.
Proof.
  intros Hs Hsat. destruct (TCPSender.syned_ s) eqn:Esy; [done|exfalso]. destruct (si_syned _ _ Hs Esy) as [Hr Hf].
  pose proof (si_next _ _ Hs) as Hn. pose proof (si_acked _ _ Hs). rewrite Esy, Hr, Hf in Hn. simpl in Hn.
  destruct Hsat as [?|[Hl|[? _]]]; [congruence| |congruence]. unfold limit, flight in Hl. lia.
Qed.

(** The segments of the loop carry the new numbers. *)
Lemma filled_carries s s' v i :
  sinv s v → filled s s' v → flight s' <= Z.max (flight s) (limit s) →
  TCPSender.syned_ s = true ∨ TCPSender.window_size s <= 1 →
  TCPSender.next_abs_seqno s <= i < TCPSender.next_abs_seqno s' →
  ∃ segs, TCPSender.segments_out s' = TCPSender.segments_out s ++ segs ∧ Exists (carries s' v i) segs.
Proof.
  intros Hs Hf Hle Hsy Hi. destruct (fi_segs _ _ _ Hf) as (segs & Hq & _ & Hsp). exists segs. split; [done|].
  pose proof (si_next _ _ Hs) as Hn. pose proof (si_acked _ _ Hs) as Ha.
  pose proof (ByteStream.rep_read _ _ (si_rep _ _ Hs)) as Hrd.
  pose proof (st_isn _ _ (fi_timer _ _ _ Hf)) as Ei. unfold flight, limit in *. rewrite (st_acked _ _ (fi_timer _ _ _ Hf)) in Hle.
  eapply Exists_impl; [apply (Hsp i Hi)|]. intros g (n & Hlo & Hg & Hsyn & Hr). exists n. rewrite Ei.
  split_and!; try done; try lia.
  destruct (TCPSender.syned_ s) eqn:Esy; simpl in Hn.
  - destruct (TCPSender.fined_ s); simpl in Hn; rewrite !(proj2 (Z.eqb_neq _ _)) by lia; done.
  - destruct Hsy as [?|Hw]; [done|]. destruct (si_syned _ _ Hs Esy) as [Hr0 Hf0]. rewrite Hr0, Hf0 in Hn. simpl in Hn.
    assert (i = 0) as -> by lia. by assert (n = 0) as -> by lia.
Qed.

(** The sender between the loop and the decision. *)
Record topped (s s2 s3 : TCPSender.t) (v : bytes) (empty : bool) : Prop := mk_topped {
  to_fill : TCPSender.fill_window s = Ok s2;
  to_filled : filled s s2 v;
  to_sat : saturated s2 v;
  to_bound : flight s2 <= Z.max (flight s) (limit s);
  to_queue : s3 = TCPSender.with_segments_out s2 (TCPSender.segments_out s2 ++ if empty then [empty_segment s2] else []);
  to_later : later s s3 v v;
  to_plain : plain s3;
}.

Lemma topped_intro s v :
  sinv s v → blen v < 0x4000000000000000 → plain s →
  ∃ s2, TCPSender.fill_window s = Ok s2 ∧
    ∀ empty : bool, topped s s2 (if empty then TCPSender.send_empty_segment s2 else s2) v empty.
Proof.
  intros Hs Hv Hp. destruct (fill_window_spec _ v Hs Hv) as (s2 & E & Hf & Hsat & Hle). exists s2. split; [done|].
  destruct (later_fill _ v Hs Hv) as (s2' & E' & Hl2 & _). assert (s2' = s2) as -> by congruence.
  assert (Hp2 : plain s2) by eauto with sponge. intros []; split; try done.
  - eapply later_trans; [exact Hl2|]. apply later_empty. apply Hf.
  - by apply send_empty_plain.
  - rewrite app_nil_r. by destruct s2.
Qed.

Lemma topped_carries s s2 s3 v empty i :
  sinv s v → topped s s2 s3 v empty → TCPSender.syned_ s = true ∨ TCPSender.window_size s <= 1 →
  TCPSender.next_abs_seqno s <= i < TCPSender.next_abs_seqno s3 →
  Exists (carries s3 v i) (TCPSender.segments_out s3).
Proof.
  intros Hs [] Hsy Hi. subst s3. cbn [TCPSender.next_abs_seqno TCPSender.with_segments_out] in Hi.
  destruct (filled_carries s s2 v i Hs to_filled0 to_bound0 Hsy Hi) as (segs & Hq & Hx).
  simpl. rewrite Hq. apply Exists_app. left. apply Exists_app. by right.
Qed.

Lemma outgoing_carries c a s v i :
  active c = true → Exists (carries s v i) (TCPSender.segments_out (sender c)) → Exists (carries s v i) (outgoing c a).
Proof.
  intros Ha Hx. unfold outgoing. rewrite Ha. apply Exists_exists in Hx as (g & Hg & Hc). apply Exists_exists.
  exists (stamped c a g). split; [by apply list_elem_of_fmap_2|by apply stamped_carries].
Qed.

(** From the decision on the topped sender to the whole operation. *)
Lemma settled_moved P c w v s2 s3 linger empty c' :
  prepared P c w v → topped (sender c) s2 s3 v empty →
  settled (with_linger (with_sender c s3) linger) c' v → ∃ more, moved c c' v empty more.
Proof.
  intros [] Ht []. pose proof (ci_send _ _ _ _ pr_inv0) as Hs.
  destruct se_out0 as (a & Ha & Eo). set (c3 := with_linger _ _) in *. cbn in se_sender0, Ha. exists (outgoing c3 a).
  assert (Hcar : ∀ i, TCPSender.next_abs_seqno (sender c) <= i < TCPSender.next_abs_seqno s3 →
    Exists (carries s3 v i) (TCPSender.segments_out s3)) by (intros i; by eapply topped_carries).
  pose proof Ht as []. pose proof (fi_timer _ _ _ to_filled0) as Hst.
  assert (Hff : TCPSender.full_fined s3 = TCPSender.full_fined (sender c)).
  { rewrite <- (filled_full_fined _ s2 v Hs to_filled0). by rewrite to_queue0. }
  assert (Hfix : TCPSender.fined_ (sender c) = true → s2 = sender c) by apply (fi_grow _ _ _ to_filled0).
  assert (Hl' : later s3 (sender c') v v).
  { rewrite se_sender0. apply later_same; try done. apply sinv_queue; [apply to_later0|].
    destruct (active c); [done|apply to_later0]. }
  split; try done.
  - rewrite se_sender0. destruct to_plain0. split; [done|]. by destruct (active c).
  - by eapply later_trans.
  - rewrite se_sender0, to_queue0. by destruct Hst.
  - rewrite se_sender0, to_queue0. apply to_filled0.
  - rewrite se_sender0, to_queue0. apply to_filled0.
  - rewrite se_sender0, to_queue0. simpl. unfold flight in *. rewrite (st_acked _ _ Hst) in to_bound0. lia.
  - intros Hsat. rewrite se_sender0, to_queue0. simpl. apply (saturated_fill (sender c) s2 v); try done. apply to_filled0.
  - by apply (outgoing_report c3 a).
  - intros i Hi. destruct (active c) eqn:Eact.
    + apply outgoing_carries; [done|]. simpl. rewrite se_sender0 in Hi |- *. simpl in Hi. by apply Hcar.
    + destruct (pr_dead0 eq_refl) as [Hd%full_fined_fined _]. rewrite se_sender0, to_queue0, (Hfix Hd) in Hi. simpl in Hi. lia.
  - intros Hact s2' Hs2 Hq E. assert (s2' = s2) as -> by congruence. unfold outgoing in E.
    change (active c3) with (active c) in E. rewrite Hact in E.
    apply fmap_nil_inv in E. simpl in E. rewrite to_queue0 in E. simpl in E. apply app_eq_nil in E as [E1 E2].
    destruct Hq as [->|Hq]; done.
  - intros Hfd Hq. exists a. unfold outgoing. change (active c3) with (active c). destruct (active c); [|done]. simpl.
    rewrite to_queue0, (Hfix Hfd). simpl. rewrite (Hq eq_refl). by destruct empty.
  - intros Hact. destruct (se_life0 Hact) as [? Hlf]. split; [done|]. rewrite <- Hff. done.
Qed.

(** The loop and the decision, with an optional empty segment between them. *)
Lemma fill_settles P c w v :
  prepared P c w v →
  ∃ s2, TCPSender.fill_window (sender c) = Ok s2 ∧
    ∀ linger empty, (linger = false → TCPReceiver.full_fined (receiver c) = true) →
    let c2 := with_linger (with_sender c s2) linger in
    ∃ c' more, judge_do (if (empty : bool) then with_sender c2 (TCPSender.send_empty_segment (sender c2)) else c2) = Ok c' ∧
      moved c c' v empty more.
Proof.
  intros Hp. pose proof Hp as []. pose proof (ci_send _ _ _ _ pr_inv0) as Hs.
  destruct (topped_intro _ v Hs pr_size0 pr_plain0) as (s2 & E & Ht). exists s2. split; [done|].
  intros linger empty Hl c2. specialize (Ht empty). set (s3 := if empty then _ else _) in Ht.
  set (c3 := if empty then _ else _). assert (Ec3 : c3 = with_linger (with_sender c s3) linger) by (subst c3 s3 c2; by destruct empty).
  pose proof Ht as []. pose proof (fi_timer _ _ _ to_filled0) as Hst.
  assert (Hc3 : cinv P c3 w v).
  { rewrite Ec3. pose proof (later_sender P c s3 w v v pr_inv0 to_later0) as []. by split. }
  assert (Hff : TCPSender.full_fined s3 = TCPSender.full_fined (sender c)).
  { rewrite <- (filled_full_fined _ s2 v Hs to_filled0). by rewrite to_queue0. }
  destruct (judge_do_settles P c3 w v Hc3 pr_size0) as (c' & E' & Hse).
  - by rewrite Ec3.
  - rewrite Ec3. simpl. rewrite to_queue0. simpl. by rewrite (st_tries _ _ Hst).
  - rewrite Ec3. simpl. rewrite to_queue0. apply (saturated_syned s2 v); [apply to_filled0|done].
  - rewrite Ec3. simpl. by rewrite to_queue0.
  - by rewrite Ec3.
  - rewrite Ec3. simpl. by rewrite Hff.
  - exists c'. rewrite Ec3 in Hse. destruct (settled_moved P c w v s2 s3 linger empty c' Hp Ht Hse) as (more & Hm).
    by exists more.
Qed.

(** ** The operations *)

Lemma fill_if_syned_true c s2 :
  TCPSender.syned_ (sender c) = true → TCPSender.fill_window (sender c) = Ok s2 → fill_if_syned c = Ok (with_sender c s2).
Proof. intros Hs E. unfold fill_if_syned, TCPSender.syned. by rewrite Hs, E. Qed.

(** What a calm connection with a plain sender may do. *)
Lemma prepared_with P c w v s r ms v' :
  calm c v → cinv P (with_sender (with_receiver (with_timer c ms) r) s) w v' → blen v' < 0x4000000000000000 →
  TCPSender.resend_try_times s <= 8 → plain s → TCPSender.syned_ s = true →
  (TCPReceiver.full_fined (receiver c) = true → TCPReceiver.full_fined r = true) →
  (TCPSender.full_fined (sender c) = true → TCPSender.full_fined s = true) →
  prepared P (with_sender (with_receiver (with_timer c ms) r) s) w v'.
Proof.
  intros [] Hc Hv Ht Hp Hsy Hr Hf. split; simpl; auto.
  intros Ha. destruct (ca_dead0 Ha). auto.
Qed.

(** [tick], after the sender's timer. *)
Lemma tick_moves P c w v ms :
  cinv P c w v → blen v < 0x4000000000000000 → calm c v → plain (sender c) →
  TCPSender.resend_try_times (sender c) <= 7 →
  ∃ c' more, tick c ms = Ok c' ∧
    moved (with_sender (with_timer c (w64 (last_seg_timer c + ms))) (TCPSender.tick (sender c) ms)) c' v false more.
Proof.
  intros Hc Hv Hcalm Hp Ht. unfold tick. set (c1 := with_sender _ _).
  pose proof (ci_send _ _ _ _ Hc) as Hs.
  assert (Hu : TCPSender.resend_try_times (sender c) < UINT32_MAX) by (unfold UINT32_MAX; lia).
  destruct (tick_spec _ v ms Hs Hu) as (Hs1 & _ & En & Ea & _ & _ & _ & Esy & Efd & _ & Hrest).
  assert (Hpre : prepared P c1 w v).
  { apply (prepared_with P c w v (TCPSender.tick (sender c) ms) (receiver c) (w64 (last_seg_timer c + ms)) v); try done.
    - pose proof (later_sender P c _ w v v Hc (later_tick _ v ms Hs Hu)) as []. by split.
    - destruct (expired _ _); [|destruct Hrest as (_ & _ & -> & _); lia].
      destruct Hrest as (_ & _ & Hrest). destruct (_ =? _); destruct Hrest as [_ ->]; lia.
    - by apply sender_tick_plain.
    - rewrite Esy. apply Hcalm.
    - unfold TCPSender.full_fined. by rewrite En, Ea, Efd. }
  destruct (fill_settles P c1 w v Hpre) as (s2 & E & Hj).
  rewrite (fill_if_syned_true c1 s2) by (done || simpl; rewrite Esy; apply Hcalm). cbn [mbind result_bind].
  destruct (Hj (linger_after_streams_finish c) false) as (c' & more & E' & Hm); [apply Hpre|].
  exists c', more. by split.
Qed.

(** The sender's part of a segment from the peer. *)
Definition acked (c : t) (seg : TCPSegment.t) : t :=
  let h := TCPSegment.header seg in
  if TCPHeader.ack h then with_sender c (TCPSender.ack_received (sender c) (TCPHeader.ackno h) (TCPHeader.win h)) else c.

Lemma acked_with c g : acked c g = with_sender c (sender (acked c g)).
Proof. unfold acked. destruct (TCPHeader.ack _); [done|by destruct c]. Qed.

Lemma full_fined_ack s v a win :
  sinv s v → is_u16 win → TCPSender.full_fined s = true → TCPSender.full_fined (TCPSender.ack_received s a win) = true.
Proof.
  intros Hs Hw Hf. destruct (ack_received_spec s v a win Hs Hw) as (_ & _ & _ & _ & En & _ & _ & Efd & _ & Hrest).
  unfold TCPSender.full_fined in *. rewrite En, Efd. apply andb_prop in Hf as [-> Hn%Z.eqb_eq]. simpl. apply Z.eqb_eq.
  unfold fresh_ack in Hrest. destruct (_ && _) eqn:Ef; destruct Hrest as [-> _]; [|done]. bool_to_prop. lia.
Qed.

Lemma owes_exact c seg a :
  TCPReceiver.ackno (receiver c) = Ok a →
  owes_segment c seg = Ok (if TCPSegment.length_in_sequence_space seg =? 0
    then match a with Some k => WrappingInt32.eqb (TCPHeader.seqno (TCPSegment.header seg)) (WrappingInt32.sub_n k 1)
                    | None => false end
    else match TCPSender.segments_out (sender c) with [] => true | _ => false end).
Proof.
  intros Ha. unfold owes_segment. destruct (_ =? 0); [|by destruct (TCPSender.segments_out _)].
  rewrite Ha. cbn [mbind result_bind]. destruct a as [k|]; [destruct (WrappingInt32.eqb _ _); [done|]|]; by destruct (TCPSender.segments_out _).
Qed.

(** The connection after the acknowledgment may go on. *)
Lemma acked_prepared P c w v r seg :
  let c0 := with_receiver (with_timer c 0) r in
  cinv P c0 w v → blen v < 0x4000000000000000 → calm c v → plain (sender c) → TCPSender.resend_try_times (sender c) <= 8 →
  is_u16 (TCPHeader.win (TCPSegment.header seg)) →
  (TCPReceiver.full_fined (receiver c) = true → TCPReceiver.full_fined r = true) →
  prepared P (acked c0 seg) w v ∧ TCPSender.syned_ (sender (acked c0 seg)) = true.
Proof.
  intros c0 Hc Hv Hcalm Hp Ht Hw Hrf. pose proof (ci_send _ _ _ _ Hc) as Hs. simpl in Hs.
  destruct (ack_received_spec (sender c) v (TCPHeader.ackno (TCPSegment.header seg)) _ Hs Hw)
    as (_ & _ & _ & _ & _ & _ & Esy & _ & _ & Hrest).
  set (s1 := sender (acked c0 seg)). assert (Es1 : acked c0 seg = with_sender c0 s1) by apply acked_with.
  assert (Hl1 : later (sender c) s1 v v).
  { subst s1. unfold acked. destruct (TCPHeader.ack _); [by apply later_ack|by apply later_refl]. }
  assert (Hsy1 : TCPSender.syned_ s1 = true).
  { subst s1. unfold acked. destruct (TCPHeader.ack _); simpl; [rewrite Esy|]; apply Hcalm. }
  split; [|done]. rewrite Es1. apply (prepared_with P c w v s1 r 0 v); try done.
  - by apply (later_sender P c0 s1 w v v).
  - subst s1. unfold acked. destruct (TCPHeader.ack _); [simpl|done].
    destruct (fresh_ack _ _); destruct Hrest as (_ & _ & _ & -> & _); lia.
  - subst s1. unfold acked. destruct (TCPHeader.ack _); [by apply ack_received_plain|done].
  - subst s1. unfold acked. destruct (TCPHeader.ack _); [by apply (full_fined_ack _ v)|done].
Qed.

(** A segment from the peer, after the receiver took it in as [r]. *)
Lemma segment_moves `{StreamReassembler.EndKey} P c w v r seg :
  let c0 := with_receiver (with_timer c 0) r in
  TCPReceiver.segment_received (receiver c) seg = Ok r → cinv P c0 w v → blen v < 0x4000000000000000 →
  calm c v → plain (sender c) → TCPSender.resend_try_times (sender c) <= 8 →
  is_u16 (TCPHeader.win (TCPSegment.header seg)) → TCPHeader.rst (TCPSegment.header seg) = false →
  (TCPReceiver.full_fined (receiver c) = true → TCPReceiver.full_fined r = true) →
  ∃ c' empty more, segment_received c seg = Ok c' ∧ moved (acked c0 seg) c' v empty more ∧
    (TCPSegment.length_in_sequence_space seg ≠ 0 → active c = true → more ≠ []) ∧
    (TCPSegment.length_in_sequence_space seg = 0 → empty = true → ∃ k, TCPReceiver.ackno r = Ok (Some k) ∧
       TCPHeader.seqno (TCPSegment.header seg) = WrappingInt32.sub_n k 1).
Proof.
  intros c0 Er Hc Hv Hcalm Hp Ht Hw Hrst Hrf.
  destruct (acked_prepared P c w v r seg Hc Hv Hcalm Hp Ht Hw Hrf) as [Hpre Hsy1]. fold c0 in Hpre, Hsy1.
  set (s1 := sender (acked c0 seg)) in *. assert (Es1 : acked c0 seg = with_sender c0 s1) by apply acked_with.
  destruct (fill_settles P _ w v Hpre) as (s2 & E & Hj).
  destruct (receiver_ackno P r w (ci_recv _ _ _ _ Hc)) as (a & Ha & _).
  unfold segment_received. cbn [receiver with_timer]. rewrite Hrst, Er. cbn [mbind result_bind].
  unfold TCPSender.syned. cbn [sender with_receiver with_timer]. rewrite (ca_syned _ _ Hcalm), andb_false_r.
  unfold segment_handled. fold c0. fold (acked c0 seg). rewrite (fill_if_syned_true (acked c0 seg) s2 Hsy1 E). cbn [mbind result_bind].
  set (linger := if TCPReceiver.full_fined r && negb (TCPSender.fined s2) then false else linger_after_streams_finish c).
  assert (Ec2 : (if TCPReceiver.full_fined (receiver (with_sender (acked c0 seg) s2)) &&
      negb (TCPSender.fined (sender (with_sender (acked c0 seg) s2)))
    then with_linger (with_sender (acked c0 seg) s2) false else with_sender (acked c0 seg) s2)
    = with_linger (with_sender (acked c0 seg) s2) linger).
  { rewrite Es1. subst linger. simpl. by destruct (_ && _). }
  rewrite Ec2. rewrite (owes_exact _ seg a) by (by rewrite Es1). cbn [mbind result_bind].
  set (empty := if TCPSegment.length_in_sequence_space seg =? 0 then _ else _).
  destruct (Hj linger empty) as (c' & more & E' & Hm).
  { rewrite Es1. simpl. subst linger. destruct (TCPReceiver.full_fined r) eqn:Hrr; [done|]. simpl. intros Hlg.
    specialize (Hrf (ca_linger _ _ Hcalm Hlg)). congruence. }
  exists c', empty, more. split; [exact E'|]. split; [done|]. split.
  - intros Hlen Hact. apply (mo_answer _ _ _ _ _ Hm) with (s2 := s2); [by rewrite Es1|done|].
    subst empty. rewrite (proj2 (Z.eqb_neq _ _) Hlen). simpl. destruct (TCPSender.segments_out s2); [by left|by right].
  - intros Hlen Hem. subst empty. rewrite Hlen in Hem. simpl in Hem. destruct a as [k|]; [|done]. exists k. split; [done|].
    apply wrapping_eq. unfold WrappingInt32.eqb in Hem. by apply Z.eqb_eq in Hem.
Qed.

Lemma connect_moves P c w v : prepared P c w v → ∃ c' more, connect c = Ok c' ∧ moved c c' v false more.
Proof.
  intros Hp. destruct (fill_settles P c w v Hp) as (s2 & E & Hj).
  destruct (Hj (linger_after_streams_finish c) false) as (c' & more & E' & Hm); [apply Hp|].
  exists c', more. split; [|done]. unfold connect. rewrite E. cbn [mbind result_bind]. rewrite <- E'. by destruct c.
Qed.

Lemma end_input_moves P c w v :
  let c1 := with_sender c (TCPSender.with_stream (sender c) (ByteStream.end_input (TCPSender.stream_in (sender c)))) in
  prepared P c1 w v → ∃ c' more, end_input_stream c = Ok c' ∧ moved c1 c' v false more.
Proof. intros c1. apply (connect_moves P c1). Qed.

Lemma write_moves P c w v data st n :
  let c1 := with_sender c (TCPSender.with_stream (sender c) st) in
  ByteStream.write (TCPSender.stream_in (sender c)) data = (st, n) → TCPSender.syned_ (sender c) = true →
  prepared P c1 w v → ∃ c' more, write c data = Ok (c', n) ∧ moved c1 c' v false more.
Proof.
  intros c1 Ew Hsy Hp. destruct (connect_moves P c1 w v Hp) as (c' & more & E & Hm). exists c', more. split; [|done].
  unfold write. rewrite Ew. fold c1. unfold connect in E. apply result_bind_Ok in E as (s2 & E2 & E).
  rewrite (fill_if_syned_true c1 s2 Hsy E2). cbn [mbind result_bind]. by rewrite E.
Qed.
