(* ===== verification/Transit.v ===== *)
(** * Two connections and the segments in transit

    The invariant [flow a b q]: with the segments [q] in transit from [a] to [b],
    whatever [a] has sent has reached [b] or is in [q], and so is the
    acknowledgment of all that [a] has received. It survives the arrival of the
    segments in any order and the operations of both owners; when nothing is in
    transit any more, both sides are up to date. *)

From S2P Require Import Prelude Buffers Wrapping Stream Reassembly ReassemblySpec Segment.
From S2P Require Import Receiver Sender SenderSpec Connection ConnectionSpec EndToEnd Progress.
Import TCPConnection.

Definition snd (a : endpoint) : TCPSender.t := sender (conn a).

Definition rcv (a : endpoint) : TCPReceiver.t := receiver (conn a).

(** The next number to send, the oldest one not acknowledged, and the first one
    the receiver lacks. *)
Definition nxt (a : endpoint) : Z := TCPSender.next_abs_seqno (snd a).

Definition ackd (a : endpoint) : Z := TCPSender.last_acked_abs_seqno (snd a).

Definition got (r : TCPReceiver.t) : Z :=
  if TCPReceiver.syn r
  then 1 + StreamReassembler.first_index (TCPReceiver.reassembler r) + b2n (StreamReassembler.eofed (TCPReceiver.reassembler r))
  else 0.

(** The receiver holds the number [i] of a stream of [len] bytes. *)
Definition has (r : TCPReceiver.t) (len i : Z) : Prop :=
  let re := TCPReceiver.reassembler r in
  StreamReassembler.eofed re = true ∨ i = 0 ∧ TCPReceiver.syn r = true ∨ 1 <= i ∧ known re (i - 1) ∨
  StreamReassembler.eof_ re = true ∧ i = len + 1.

Lemma eofed_syn P r w : rinv P r w → StreamReassembler.eofed (TCPReceiver.reassembler r) = true → TCPReceiver.syn r = true.
Proof.
  intros [] He. destruct (TCPReceiver.syn r); [done|]. destruct ri_syn as (_ & _ & _ & _ & _ & Hx).
  rewrite (inv_eof _ _ _ ri_re), Hx in He. done.
Qed.

Section pair.
Context (a b : endpoint) (wa wb : bytes) (ticks : Z) (Hn : ninv a b wa wb ticks).

Let re := TCPReceiver.reassembler (rcv b).

Lemma pair_re : inv (stream_of a) re wb.
Proof. apply (ri_re _ _ _ (ci_recv _ _ _ _ (ni_b _ _ _ _ _ Hn))). Qed.

Lemma pair_next : nxt a = b2n (TCPSender.syned_ (snd a)) + blen (data_of a) + b2n (TCPSender.fined_ (snd a)).
Proof.
  pose proof (ci_send _ _ _ _ (ni_a _ _ _ _ _ Hn)) as Hs. unfold nxt, data_of. rewrite (blen_sent_data _ _ (si_rep _ _ Hs)).
  apply Hs.
Qed.

Lemma pair_first : StreamReassembler.first_index re = blen wb ∧ 0 <= blen wb <= blen (data_of a).
Proof.
  split; [apply (inv_first _ _ _ (inv_core _ _ _ pair_re))|].
  pose proof (ninv_received _ _ _ _ _ Hn) as [k ->]. rewrite blen_app. pose proof (blen_nonneg wb). pose proof (blen_nonneg k). lia.
Qed.

Lemma pair_eofed :
  StreamReassembler.eofed re = true → TCPSender.fined_ (snd a) = true ∧ blen wb = blen (data_of a).
Proof.
  intros He. rewrite (inv_eof _ _ _ pair_re) in He.
  apply andb_prop in He as [He Hi%Z.eqb_eq]. destruct (li_eof _ _ (ni_ab _ _ _ _ _ Hn) He) as [Hf Hx]. split; [done|].
  rewrite <- (proj1 pair_first), <- Hx. exact Hi.
Qed.

Lemma got_next : TCPSender.syned_ (snd a) = true → got (rcv b) <= nxt a.
Proof.
  intros Hsy. rewrite pair_next, Hsy. unfold got. destruct pair_first as [Hfi Hle]. fold re. rewrite Hfi.
  destruct (StreamReassembler.eofed re) eqn:He; [destruct (pair_eofed He) as [-> ?]|destruct (TCPSender.fined_ _)];
    destruct (TCPReceiver.syn (rcv b)); simpl; lia.
Qed.

(** A receiver that holds every number sent is up to date. *)
Lemma has_all :
  TCPSender.syned_ (snd a) = true → (∀ i, 0 <= i < nxt a → has (rcv b) (blen (data_of a)) i) → got (rcv b) = nxt a.
Proof.
  intros Hsy Hall. rewrite pair_next, Hsy in *. destruct pair_first as [Hfi Hle]. simpl in Hall.
  pose proof pair_re as Hre. pose proof (inv_core _ _ _ Hre) as Hcore.
  assert (Hb : 0 <= b2n (TCPSender.fined_ (snd a))) by (by destruct (TCPSender.fined_ _)).
  unfold got. fold re. rewrite Hfi. unfold has in Hall. fold re in Hall.
  destruct (StreamReassembler.eofed re) eqn:He.
  { destruct (pair_eofed He) as [-> ?].
    rewrite (eofed_syn (stream_of a) (rcv b) wb (ci_recv _ _ _ _ (ni_b _ _ _ _ _ Hn)) He). simpl. lia. }
  assert (Hsyn : TCPReceiver.syn (rcv b) = true).
  { destruct (Hall 0) as [?|[[_ ?]|[[? _]|[_ ?]]]]; try done; lia. }
  assert (Hlen : blen wb = blen (data_of a)).
  { apply Z.le_antisymm; [lia|]. rewrite <- Hfi. destruct (decide (blen (data_of a) = 0)) as [|Hne]; [lia|].
    apply Z.lt_pred_le. unfold Z.pred. apply (core_frontier _ _ _ _ Hcore); [lia|]. intros j Hj.
    destruct (Hall (j + 1)) as [?|[[? _]|[[_ Hk]|[_ ?]]]]; try done; try lia. by replace (j + 1 - 1) with j in Hk by lia. }
  rewrite Hsyn, Hlen. destruct (TCPSender.fined_ (snd a)) eqn:Ef; simpl in *; [exfalso|lia].
  rewrite (inv_eof _ _ _ Hre) in He.
  destruct (Hall (blen (data_of a) + 1)) as [?|[[? _]|[[_ Hk]|[Heo _]]]]; try done; try lia.
  - replace (blen (data_of a) + 1 - 1) with (StreamReassembler.first_index re) in Hk by lia.
    destruct Hk as [?|Hk]; [lia|]. apply (chain_covered (StreamReassembler.first_index re)) in Hk; [lia|apply Hcore].
  - rewrite Heo in He. apply Z.eqb_neq in He. destruct (li_eof _ _ (ni_ab _ _ _ _ _ Hn) Heo) as [_ Hx].
    change (TCPReceiver.reassembler _) with re in Hx. lia.
Qed.
End pair.

(** What the receiver reports, in terms of [got]. *)
Lemma got_report P r w :
  rinv P r w → window_end (TCPReceiver.reassembler r) < 0x4000000000000000 →
  TCPReceiver.ackno r = Ok (if TCPReceiver.syn r then Some (wrap (got r) (TCPReceiver.isn r)) else None) ∧
  0 <= TCPReceiver.window_size r <= ByteStream.capacity (TCPReceiver.stream_out r).
Proof.
  intros Hr Hw. destruct (receiver_report P r w Hr Hw) as (Hfu & -> & -> & _). pose proof (rinv_len P r w Hr Hw) as Hl.
  pose proof (receiver_bounds P r w Hr) as [_ Hb].
  unfold ByteStream.input_ended. change (ByteStream.input_ended_flag _) with
    (ByteStream.input_ended_flag (StreamReassembler.output (TCPReceiver.reassembler r))).
  rewrite (inv_ended _ _ _ (ri_re _ _ _ Hr)). split; [|lia]. unfold got. by destruct (TCPReceiver.syn r).
Qed.

Lemma full_fined_eofed P r w :
  rinv P r w → TCPReceiver.full_fined r = StreamReassembler.eofed (TCPReceiver.reassembler r).
Proof. intros []. unfold TCPReceiver.full_fined. rewrite ri_fin. by destruct (StreamReassembler.eofed _), (StreamReassembler.eof_ _). Qed.

(** The receiver of [b] takes in a segment of [a], turning into [r]. *)
Record taken (a b : endpoint) (wb : bytes) (n : Z) (g : TCPSegment.t) (r : TCPReceiver.t) (w' : bytes) : Prop := mk_taken {
  ta_eq : rinv (stream_of a) r (wb ++ w');
  ta_peer : peered (TCPSender.isn (snd a)) r;
  ta_syn : TCPReceiver.syn r = TCPReceiver.syn (rcv b) || TCPHeader.syn (TCPSegment.header g);
  ta_window : window_end (TCPReceiver.reassembler r) = window_end (TCPReceiver.reassembler (rcv b));
  ta_capacity : ByteStream.capacity (TCPReceiver.stream_out r) = ByteStream.capacity (TCPReceiver.stream_out (rcv b));
  ta_known : let idx := payload_index n (TCPSegment.header g) in
    ∀ i, known (TCPReceiver.reassembler r) i ↔ known (TCPReceiver.reassembler (rcv b)) i ∨
       (accepted (rcv b) n (TCPSegment.header g) = true ∧ StreamReassembler.eofed (TCPReceiver.reassembler (rcv b)) = false ∧
        idx <= i < idx + blen (Buffer.str (TCPSegment.payload g)) ∧ i < window_end (TCPReceiver.reassembler (rcv b)));
  ta_from : eof_from (TCPReceiver.reassembler (rcv b)) (TCPReceiver.reassembler r) (TCPSegment.header g)
    (accepted (rcv b) n (TCPSegment.header g))
    (payload_index n (TCPSegment.header g) + blen (Buffer.str (TCPSegment.payload g)));
  ta_kept : eof_kept (TCPReceiver.reassembler (rcv b)) (TCPReceiver.reassembler r) (TCPSegment.header g)
    (accepted (rcv b) n (TCPSegment.header g));
}.

Definition sized (a b : endpoint) : Prop :=
  blen (written a) < 0x7ffffffd ∧ blen (written b) < 0x7ffffffd ∧ recv_capacity a < 0x2000000000000000 ∧
  recv_capacity b < 0x2000000000000000.

Lemma sized_sym a b : sized a b → sized b a.
Proof. unfold sized. tauto. Qed.

Lemma window_bound a b wa wb ticks :
  ninv a b wa wb ticks → sized a b → window_end (TCPReceiver.reassembler (rcv b)) < 0x4000000000000000.
Proof.
  intros Hn (Ha & _ & _ & Hc). pose proof (receiver_bounds _ _ _ (ci_recv _ _ _ _ (ni_b _ _ _ _ _ Hn))) as [_ Hb].
  pose proof (pair_first _ _ _ _ _ Hn) as [_ ?]. pose proof (blen_data_of _ _ _ _ _ Hn).
  unfold recv_capacity, TCPConnection.inbound_stream, rcv in *. lia.
Qed.

Lemma receive_takes `{EndKeyFresh} a b wa wb ticks n g :
  ninv a b wa wb ticks → sized a b → n <= nxt a →
  seg_at (TCPSender.isn (snd a)) (data_of a) (TCPSender.fined_ (snd a)) n g →
  ∃ r w', TCPReceiver.segment_received (rcv b) g = Ok r ∧ taken a b wb n g r w'.
Proof.
  intros Hn Hsz Hle Hg. pose proof (window_bound _ _ _ _ _ Hn Hsz) as Hw. pose proof (pair_first _ _ _ _ _ Hn) as [_ Hpre].
  pose proof (blen_data_of _ _ _ _ _ Hn) as Hda. destruct Hsz as (Ha & _ & _ & Hc).
  pose proof (ni_b _ _ _ _ _ Hn) as Hb. pose proof (receiver_bounds _ _ _ (ci_recv _ _ _ _ Hb)) as [Hlast _].
  pose proof (ci_send _ _ _ _ (ni_a _ _ _ _ _ Hn)) as Hs.
  pose proof (in_flight_spec _ _ Hs ltac:(lia)) as (_ & _ & Hnext). pose proof (sg_nonneg _ _ _ _ _ Hg).
  pose proof (sg_max _ _ _ _ _ Hg) as Hmax. unfold TCPConfig.MAX_PAYLOAD_SIZE in Hmax.
  pose proof (blen_nonneg (Buffer.str (TCPSegment.payload g))).
  destruct (segment_received_spec (stream_of a) (TCPSender.isn (snd a)) (si_isn _ _ Hs) (rcv b) wb n g)
    as (r & w' & E & ? & ? & ? & _ & ? & ? & ? & ? & ?); try done.
  - apply Hb.
  - apply (ni_ab _ _ _ _ _ Hn).
  - apply (genuine_of_seg_at _ _ _ _ _ _ Hg). unfold nxt, snd, rcv in *. lia.
  - unfold_w. lia.
  - exists r, w'. by split.
Qed.

Section taking.
Context (a b : endpoint) (wa wb : bytes) (ticks : Z) (Hn : ninv a b wa wb ticks).
Context (n : Z) (g : TCPSegment.t) (r : TCPReceiver.t) (w' : bytes) (Ht : taken a b wb n g r w').

Lemma has_kept len i : has (rcv b) len i → has r len i.
Proof.
  destruct Ht, ta_kept0 as [Ho Hd]. unfold has. intros [?|[[? Hs]|[[? ?]|[? ?]]]]; [left; auto|right; left|do 2 right; left|do 3 right].
  - split; [done|]. by rewrite ta_syn0, Hs.
  - split; [done|]. apply ta_known0. by left.
  - split; [auto|done].
Qed.

Lemma first_kept :
  StreamReassembler.first_index (TCPReceiver.reassembler (rcv b)) <= StreamReassembler.first_index (TCPReceiver.reassembler r).
Proof.
  rewrite (inv_first _ _ _ (inv_core _ _ _ (ri_re _ _ _ (ta_eq _ _ _ _ _ _ _ Ht)))), (proj1 (pair_first _ _ _ _ _ Hn)), blen_app.
  pose proof (blen_nonneg w'). lia.
Qed.

Lemma got_kept : got (rcv b) <= got r.
Proof.
  pose proof first_kept as Hf. pose proof (pair_first _ _ _ _ _ Hn) as [Hfi ?]. destruct Ht, ta_kept0 as [_ Hd]. unfold got.
  rewrite ta_syn0. destruct (TCPReceiver.syn (rcv b)); simpl.
  - destruct (StreamReassembler.eofed (TCPReceiver.reassembler (rcv b))); [rewrite Hd by done; lia|].
    simpl. destruct (StreamReassembler.eofed (TCPReceiver.reassembler r)); simpl; lia.
  - destruct (TCPHeader.syn _); [|done]. destruct (StreamReassembler.eofed (TCPReceiver.reassembler r)); unfold b2n; lia.
Qed.

(** A segment gives the receiver what it carries, within the window. *)
Lemma has_carried i :
  i < nxt a → TCPSender.syned_ (snd a) = true →
  seg_at (TCPSender.isn (snd a)) (data_of a) (TCPSender.fined_ (snd a)) n g →
  TCPHeader.syn (TCPSegment.header g) = (n =? 0) → (n =? 0) = (i =? 0) → n <= i < n + TCPSegment.length_in_sequence_space g →
  TCPReceiver.syn (rcv b) = true ∨ nxt a <= 1 →
  blen (data_of a) <= window_end (TCPReceiver.reassembler (rcv b)) → has r (blen (data_of a)) i.
Proof.
  intros Hi Hsy Hg Hs He Hr Hopen Hroom. pose proof (sg_nonneg _ _ _ _ _ Hg). destruct Ht, ta_kept0 as [Ho Hd]. unfold has.
  destruct (StreamReassembler.eofed (TCPReceiver.reassembler (rcv b))) eqn:Eed; [left; auto|right].
  destruct (Z.eqb_spec n 0) as [Hz|Hz].
  { left. symmetry in He. apply Z.eqb_eq in He. split; [done|]. by rewrite ta_syn0, Hs, orb_true_r. }
  symmetry in He. apply Z.eqb_neq in He. right.
  assert (Hsyn : TCPReceiver.syn (rcv b) = true) by (destruct Hopen; [done|lia]).
  assert (Hacc : accepted (rcv b) n (TCPSegment.header g) = true).
  { unfold accepted. rewrite Hsyn, Hs. by apply Z.eqb_neq in Hz as ->. }
  unfold payload_index in ta_known0. rewrite Hs in ta_known0. unfold TCPSegment.length_in_sequence_space in Hr. rewrite Hs in Hr.
  destruct (decide (i < n + blen (Buffer.str (TCPSegment.payload g)))) as [Hlt|Hge].
  - left. split; [lia|]. apply ta_known0. right. split_and!; try done; try lia.
    pose proof (sg_placed _ _ _ _ _ Hg) as [?|Hpl]; [lia|]. unfold payload_index in Hpl. rewrite Hs in Hpl.
    destruct (lookup_lt_is_Some_2 (Buffer.str (TCPSegment.payload g)) (Z.to_nat (i - n))) as [x Hx]; [unfold blen in *; lia|].
    apply Hpl in Hx as [_ Hx%lookup_lt_Some]. unfold blen in *. lia.
  - right. pose proof (sg_fin _ _ _ _ _ Hg) as Hfin. destruct (TCPHeader.fin (TCPSegment.header g)) eqn:Ef; [|simpl in *; lia].
    destruct (Hfin eq_refl) as [_ Hend]. unfold payload_index in Hend. rewrite Hs in Hend. split; [auto|]. simpl in *. lia.
Qed.

(** An empty segment changes nothing. *)
Lemma got_empty : TCPSegment.length_in_sequence_space g = 0 → got r = got (rcv b).
Proof.
  intros Hlen. pose proof (pair_re _ _ _ _ _ Hn) as Hre. pose proof (ri_re _ _ _ (ta_eq _ _ _ _ _ _ _ Ht)) as Hre'.
  pose proof first_kept as Hle. pose proof (pair_first _ _ _ _ _ Hn) as [Hfi Hb]. destruct Ht, ta_kept0 as [Ho Hd].
  unfold TCPSegment.length_in_sequence_space in Hlen. pose proof (blen_nonneg (Buffer.str (TCPSegment.payload g))).
  destruct (TCPHeader.syn (TCPSegment.header g)) eqn:Es; [destruct (TCPHeader.fin _); lia|].
  destruct (TCPHeader.fin (TCPSegment.header g)) eqn:Ef; [lia|].
  assert (Hk : ∀ i, known (TCPReceiver.reassembler r) i → known (TCPReceiver.reassembler (rcv b)) i).
  { intros i Hi. apply ta_known0 in Hi as [?|(_ & _ & ? & _)]; [done|lia]. }
  assert (Hfirst : StreamReassembler.first_index (TCPReceiver.reassembler r) =
    StreamReassembler.first_index (TCPReceiver.reassembler (rcv b))).
  { apply Z.le_antisymm; [|done]. apply Z.nlt_ge. intros Hlt.
    assert (Hpos : 0 <= StreamReassembler.first_index (TCPReceiver.reassembler (rcv b))) by lia.
    pose proof (proj1 (core_frontier _ _ _ _ (inv_core _ _ _ Hre') Hpos) Hlt) as Hall.
    assert (Hlt2 : StreamReassembler.first_index (TCPReceiver.reassembler (rcv b)) <
      StreamReassembler.first_index (TCPReceiver.reassembler (rcv b))); [|lia].
    apply (core_frontier _ _ _ _ (inv_core _ _ _ Hre)); [lia|]. intros j Hj. apply Hk, Hall. lia. }
  unfold got. rewrite ta_syn0, orb_false_r, Hfirst. destruct (TCPReceiver.syn (rcv b)); [|done]. do 2 f_equal.
  destruct (StreamReassembler.eofed (TCPReceiver.reassembler (rcv b))) eqn:Eed; [auto|].
  destruct (StreamReassembler.eofed (TCPReceiver.reassembler r)) eqn:Eed'; [exfalso|done].
  rewrite (inv_eof _ _ _ Hre') in Eed'. apply andb_prop in Eed' as [Heo Hi].
  destruct (ta_from0 Heo) as [[He Hx]|[? _]]; [|congruence]. rewrite (inv_eof _ _ _ Hre), He, <- Hx, <- Hfirst, Hi in Eed. done.
Qed.
End taking.

(** The segment [g] acknowledges the number [k] of the stream of [b]. *)
Definition acks (b : endpoint) (k : Z) (g : TCPSegment.t) : Prop :=
  TCPHeader.ack (TCPSegment.header g) = true ∧ TCPHeader.ackno (TCPSegment.header g) = wrap k (TCPSender.isn (snd b)).

(** What [g], sent by [a], tells [b] is not more than [a] has received. *)
Definition tells (a b : endpoint) (g : TCPSegment.t) : Prop :=
  TCPHeader.rst (TCPSegment.header g) = false ∧
  (TCPHeader.ack (TCPSegment.header g) = true → ∃ k, acks b k g ∧ 1 <= k <= got (rcv a) ∧
     TCPHeader.win (TCPSegment.header g) <= recv_capacity a).

(** With the segments [q] in transit from [a] to [b], nothing is lost: what [a]
    has sent has reached [b] or is in transit, and so is the acknowledgment of
    all that [a] has received. *)
Record flow (a b : endpoint) (q : list TCPSegment.t) : Prop := mk_flow {
  fl_cover : ∀ i, 0 <= i < nxt a → has (rcv b) (blen (data_of a)) i ∨ Exists (carries (snd a) (written a) i) q;
  fl_open : TCPReceiver.syn (rcv b) = true ∨ nxt a <= 1 ∧ TCPSender.window_size (snd a) <= 1;
  fl_sane : Forall (tells a b) q;
  fl_ack : ackd b = got (rcv a) ∨ Exists (acks b (got (rcv a))) q;
  fl_acked : ackd b <= got (rcv a);
}.

Lemma flow_perm a b q q' : (∀ g, g ∈ q ↔ g ∈ q') → flow a b q → flow a b q'.
Proof.
  intros He []. assert (Hex : ∀ Q, Exists Q q → Exists Q q').
  { intros Q. rewrite !Exists_exists. intros (g & Hg & ?). exists g. by rewrite <- He. }
  split; try done.
  - intros i Hi. destruct (fl_cover0 i Hi); auto.
  - rewrite Forall_forall in *. intros g Hg. apply fl_sane0. by apply He.
  - destruct fl_ack0; auto.
Qed.

(** With nothing in transit, both sides are up to date. *)
Lemma flow_done a b wa wb ticks :
  ninv a b wa wb ticks → TCPSender.syned_ (snd a) = true → flow a b [] → got (rcv b) = nxt a ∧ ackd b = got (rcv a).
Proof.
  intros Hn Hsy []. split.
  - apply (has_all _ _ _ _ _ Hn Hsy). intros i Hi. destruct (fl_cover0 i Hi) as [?|Hx]; [done|by apply Exists_nil in Hx].
  - destruct fl_ack0 as [?|Hx]; [done|by apply Exists_nil in Hx].
Qed.

Lemma ack_max s v k win :
  sinv s v → blen v < 0x7ffffffd → is_u16 win → 0 <= k <= TCPSender.next_abs_seqno s →
  let s' := TCPSender.ack_received s (wrap k (TCPSender.isn s)) win in
  TCPSender.last_acked_abs_seqno s' = Z.max (TCPSender.last_acked_abs_seqno s) k ∧ TCPSender.window_size s' = win ∧
  TCPSender.resend_try_times s' <= TCPSender.resend_try_times s ∧
  (TCPSender.last_acked_abs_seqno s < TCPSender.last_acked_abs_seqno s' → TCPSender.resend_try_times s' = 0).
Proof.
  intros Hs Hv Hw Hk. destruct (ack_received_spec s v (wrap k (TCPSender.isn s)) win Hs Hw)
    as (_ & Hwin & _ & _ & _ & _ & _ & _ & _ & Hrest).
  pose proof (in_flight_spec s v Hs ltac:(lia)) as (_ & _ & Hnx). pose proof (si_acked _ _ Hs). pose proof (si_tries _ _ Hs).
  rewrite (unwrap_wrap k) in Hrest by (lia || apply Hs). unfold fresh_ack in Hrest. cbv zeta.
  destruct (_ && _) eqn:Ef; destruct Hrest as (-> & _ & _ & -> & _); bool_to_prop; split_and!; try done; try lia;
    destruct Ef as [?|?]; bool_to_prop; lia.
Qed.

(** The sender of [b] takes the acknowledgment of [g]. *)
Record heeded (a b : endpoint) (g : TCPSegment.t) (s1 : TCPSender.t) : Prop := mk_heeded {
  he_later : later (snd b) s1 (written b) (written b);
  he_next : TCPSender.next_abs_seqno s1 = nxt b;
  he_stream : TCPSender.stream s1 = TCPSender.stream (snd b);
  he_fined : TCPSender.fined_ s1 = TCPSender.fined_ (snd b);
  he_queue : TCPSender.segments_out s1 = TCPSender.segments_out (snd b);
  he_acked : ackd b <= TCPSender.last_acked_abs_seqno s1 <= got (rcv a);
  he_ack : acks b (got (rcv a)) g → TCPSender.last_acked_abs_seqno s1 = got (rcv a);
  he_tries : TCPSender.resend_try_times s1 <= tries b ∧
    (ackd b < TCPSender.last_acked_abs_seqno s1 → TCPSender.resend_try_times s1 = 0);
  he_window : TCPSender.window_size s1 = TCPSender.window_size (snd b) ∨
    TCPReceiver.syn (rcv a) = true ∧ TCPSender.window_size s1 <= recv_capacity a;
}.

Lemma heeds a b wa wb ticks r g :
  ninv a b wa wb ticks → sized a b → TCPSender.syned_ (snd b) = true → ackd b <= got (rcv a) → tells a b g →
  is_u16 (TCPHeader.win (TCPSegment.header g)) →
  heeded a b g (sender (acked (with_receiver (with_timer (conn b) 0) r) g)).
Proof.
  intros Hn (_ & Hvb & _) Hsy Hle [_ Htell] Hw. pose proof (ci_send _ _ _ _ (ni_b _ _ _ _ _ Hn)) as Hs.
  unfold acked. destruct (TCPHeader.ack (TCPSegment.header g)) eqn:Ea; cbn [sender with_sender with_receiver with_timer].
  2:{ split; try done; [by apply later_refl| |unfold ackd, tries, snd; split; lia|by left].
      intros [? _]. congruence. }
  fold (snd b) in Hs |- *. destruct (Htell eq_refl) as (k & [_ Hk] & Hk1 & Hwin). pose proof (got_next _ _ _ _ _ (ninv_sym _ _ _ _ _ Hn) Hsy) as Hg.
  destruct (ack_received_spec (snd b) (written b) (TCPHeader.ackno (TCPSegment.header g)) _ Hs Hw)
    as (_ & _ & Hq & Hst & Hnx & _ & _ & Hf & _).
  destruct (ack_max (snd b) (written b) k _ Hs Hvb Hw ltac:(unfold nxt in *; lia)) as (Hmax & Hwe & Hti & Htz).
  rewrite <- Hk in Hmax, Hwe, Hti, Htz. fold (ackd b) in Hmax, Htz. split; try done.
  - by apply later_ack.
  - rewrite Hmax. lia.
  - intros [_ Hk']. rewrite Hmax. destruct (decide (got (rcv a) = k)) as [Heq|Hne]; [lia|exfalso]. rewrite Hk in Hk'.
    apply (f_equal (λ x, unwrap x (TCPSender.isn (snd b)) k)) in Hk'.
    pose proof (in_flight_spec _ _ Hs ltac:(lia)) as (_ & _ & Hnb). unfold nxt, snd in *.
    rewrite !unwrap_wrap in Hk' by (lia || apply Hs). lia.
  - right. rewrite Hwe. split; [|done]. unfold got in Hk1. destruct (TCPReceiver.syn (rcv a)); [done|lia].
Qed.

(** The stream of [b] grows, but not after [a] has seen its end. *)
Lemma has_later a b b' wa wb ticks i :
  ninv a b wa wb ticks → later (snd b) (snd b') (written b) (written b') →
  has (rcv a) (blen (data_of b)) i → has (rcv a) (blen (data_of b')) i.
Proof.
  intros Hn Hl [?|[?|[?|[He ->]]]]; [by left|by right; left|by right; right; left|].
  do 3 right. split; [done|]. destruct (li_eof _ _ (ni_ba _ _ _ _ _ Hn) He) as [Hf _].
  destruct (la_grows _ _ _ _ Hl) as [[Hd _]|[? _]]; [unfold data_of, snd in *; by rewrite Hd|unfold snd in *; congruence].
Qed.

(** What a segment from [a] makes of [b]. *)
Record delivered (a b b' : endpoint) (g : TCPSegment.t) (r : TCPReceiver.t) (empty : bool) (more : list TCPSegment.t) : Prop := mk_delivered {
  de_recv : rcv b' = r;
  de_heed : heeded a b g (sender (acked (with_receiver (with_timer (conn b) 0) r) g));
  de_moved : moved (acked (with_receiver (with_timer (conn b) 0) r) g) (conn b') (written b) empty more;
  de_written : written b' = written b;
  de_wire : wire b' = wire b;
  de_answer : TCPSegment.length_in_sequence_space g ≠ 0 → active (conn b) = true → more ≠ [];
  de_keep : TCPSegment.length_in_sequence_space g = 0 → empty = true → ∃ k, TCPReceiver.ackno r = Ok (Some k) ∧
    TCPHeader.seqno (TCPSegment.header g) = WrappingInt32.sub_n k 1;
}.

(** Before [b] takes the segment. *)
Record ready (a b : endpoint) (wa wb : bytes) (ticks : Z) : Prop := mk_ready {
  rd_inv : ninv a b wa wb ticks;
  rd_sized : sized a b;
  rd_calm : calm (conn b) (written b);
  rd_plain : plain (snd b);
  rd_tries : tries b <= 7;
  rd_peer : TCPSender.syned_ (snd a) = true;
  rd_room : blen (data_of a) <= window_end (TCPReceiver.reassembler (rcv b));
}.

Lemma deliver_step `{EndKeyFresh} a b wa wb ticks g :
  ready a b wa wb ticks → ackd b <= got (rcv a) → tells a b g → g ∈ wire a →
  ∃ b' n r w' w2 empty more, TCPConnection.segment_received (conn b) g = Ok (conn b') ∧
    ninv a b' wa (wb ++ w2) ticks ∧ delivered a b b' g r empty more ∧
    taken a b wb n g r w' ∧ recv_capacity b' = recv_capacity b ∧ TCPReceiver.segment_received (rcv b) g = Ok r.
Proof.
  intros [] Hack Htell Hwire.
  assert (Hg : from_sender (snd a) (written a) g).
  { pose proof (li_wire _ _ (ni_ab _ _ _ _ _ rd_inv0)) as Hw. rewrite Forall_forall in Hw. by apply Hw. }
  destruct Hg as (n & Hnx & Hg). pose proof rd_sized0 as (Hsa & Hsb & _ & Hcb).
  destruct (receive_takes a b wa wb ticks n g rd_inv0 rd_sized0 Hnx Hg) as (r & w' & Er & Ht).
  pose proof (ni_b _ _ _ _ _ rd_inv0) as [Hrb Hs Ho].
  assert (Hc0 : cinv (stream_of a) (with_receiver (with_timer (conn b) 0) r) (wb ++ w') (written b)) by (split; [apply Ht|done|done]).
  destruct (segment_moves (stream_of a) (conn b) (wb ++ w') (written b) r g) as (c' & empty & more & E & Hm & Hans & Hkeep); try done.
  { lia. }
  { unfold tries, snd in *. lia. }
  { apply Hg. }
  { apply Htell. }
  { rewrite (full_fined_eofed _ _ _ Hrb), (full_fined_eofed _ _ _ (ta_eq _ _ _ _ _ _ _ Ht)). apply Ht. }
  exists (mk_endpoint c' (written b) (wire b)), n, r.
  apply list_elem_of_lookup in Hwire as [i Hi].
  destruct (acted_deliver b a wb wa ticks i (ninv_sym _ _ _ _ _ rd_inv0) Hsb Hsa Hcb) as (b' & E' & w2 & Hn2 & _ & Hcap & _).
  simpl in E'. rewrite Hi, E in E'. cbn [mbind result_bind] in E'. injection E' as <-. apply ninv_sym in Hn2. rewrite Z.add_0_r in Hn2.
  exists w', w2, empty, more. split_and!; try done. split; try done; [unfold rcv; simpl; by rewrite (mo_recv _ _ _ _ _ Hm), acked_with|].
  apply heeds with wa wb ticks; try done; [apply rd_calm0|apply Hg].
Qed.

(** The segments that [b] sends when its receiver is [r] tell the truth. *)
Lemma reported_tells a b wa wb ticks g :
  ninv a b wa wb ticks → sized a b → reported (rcv b) g →
  tells b a g ∧ (TCPReceiver.syn (rcv b) = true → acks a (got (rcv b)) g).
Proof.
  intros Hn Hsz (Hrst & Hwin & Hak). pose proof (window_bound _ _ _ _ _ Hn Hsz) as Hwb.
  pose proof (ci_recv _ _ _ _ (ni_b _ _ _ _ _ Hn)) as Hr. destruct (got_report _ _ _ Hr Hwb) as [Hrep Hw]. fold (rcv b) in Hrep, Hw.
  pose proof (li_peer _ _ (ni_ab _ _ _ _ _ Hn)) as Hp. fold (snd a) (rcv b) in Hp. unfold peered in Hp.
  pose proof (pair_first _ _ _ _ _ Hn) as [Hfi Hle]. rewrite Hrep in Hak. unfold tells, acks.
  destruct (TCPHeader.ack (TCPSegment.header g)) eqn:Ea, (TCPReceiver.syn (rcv b)) eqn:Es; try done; injection Hak as Hak.
  rewrite (Hp eq_refl) in Hak. split; [|done]. split; [done|]. intros _. exists (got (rcv b)). split_and!; try done.
  - unfold got. rewrite Es, Hfi. destruct (StreamReassembler.eofed _); unfold b2n; lia.
  - rewrite Hwin. unfold recv_capacity, TCPConnection.inbound_stream. fold (rcv b). lia.
Qed.

Lemma delivered_later a b b' g r empty more :
  delivered a b b' g r empty more → later (snd b) (snd b') (written b) (written b').
Proof.
  intros []. rewrite de_written0. eapply later_trans; [apply de_heed0|]. apply (mo_later _ _ _ _ _ de_moved0).
Qed.

Lemma delivered_out a b b' g r empty more :
  delivered a b b' g r empty more → segments_out (conn b') = segments_out (conn b) ++ more.
Proof. intros []. by rewrite (mo_out _ _ _ _ _ de_moved0), acked_with. Qed.

Lemma delivered_acked a b b' g r empty more :
  delivered a b b' g r empty more →
  ackd b' = TCPSender.last_acked_abs_seqno (sender (acked (with_receiver (with_timer (conn b) 0) r) g)) ∧
  tries b' = TCPSender.resend_try_times (sender (acked (with_receiver (with_timer (conn b) 0) r) g)) ∧
  TCPSender.window_size (snd b') = TCPSender.window_size (sender (acked (with_receiver (with_timer (conn b) 0) r) g)).
Proof. intros []. destruct (mo_same _ _ _ _ _ de_moved0). done. Qed.

Lemma acks_later b b' k g : later (snd b) (snd b') (written b) (written b') → acks b k g → acks b' k g.
Proof. intros Hl. unfold acks. by rewrite (la_isn _ _ _ _ Hl). Qed.

Lemma tells_later a b b' g : later (snd b) (snd b') (written b) (written b') → tells a b g → tells a b' g.
Proof.
  intros Hl [Hr Ht]. split; [done|]. intros Ha. destruct (Ht Ha) as (k & Hk & ?). exists k. split; [by eapply acks_later|done].
Qed.

Lemma delivered_sized a b b' wb n g r w' empty more :
  sized a b → delivered a b b' g r empty more → taken a b wb n g r w' → sized a b'.
Proof.
  intros (? & ? & ? & Hcb) [] Ht. split_and!; try done; [by rewrite de_written0|].
  unfold recv_capacity, TCPConnection.inbound_stream. fold (rcv b'). rewrite de_recv0, (ta_capacity _ _ _ _ _ _ _ Ht). exact Hcb.
Qed.

(** What is in transit to [b] after one of the segments has arrived. *)
Lemma deliver_flow_in `{EndKeyFresh} a b b' wa wb wb' ticks n g r w' empty more q :
  ready a b wa wb ticks → ninv a b' wa wb' ticks → delivered a b b' g r empty more → taken a b wb n g r w' →
  TCPReceiver.segment_received (rcv b) g = Ok r → flow a b (g :: q) → flow a b' q.
Proof.
  intros [] Hn' Hd Ht Er []. pose proof (delivered_later _ _ _ _ _ _ _ Hd) as Hl.
  pose proof (delivered_acked _ _ _ _ _ _ _ Hd) as (Ea & _). pose proof Hd as []. pose proof de_heed0 as [].
  apply Forall_cons in fl_sane0 as [Hg Hq]. split.
  - intros i Hi. rewrite de_recv0. destruct (fl_cover0 i Hi) as [Hh|Hx]; [left; by eapply has_kept|].
    apply Exists_cons in Hx as [Hc|Hx]; [left|by right]. destruct Hc as (m & Hm & Hsm & Him & Hr).
    destruct (receive_takes a b wa wb ticks m g) as (r2 & w2 & E2 & Ht2); try done; [lia|].
    assert (r2 = r) as -> by congruence. eapply (has_carried a b wb m g r w2 Ht2); try done; [lia|]. tauto.
  - destruct fl_open0 as [Hs|?]; [left|by right]. by rewrite de_recv0, (ta_syn _ _ _ _ _ _ _ Ht), Hs.
  - eapply Forall_impl; [exact Hq|]. intros x. by apply tells_later.
  - rewrite Ea. destruct fl_ack0 as [Hx|Hx]; [left; lia|]. apply Exists_cons in Hx as [Hx|Hx]; [left; by apply he_ack0|right].
    eapply Exists_impl; [exact Hx|]. intros x. by apply acks_later.
  - rewrite Ea. lia.
Qed.

(** A dead receiver has everything. *)
Lemma got_dead a b wa wb ticks :
  ninv a b wa wb ticks → TCPSender.syned_ (snd a) = true → TCPReceiver.full_fined (rcv b) = true → got (rcv b) = nxt a.
Proof.
  intros Hn Hsy Hf. pose proof (ci_recv _ _ _ _ (ni_b _ _ _ _ _ Hn)) as Hr. fold (rcv b) in Hr.
  rewrite (full_fined_eofed _ _ _ Hr) in Hf. destruct (pair_eofed _ _ _ _ _ Hn Hf) as [Hfd Hlen].
  rewrite (pair_next _ _ _ _ _ Hn), Hsy, Hfd. unfold got. rewrite (eofed_syn _ _ _ Hr Hf), Hf, (proj1 (pair_first _ _ _ _ _ Hn)).
  unfold b2n. lia.
Qed.

(** Filling the window past one needs an acknowledgment. *)
Lemma deliver_open a b b' g r empty more q :
  delivered a b b' g r empty more → flow b a q →
  TCPReceiver.syn (rcv a) = true ∨ nxt b' <= 1 ∧ TCPSender.window_size (snd b') <= 1.
Proof.
  intros Hd []. pose proof (delivered_acked _ _ _ _ _ _ _ Hd) as (_ & _ & Ew). destruct Hd, de_heed0.
  destruct (TCPReceiver.syn (rcv a)) eqn:Es; [by left|right]. destruct fl_open0 as [?|[Hn Hw]]; [done|].
  destruct he_window0 as [Hwin|[? _]]; [|done]. rewrite Ew, Hwin. split; [|done].
  pose proof (mo_bound _ _ _ _ _ de_moved0) as Hb. unfold flight, limit in Hb. rewrite he_next0, Hwin in Hb.
  assert (Hg : got (rcv a) = 0) by (unfold got; by rewrite Es). unfold nxt, snd in *. lia.
Qed.

(** [b] is up to date with its acknowledgments after every segment. *)
Lemma deliver_acks a b b' wa wb wb' ticks n g r w' empty more :
  ready a b wa wb ticks → ninv a b' wa wb' ticks → delivered a b b' g r empty more → taken a b wb n g r w' →
  0 <= ackd a <= got (rcv b) → got r = got (rcv b) ∨ ackd a = got r ∨ Exists (acks a (got r)) more.
Proof.
  intros [] Hn' Hd Ht Ha. pose proof (got_kept a b wa wb ticks rd_inv0 n g r w' Ht) as Hk. pose proof Hd as [].
  destruct (decide (TCPSegment.length_in_sequence_space g = 0)) as [Hz|Hz]; [left; by eapply got_empty|].
  destruct (active (conn b)) eqn:Eact.
  - right. assert (Hsz' : sized a b') by (by eapply delivered_sized).
    destruct more as [|x more']; [by specialize (de_answer0 Hz eq_refl)|].
    pose proof (mo_report _ _ _ _ _ de_moved0) as Hrep. rewrite acked_with in Hrep. simpl in Hrep.
    apply Forall_cons in Hrep as [Hx _]. rewrite <- de_recv0 in Hx. destruct (reported_tells a b' wa wb' ticks x Hn' Hsz' Hx) as [_ Hx'].
    rewrite de_recv0 in Hx'. destruct (TCPReceiver.syn r) eqn:Es; [right; apply Exists_cons; left; by apply Hx'|left].
    assert (got r = 0) by (unfold got; by rewrite Es). lia.
  - left. destruct (ca_dead _ _ rd_calm0 Eact) as [_ Hff]. pose proof (got_dead _ _ _ _ _ rd_inv0 rd_peer0 Hff) as E1.
    pose proof (got_next _ _ _ _ _ Hn' rd_peer0) as E2. rewrite de_recv0 in E2. lia.
Qed.

(** What is in transit from [b] after it has taken a segment. *)
Lemma deliver_flow_out a b b' wa wb wb' ticks n g r w' empty more :
  ready a b wa wb ticks → ninv a b' wa wb' ticks → delivered a b b' g r empty more → taken a b wb n g r w' →
  flow b a (segments_out (conn b)) → flow b' a (segments_out (conn b')).
Proof.
  intros Hrd Hn' Hd Ht Hfl. pose proof (delivered_sized _ _ _ _ _ _ _ _ _ _ (rd_sized _ _ _ _ _ Hrd) Hd Ht) as Hsz'. pose proof (deliver_open _ _ _ _ _ _ _ _ Hd Hfl) as Hopen.
  rewrite (delivered_out _ _ _ _ _ _ _ Hd). pose proof (delivered_later _ _ _ _ _ _ _ Hd) as Hl.
  pose proof (rd_inv _ _ _ _ _ Hrd) as Hn. pose proof (si_acked _ _ (ci_send _ _ _ _ (ni_a _ _ _ _ _ Hn))) as [Ha0 _].
  pose proof (deliver_acks _ _ _ _ _ _ _ _ _ _ _ _ _ Hrd Hn' Hd Ht (conj Ha0 (fl_acked _ _ _ Hfl))) as Hack.
  pose proof (got_kept a b wa wb ticks Hn n g r w' Ht) as Hk. pose proof Hfl as []. pose proof Hd as []. rewrite <- de_recv0 in Hk, Hack.
  split; [|done| | |lia].
  - intros i Hi. destruct (decide (i < nxt b)) as [Hlt|Hge].
    + destruct (fl_cover0 i) as [Hh|Hx]; [lia|left|right; apply Exists_app; left].
      * by apply (has_later a b b' wa wb ticks).
      * eapply Exists_impl; [exact Hx|]. intros x. by apply carries_later.
    + right. apply Exists_app. right. pose proof (mo_carry _ _ _ _ _ de_moved0 i) as Hc.
      rewrite (he_next _ _ _ _ de_heed0) in Hc. rewrite de_written0. apply Hc. unfold nxt, snd in *. lia.
  - apply Forall_app. split.
    + eapply Forall_impl; [exact fl_sane0|]. intros x [Hr Hx]. split; [done|]. intros Hax. destruct (Hx Hax) as (k & Hka & Hkb & Hw).
      exists k. split; [done|]. split; [lia|]. unfold recv_capacity, TCPConnection.inbound_stream in *. fold (rcv b) (rcv b') in *.
      by rewrite de_recv0, (ta_capacity _ _ _ _ _ _ _ Ht).
    + pose proof (mo_report _ _ _ _ _ de_moved0) as Hrep. rewrite acked_with in Hrep. simpl in Hrep. rewrite <- de_recv0 in Hrep.
      eapply Forall_impl; [exact Hrep|]. intros x Hx. by apply (reported_tells a b' wa wb' ticks x Hn' Hsz' Hx).
  - destruct Hack as [E|[E|E]]; [|by left|right; apply Exists_app; by right]. rewrite E.
    destruct fl_ack0 as [?|Hx]; [by left|right]. apply Exists_app. by left.
Qed.

(** An operation of the owner of [a]: it prepares the sender as [s1], and leaves
    the numbers alone until the window is filled. *)
Record local (a a' : endpoint) (s1 : TCPSender.t) (more : list TCPSegment.t) : Prop := mk_local {
  lo_moved : ∃ ms, moved (with_sender (with_timer (conn a) ms) s1) (conn a') (written a') false more;
  lo_later : later (snd a) s1 (written a) (written a');
  lo_next : TCPSender.next_abs_seqno s1 = nxt a;
  lo_acked : TCPSender.last_acked_abs_seqno s1 = ackd a;
  lo_window : TCPSender.window_size s1 = TCPSender.window_size (snd a);
  lo_wire : wire a' = wire a;
}.

Lemma local_later a a' s1 more : local a a' s1 more → later (snd a) (snd a') (written a) (written a').
Proof. intros [[ms Hm]]. eapply later_trans; [exact lo_later0|]. apply (mo_later _ _ _ _ _ Hm). Qed.

Lemma local_facts a a' s1 more :
  local a a' s1 more → rcv a' = rcv a ∧ segments_out (conn a') = segments_out (conn a) ++ more ∧ ackd a' = ackd a ∧
    TCPSender.window_size (snd a') = TCPSender.window_size (snd a) ∧
    nxt a' <= ackd a + Z.max (flight (snd a)) (limit (snd a)) ∧ recv_capacity a' = recv_capacity a ∧
    tries a' = TCPSender.resend_try_times s1.
Proof.
  intros [[ms []]]. destruct mo_same. simpl in *. unfold recv_capacity, TCPConnection.inbound_stream, rcv, ackd, nxt, tries, snd in *.
  rewrite mo_recv, st_acked, st_window. split_and!; try done; try congruence.
  unfold flight, limit in *. rewrite lo_next0, lo_acked0, lo_window0 in mo_bound. lia.
Qed.

Lemma local_flow_out a a' b wa wb ticks wa' wb' ticks' s1 more :
  ninv a b wa wb ticks → ninv a' b wa' wb' ticks' → sized a' b → local a a' s1 more → ackd a <= got (rcv b) →
  flow a b (segments_out (conn a)) → flow a' b (segments_out (conn a')).
Proof.
  intros Hn Hn' Hsz Hl Hack []. pose proof (local_later _ _ _ _ Hl) as Hla.
  destruct (local_facts _ _ _ _ Hl) as (Er & Eo & Ea & Ew & Hb & Ec & _). pose proof Hl as [[ms Hm]]. rewrite Eo. split.
  - intros i Hi. destruct (decide (i < nxt a)) as [Hlt|Hge].
    + destruct (fl_cover0 i) as [Hh|Hx]; [lia|left|right; apply Exists_app; left].
      * exact (has_later b a a' wb wa ticks i (ninv_sym _ _ _ _ _ Hn) Hla Hh).
      * eapply Exists_impl; [exact Hx|]. intros x. by apply carries_later.
    + right. apply Exists_app. right. apply (mo_carry _ _ _ _ _ Hm i). simpl. rewrite lo_next0. unfold nxt, snd in *. lia.
  - destruct fl_open0 as [?|[Hnx Hw]]; [by left|]. destruct (TCPReceiver.syn (rcv b)) eqn:Es; [by left|right].
    rewrite Ew. split; [|done]. assert (got (rcv b) = 0) by (unfold got; by rewrite Es). unfold flight, limit in *. fold (nxt a) (ackd a) in *. lia.
  - unfold tells in *. rewrite Er, Ec. apply Forall_app. split; [done|].
    pose proof (mo_report _ _ _ _ _ Hm) as Hrep. simpl in Hrep. eapply Forall_impl; [exact Hrep|]. intros x Hx.
    rewrite <- Er, <- Ec. apply (reported_tells b a' wb' wa' ticks' x); [by apply ninv_sym|by apply sized_sym|]. by rewrite Er.
  - rewrite Er. destruct fl_ack0 as [?|Hx]; [by left|right]. apply Exists_app. by left.
  - by rewrite Er.
Qed.

Lemma local_flow_in a a' b s1 more q : local a a' s1 more → flow b a q → flow b a' q.
Proof.
  intros Hl []. pose proof (local_later _ _ _ _ Hl) as Hla. destruct (local_facts _ _ _ _ Hl) as (Er & _ & Ea & _).
  split; rewrite ?Er, ?Ea; try done.
  - eapply Forall_impl; [exact fl_sane0|]. intros x. by apply tells_later.
  - destruct fl_ack0 as [?|Hx]; [by left|right]. eapply Exists_impl; [exact Hx|]. intros x. by apply acks_later.
Qed.

(** ** A run of segments *)

(** How far [b] has come while segments of [a] arrived. *)
Record advanced (a b b' : endpoint) : Prop := mk_advanced {
  ad_later : later (snd b) (snd b') (written b) (written b');
  ad_written : written b' = written b;
  ad_wire : wire b' = wire b;
  ad_got : got (rcv b) <= got (rcv b');
  ad_acked : ackd b <= ackd b';
  ad_tries : 0 <= tries b' <= tries b ∧ (ackd b < ackd b' → tries b' = 0);
  ad_end : window_end (TCPReceiver.reassembler (rcv b')) = window_end (TCPReceiver.reassembler (rcv b));
  ad_capacity : recv_capacity b' = recv_capacity b;
  ad_window : TCPSender.window_size (snd b') <= Z.max (TCPSender.window_size (snd b)) (recv_capacity a);
  ad_flight : flight (snd b') <= Z.max (flight (snd b)) (Z.max 1 (Z.max (TCPSender.window_size (snd b)) (recv_capacity a)));
  ad_ended : ByteStream.input_ended_flag (TCPSender.stream (snd b')) = ByteStream.input_ended_flag (TCPSender.stream (snd b));
  ad_room : ByteStream.capacity (TCPSender.stream (snd b')) = ByteStream.capacity (TCPSender.stream (snd b));
  ad_cfg : cfg (conn b') = cfg (conn b);
  ad_timer : last_seg_timer (conn b') = 0 ∨ last_seg_timer (conn b') = last_seg_timer (conn b);
}.

Lemma advanced_refl a b wa wb ticks : ninv a b wa wb ticks → advanced a b b.
Proof.
  intros Hn. pose proof (ci_send _ _ _ _ (ni_b _ _ _ _ _ Hn)) as Hs. pose proof (si_tries _ _ Hs).
  split; try done; try lia; [by apply later_refl|unfold tries in *; split; lia].
Qed.

Lemma advanced_trans a b1 b2 b3 : advanced a b1 b2 → advanced a b2 b3 → advanced a b1 b3.
Proof.
  intros [] []. split; try congruence; try lia.
  by eapply later_trans.
Qed.

Lemma delivered_advanced a b b' wa wb ticks n g r w' empty more :
  ninv a b wa wb ticks → delivered a b b' g r empty more → taken a b wb n g r w' → advanced a b b'.
Proof.
  intros Hn Hd Ht. pose proof (delivered_later _ _ _ _ _ _ _ Hd) as Hl. pose proof (si_tries _ _ (la_inv _ _ _ _ Hl)) as Ht0.
  pose proof (delivered_acked _ _ _ _ _ _ _ Hd) as (Ea & Et & Ew). pose proof (got_kept a b wa wb ticks Hn n g r w' Ht) as Hk.
  pose proof Hd as [Hr Hh Hm]. pose proof Hh as []. pose proof Hm as [].
  assert (Hwin : TCPSender.window_size (snd b') <= Z.max (TCPSender.window_size (snd b)) (recv_capacity a)).
  { rewrite Ew. destruct he_window0 as [->|[_ ?]]; lia. }
  split; try done.
  - by rewrite Hr.
  - rewrite Ea. lia.
  - destruct he_tries0 as [Hle Hz]. rewrite <- Et in Hle, Hz. rewrite <- Ea in Hz. split; [|done]. unfold tries, snd in *. lia.
  - rewrite Hr. apply Ht.
  - unfold recv_capacity, TCPConnection.inbound_stream. fold (rcv b') (rcv b). rewrite Hr. apply Ht.
  - unfold flight, limit in *. fold (ackd b) (nxt b) (ackd b') (nxt b'). rewrite he_next0 in mo_bound.
    rewrite Ew in Hwin. rewrite Ea. change (TCPSender.next_abs_seqno (sender (conn b'))) with (nxt b') in mo_bound. lia.
  - unfold snd. rewrite mo_ended, he_stream0. done.
  - unfold snd. rewrite mo_capacity, he_stream0. done.
  - by rewrite mo_cfg, acked_with.
  - left. by rewrite mo_timer, acked_with.
Qed.

(** An empty segment of a sender that has nothing more to say. *)
Definition idle (a : endpoint) (g : TCPSegment.t) : Prop :=
  TCPSegment.length_in_sequence_space g = 0 ∧ TCPHeader.seqno (TCPSegment.header g) = wrap (nxt a) (TCPSender.isn (snd a)).

Lemma sub_n_ne k : WrappingInt32.ok k → WrappingInt32.sub_n k 1 ≠ k.
Proof.
  intros Hk E. apply (f_equal WrappingInt32.raw_value) in E. revert E Hk. unfold WrappingInt32.ok.
  unfold WrappingInt32.sub_n, WrappingInt32.add, WrappingInt32.of_raw. cbn [WrappingInt32.raw_value]. rewrite w32_add_idemp_r.
  unfold_w. zmod_lia.
Qed.

(** A finished sender answers with idle segments only, and not at all to an idle
    segment of a peer whose stream is complete. *)
Definition quiet (a b b' : endpoint) (segs : list TCPSegment.t) : Prop :=
  TCPSender.fined_ (snd b) = true → nxt b' = nxt b ∧ ∃ more, segments_out (conn b') = segments_out (conn b) ++ more ∧
    Forall (idle b) more ∧ (got (rcv b) = nxt a → Forall (idle a) segs → more = []).

Lemma delivered_quiet a b b' wa wb ticks n g r w' empty more :
  ready a b wa wb ticks → delivered a b b' g r empty more → taken a b wb n g r w' → quiet a b b' [g].
Proof.
  intros [] Hd Ht Hf. pose proof (delivered_out _ _ _ _ _ _ _ Hd) as Ho. destruct Hd, de_heed0. pose proof de_moved0 as [].
  rewrite <- he_fined0 in Hf. split.
  { unfold nxt at 1, snd. rewrite mo_sat by (by left). exact he_next0. }
  exists more. split; [done|]. destruct (mo_fined Hf) as (k & Em).
  { rewrite he_queue0, acked_with. apply (ca_queue _ _ rd_calm0). }
  rewrite Em. split.
  - destruct (_ && _); [|done]. apply Forall_singleton. split; [by rewrite stamped_length|].
    unfold stamped. rewrite acked_with. cbn [TCPConnection.rst with_sender with_receiver with_timer]. rewrite (ca_rst _ _ rd_calm0).
    rewrite <- he_next0, <- (la_isn _ _ _ _ he_later0). by destruct k.
  - intros Hg [[Hlen Hseq] _]%Forall_cons. destruct empty; [exfalso|by rewrite andb_false_r].
    destruct (de_keep0 Hlen eq_refl) as (k' & Hk & Hs).
    assert (Hw : window_end (TCPReceiver.reassembler r) < 0x4000000000000000)
      by (rewrite (ta_window _ _ _ _ _ _ _ Ht); by eapply window_bound).
    destruct (got_report _ _ _ (ta_eq _ _ _ _ _ _ _ Ht) Hw) as [Hrep _]. rewrite Hrep in Hk.
    destruct (TCPReceiver.syn r) eqn:Es; [|done]. injection Hk as <-.
    rewrite (got_empty a b wa wb ticks rd_inv0 n g r w' Ht Hlen), Hg, (ta_peer _ _ _ _ _ _ _ Ht Es), Hseq in Hs.
    symmetry in Hs. by apply sub_n_ne in Hs; [|apply wrap_ok].
Qed.

Lemma quiet_trans a b1 b2 b3 wa wb2 ticks segs1 segs2 :
  ninv a b2 wa wb2 ticks → TCPSender.syned_ (snd a) = true → advanced a b1 b2 → quiet a b1 b2 segs1 → quiet a b2 b3 segs2 →
  quiet a b1 b3 (segs1 ++ segs2).
Proof.
  intros Hn Hsy Had H1 H2 Hf. destruct (H1 Hf) as (N1 & m1 & O1 & I1 & Q1).
  assert (Hf2 : TCPSender.fined_ (snd b2) = true).
  { destruct (la_grows _ _ _ _ (ad_later _ _ _ Had)) as [[_ ->]|[? _]]; [done|congruence]. }
  destruct (H2 Hf2) as (N2 & m2 & O2 & I2 & Q2). split; [congruence|]. exists (m1 ++ m2). rewrite O2, O1, app_assoc.
  split; [done|]. split.
  - apply Forall_app. split; [done|]. eapply Forall_impl; [exact I2|]. intros g. unfold idle.
    by rewrite N1, (la_isn _ _ _ _ (ad_later _ _ _ Had)).
  - intros Hg [Hs1 Hs2]%Forall_app. rewrite (Q1 Hg Hs1). apply Q2; [|done].
    pose proof (got_next _ _ _ _ _ Hn Hsy). pose proof (ad_got _ _ _ Had). lia.
Qed.

(** One segment of those in transit arrives at [b]. *)
Lemma deliver `{EndKeyFresh} a b wa wb ticks g q :
  ready a b wa wb ticks → flow a b (g :: q) → flow b a (segments_out (conn b)) → g ∈ wire a →
  ∃ b' wb', TCPConnection.segment_received (conn b) g = Ok (conn b') ∧ ready a b' wa (wb ++ wb') ticks ∧
    flow a b' q ∧ flow b' a (segments_out (conn b')) ∧ advanced a b b' ∧ quiet a b b' [g].
Proof.
  intros Hrd Hf Hf' Hw. pose proof (Forall_inv (fl_sane _ _ _ Hf)) as Htell.
  destruct (deliver_step a b wa wb ticks g Hrd (fl_acked _ _ _ Hf) Htell Hw)
    as (b' & n & r & w' & w2 & empty & more & E & Hn' & Hd & Ht & Hcap & Er).
  exists b', w2. split; [done|]. pose proof (delivered_advanced _ _ _ _ _ _ _ _ _ _ _ _ (rd_inv _ _ _ _ _ Hrd) Hd Ht) as Had.
  split_and!; [|by eapply deliver_flow_in|by eapply deliver_flow_out|done|by eapply delivered_quiet].
  pose proof Hrd as []. pose proof Hd as [_ _ []]. split; try done.
  - by eapply delivered_sized.
  - by rewrite (ad_written _ _ _ Had).
  - destruct (ad_tries _ _ _ Had). lia.
  - by rewrite (ad_end _ _ _ Had).
Qed.

(** ** The owner's operations *)

Lemma saturated_same s s' v :
  saturated s v → TCPSender.stream s' = TCPSender.stream s → TCPSender.fined_ s' = TCPSender.fined_ s →
  TCPSender.syned_ s' = TCPSender.syned_ s → TCPSender.next_abs_seqno s' = TCPSender.next_abs_seqno s →
  TCPSender.last_acked_abs_seqno s' = TCPSender.last_acked_abs_seqno s → TCPSender.window_size s' = TCPSender.window_size s →
  saturated s' v.
Proof. unfold saturated, limit, flight. intros ? -> -> -> -> -> ->. done. Qed.

(** A finished sender keeps nothing for retransmission. *)
Lemma full_fined_sent s v : sinv s v → TCPSender.full_fined s = true → TCPSender.sent s = [].
Proof.
  intros Hs [_ Hn%Z.eqb_eq]%andb_prop. destruct (si_sent _ _ Hs) as (lo & Hlo & Ho). unfold oldest in Hlo.
  destruct (TCPSender.sent s) as [|y l]; [done|]. simpl in Ho. destruct Ho as (_ & _ & _ & _ & Ho). apply outstanding_le in Ho. lia.
Qed.

(** [tick], for an endpoint. *)
Lemma tick_local a b wa wb ticks ms c :
  ninv a b wa wb ticks → sized a b → calm (conn a) (written a) → plain (snd a) → tries a <= 7 →
  tick (conn a) ms = Ok c →
  let a' := mk_endpoint c (written a) (wire a) in
  ∃ more, local a a' (TCPSender.tick (snd a) ms) more ∧ calm c (written a) ∧ plain (snd a') ∧
    nxt a' = nxt a ∧ (tries a' = tries a ∨ tries a' = tries a + 1 ∧ ackd a < nxt a) ∧
    last_seg_timer c = w64 (last_seg_timer (conn a) + ms) ∧ cfg c = cfg (conn a) ∧
    ByteStream.input_ended_flag (TCPSender.stream (snd a')) = ByteStream.input_ended_flag (TCPSender.stream (snd a)) ∧
    ByteStream.capacity (TCPSender.stream (snd a')) = ByteStream.capacity (TCPSender.stream (snd a)) ∧
    (active c = true → active (conn a) = true ∧ (TCPSender.full_fined (snd a) = true → TCPReceiver.full_fined (rcv a) = true →
       linger_after_streams_finish c = true ∧
       w64 (last_seg_timer (conn a) + ms) < 10 * TCPConfig.rt_timeout (cfg (conn a)))) ∧
    (TCPSender.full_fined (snd a) = true → more = []).
Proof.
  intros Hn (Hsa & _) Hcalm Hp Ht E a'. pose proof (ni_a _ _ _ _ _ Hn) as Hc. pose proof (ci_send _ _ _ _ Hc) as Hs.
  destruct (tick_moves _ (conn a) wa (written a) ms Hc ltac:(lia) Hcalm Hp Ht) as (c' & more & E' & Hm).
  assert (c' = c) as -> by congruence.
  assert (Hu : TCPSender.resend_try_times (sender (conn a)) < UINT32_MAX) by (unfold tries, UINT32_MAX in *; lia).
  destruct (tick_spec _ (written a) ms Hs Hu) as (Hs1 & Est & En & Ea & Ese & Ew & _ & Esy & Efd & _ & Hrest).
  assert (Hl : local a a' (TCPSender.tick (snd a) ms) more).
  { split; try done; [by eexists|by apply later_tick]. }
  exists more. destruct (local_facts _ _ _ _ Hl) as (_ & _ & _ & _ & _ & _ & Et). pose proof Hm as [].
  split; [done|]. split; [done|]. split; [done|]. split_and!; try done.
  - unfold nxt, snd. simpl. rewrite mo_sat; [done|]. by eapply saturated_same; [apply Hcalm|..].
  - rewrite Et. destruct (expired (sender (conn a)) ms) eqn:Eex; [|left; apply Hrest].
    destruct Hrest as ((x & Hx & _) & _ & Hrest). destruct (_ =? 0); destruct Hrest as [_ Hrest]; [by left|right]. split; [done|].
    destruct (si_sent _ _ Hs) as (lo & Hlo & Ho). unfold oldest in Hlo. destruct (TCPSender.sent (sender (conn a))) as [|y l]; [done|].
    simpl in Ho. destruct Ho as (_ & _ & _ & _ & Ho). apply outstanding_le in Ho. unfold ackd, nxt, snd. lia.
  - unfold snd. simpl. rewrite mo_ended. simpl. by rewrite Est.
  - unfold snd. simpl. rewrite mo_capacity. simpl. by rewrite Est.
  - intros Hact. destruct (mo_life Hact) as [Ha Hlf]. split; [done|]. intros Hf1 Hf2.
    destruct Hlf as [Hlg Htm]; [|by split; [|apply Htm]]. simpl. unfold TCPSender.full_fined in *. by rewrite En, Ea, Efd.
  - intros Hff. pose proof (full_fined_sent _ _ Hs Hff) as Hse. apply andb_prop in Hff as [Hfd _].
    destruct mo_fined as (k & ->); [by simpl; rewrite Efd| |by rewrite andb_false_r].
    simpl. intros Hact. unfold TCPSender.tick. rewrite Hse. simpl. by apply Hcalm.
Qed.
