(* ===== verification/Benchmark.v ===== *)
(** * The benchmark: apps/tcp_benchmark.cc

    Two connections in one process. The driver writes a string into the first,
    moves the segments between the two by hand, in order or reversed, lets time
    pass, and compares what comes out of the second with what it wrote. The
    module [Benchmark] translates the program; the random string and the random
    initial sequence numbers are arguments, and its loops run on fuel, one unit
    per round. The measured throughput is not modelled. *)

From S2P Require Import Prelude Buffers Wrapping Stream Reassembly ReassemblySpec Segment Printing.
From S2P Require Import Receiver Sender SenderSpec Connection ConnectionSpec EndToEnd.

Module Benchmark.

(** The body of the two loops of lines 20 to 27. *)
Fixpoint receive_all `{StreamReassembler.EndKey} (y : TCPConnection.t) (segments : list TCPSegment.t) :
    result TCPConnection.t :=
  match segments with
  | [] => Ok y
  | g :: rest => y' ← TCPConnection.segment_received y g; receive_all y' rest
  end.

(** Returns [x], [y] and the vector of segments. *)
Definition move_segments `{StreamReassembler.EndKey} (x y : TCPConnection.t) (segments : list TCPSegment.t)
    (reorder : bool) : result (TCPConnection.t * TCPConnection.t * list TCPSegment.t) :=
  let segments := segments ++ TCPConnection.segments_out x in
  let x := TCPConnection.with_segments_out x [] in
  y ← receive_all y (if reorder then reverse segments else segments);
  Ok (x, y, []).

(** The variables that the lambda of [main_loop] captures. *)
Record t := mk {
  x : TCPConnection.t;
  y : TCPConnection.t;
  bytes_to_send : Buffer.t;
  x_closed : bool;
  string_received : bytes;
}.

(** Lines 53 to 60. *)
Fixpoint write_input (fuel : nat) (x : TCPConnection.t) (bytes_to_send : Buffer.t) :
    result (TCPConnection.t * Buffer.t) :=
  if negb (Buffer.size bytes_to_send =? 0) && negb (TCPConnection.remaining_outbound_capacity x =? 0) then
    match fuel with
    | O => Err out_of_fuel
    | S fuel' =>
        let want := Z.min (TCPConnection.remaining_outbound_capacity x) (Buffer.size bytes_to_send) in
        '(x, written) ← TCPConnection.write x (ztake want (Buffer.str bytes_to_send));
        if negb (want =? written) then
          Err (runtime_error ("want = " ++ to_string want ++ ", written = " ++ to_string written)%string)
        else
          bytes_to_send ← Buffer.remove_prefix bytes_to_send written;
          write_input fuel' x bytes_to_send
    end
  else Ok (x, bytes_to_send).

(** Lines 62 to 65. *)
Definition close_input (x : TCPConnection.t) (bytes_to_send : Buffer.t) (x_closed : bool) :
    result (TCPConnection.t * bool) :=
  if (Buffer.size bytes_to_send =? 0) && negb x_closed
  then x ← TCPConnection.end_input_stream x; Ok (x, true)
  else Ok (x, x_closed).

(** Lines 73 to 76. *)
Definition read_output (y : TCPConnection.t) (string_received : bytes) : result (TCPConnection.t * bytes) :=
  let available_output := ByteStream.buffer_size (TCPConnection.inbound_stream y) in
  if 0 <? available_output then
    '(st, data) ← ByteStream.read (TCPConnection.inbound_stream y) available_output;
    Ok (TCPConnection.with_receiver y (TCPReceiver.with_stream (TCPConnection.receiver y) st), string_received ++ data)
  else Ok (y, string_received).

(** The lambda. The write loop takes at least one byte per round. *)
Definition loop `{StreamReassembler.EndKey} (reorder : bool) (s : t) : result t :=
  '(x1, bytes) ← write_input (Z.to_nat (Buffer.size (bytes_to_send s))) (x s) (bytes_to_send s);
  '(x2, closed) ← close_input x1 bytes (x_closed s);
  '(x3, y1, segments) ← move_segments x2 (y s) [] reorder;
  '(y2, x4, _) ← move_segments y1 x3 segments false;
  '(y3, received) ← read_output y2 (string_received s);
  x5 ← TCPConnection.tick x4 1000;
  y4 ← TCPConnection.tick y3 1000;
  Ok (mk x5 y4 bytes closed received).

(** [while (cond) loop();] *)
Fixpoint while `{StreamReassembler.EndKey} (fuel : nat) (cond : t → bool) (reorder : bool) (s : t) : result t :=
  if cond s then
    match fuel with
    | O => Err out_of_fuel
    | S fuel' => s' ← loop reorder s; while fuel' cond reorder s'
    end
  else Ok s.

Definition receiving (s : t) : bool := negb (ByteStream.eof (TCPConnection.inbound_stream (y s))).

Definition running (s : t) : bool := TCPConnection.active (x s) || TCPConnection.active (y s).

(** Lines 32 to 46: the state before the first round. *)
Definition start (config : TCPConfig.t) (random_x random_y : Z) (string_to_send : bytes) : result t :=
  x ← TCPConnection.connect (TCPConnection.new config random_x);
  y ← TCPConnection.end_input_stream (TCPConnection.new config random_y);
  Ok (mk x y (Buffer.of_string string_to_send) false []).

Definition main_loop `{StreamReassembler.EndKey} (fuel : nat) (config : TCPConfig.t) (random_x random_y : Z)
    (string_to_send : bytes) (reorder : bool) : result t :=
  s ← start config random_x random_y string_to_send;
  s ← while fuel receiving reorder s;
  if negb (bool_decide (string_received s = string_to_send))
  then Err (runtime_error "strings sent vs. received don't match")
  else while fuel running reorder s.

(** Two runs, each with its own random choices; the exit status. *)
Definition main `{StreamReassembler.EndKey} (fuel : nat) (random : bool → Z * Z * bytes) : Z :=
  let run reorder := let '(rx, ry, str) := random reorder in main_loop fuel TCPConfig.default rx ry str reorder in
  match (_ ← run false; run true) with
  | Ok _ => EXIT_SUCCESS
  | Err _ => EXIT_FAILURE
  end.

End Benchmark.

Import Benchmark.

(** ** What the operations of a connection do to its sender

    A predicate on senders that every internal operation keeps is kept by every
    operation of the connection except [write]. *)
Section sender_predicate.
Context (Q : TCPSender.t → Prop).
Context (Q_fill : ∀ s s', Q s → TCPSender.fill_window s = Ok s' → Q s')
  (Q_ack : ∀ s a win, Q s → Q (TCPSender.ack_received s a win))
  (Q_tick : ∀ s ms, Q s → Q (TCPSender.tick s ms))
  (Q_queue : ∀ s q, Q s → Q (TCPSender.with_segments_out s q))
  (Q_error : ∀ s, Q s → Q (TCPSender.with_stream s (ByteStream.set_error (TCPSender.stream s))))
  (Q_end : ∀ s, Q s → Q (TCPSender.with_stream s (ByteStream.end_input (TCPSender.stream s)))).

Let Qc (c : TCPConnection.t) : Prop := Q (TCPConnection.sender c).

Lemma pull_push_segments_sender c c' : Qc c → TCPConnection.pull_push_segments c = Ok c' → Qc c'.
Proof.
  intros Hc Hp. unfold TCPConnection.pull_push_segments in Hp. apply result_bind_Ok in Hp as (out & _ & Hp).
  injection Hp as <-. by apply Q_queue.
Qed.

Lemma fully_dead_sender c e c' : Qc c → TCPConnection.fully_dead c e = Ok c' → Qc c'.
Proof.
  intros Hc Hd. unfold TCPConnection.fully_dead in Hd. apply result_bind_Ok in Hd as (c1 & E1 & Hd).
  apply result_bind_Ok in Hd as (c2 & E2 & Hd). injection Hd as <-.
  change (Qc c2). eapply pull_push_segments_sender; [|exact E2]. destruct (e =? 0).
  - apply result_bind_Ok in E1 as (s & Es & E1). injection E1 as <-. by eapply Q_fill.
  - injection E1 as <-. destruct (_ && _); apply Q_error; [|done]. by apply Q_queue.
Qed.

Lemma judge_do_sender c c' : Qc c → TCPConnection.judge_do c = Ok c' → Qc c'.
Proof.
  intros Hc Hj. unfold TCPConnection.judge_do in Hj. destruct (negb (TCPConnection.active c)); [by inv_ok|].
  repeat match type of Hj with context [if ?b then _ else _] => destruct b end;
    (eapply fully_dead_sender; [|exact Hj]; done) || (eapply pull_push_segments_sender; [|exact Hj]; done).
Qed.

Lemma fill_if_syned_sender c c' : Qc c → TCPConnection.fill_if_syned c = Ok c' → Qc c'.
Proof.
  intros Hc Hf. unfold TCPConnection.fill_if_syned in Hf. destruct (TCPSender.syned _); [|by inv_ok].
  apply result_bind_Ok in Hf as (s & Es & Hf). injection Hf as <-. by eapply Q_fill.
Qed.

Lemma connect_sender c c' : Qc c → TCPConnection.connect c = Ok c' → Qc c'.
Proof.
  intros Hc Hs. unfold TCPConnection.connect in Hs. apply result_bind_Ok in Hs as (s & Es & Hs).
  eapply judge_do_sender; [|exact Hs]. by eapply Q_fill.
Qed.

Lemma segment_received_sender `{StreamReassembler.EndKey} c seg c' :
  Qc c → TCPConnection.segment_received c seg = Ok c' → Qc c'.
Proof.
  intros Hc Hs. unfold TCPConnection.segment_received in Hs.
  destruct (TCPHeader.rst _); [by eapply judge_do_sender; [|exact Hs]|].
  apply result_bind_Ok in Hs as (r & _ & Hs). destruct (_ && _); [by eapply connect_sender; [|exact Hs]|].
  unfold TCPConnection.segment_handled in Hs. apply result_bind_Ok in Hs as (c2 & E2 & Hs).
  apply fill_if_syned_sender in E2; [|destruct (TCPHeader.ack _); [by apply Q_ack|done]].
  apply result_bind_Ok in Hs as (b & _ & Hs). eapply judge_do_sender; [|exact Hs].
  destruct (_ && _), b; try done; by apply Q_queue.
Qed.

Lemma tick_sender c ms c' : Qc c → TCPConnection.tick c ms = Ok c' → Qc c'.
Proof.
  intros Hc Ht. unfold TCPConnection.tick in Ht. apply result_bind_Ok in Ht as (c1 & E1 & Ht).
  eapply judge_do_sender; [|exact Ht]. eapply fill_if_syned_sender; [|exact E1]. by apply Q_tick.
Qed.

Lemma end_input_sender c c' : Qc c → TCPConnection.end_input_stream c = Ok c' → Qc c'.
Proof.
  intros Hc He. unfold TCPConnection.end_input_stream in He. apply result_bind_Ok in He as (s & Es & He).
  eapply judge_do_sender; [|exact He]. eapply Q_fill; [|exact Es]. by apply Q_end.
Qed.

Lemma receive_all_sender `{StreamReassembler.EndKey} segs c c' : Qc c → receive_all c segs = Ok c' → Qc c'.
Proof.
  revert c. induction segs as [|g segs IH]; intros c Hc Hr; simpl in Hr; [by inv_ok|].
  apply result_bind_Ok in Hr as (c1 & E1 & Hr). eapply IH; [|exact Hr]. by eapply segment_received_sender.
Qed.

End sender_predicate.

(** A sender that has sent its FIN has nothing left in its stream. *)
Definition drained (s : TCPSender.t) : Prop :=
  TCPSender.fined_ s = true → ByteStream.buffer_empty (TCPSender.stream s) = true.

Lemma fill_once_drained s allow s' more :
  drained s → TCPSender.fined_ s = false → TCPSender.fill_once s allow = Ok (s', more) → drained s'.
Proof.
  intros Hs Hf E. unfold TCPSender.fill_once in E. cbv zeta in E. apply result_bind_Ok in E as ([st data] & _ & E).
  rewrite Hf in E. destruct (_ =? 0) in E; injection E as <- <-; intros Hfin; simpl in *; by bool_to_prop.
Qed.

Lemma fill_window_drained s s' : drained s → TCPSender.fill_window s = Ok s' → drained s'.
Proof.
  unfold TCPSender.fill_window. generalize (S (S (Z.to_nat (TCPSender.window_size s)))).
  generalize (if TCPSender.window_size s =? 0 then 1 else 0). intros ex fuel. revert ex s.
  induction fuel as [|fuel IH]; intros ex s Hs Hf; simpl in Hf; [done|].
  destruct (_ <? _); [|by inv_ok]. destruct (TCPSender.fined_ s) eqn:Ef; [by inv_ok|].
  apply result_bind_Ok in Hf as ([s1 more] & E1 & Hf). apply fill_once_drained in E1; [|done|done].
  destruct more; [by eapply IH|by inv_ok].
Qed.

Lemma ack_received_drained s a win : drained s → drained (TCPSender.ack_received s a win).
Proof. intros Hs. unfold TCPSender.ack_received. destruct (_ || _); [done|]. by destruct (TCPSender.sent s). Qed.

Lemma sender_tick_drained s ms : drained s → drained (TCPSender.tick s ms).
Proof. intros Hs. unfold TCPSender.tick. destruct (TCPSender.sent s); [done|]. by destruct (_ <=? _). Qed.

#[export] Hint Resolve fill_window_drained ack_received_drained sender_tick_drained : sponge.

(** What the driver knows of the sender of [x]: it is drained, and its input has
    ended only if [done]. *)
Definition sender_ok (done : Prop) (s : TCPSender.t) : Prop :=
  drained s ∧ (ByteStream.input_ended_flag (TCPSender.stream s) = true → done).

Lemma fill_window_sender_ok done s s' : sender_ok done s → TCPSender.fill_window s = Ok s' → sender_ok done s'.
Proof.
  intros [Hd He] Hf. split; [by eapply fill_window_drained|]. intros Hend. apply He. revert Hf Hend. clear.
  unfold TCPSender.fill_window. generalize (S (S (Z.to_nat (TCPSender.window_size s)))).
  generalize (if TCPSender.window_size s =? 0 then 1 else 0). intros ex fuel. revert ex s.
  induction fuel as [|fuel IH]; intros ex s Hf Hend; simpl in Hf; [done|].
  destruct (_ <? _); [|by inv_ok]. destruct (TCPSender.fined_ s); [by inv_ok|].
  apply result_bind_Ok in Hf as ([s1 more] & E1 & Hf).
  assert (Hs1 : ByteStream.input_ended_flag (TCPSender.stream s1) = ByteStream.input_ended_flag (TCPSender.stream s)).
  { unfold TCPSender.fill_once in E1. cbv zeta in E1. apply result_bind_Ok in E1 as ([st data] & Er & E1).
    unfold ByteStream.read in Er. apply result_bind_Ok in Er as (st' & Ep & Er). injection Er as -> _.
    unfold ByteStream.pop_output in Ep. apply result_bind_Ok in Ep as (buf & _ & Ep). injection Ep as <-.
    destruct (_ =? 0) in E1; by injection E1 as <- <-. }
  rewrite <- Hs1. destruct more; [by eapply IH|by inv_ok].
Qed.

Lemma ack_received_sender_ok done s a win : sender_ok done s → sender_ok done (TCPSender.ack_received s a win).
Proof.
  intros [Hd He]. split; [auto with sponge|]. unfold TCPSender.ack_received. destruct (_ || _); [done|].
  by destruct (TCPSender.sent s).
Qed.

Lemma sender_tick_sender_ok done s ms : sender_ok done s → sender_ok done (TCPSender.tick s ms).
Proof.
  intros [Hd He]. split; [auto with sponge|]. unfold TCPSender.tick. destruct (TCPSender.sent s); [done|].
  by destruct (_ <=? _).
Qed.

#[export] Hint Resolve fill_window_sender_ok ack_received_sender_ok sender_tick_sender_ok : sponge.

(** ** The invariant of the benchmark

    The endpoints [a] and [b] around the connections [x] and [y]; [wa] and [wb]
    have come out at each. The owner of [y] never writes. *)
Definition size_bound : Z := 0x7ffffffd.

Record bnet (str : bytes) (rest : Buffer.t) (received : bytes) (a b : endpoint) (wa wb : bytes) (ticks : Z) : Prop := mk_bnet {
  bn_net : ninv a b wa wb ticks;
  bn_rest : Buffer.ok rest;
  bn_str : written a ++ Buffer.str rest = str;
  bn_quiet : written b = [];
  bn_sender : sender_ok (Buffer.size rest = 0) (TCPConnection.sender (conn a));
  bn_received : received = ztake (consumed b) wb;
  bn_caps : recv_capacity a < 0x2000000000000000 ∧ recv_capacity b < 0x2000000000000000;
}.

Section rounds.
Context `{EndKeyFresh} (str : bytes) (Hstr : blen str < size_bound).

Lemma bnet_written rest received a b wa wb ticks : bnet str rest received a b wa wb ticks → blen (written a) <= blen str.
Proof. intros []. rewrite <- bn_str0, blen_app. pose proof (blen_nonneg (Buffer.str rest)). lia. Qed.

Lemma ninv_consumed a b wa wb ticks : ninv a b wa wb ticks → consumed a <= blen wa.
Proof.
  intros [[Hr _ _] _ _ _ _]. apply (ByteStream.rep_read _ _ (inv_rep _ _ _ (inv_core _ _ _ (ri_re _ _ _ Hr)))).
Qed.

(** An action at the first endpoint that writes nothing. *)
Lemma bnet_act_a o rest received a b wa wb ticks :
  bnet str rest received a b wa wb ticks → action_ok o → action_size o = 0 → ticks < UINT32_MAX →
  ∃ a', act o a (wire b) = Ok a' ∧
    (written a' = written a → sender_ok (Buffer.size rest = 0) (TCPConnection.sender (conn a')) →
     ∃ wa', bnet str rest received a' b (wa ++ wa') wb (ticks + action_ticks o)).
Proof.
  intros Hn Ho Hz Ht. pose proof (bnet_written _ _ _ _ _ _ _ Hn). pose proof Hn as []. unfold size_bound in *.
  destruct (act_inv o a b wa wb ticks) as (a' & E & wa' & Hn' & _ & Hc & _); try done;
    [lia|rewrite bn_quiet0; by rewrite blen_nil|lia|].
  exists a'. split; [done|]. intros Hw Hs. exists wa'. split; try done; [by rewrite Hw|]. by rewrite Hc.
Qed.

Lemma bnet_act_b o rest received a b wa wb ticks :
  bnet str rest received a b wa wb ticks → action_ok o → action_size o = 0 → is_read o = false → ticks < UINT32_MAX →
  ∃ b', act o b (wire a) = Ok b' ∧
    (written b' = written b → ∃ wb', bnet str rest received a b' wa (wb ++ wb') (ticks + action_ticks o)).
Proof.
  intros Hn Ho Hz Hrd Ht. pose proof (bnet_written _ _ _ _ _ _ _ Hn). pose proof Hn as []. unfold size_bound in *.
  destruct (act_inv o b a wb wa ticks (ninv_sym _ _ _ _ _ bn_net0)) as (b' & E & wb' & Hn' & _ & Hc & Hcon & _); try done;
    [rewrite bn_quiet0, blen_nil; lia|lia|lia|].
  exists b'. split; [done|]. intros Hw. exists wb'.
  split; try done; [by apply ninv_sym|by rewrite Hw| |by rewrite Hc]. rewrite (Hcon Hrd), ztake_app_l; [done|].
  by eapply ninv_consumed, ninv_sym.
Qed.

(** The driver takes the whole queue. *)
Definition flushed (a : endpoint) : endpoint :=
  mk_endpoint (TCPConnection.with_segments_out (conn a) []) (written a) (wire a ++ TCPConnection.segments_out (conn a)).

Lemma ninv_flushed a b wa wb ticks : ninv a b wa wb ticks → ninv (flushed a) b wa wb ticks.
Proof.
  intros [[Hr Hs Ho] Hb Hab Hba Ht]. split; try done; [|by destruct Hba].
  destruct Hab. split; try done. simpl. by apply Forall_app.
Qed.

Lemma bnet_flushed_a rest received a b wa wb ticks : bnet str rest received a b wa wb ticks → bnet str rest received (flushed a) b wa wb ticks.
Proof. intros []. split; try done. by apply ninv_flushed. Qed.

Lemma bnet_flushed_b rest received a b wa wb ticks : bnet str rest received a b wa wb ticks → bnet str rest received a (flushed b) wa wb ticks.
Proof. intros []. split; try done. by apply ninv_sym, ninv_flushed, ninv_sym. Qed.

(** [write] reports what the stream took. *)
Lemma write_reports c data c' n :
  TCPConnection.write c data = Ok (c', n) → n = Z.min (blen data) (TCPConnection.remaining_outbound_capacity c).
Proof.
  unfold TCPConnection.write, TCPConnection.remaining_outbound_capacity. intros Hw.
  destruct (ByteStream.write _ _) as [st k] eqn:E. apply result_bind_Ok in Hw as (c1 & _ & Hw).
  apply result_bind_Ok in Hw as (c2 & _ & Hw). injection Hw as _ <-. unfold ByteStream.write in E. by injection E as _ <-.
Qed.

(** Writing to an open stream leaves it open. *)
Lemma write_sender_ok c data c' n done :
  TCPSender.fined_ (TCPConnection.sender c) = false →
  ByteStream.input_ended_flag (TCPSender.stream (TCPConnection.sender c)) = false →
  TCPConnection.write c data = Ok (c', n) → sender_ok done (TCPConnection.sender c').
Proof.
  intros Hf Hi Hw. unfold TCPConnection.write in Hw. destruct (ByteStream.write _ _) as [st k] eqn:E.
  apply result_bind_Ok in Hw as (c1 & E1 & Hw). apply result_bind_Ok in Hw as (c2 & E2 & Hw). injection Hw as <- _.
  eapply judge_do_sender; [..|exact E2]; eauto with sponge.
  eapply fill_if_syned_sender; [..|exact E1]; eauto with sponge. split; simpl; [intros Hf'; simpl in Hf'; congruence|].
  unfold ByteStream.write in E. injection E as <- _. simpl. unfold TCPSender.stream_in in *. congruence.
Qed.

Lemma bnet_open rest received a b wa wb ticks :
  bnet str rest received a b wa wb ticks → Buffer.size rest ≠ 0 →
  TCPSender.fined_ (TCPConnection.sender (conn a)) = false ∧
  ByteStream.input_ended_flag (TCPSender.stream (TCPConnection.sender (conn a))) = false.
Proof.
  intros [Hn _ _ _ [_ Hs] _ _] Hsz. pose proof (si_fined _ _ (ci_send _ _ _ _ (ni_a _ _ _ _ _ Hn))) as Hf.
  destruct (ByteStream.input_ended_flag _); [by destruct (Hsz (Hs eq_refl))|].
  by destruct (TCPSender.fined_ _); [specialize (Hf eq_refl)|].
Qed.

(** One round of the write loop: the stream takes all that is offered. *)
Lemma write_once_inv rest received a b wa wb ticks :
  bnet str rest received a b wa wb ticks → ticks < UINT32_MAX →
  Buffer.size rest ≠ 0 → TCPConnection.remaining_outbound_capacity (conn a) ≠ 0 →
  let want := Z.min (TCPConnection.remaining_outbound_capacity (conn a)) (Buffer.size rest) in
  let data := ztake want (Buffer.str rest) in
  ∃ c rest' wa', TCPConnection.write (conn a) data = Ok (c, want) ∧ Buffer.remove_prefix rest want = Ok rest' ∧
    0 < want ∧ Buffer.size rest' = Buffer.size rest - want ∧ blen data = want ∧
    bnet str rest' received (mk_endpoint c (written a ++ data) (wire a)) b (wa ++ wa') wb ticks.
Proof.
  intros Hn Ht Hsz Hcap want data. pose proof (blen_nonneg (Buffer.str rest)) as Hnn. fold (Buffer.size rest) in Hnn.
  destruct (bnet_open _ _ _ _ _ _ _ Hn Hsz) as [Hf Hi]. pose proof Hn as [Hnet Hok Hs Hq Hso Hrc Hcaps].
  assert (Hcap0 : 0 <= TCPConnection.remaining_outbound_capacity (conn a))
    by (unfold TCPConnection.remaining_outbound_capacity, ByteStream.remaining_capacity; apply w64_range).
  assert (Hdata : blen data = want) by (subst data want; rewrite blen_ztake by lia; unfold Buffer.size in *; lia).
  destruct (act_inv (App_write data) a b wa wb ticks) as (a' & E & wa' & Hn' & _ & Hc' & _); try done; [| |apply Hcaps|].
  { simpl. rewrite Hdata. rewrite <- Hs, blen_app in Hstr. unfold size_bound, Buffer.size in *. lia. }
  { rewrite Hq, blen_nil. done. }
  simpl in E. apply result_bind_Ok in E as ([c n] & E & [= <-]).
  pose proof (write_reports _ _ _ _ E) as Hrep. assert (n = want) as -> by lia.
  destruct (buffer_remove_prefix_spec rest want Hok) as (rest' & Er & Hok' & Hstr'); [lia|].
  exists c, rest', wa'. split_and!; try done; [lia|unfold Buffer.size in *; rewrite Hstr', blen_zdrop by lia; lia|].
  rewrite ztake_all in Hn', Hc' by lia. rewrite Z.add_0_r in Hn'. split; try done.
  - simpl. rewrite <- app_assoc, Hstr'. subst data. by rewrite ztake_zdrop.
  - simpl. eapply write_sender_ok; [exact Hf|exact Hi|exact E].
  - by rewrite Hc'.
Qed.

(** The driver reads all that has come out. *)
Lemma read_output_inv rest received a b wa wb ticks :
  bnet str rest received a b wa wb ticks → ticks < UINT32_MAX →
  ∃ c, read_output (conn b) received = Ok (c, wb) ∧
    bnet str rest wb a (mk_endpoint c (written b) (wire b)) wa wb ticks ∧
    ByteStream.read_count (TCPConnection.inbound_stream c) = blen wb.
Proof.
  intros Hn Ht. pose proof Hn as [Hnet ? ? Hq ? -> Hcaps].
  pose proof (inv_rep _ _ _ (inv_core _ _ _ (ri_re _ _ _ (ci_recv _ _ _ _ (ni_b _ _ _ _ _ Hnet))))) as Hrep.
  change (StreamReassembler.output _) with (TCPConnection.inbound_stream (conn b)) in Hrep.
  unfold read_output, ByteStream.buffer_size. rewrite (ByteStream.rep_size _ _ Hrep). fold (consumed b).
  pose proof (ByteStream.rep_read _ _ Hrep) as Hrd. fold (consumed b) in Hrd.
  destruct (Z.ltb_spec 0 (blen wb - consumed b)) as [Hlt|Hge].
  2:{ exists (conn b). rewrite ztake_all in * by lia. split; [done|]. split; [by destruct b|unfold consumed in *; lia]. }
  destruct (acted_read b a wb wa ticks (blen wb - consumed b) (ninv_sym _ _ _ _ _ Hnet)) as (b' & E & w' & Hn' & _ & Hc & _); [lia|].
  simpl in E. apply result_bind_Ok in E as (st & E & [= <-]).
  destruct (ByteStream.pop_output_spec _ _ (blen wb - consumed b) Hrep ltac:(lia)) as (st' & E' & Hrep' & Hrc & _).
  assert (st' = st) as -> by congruence. fold (consumed b) in Hrc.
  pose proof (inv_rep _ _ _ (inv_core _ _ _ (ri_re _ _ _ (ci_recv _ _ _ _ (ni_a _ _ _ _ _ Hn'))))) as Hrep2.
  pose proof (ByteStream.rep_written _ _ Hrep') as Hw1. pose proof (ByteStream.rep_written _ _ Hrep2) as Hw2.
  simpl in Hw2. rewrite Hw1, blen_app in Hw2.
  assert (w' = []) as -> by (apply blen_0_nil; lia). rewrite app_nil_r in Hn'. simpl in Hn'. rewrite Z.add_0_r in Hn'.
  assert (Hst : ByteStream.read_count st = blen wb) by lia.
  unfold ByteStream.read. rewrite E. cbn [mbind result_bind]. eexists. split; [|split].
  - rewrite (ByteStream.peek_output_spec _ _ _ Hrep). do 2 f_equal. fold (consumed b).
    rewrite (ztake_all (blen wb - consumed b)) by (rewrite blen_zdrop by lia; lia). by rewrite ztake_zdrop.
  - split; try done; [by apply ninv_sym| |by rewrite Hc].
    replace (consumed _) with (blen wb) by (symmetry; exact Hst). by rewrite ztake_all by lia.
  - exact Hst.
Qed.

Lemma tick_a rest received a b wa wb ticks ms :
  bnet str rest received a b wa wb ticks → ticks < UINT32_MAX →
  ∃ c wa', TCPConnection.tick (conn a) ms = Ok c ∧
    bnet str rest received (mk_endpoint c (written a) (wire a)) b (wa ++ wa') wb (ticks + 1).
Proof.
  intros Hn Ht. destruct (bnet_act_a (Clock ms) rest received a b wa wb ticks Hn) as (a' & E & Ha'); try done. simpl in E.
  apply result_bind_Ok in E as (c & E & [= <-]). destruct (Ha' eq_refl) as (wa' & Hn'); [|by exists c, wa'].
  eapply tick_sender; [..|exact E]; eauto with sponge. apply Hn.
Qed.

Lemma tick_b rest received a b wa wb ticks ms :
  bnet str rest received a b wa wb ticks → ticks < UINT32_MAX →
  ∃ c wb', TCPConnection.tick (conn b) ms = Ok c ∧
    bnet str rest received a (mk_endpoint c (written b) (wire b)) wa (wb ++ wb') (ticks + 1).
Proof.
  intros Hn Ht. destruct (bnet_act_b (Clock ms) rest received a b wa wb ticks Hn) as (b' & E & Hb'); try done. simpl in E.
  apply result_bind_Ok in E as (c & E & [= <-]). destruct (Hb' eq_refl) as (wb' & Hn'). by exists c, wb'.
Qed.

(** When the stream has ended at [y], everything has come through. *)
Lemma bnet_eof rest received a b wa wb ticks :
  bnet str rest received a b wa wb ticks → ByteStream.eof (TCPConnection.inbound_stream (conn b)) = true → received = str.
Proof.
  intros Hn Heof. pose proof Hn as [Hnet Hok Hs Hq [Hdr Hend] Hrc Hcaps].
  destruct (ninv_delivers _ _ _ _ _ Hnet) as (w & Hrep & _ & Hall).
  pose proof (proj1 (ByteStream.rep_eof _ _ Hrep) Heof) as [Hin Hrd]. destruct (Hall Hin) as [Hfin ->].
  pose proof (inv_rep _ _ _ (inv_core _ _ _ (ri_re _ _ _ (ci_recv _ _ _ _ (ni_b _ _ _ _ _ Hnet))))) as Hrepb.
  pose proof (ByteStream.rep_written _ _ Hrep) as Hw1. pose proof (ByteStream.rep_written _ _ Hrepb) as Hw2.
  unfold TCPConnection.inbound_stream, TCPReceiver.stream_out, StreamReassembler.stream_out in Hw1. rewrite Hw1 in Hw2.
  destruct (ninv_received _ _ _ _ _ Hnet) as [k Hk].
  assert (k = []) as -> by (rewrite Hk, blen_app in Hw2; apply blen_0_nil; pose proof (blen_nonneg k); lia).
  rewrite app_nil_r in Hk. subst wb. rewrite Hrc. unfold consumed. rewrite Hrd, ztake_all by lia.
  pose proof (ci_send _ _ _ _ (ni_a _ _ _ _ _ Hnet)) as Hsa.
  specialize (Hdr Hfin). unfold ByteStream.buffer_empty in Hdr. apply Z.eqb_eq in Hdr.
  rewrite (ByteStream.rep_size _ _ (si_rep _ _ Hsa)) in Hdr.
  specialize (Hend (si_fined _ _ Hsa Hfin)). apply blen_0_nil in Hend. rewrite Hend, app_nil_r in Hs.
  unfold data_of, sent_data. rewrite ztake_all by lia. exact Hs.
Qed.

Lemma bnet_start config rx ry :
  config_ok config → bnet str (Buffer.of_string str) [] (fresh config rx) (fresh config ry) [] [] 0.
Proof.
  intros Hc. pose proof (ninv_fresh config config rx ry Hc Hc) as Hn. pose proof (blen_nonneg str). unfold size_bound in *.
  split; try done; [|by rewrite buffer_str_of_string|pose proof (co_recv _ Hc); unfold recv_capacity; simpl; lia].
  apply buffer_of_string_ok. unfold_w. lia.
Qed.

End rounds.
