(* ===== verification/BenchmarkLive.v ===== *)
(** * The benchmark ends

    The loops of apps/tcp_benchmark.cc terminate: in every round the receiver of
    [y] gets at least one number further until the stream is complete; afterwards
    both streams finish within four rounds, what is still in transit dies down in
    two more, and the connections die after ten initial timeouts of silence. *)

From S2P Require Import Prelude Buffers Wrapping Stream Reassembly ReassemblySpec Segment.
From S2P Require Import Receiver Sender SenderSpec Connection ConnectionSpec EndToEnd Progress Transit Benchmark.
Import Benchmark.

(** ** The phases of a round *)

(** A whole queue arrives. *)
Lemma receive_all_live `{EndKeyFresh} segs a b wa wb ticks :
  ready a b wa wb ticks → flow a b segs → flow b a (TCPConnection.segments_out (conn b)) → Forall (λ g, g ∈ wire a) segs →
  ∃ b' wb', receive_all (conn b) segs = Ok (conn b') ∧ ready a b' wa (wb ++ wb') ticks ∧
    flow a b' [] ∧ flow b' a (TCPConnection.segments_out (conn b')) ∧ advanced a b b' ∧ quiet a b b' segs ∧
    (segs = [] → b' = b).
Proof.
  revert b wb. induction segs as [|g segs IH]; intros b wb Hrd Hf Hf' Hw; simpl.
  { exists b, []. rewrite app_nil_r. split_and!; try done; [by eapply advanced_refl, Hrd|].
    intros _. split; [done|]. exists []. by rewrite app_nil_r. }
  apply Forall_cons in Hw as [Hg Hw].
  destruct (deliver a b wa wb ticks g segs Hrd Hf Hf' Hg) as (b1 & w1 & -> & Hrd1 & Hf1 & Hf1' & Had1 & Hq1). cbn [mbind result_bind].
  destruct (IH b1 (wb ++ w1) Hrd1 Hf1 Hf1' Hw) as (b2 & w2 & E & Hrd2 & Hf2 & Hf2' & Had2 & Hq2 & _).
  exists b2, (w1 ++ w2). rewrite app_assoc. split_and!; try done; [by eapply advanced_trans|].
  by apply (quiet_trans a b b1 b2 wa (wb ++ w1) ticks [g] segs); try done; apply Hrd1.
Qed.

(** The driver takes the queue of [a] and hands it to [b], in either order. *)
Lemma move_live `{EndKeyFresh} a b wa wb ticks reorder :
  ready a b wa wb ticks → flow a b (TCPConnection.segments_out (conn a)) → flow b a (TCPConnection.segments_out (conn b)) →
  ∃ b' wb', move_segments (conn a) (conn b) [] reorder = Ok (conn (flushed a), conn b', []) ∧
    ready (flushed a) b' wa (wb ++ wb') ticks ∧ flow (flushed a) b' [] ∧
    flow b' (flushed a) (TCPConnection.segments_out (conn b')) ∧ advanced (flushed a) b b' ∧
    quiet (flushed a) b b' (TCPConnection.segments_out (conn a)) ∧ (TCPConnection.segments_out (conn a) = [] → b' = b).
Proof.
  intros Hrd Hf Hf'. set (q := if reorder then reverse (TCPConnection.segments_out (conn a)) else TCPConnection.segments_out (conn a)).
  assert (Hq : ∀ g, g ∈ TCPConnection.segments_out (conn a) ↔ g ∈ q).
  { intros g. subst q. destruct reorder; [by rewrite elem_of_reverse|done]. }
  destruct (receive_all_live q (flushed a) b wa wb ticks) as (b' & wb' & E & Hrd' & Hf1 & Hf2 & Had & Hqt & Hnil).
  - pose proof Hrd as []. split; try done. by apply ninv_flushed.
  - eapply flow_perm; [exact Hq|]. by destruct Hf.
  - by destruct Hf'.
  - apply Forall_forall. intros g Hg. simpl. apply elem_of_app. right. by apply Hq.
  - exists b', wb'. split; [unfold move_segments; cbn [app]; fold q; by rewrite E|]. split_and!; try done.
    + intros Hfd. destruct (Hqt Hfd) as (? & more & ? & ? & Hm). split; [done|]. exists more. split_and!; try done.
      intros Hg Hi. apply Hm; [done|]. rewrite Forall_forall in *. intros g Hgq. apply Hi. by apply Hq.
    + intros Hz. apply Hnil. subst q. rewrite Hz. by destruct reorder.
Qed.

(** What the owner's calls leave alone. *)
Record kept (a a' : endpoint) : Prop := mk_kept {
  ke_local : ∃ s1 more, local a a' s1 more;
  ke_calm : calm (conn a') (written a');
  ke_plain : plain (snd a');
  ke_next : nxt a <= nxt a';
  ke_tries : tries a' = tries a;
  ke_room : ByteStream.capacity (TCPSender.stream (snd a')) = ByteStream.capacity (TCPSender.stream (snd a));
  ke_timer : TCPConnection.last_seg_timer (conn a') = TCPConnection.last_seg_timer (conn a);
  ke_cfg : TCPConnection.cfg (conn a') = TCPConnection.cfg (conn a);
}.

Lemma kept_intro a c v s1 more :
  local a (mk_endpoint c v (wire a)) s1 more →
  moved (TCPConnection.with_sender (conn a) s1) c v false more →
  TCPSender.resend_try_times s1 = tries a →
  ByteStream.capacity (TCPSender.stream s1) = ByteStream.capacity (TCPSender.stream (snd a)) →
  kept a (mk_endpoint c v (wire a)).
Proof.
  intros Hl Hm Ht Hc. pose proof Hm as []. destruct mo_same. split; try done; [by eexists _, _| | |].
  - pose proof (la_next _ _ _ _ (local_later _ _ _ _ Hl)). done.
  - unfold tries in *. simpl in *. congruence.
  - unfold snd. simpl in *. by rewrite mo_capacity.
Qed.

Section writer.
Context (a b : endpoint) (wa wb : bytes) (ticks : Z).
Context (Hn : ninv a b wa wb ticks) (Hsz : sized a b) (Hcalm : calm (conn a) (written a)) (Hp : plain (snd a)) (Ht : tries a <= 7).

Lemma write_kept data c n :
  blen (written a) + blen data < 0x7ffffffd → TCPConnection.write (conn a) data = Ok (c, n) → n = blen data →
  kept a (mk_endpoint c (written a ++ data) (wire a)).
Proof.
  intros Hb E ->. pose proof (ni_a _ _ _ _ _ Hn) as Hc. pose proof (ci_send _ _ _ _ Hc) as Hs.
  pose proof (blen_nonneg (written a)). pose proof (blen_nonneg data).
  destruct (sinv_write (snd a) (written a) data Hs) as (st & n & Ew & Hs1 & Hnn & Hin & Hd); [unfold_w; lia|].
  assert (Hn' : n = blen data).
  { unfold TCPConnection.write in E. fold (snd a) in E. unfold TCPSender.stream_in in E. rewrite Ew in E. by inv_ok. }
  rewrite ztake_all in Hs1, Hd by lia.
  set (s1 := TCPSender.with_stream (snd a) st) in *.
  assert (Hl1 : later (snd a) s1 (written a) (written a ++ data)) by (by apply later_written).
  destruct (write_moves (stream_of b) (conn a) wa (written a ++ data) data st n Ew (ca_syned _ _ Hcalm)) as (c' & more & E' & Hm).
  { apply (prepared_with (stream_of b) (conn a) wa (written a) s1 (TCPConnection.receiver (conn a)) (TCPConnection.last_seg_timer (conn a))); try done.
    - pose proof (later_sender _ _ _ _ _ _ Hc Hl1) as []. by split.
    - rewrite blen_app. lia.
    - unfold tries, s1 in *. simpl. unfold snd. lia.
    - apply Hcalm. }
  rewrite E' in E. injection E as -> _.
  assert (Hl : local a (mk_endpoint c (written a ++ data) (wire a)) s1 more).
  { split; try done. exists (TCPConnection.last_seg_timer (conn a)). done. }
  apply (kept_intro a c (written a ++ data) s1 more Hl Hm); [done|]. subst s1. simpl.
  unfold ByteStream.write in Ew. by injection Ew as <- _.
Qed.

Lemma end_input_kept c :
  TCPConnection.end_input_stream (conn a) = Ok c →
  kept a (mk_endpoint c (written a) (wire a)) ∧ ByteStream.input_ended_flag (TCPSender.stream (TCPConnection.sender c)) = true.
Proof.
  intros E. pose proof (ni_a _ _ _ _ _ Hn) as Hc. pose proof (ci_send _ _ _ _ Hc) as Hs. destruct Hsz as (Hsa & _).
  set (s1 := TCPSender.with_stream (snd a) (ByteStream.end_input (TCPSender.stream_in (snd a)))).
  assert (Hl1 : later (snd a) s1 (written a) (written a)) by (apply later_same; try done; by apply sinv_end_input).
  destruct (end_input_moves (stream_of b) (conn a) wa (written a)) as (c' & more & E' & Hm).
  { apply (prepared_with (stream_of b) (conn a) wa (written a) s1 (TCPConnection.receiver (conn a)) (TCPConnection.last_seg_timer (conn a))); try done.
    - pose proof (later_sender _ _ _ _ _ _ Hc Hl1) as []. by split.
    - lia.
    - unfold tries, s1 in *. simpl. unfold snd. lia.
    - apply Hcalm. }
  rewrite E' in E. injection E as ->.
  assert (Hl : local a (mk_endpoint c (written a) (wire a)) s1 more).
  { split; try done. exists (TCPConnection.last_seg_timer (conn a)). done. }
  split; [by apply (kept_intro a c (written a) s1 more Hl Hm)|]. by rewrite (mo_ended _ _ _ _ _ Hm).
Qed.
End writer.

(** ** A round *)

(** Both connections are calm and nothing is lost; [x] keeps within what [y] can
    take, and has room for at least one byte; the input of [y] has ended. *)
Record lively (a b : endpoint) (ticks : Z) : Prop := mk_lively {
  lv_calm_a : calm (conn a) (written a);
  lv_calm_b : calm (conn b) (written b);
  lv_plain_a : plain (snd a);
  lv_plain_b : plain (snd b);
  lv_ab : flow a b (TCPConnection.segments_out (conn a));
  lv_ba : flow b a (TCPConnection.segments_out (conn b));
  lv_cap : 1 <= recv_capacity b;
  lv_flight : flight (snd a) <= recv_capacity b;
  lv_window : TCPSender.window_size (snd a) <= recv_capacity b;
  lv_store : 1 <= ByteStream.capacity (TCPSender.stream (snd a));
  lv_ended : ByteStream.input_ended_flag (TCPSender.stream (snd b)) = true;
  lv_clock : 0 <= TCPConnection.last_seg_timer (conn a) <= 1000 * ticks ∧
    0 <= TCPConnection.last_seg_timer (conn b) <= 1000 * ticks;
  lv_timeout : is_u16 (TCPConfig.rt_timeout (TCPConnection.cfg (conn a))) ∧
    is_u16 (TCPConfig.rt_timeout (TCPConnection.cfg (conn b)));
}.

(** The writer has gone on; only its sender has changed. *)
Record onward (a a' : endpoint) : Prop := mk_onward {
  on_tries : tries a' = tries a;
  on_acked : ackd a' = ackd a;
  on_recv : rcv a' = rcv a;
  on_next : nxt a <= nxt a';
}.

Lemma onward_trans a1 a2 a3 : onward a1 a2 → onward a2 a3 → onward a1 a3.
Proof. intros [] []. split; congruence || lia. Qed.

Lemma kept_onward a a' : kept a a' → onward a a'.
Proof. intros []. destruct ke_local0 as (s1 & more & Hl). destruct (local_facts _ _ _ _ Hl) as (? & _ & ? & _). by split. Qed.

Section round.
Context `{EndKeyFresh} (str : bytes) (Hstr : blen str < size_bound).

Lemma bnet_sized rest received a b wa wb ticks : bnet str rest received a b wa wb ticks → sized a b.
Proof.
  intros Hn. pose proof (bnet_written str _ _ _ _ _ _ _ Hn). destruct Hn. unfold sized, size_bound in *. rewrite bn_quiet, blen_nil. lia.
Qed.

Lemma kept_lively a a' b wa wb ticks wa' wb' ticks' k :
  ninv a b wa wb ticks → ninv a' b wa' wb' ticks' → sized a' b → lively a b k → kept a a' → lively a' b k.
Proof.
  intros Hn Hn' Hsz [] []. destruct ke_local0 as (s1 & more & Hl). pose proof (local_facts _ _ _ _ Hl) as (Er & _ & Ea & Ew & Hb & _ & _).
  split; rewrite ?Ew, ?ke_room0, ?ke_timer0, ?ke_cfg0; try done.
  - apply (local_flow_out a a' b wa wb ticks wa' wb' ticks' s1 more); try done. apply (fl_acked _ _ _ lv_ba0).
  - by eapply local_flow_in.
  - unfold flight, limit in *. fold (nxt a) (ackd a) (nxt a') (ackd a') in *. lia.
Qed.

(** The write loop. *)
Lemma write_input_live fuel rest received a b wa wb ticks :
  bnet str rest received a b wa wb ticks → lively a b ticks → tries a <= 7 → ticks < UINT32_MAX →
  (Z.to_nat (Buffer.size rest) <= fuel)%nat →
  ∃ a' rest' wa', write_input fuel (conn a) rest = Ok (conn a', rest') ∧
    bnet str rest' received a' b (wa ++ wa') wb ticks ∧ lively a' b ticks ∧ onward a a' ∧
    (Buffer.size rest' ≠ 0 → TCPConnection.remaining_outbound_capacity (conn a') = 0) ∧
    (Buffer.size rest = 0 → a' = a ∧ rest' = rest).
Proof.
  intros Hn Hlv Htr Ht. revert rest a wa Hn Hlv Htr. induction fuel as [|fuel IH]; intros rest a wa Hn Hlv Htr Hfuel;
    unfold write_input; fold write_input; pose proof (blen_nonneg (Buffer.str rest)) as Hnn; fold (Buffer.size rest) in Hnn;
    destruct (negb (Buffer.size rest =? 0) && negb (TCPConnection.remaining_outbound_capacity (conn a) =? 0)) eqn:Ec.
  2,4: exists a, rest, []; rewrite app_nil_r; split_and!; try done; intros Hsz; apply andb_false_iff in Ec as [Ec|Ec];
    apply negb_false_iff, Z.eqb_eq in Ec; done.
  { bool_to_prop. lia. }
  apply andb_prop in Ec as [Hsz%negb_true_iff%Z.eqb_neq Hcap%negb_true_iff%Z.eqb_neq].
  destruct (write_once_inv str Hstr rest received a b wa wb ticks Hn Ht Hsz Hcap)
    as (c & rest1 & w1 & E & Er & Hwant & Hsz1 & Hdata & Hn1).
  set (want := Z.min _ _) in *. set (data := ztake want _) in *. rewrite E. cbn [mbind result_bind]. rewrite Z.eqb_refl, Er. cbn [negb mbind result_bind].
  set (a1 := mk_endpoint c (written a ++ data) (wire a)) in *.
  pose proof (bnet_sized _ _ _ _ _ _ _ Hn1) as Hz1.
  assert (Hk : kept a a1).
  { apply (write_kept a b wa wb ticks (bn_net _ _ _ _ _ _ _ _ Hn) (lv_calm_a _ _ _ Hlv) (lv_plain_a _ _ _ Hlv) Htr data c want);
      [|done|done]. destruct Hz1 as [Hz1 _]. simpl in Hz1. by rewrite blen_app in Hz1. }
  pose proof (kept_onward _ _ Hk) as Ho.
  destruct (IH rest1 a1 (wa ++ w1) Hn1) as (a2 & rest2 & w2 & E2 & Hn2 & Hlv2 & Ho2 & Hr2 & _).
  - eapply kept_lively; [apply Hn|apply Hn1|done|done|done].
  - by rewrite (on_tries _ _ Ho).
  - lia.
  - exists a2, rest2, (w1 ++ w2). rewrite app_assoc. split_and!; try done. by eapply onward_trans.
Qed.

(** The flag says that everything was written and the input has ended. *)
Definition closed_ok (closed : bool) (rest : Buffer.t) (a : endpoint) : Prop :=
  closed = true → Buffer.size rest = 0 ∧ ByteStream.input_ended_flag (TCPSender.stream (snd a)) = true.

Lemma close_input_live rest received a b wa wb ticks closed :
  bnet str rest received a b wa wb ticks → lively a b ticks → tries a <= 7 → ticks < UINT32_MAX → closed_ok closed rest a →
  ∃ a' closed' wa', close_input (conn a) rest closed = Ok (conn a', closed') ∧
    bnet str rest received a' b (wa ++ wa') wb ticks ∧ lively a' b ticks ∧ onward a a' ∧
    closed_ok closed' rest a' ∧ (Buffer.size rest = 0 → closed' = true) ∧
    (closed = true ∨ Buffer.size rest ≠ 0 → a' = a).
Proof.
  intros Hn Hlv Htr Ht Hcl. unfold close_input. destruct (_ && _) eqn:Ec.
  2:{ exists a, closed, []. rewrite app_nil_r. split_and!; try done. intros Hz. rewrite Hz in Ec. by destruct closed. }
  apply andb_prop in Ec as [Hz%Z.eqb_eq Hc%negb_true_iff].
  destruct (bnet_act_a str Hstr App_end_input rest received a b wa wb ticks Hn) as (a' & E & Ha'); try done. simpl in E.
  apply result_bind_Ok in E as (c & E & [= <-]). rewrite E. cbn [mbind result_bind].
  destruct (Ha' eq_refl) as (wa' & Hn').
  { eapply end_input_sender; [..|exact E]; eauto with sponge; [|apply Hn]. intros s [Hd _]. by split. }
  rewrite Z.add_0_r in Hn'.
  destruct (end_input_kept a b wa wb ticks (bn_net _ _ _ _ _ _ _ _ Hn) (bnet_sized _ _ _ _ _ _ _ Hn)
    (lv_calm_a _ _ _ Hlv) (lv_plain_a _ _ _ Hlv) Htr c E) as [Hk Hend].
  exists (mk_endpoint c (written a) (wire a)), true, wa'. split; [done|]. split; [done|]. split_and!; try done; [| |by intros [?|?]; [congruence|]].
  - eapply kept_lively; [apply Hn|apply Hn'|by eapply bnet_sized|done|done].
  - by apply kept_onward.
Qed.

(** A writer that has offered all it can has something in flight, or is done. *)
Lemma writer_busy rest received a b wa wb ticks :
  bnet str rest received a b wa wb ticks → lively a b ticks →
  (Buffer.size rest = 0 → ByteStream.input_ended_flag (TCPSender.stream (snd a)) = true) →
  (Buffer.size rest ≠ 0 → TCPConnection.remaining_outbound_capacity (conn a) = 0) →
  TCPSender.fined_ (snd a) = true ∨ ackd a < nxt a.
Proof.
  intros Hn [] Hend Hfull. destruct (ca_sat _ _ lv_calm_a0) as [?|[Hl|(_ & Hr & He)]]; [by left|right|exfalso].
  - unfold limit, flight in Hl. unfold ackd, nxt, snd. lia.
  - destruct (decide (Buffer.size rest = 0)) as [Hz|Hz]; [specialize (Hend Hz); unfold snd in *; congruence|].
    specialize (Hfull Hz). pose proof (ci_send _ _ _ _ (ni_a _ _ _ _ _ (bn_net _ _ _ _ _ _ _ _ Hn))) as Hs.
    unfold TCPConnection.remaining_outbound_capacity, TCPSender.stream_in in Hfull.
    rewrite (ByteStream.rep_remaining _ _ (si_rep _ _ Hs)) in Hfull. unfold snd in *. lia.
Qed.

(** The network keeps what the driver knows. *)
Lemma bnet_advanced_b rest received a b b' wa wb wb' ticks :
  bnet str rest received a b wa wb ticks → ninv a b' wa (wb ++ wb') ticks → advanced a b b' →
  bnet str rest received a b' wa (wb ++ wb') ticks.
Proof.
  intros Hn Hn' [] . pose proof Hn as []. split; try done; [by rewrite ad_written|..|by rewrite ad_capacity].
  assert (Hc : consumed b' = consumed b).
  { unfold window_end, recv_capacity in *. unfold consumed, TCPConnection.inbound_stream, TCPReceiver.stream_out, StreamReassembler.stream_out in *.
    unfold rcv in *. lia. }
  rewrite Hc, bn_received, ztake_app_l; [done|]. by eapply ninv_consumed, ninv_sym.
Qed.

Lemma bnet_advanced_a rest received a a' b wa wb wa' ticks :
  bnet str rest received a b wa wb ticks → ninv a' b (wa ++ wa') wb ticks → advanced b a a' →
  sender_ok (Buffer.size rest = 0) (TCPConnection.sender (conn a')) → bnet str rest received a' b (wa ++ wa') wb ticks.
Proof. intros Hn Hn' [] Hok. pose proof Hn as []. split; try done; [by rewrite ad_written|by rewrite ad_capacity]. Qed.

(** What is in flight fits into the window of [y]. *)
Lemma lively_room rest received a b wa wb ticks :
  bnet str rest received a b wa wb ticks → lively a b ticks → ackd a = got (rcv b) → consumed b = blen wb →
  blen (data_of a) <= window_end (TCPReceiver.reassembler (rcv b)).
Proof.
  intros Hn [] Ha Hc. pose proof (bn_net _ _ _ _ _ _ _ _ Hn) as Hnet. pose proof (pair_first _ _ _ _ _ Hnet) as [Hfi Hb].
  pose proof (pair_next _ _ _ _ _ Hnet) as Hnx. rewrite (ca_syned _ _ lv_calm_a0 : TCPSender.syned_ (snd a) = true) in Hnx.
  assert (Hw : window_end (TCPReceiver.reassembler (rcv b)) = blen wb + recv_capacity b).
  { rewrite <- Hc. done. }
  rewrite Hw. unfold flight in lv_flight0. fold (nxt a) (ackd a) in lv_flight0. rewrite Ha in lv_flight0. unfold got in lv_flight0.
  destruct (StreamReassembler.eofed (TCPReceiver.reassembler (rcv b))) eqn:He.
  { destruct (pair_eofed _ _ _ _ _ Hnet He). lia. }
  destruct (TCPReceiver.syn (rcv b)) eqn:Es.
  - rewrite Hfi in lv_flight0. destruct (TCPSender.fined_ (snd a)); unfold b2n in *; lia.
  - destruct (fl_open _ _ _ lv_ab0) as [?|[? _]]; [congruence|]. destruct (TCPSender.fined_ (snd a)); unfold b2n in *; lia.
Qed.

Lemma flushed_calm a v : calm (conn a) v → calm (conn (flushed a)) v.
Proof. intros []. by split. Qed.

Lemma move_ab_live rest received a b wa wb ticks reorder :
  bnet str rest received a b wa wb ticks → lively a b ticks → ackd a = got (rcv b) → consumed b = blen wb → tries b <= 7 →
  ∃ b' wb', move_segments (conn a) (conn b) [] reorder = Ok (conn (flushed a), conn b', []) ∧
    bnet str rest received (flushed a) b' wa (wb ++ wb') ticks ∧ lively (flushed a) b' ticks ∧
    advanced (flushed a) b b' ∧ got (rcv b') = nxt a ∧ ackd b' = got (rcv a) ∧
    quiet (flushed a) b b' (TCPConnection.segments_out (conn a)) ∧ (TCPConnection.segments_out (conn a) = [] → b' = b).
Proof.
  intros Hn Hlv Ha Hc Htr. pose proof (lively_room _ _ _ _ _ _ _ Hn Hlv Ha Hc) as Hroom. pose proof Hlv as [].
  destruct (move_live a b wa wb ticks reorder) as (b' & wb' & E & Hrd & Hf & Hf' & Had & Hqt & Hnil); try done.
  { split; try done; [apply Hn|by eapply bnet_sized|apply lv_calm_a0]. }
  exists b', wb'. split; [done|]. pose proof (rd_inv _ _ _ _ _ Hrd) as Hn'.
  destruct (flow_done _ _ _ _ _ Hn' (rd_peer _ _ _ _ _ Hrd) Hf) as [Hg Hk]. pose proof Had as [].
  split_and!; try done; [apply (bnet_advanced_b _ _ _ b); try done; by apply bnet_flushed_a|].
  split; try done; rewrite ?ad_capacity, ?ad_cfg; try done.
  - by apply flushed_calm.
  - apply Hrd.
  - apply Hrd.
  - by rewrite ad_ended.
  - split; [apply lv_clock0|]. destruct ad_timer as [->| ->]; lia.
Qed.

Lemma move_ba_live rest received a b wa wb ticks :
  bnet str rest received a b wa wb ticks → lively a b ticks → tries a <= 7 →
  ∃ a' wa', move_segments (conn b) (conn a) [] false = Ok (conn (flushed b), conn a', []) ∧
    bnet str rest received a' (flushed b) (wa ++ wa') wb ticks ∧ lively a' (flushed b) ticks ∧
    advanced (flushed b) a a' ∧ got (rcv a') = nxt b ∧ ackd a' = got (rcv b) ∧
    quiet (flushed b) a a' (TCPConnection.segments_out (conn b)) ∧ (TCPConnection.segments_out (conn b) = [] → a' = a).
Proof.
  intros Hn Hlv Htr. pose proof Hlv as [].
  destruct (move_live b a wb wa ticks false) as (a' & wa' & E & Hrd & Hf & Hf' & Had & Hqt & Hnil); try done.
  { split; try done; [by apply ninv_sym, Hn|by eapply sized_sym, bnet_sized|apply lv_calm_b0|].
    pose proof (blen_data_of _ _ _ _ _ (ninv_sym _ _ _ _ _ (bn_net _ _ _ _ _ _ _ _ Hn))) as Hd. rewrite (bn_quiet _ _ _ _ _ _ _ _ Hn), blen_nil in Hd.
    pose proof (ninv_sym _ _ _ _ _ (bn_net _ _ _ _ _ _ _ _ Hn)) as Hs. pose proof (inv_rep _ _ _ (inv_core _ _ _ (pair_re _ _ _ _ _ Hs))) as [].
    unfold window_end. unfold is_u64 in *. lia. }
  exists a', wa'. split; [done|]. pose proof (rd_inv _ _ _ _ _ Hrd) as Hn'.
  destruct (flow_done _ _ _ _ _ Hn' (rd_peer _ _ _ _ _ Hrd) Hf) as [Hg Hk]. pose proof Had as [].
  change (recv_capacity (flushed b)) with (recv_capacity b) in *.
  split_and!; try done.
  - apply (bnet_advanced_a _ _ a); try done; [by apply bnet_flushed_b|by apply ninv_sym|].
    eapply (receive_all_sender (sender_ok _)); [..|apply Hn|]; eauto with sponge.
    unfold move_segments in E. cbn [app] in E. apply result_bind_Ok in E as (c & E & [= <-]). exact E.
  - split; try done; rewrite ?ad_cfg; change (recv_capacity (flushed b)) with (recv_capacity b); try done; try lia.
    + apply Hrd.
    + by apply flushed_calm.
    + apply Hrd.
    + split; [|apply lv_clock0]. destruct ad_timer as [->| ->]; lia.
Qed.

(** Reading moves only the position in the stream. *)
Lemma read_output_shape c received c' received' :
  read_output c received = Ok (c', received') →
  ∃ st, c' = TCPConnection.with_receiver c (TCPReceiver.with_stream (TCPConnection.receiver c) st) ∧
    ByteStream.capacity st = ByteStream.capacity (TCPConnection.inbound_stream c).
Proof.
  unfold read_output. destruct (0 <? _).
  - intros E. apply result_bind_Ok in E as ([st data] & E & E'). injection E' as <- _. exists st. split; [done|].
    unfold ByteStream.read, ByteStream.pop_output in E. apply result_bind_Ok in E as (st' & E & E'). injection E' as <- _.
    apply result_bind_Ok in E as (buf & _ & E). by injection E as <-.
  - intros [= <- _]. exists (TCPConnection.inbound_stream c). split; [|done].
    destruct c as [? [[] ? ? ? ? ? ?]]. done.
Qed.

Lemma read_live rest received a b wa wb ticks :
  bnet str rest received a b wa wb ticks → lively a b ticks → ticks < UINT32_MAX →
  ∃ b', read_output (conn b) received = Ok (conn b', wb) ∧ bnet str rest wb a b' wa wb ticks ∧ lively a b' ticks ∧
    consumed b' = blen wb ∧ got (rcv b') = got (rcv b) ∧ snd b' = snd b ∧ written b' = written b ∧
    TCPConnection.segments_out (conn b') = TCPConnection.segments_out (conn b) ∧
    TCPConnection.last_seg_timer (conn b') = TCPConnection.last_seg_timer (conn b) ∧
    TCPConnection.active (conn b') = TCPConnection.active (conn b).
Proof.
  intros Hn Hlv Ht. destruct (read_output_inv str _ _ _ _ _ _ _ Hn Ht) as (c & E & Hn' & Hrd).
  exists (mk_endpoint c (written b) (wire b)). split; [done|]. split; [done|].
  destruct (read_output_shape _ _ _ _ E) as (st & -> & Hcap).
  set (b' := mk_endpoint _ _ _) in *. assert (Hcap' : recv_capacity b' = recv_capacity b) by exact Hcap.
  split_and!; try done. destruct Hlv. split; rewrite ?Hcap'; try done.
  - destruct lv_calm_b0. by split.
  - by destruct lv_ab0.
  - destruct lv_ba0. split; try done. eapply Forall_impl; [exact fl_sane|]. intros g [Hr Hg]. split; [done|].
    rewrite Hcap'. exact Hg.
Qed.

(** Time passes at one endpoint. *)
Record ticked (a a' : endpoint) : Prop := mk_ticked {
  ti_local : ∃ s1 more, local a a' s1 more;
  ti_calm : calm (conn a') (written a');
  ti_plain : plain (snd a');
  ti_next : nxt a' = nxt a;
  ti_tries : tries a' <= 1 ∧ (1 <= tries a' → ackd a' < nxt a');
  ti_ended : ByteStream.input_ended_flag (TCPSender.stream (snd a')) = ByteStream.input_ended_flag (TCPSender.stream (snd a));
  ti_room : ByteStream.capacity (TCPSender.stream (snd a')) = ByteStream.capacity (TCPSender.stream (snd a));
  ti_timer : TCPConnection.last_seg_timer (conn a') = TCPConnection.last_seg_timer (conn a) + 1000;
  ti_cfg : TCPConnection.cfg (conn a') = TCPConnection.cfg (conn a);
  ti_life : TCPConnection.active (conn a') = true → TCPSender.full_fined (snd a) = true → TCPReceiver.full_fined (rcv a) = true →
    TCPConnection.last_seg_timer (conn a') < 10 * TCPConfig.rt_timeout (TCPConnection.cfg (conn a));
  ti_quiet : TCPSender.full_fined (snd a) = true → TCPConnection.segments_out (conn a') = TCPConnection.segments_out (conn a);
}.

Lemma ticked_intro a b wa wb ticks c :
  ninv a b wa wb ticks → sized a b → calm (conn a) (written a) → plain (snd a) → tries a = 0 →
  0 <= TCPConnection.last_seg_timer (conn a) <= 1000 * ticks → ticks < UINT32_MAX → TCPConnection.tick (conn a) 1000 = Ok c →
  ticked a (mk_endpoint c (written a) (wire a)).
Proof.
  intros Hn Hsz Hcalm Hp Ht Hck Hk E. assert (Ht7 : tries a <= 7) by lia.
  destruct (tick_local a b wa wb ticks 1000 c Hn Hsz Hcalm Hp Ht7 E)
    as (more & Hl & Hc' & Hp' & Hnx & Htr & Htm & Hcfg & Hen & Hro & Hlf & Hqt).
  rewrite w64_small in Htm, Hlf by (unfold UINT32_MAX in Hk; unfold_w; lia).
  pose proof (local_facts _ _ _ _ Hl) as (_ & Eo & Ea & _). split; try done; [by eexists _, _| | |].
  - rewrite Hnx, Ea, Ht in *. destruct Htr as [?|[? ?]]; split; lia.
  - intros Hact Hf1 Hf2. simpl in *. destruct (Hlf Hact) as [_ Hl2]. destruct (Hl2 Hf1 Hf2). lia.
  - intros Hff. by rewrite Eo, (Hqt Hff), app_nil_r.
Qed.

Lemma ticked_lively_a rest received a a' b wa wb ticks wa' wb' ticks' :
  bnet str rest received a b wa wb ticks → bnet str rest received a' b wa' wb' ticks' → lively a b ticks → ticked a a' →
  ticks <= ticks' → TCPConnection.last_seg_timer (conn a') <= 1000 * ticks' → lively a' b ticks'.
Proof.
  intros Hn Hn' [] [] Hk Htm. destruct ti_local0 as (s1 & more & Hl). pose proof (local_facts _ _ _ _ Hl) as (Er & _ & Ea & Ew & _).
  split; rewrite ?Ew, ?ti_room0, ?ti_cfg0; try done.
  - apply (local_flow_out a a' b wa wb ticks wa' wb' ticks' s1 more); try done; [apply Hn|apply Hn'|by eapply bnet_sized|].
    apply (fl_acked _ _ _ lv_ba0).
  - by eapply local_flow_in.
  - unfold flight in *. fold (nxt a) (ackd a) (nxt a') (ackd a') in *. lia.
  - lia.
Qed.

Lemma ticked_lively_b rest received a b b' wa wb ticks wa' wb' ticks' :
  bnet str rest received a b wa wb ticks → bnet str rest received a b' wa' wb' ticks' → lively a b ticks → ticked b b' →
  ticks <= ticks' → TCPConnection.last_seg_timer (conn b') <= 1000 * ticks' → lively a b' ticks'.
Proof.
  intros Hn Hn' [] [] Hk Htm. destruct ti_local0 as (s1 & more & Hl). pose proof (local_facts _ _ _ _ Hl) as (Er & _ & Ea & Ew & _ & Ec & _).
  split; rewrite ?Ec, ?ti_cfg0, ?ti_ended0; try done.
  - by eapply local_flow_in.
  - apply (local_flow_out b b' a wb wa ticks wb' wa' ticks' s1 more); try done; [by apply ninv_sym, Hn|by apply ninv_sym, Hn'| |].
    + by eapply sized_sym, bnet_sized.
    + apply (fl_acked _ _ _ lv_ab0).
  - lia.
Qed.

(** What holds before every round: [x] knows what [y] has, [x] has all that [y]
    has sent (except its SYN at the start), everything that has come out at [y] was read, and at most one
    retransmission is on its way. *)
Record looping (s : t) (a b : endpoint) (wa wb : bytes) (ticks : Z) : Prop := mk_looping {
  lp_x : conn a = x s;
  lp_y : conn b = y s;
  lp_net : bnet str (bytes_to_send s) (string_received s) a b wa wb ticks;
  lp_live : lively a b ticks;
  lp_tries_a : tries a <= 1 ∧ (1 <= tries a → ackd a < nxt a);
  lp_tries_b : tries b <= 1 ∧ (1 <= tries b → ackd b < got (rcv a));
  lp_acked : ackd a = got (rcv b);
  lp_next : nxt b <= 1 ∨ nxt b = got (rcv a);
  lp_read : consumed b = blen wb;
  lp_closed : closed_ok (x_closed s) (bytes_to_send s) a;
  lp_ended : ByteStream.input_ended_flag (TCPSender.stream (snd a)) = true → x_closed s = true;
}.

(** The endpoints on the way through a round: [a1] has written, [b1] has taken the
    queue of [a1], [a2] that of [b1], the output of [b2] was read, and time has
    passed for [a3] and [b3]. *)
Record passed (closed : bool) (a b a1 b1 a2 b2 a3 b3 : endpoint) : Prop := mk_passed {
  ps_on : onward a a1;
  ps_same : closed = true → a1 = a;
  ps_progress : got (rcv b) < nxt a1 ∨ StreamReassembler.eofed (TCPReceiver.reassembler (rcv b)) = true;
  ps_first : advanced (flushed a1) b b1;
  ps_got_b : got (rcv b1) = nxt a1;
  ps_acked_b : ackd b1 = got (rcv a1);
  ps_busy_b : TCPSender.fined_ (snd b1) = true ∨ ackd b1 < nxt b1;
  ps_quiet_b : quiet (flushed a1) b b1 (TCPConnection.segments_out (conn a1));
  ps_nil_b : TCPConnection.segments_out (conn a1) = [] → b1 = b;
  ps_second : advanced (flushed b1) (flushed a1) a2;
  ps_got_a : got (rcv a2) = nxt b1;
  ps_acked_a : ackd a2 = got (rcv b1);
  ps_quiet_a : quiet (flushed b1) (flushed a1) a2 (TCPConnection.segments_out (conn b1));
  ps_nil_a : TCPConnection.segments_out (conn b1) = [] → a2 = flushed a1;
  ps_read : got (rcv b2) = got (rcv b1) ∧ snd b2 = snd b1 ∧ written b2 = written b1 ∧
    TCPConnection.segments_out (conn b2) = [] ∧
    TCPConnection.last_seg_timer (conn b2) = TCPConnection.last_seg_timer (conn b1);
  ps_tick_a : ticked a2 a3;
  ps_tick_b : ticked b2 b3;
}.

Lemma pair_full a b wa wb ticks :
  ninv a b wa wb ticks → TCPReceiver.full_fined (rcv b) = StreamReassembler.eofed (TCPReceiver.reassembler (rcv b)).
Proof. intros Hn. exact (full_fined_eofed _ _ _ (ci_recv _ _ _ _ (ni_b _ _ _ _ _ Hn))). Qed.

(** A receiver that is up to date with a finished sender has the whole stream. *)
Lemma done_eofed a b wa wb ticks :
  ninv a b wa wb ticks → TCPSender.syned_ (snd a) = true → TCPSender.fined_ (snd a) = true → nxt a <= got (rcv b) →
  StreamReassembler.eofed (TCPReceiver.reassembler (rcv b)) = true.
Proof.
  intros Hn Hsy Hf Hle. rewrite (pair_next _ _ _ _ _ Hn), Hsy, Hf in Hle. destruct (pair_first _ _ _ _ _ Hn) as [Hfi Hb].
  unfold got in Hle. destruct (StreamReassembler.eofed _); [done|]. destruct (TCPReceiver.syn (rcv b)); unfold b2n in *; lia.
Qed.

Lemma ended_busy c v : calm c v → ByteStream.input_ended_flag (TCPSender.stream (TCPConnection.sender c)) = true →
  TCPSender.fined_ (TCPConnection.sender c) = true ∨ 0 < flight (TCPConnection.sender c).
Proof.
  intros Hc He. destruct (ca_sat _ _ Hc) as [?|[Hl|(_ & _ & ?)]]; [by left|right|congruence]. unfold limit in Hl. lia.
Qed.

(** Tries start again when something was acknowledged. *)
Lemma tries_reset a b b' n :
  advanced a b b' → tries b <= 1 ∧ (1 <= tries b → ackd b < n) → n <= ackd b' → tries b' = 0.
Proof.
  intros [] [Ht Hn] Hle. destruct ad_tries as [? Hz]. destruct (decide (1 <= tries b)) as [H1|]; [|lia].
  apply Hz. specialize (Hn H1). lia.
Qed.

(** The first half of a round: up to the end of the moves. *)
Lemma round_moves s a b wa wb ticks reorder :
  looping s a b wa wb ticks → ticks + 2 < UINT32_MAX →
  ∃ a1 b1 a2 rest closed wa2 wb2,
    (∃ x1, write_input (Z.to_nat (Buffer.size (bytes_to_send s))) (x s) (bytes_to_send s) = Ok (x1, rest) ∧
           close_input x1 rest (x_closed s) = Ok (conn a1, closed)) ∧
    move_segments (conn a1) (y s) [] reorder = Ok (conn (flushed a1), conn b1, []) ∧
    move_segments (conn b1) (conn (flushed a1)) [] false = Ok (conn (flushed b1), conn a2, []) ∧
    bnet str rest (string_received s) a2 (flushed b1) wa2 wb2 ticks ∧ lively a2 (flushed b1) ticks ∧
    closed_ok closed rest a2 ∧ (Buffer.size rest = 0 → closed = true) ∧ tries a2 = 0 ∧ tries b1 = 0 ∧
    ∀ b2 a3 b3, got (rcv b2) = got (rcv b1) ∧ snd b2 = snd b1 ∧ written b2 = written b1 ∧
      TCPConnection.segments_out (conn b2) = [] ∧ TCPConnection.last_seg_timer (conn b2) = TCPConnection.last_seg_timer (conn b1) →
      ticked a2 a3 → ticked b2 b3 → passed (x_closed s) a b a1 b1 a2 b2 a3 b3.
Proof.
  intros [] Ht. rewrite <- lp_x0, <- lp_y0.
  assert (Hk : ticks < UINT32_MAX) by lia.
  destruct (write_input_live (Z.to_nat (Buffer.size (bytes_to_send s))) _ _ _ _ _ _ _ lp_net0 lp_live0 ltac:(lia) Hk ltac:(lia))
    as (a0 & rest & w0 & E0 & Hn0 & Hl0 & Ho0 & Hfull & Hsame0).
  assert (Hcl0 : closed_ok (x_closed s) rest a0).
  { intros Hc. destruct (lp_closed0 Hc) as [Hz He]. by destruct (Hsame0 Hz) as [-> ->]. }
  pose proof (on_tries _ _ Ho0) as Htr0.
  destruct (close_input_live _ _ _ _ _ _ _ _ Hn0 Hl0 ltac:(lia) Hk Hcl0) as (a1 & closed & w1 & E1 & Hn1 & Hl1 & Ho1 & Hcl1 & Hz1 & Hsame1).
  pose proof (onward_trans _ _ _ Ho0 Ho1) as Ho. pose proof Ho as [].
  assert (Hbusy : TCPSender.fined_ (snd a1) = true ∨ ackd a1 < nxt a1).
  { apply (writer_busy _ _ _ _ _ _ _ Hn1 Hl1); [intros Hz; by apply Hcl1, Hz1|]. intros Hz. rewrite Hsame1 by (by right). by apply Hfull. }
  destruct (move_ab_live _ _ _ _ _ _ _ reorder Hn1 Hl1 ltac:(lia) lp_read0 ltac:(lia))
    as (b1 & w2 & E2 & Hn2 & Hl2 & Had2 & Hg2 & Hk2 & Hq2 & Hnil2).
  destruct (move_ba_live _ _ _ _ _ _ _ Hn2 Hl2 ltac:(change (tries (flushed a1)) with (tries a1); lia))
    as (a2 & w3 & E3 & Hn3 & Hl3 & Had3 & Hg3 & Hk3 & Hq3 & Hnil3).
  exists a1, b1, a2, rest, closed. eexists _, _. split; [by exists (conn a0)|]. split; [done|]. split; [done|].
  split; [exact Hn3|]. split; [done|]. split_and!.
  - intros Hc. destruct (Hcl1 Hc) as [? He]. split; [done|]. rewrite (ad_ended _ _ _ Had3). exact He.
  - done.
  - apply (tries_reset _ _ _ (nxt a) Had3); [|lia]. change (tries (flushed a1)) with (tries a1). change (ackd (flushed a1)) with (ackd a1).
    rewrite on_tries0, on_acked0. done.
  - apply (tries_reset _ _ _ (got (rcv a)) Had2); [done|]. rewrite Hk2, on_recv0. lia.
  - intros b2 a3 b3 Hrd Hta Htb. split; try done.
    + intros Hc. destruct (lp_closed0 Hc) as [Hz _]. destruct (Hsame0 Hz) as [Ea0 _]. rewrite <- Ea0. apply Hsame1. by left.
    + destruct (decide (got (rcv b) < nxt a1)) as [|Hge]; [by left|right].
      destruct Hbusy as [Hf|?]; [|lia]. apply (done_eofed a1 b _ _ _ (bn_net _ _ _ _ _ _ _ _ Hn1)); [apply Hl1|done|lia].
    + destruct (ended_busy _ _ (lv_calm_b _ _ _ Hl2) (lv_ended _ _ _ Hl2)) as [?|Hfl]; [by left|right].
      unfold flight in Hfl. unfold ackd, nxt, snd. lia.
Qed.

Lemma round_passes s a b wa wb ticks reorder :
  looping s a b wa wb ticks → ticks + 2 < UINT32_MAX →
  ∃ s' a1 b1 a2 b2 a3 b3 wa' wb', loop reorder s = Ok s' ∧ looping s' a3 b3 wa' wb' (ticks + 2) ∧
    passed (x_closed s) a b a1 b1 a2 b2 a3 b3.
Proof.
  intros Hlp Ht. destruct (round_moves s a b wa wb ticks reorder Hlp Ht)
    as (a1 & b1 & a2 & rest & closed & wa2 & wb2 & (x1 & E0 & E1) & E2 & E3 & Hn3 & Hl3 & Hcl3 & Hz3 & Hta & Htb & Hpass).
  assert (Hk : ticks < UINT32_MAX) by lia.
  destruct (read_live _ _ _ _ _ _ _ Hn3 Hl3 Hk) as (b2 & E4 & Hn4 & Hl4 & Hrd4 & Hg4 & Hs4 & Hw4 & Ho4 & Htm4 & _).
  destruct (tick_a str Hstr _ _ _ _ _ _ _ 1000 Hn4 Hk) as (c5 & w5 & E5 & Hn5).
  assert (Htk5 : ticked a2 (mk_endpoint c5 (written a2) (wire a2))).
  { apply (ticked_intro a2 b2 wa2 wb2 ticks); try done; [apply Hn4|by eapply bnet_sized|apply Hl4..]. }
  set (a3 := mk_endpoint c5 _ _) in *.
  assert (Hl5 : lively a3 b2 (ticks + 1)).
  { apply (ticked_lively_a _ _ _ _ _ _ _ _ _ _ _ Hn4 Hn5 Hl4 Htk5); [lia|]. rewrite (ti_timer _ _ Htk5). destruct (lv_clock _ _ _ Hl4). lia. }
  destruct (tick_b str Hstr _ _ _ _ _ _ _ 1000 Hn5 ltac:(lia)) as (c6 & w6 & E6 & Hn6).
  assert (Htk6 : ticked b2 (mk_endpoint c6 (written b2) (wire b2))).
  { apply (ticked_intro b2 a3 wb2 (wa2 ++ w5) (ticks + 1)); try done; [by apply ninv_sym, Hn5|by eapply sized_sym, bnet_sized|apply Hl5|apply Hl5| |apply Hl5|lia].
    unfold tries. fold (snd b2). by rewrite Hs4. }
  set (b3 := mk_endpoint c6 _ _) in *.
  assert (Hl6 : lively a3 b3 (ticks + 1 + 1)).
  { apply (ticked_lively_b _ _ _ _ _ _ _ _ _ _ _ Hn5 Hn6 Hl5 Htk6); [lia|]. rewrite (ti_timer _ _ Htk6). destruct (lv_clock _ _ _ Hl5). lia. }
  assert (Hps : passed (x_closed s) a b a1 b1 a2 b2 a3 b3) by (by apply Hpass).
  eexists _, a1, b1, a2, b2, a3, b3, _, _. split.
  { unfold loop. rewrite E0. cbn [mbind result_bind]. rewrite E1. cbn [mbind result_bind]. rewrite E2. cbn [mbind result_bind].
    rewrite E3. cbn [mbind result_bind]. rewrite E4. cbn [mbind result_bind]. rewrite E5. cbn [mbind result_bind].
    rewrite E6. cbn [mbind result_bind]. done. }
  split; [|done]. replace (ticks + 2) with (ticks + 1 + 1) by lia.
  destruct (ti_local _ _ Htk5) as (s5 & m5 & L5). destruct (ti_local _ _ Htk6) as (s6 & m6 & L6).
  pose proof (local_facts _ _ _ _ L5) as (R5 & _ & A5 & _). pose proof (local_facts _ _ _ _ L6) as (R6 & _ & A6 & _).
  assert (Hnext : nxt b3 = got (rcv a3)).
  { rewrite (ti_next _ _ Htk6), R5, (ps_got_a _ _ _ _ _ _ _ _ _ Hps). unfold nxt. by rewrite Hs4. }
  split; try done; [apply Htk5|rewrite <- Hnext; apply Htk6| |by right|..].
  - rewrite A5, R6, Hg4. apply Hps.
  - pose proof (pair_first _ _ _ _ _ (bn_net _ _ _ _ _ _ _ _ Hn5)) as [F5 _].
    pose proof (pair_first _ _ _ _ _ (bn_net _ _ _ _ _ _ _ _ Hn6)) as [F6 _]. rewrite R6 in F6. rewrite <- F6, F5, <- Hrd4.
    unfold consumed, TCPConnection.inbound_stream. fold (rcv b3) (rcv b2). by rewrite R6.
  - intros Hc. destruct (Hcl3 Hc) as [? He]. split; [done|]. by rewrite (ti_ended _ _ Htk5).
  - rewrite (ti_ended _ _ Htk5). intros He. apply Hz3. apply (bn_sender _ _ _ _ _ _ _ _ Hn4). exact He.
Qed.

Section passing.
Context (s : t) (a b a1 b1 a2 b2 a3 b3 : endpoint) (wa wb : bytes) (ticks : Z).
Context (Hlp : looping s a b wa wb ticks) (Hps : passed (x_closed s) a b a1 b1 a2 b2 a3 b3).

Lemma passed_got_b : got (rcv b3) = nxt a1 ∧ nxt a <= nxt a1.
Proof.
  destruct Hps, ps_tick_b0, ps_on0. destruct ti_local0 as (? & ? & L). destruct (local_facts _ _ _ _ L) as (-> & _).
  destruct ps_read0 as [-> _]. done.
Qed.

Lemma passed_got_a : Z.min 2 (got (rcv a) + 1) <= got (rcv a3) ∧ got (rcv a) <= got (rcv a3) ∧ ackd b3 = got (rcv a).
Proof.
  destruct Hps. destruct (ti_local _ _ ps_tick_a0) as (? & ? & La). destruct (local_facts _ _ _ _ La) as (-> & _).
  destruct (ti_local _ _ ps_tick_b0) as (? & ? & Lb). destruct (local_facts _ _ _ _ Lb) as (_ & _ & -> & _).
  destruct ps_read0 as (_ & Hs2 & _). unfold ackd at 1. rewrite Hs2. fold (ackd b1). rewrite ps_acked_b0, (on_recv _ _ ps_on0), ps_got_a0.
  pose proof (la_inv _ _ _ _ (ad_later _ _ _ ps_first0)) as Hs. pose proof (ad_got _ _ _ ps_second0) as Hga.
  change (rcv (flushed a1)) with (rcv a1) in Hga. rewrite (on_recv _ _ ps_on0), ps_got_a0 in Hga. split_and!; try done.
  destruct ps_busy_b0 as [Hf|?]; [|rewrite ps_acked_b0, (on_recv _ _ ps_on0) in *; lia].
  pose proof (si_next _ _ Hs) as Hn. pose proof (ByteStream.rep_read _ _ (si_rep _ _ Hs)).
  destruct (TCPSender.syned_ (snd b1)) eqn:Esy; [|by destruct (si_syned _ _ Hs Esy) as [_ ?]; congruence].
  rewrite Hf in Hn. unfold nxt, b2n in *. lia.
Qed.

Context (s' : t) (wa' wb' : bytes) (ticks' : Z) (Hlp' : looping s' a3 b3 wa' wb' ticks').

Let Hn := bn_net _ _ _ _ _ _ _ _ (lp_net _ _ _ _ _ _ Hlp).

Let Hn' := bn_net _ _ _ _ _ _ _ _ (lp_net _ _ _ _ _ _ Hlp').

Lemma looping_syned : TCPSender.syned_ (snd a) = true ∧ TCPSender.syned_ (snd b) = true.
Proof. destruct (lp_live _ _ _ _ _ _ Hlp). split; [apply lv_calm_a0|apply lv_calm_b0]. Qed.

(** A complete stream stays complete, and [x] has nothing more to do. *)
Lemma passed_eofed :
  StreamReassembler.eofed (TCPReceiver.reassembler (rcv b)) = true →
  a1 = a ∧ TCPSender.full_fined (snd a2) = true ∧ nxt a3 = nxt a ∧ got (rcv b) = nxt a ∧
  StreamReassembler.eofed (TCPReceiver.reassembler (rcv b3)) = true.
Proof.
  intros He. destruct (pair_eofed _ _ _ _ _ Hn He) as [Hf _]. destruct looping_syned as [Hsy _].
  assert (Ea : a1 = a).
  { apply (ps_same _ _ _ _ _ _ _ _ _ Hps). apply (lp_ended _ _ _ _ _ _ Hlp). by apply (si_fined _ _ (ci_send _ _ _ _ (ni_a _ _ _ _ _ Hn))). }
  pose proof (got_next _ _ _ _ _ Hn Hsy) as Hle. pose proof (passed_got_b) as [Hg3 _]. rewrite Ea in Hg3. destruct Hps.
  pose proof (ad_later _ _ _ ps_second0) as Hl2. rewrite Ea in *.
  assert (Hf2 : TCPSender.fined_ (snd a2) = true).
  { destruct (la_grows _ _ _ _ Hl2) as [[_ Ef]|[Ef _]]; [by rewrite Ef|]. change (TCPSender.fined_ (snd a) = false) in Ef. congruence. }
  destruct (ps_quiet_a0 Hf) as [Hn2 _]. change (nxt (flushed a)) with (nxt a) in Hn2.
  destruct (ti_local _ _ ps_tick_a0) as (? & ? & L3). pose proof (local_later _ _ _ _ L3) as Hl3.
  assert (Hf3 : TCPSender.fined_ (snd a3) = true).
  { destruct (la_grows _ _ _ _ Hl3) as [[_ Ef]|[Ef _]]; [by rewrite Ef|congruence]. }
  assert (Hg : got (rcv b) = nxt a).
  { apply (got_dead _ _ _ _ _ Hn Hsy). by rewrite (pair_full _ _ _ _ _ Hn). }
  assert (Hn3 : nxt a3 = nxt a) by (rewrite (ti_next _ _ ps_tick_a0); exact Hn2).
  split_and!; try done.
  - unfold TCPSender.full_fined. rewrite Hf2. apply Z.eqb_eq. change (nxt a2 = ackd a2). rewrite ps_acked_a0, ps_got_b0. exact Hn2.
  - apply (done_eofed a3 b3 _ _ _ Hn'); [apply Hlp'|done|]. rewrite Hg3, Hn3. done.
Qed.
End passing.

(** Both streams are complete and acknowledged. *)
Record finished (a b : endpoint) : Prop := mk_finished {
  fi_eofed_b : StreamReassembler.eofed (TCPReceiver.reassembler (rcv b)) = true;
  fi_eofed_a : StreamReassembler.eofed (TCPReceiver.reassembler (rcv a)) = true;
  fi_full_b : TCPSender.full_fined (snd b) = true;
}.

Lemma finished_intro s a b wa wb ticks :
  looping s a b wa wb ticks → StreamReassembler.eofed (TCPReceiver.reassembler (rcv b)) = true → 2 <= ackd b → finished a b.
Proof.
  intros Hlp He Ha. pose proof (bn_net _ _ _ _ _ _ _ _ (lp_net _ _ _ _ _ _ Hlp)) as Hn. pose proof (ninv_sym _ _ _ _ _ Hn) as Hn'.
  destruct (looping_syned _ _ _ _ _ _ Hlp) as [_ Hsy]. pose proof (pair_next _ _ _ _ _ Hn') as Hnx. rewrite Hsy in Hnx.
  pose proof (blen_data_of _ _ _ _ _ Hn') as Hd. rewrite (bn_quiet _ _ _ _ _ _ _ _ (lp_net _ _ _ _ _ _ Hlp)), blen_nil in Hd.
  pose proof (blen_nonneg (data_of b)). pose proof (si_acked _ _ (ci_send _ _ _ _ (ni_b _ _ _ _ _ Hn))) as Hle.
  change (0 <= ackd b <= nxt b) in Hle. destruct (TCPSender.fined_ (snd b)) eqn:Hf; unfold b2n in Hnx; [|lia].
  split; [done| |].
  - apply (done_eofed b a _ _ _ Hn' Hsy Hf). destruct (lp_next _ _ _ _ _ _ Hlp); lia.
  - unfold TCPSender.full_fined. rewrite Hf. apply Z.eqb_eq. change (nxt b = ackd b). lia.
Qed.

Section stable.
Context (s : t) (a b a1 b1 a2 b2 a3 b3 : endpoint) (wa wb : bytes) (ticks : Z).
Context (Hlp : looping s a b wa wb ticks) (Hps : passed (x_closed s) a b a1 b1 a2 b2 a3 b3).
Context (s' : t) (wa' wb' : bytes) (ticks' : Z) (Hlp' : looping s' a3 b3 wa' wb' ticks').
Context (Hfin : finished a b).

Lemma finished_next : 2 <= nxt b ∧ nxt b = got (rcv a).
Proof.
  pose proof (fi_full_b _ _ Hfin) as [Hf _]%andb_prop. pose proof (bn_net _ _ _ _ _ _ _ _ (lp_net _ _ _ _ _ _ Hlp)) as Hn.
  pose proof (pair_next _ _ _ _ _ (ninv_sym _ _ _ _ _ Hn)) as Hnx. rewrite Hf in Hnx.
  destruct (looping_syned _ _ _ _ _ _ Hlp) as [_ Hsy]. rewrite Hsy in Hnx. pose proof (blen_nonneg (data_of b)).
  unfold b2n in Hnx. destruct (lp_next _ _ _ _ _ _ Hlp); lia.
Qed.

Lemma finished_kept : finished a3 b3.
Proof.
  destruct Hfin. destruct (passed_eofed _ _ _ _ _ _ _ _ _ _ _ _ Hlp Hps _ _ _ _ Hlp' fi_eofed_b0) as (_ & _ & _ & _ & He).
  apply (finished_intro _ _ _ _ _ _ Hlp' He). destruct (passed_got_a _ _ _ _ _ _ _ _ _ Hps) as (_ & _ & ->).
  pose proof finished_next. lia.
Qed.

Lemma finished_b2 : TCPSender.full_fined (snd b2) = true.
Proof.
  destruct Hfin, Hps. destruct ps_read0 as (_ & -> & _). apply andb_prop in fi_full_b0 as [Hf _].
  destruct (ps_quiet_b0 Hf) as [Hn1 _]. unfold TCPSender.full_fined. apply andb_true_intro. split.
  - destruct (la_grows _ _ _ _ (ad_later _ _ _ ps_first0)) as [[_ ->]|[? _]]; [done|congruence].
  - apply Z.eqb_eq. change (nxt b1 = ackd b1). rewrite ps_acked_b0, (on_recv _ _ ps_on0), Hn1. apply finished_next.
Qed.

(** What remains in transit dies down. *)
Lemma finished_out :
  TCPConnection.segments_out (conn b3) = [] ∧ Forall (idle a3) (TCPConnection.segments_out (conn a3)) ∧
  (TCPConnection.segments_out (conn b) = [] → Forall (idle a) (TCPConnection.segments_out (conn a)) →
   TCPConnection.segments_out (conn a3) = []).
Proof.
  destruct (passed_eofed _ _ _ _ _ _ _ _ _ _ _ _ Hlp Hps _ _ _ _ Hlp' (fi_eofed_b _ _ Hfin)) as (Ea & Hf2 & Hn3 & Hgb & _).
  pose proof finished_b2 as Hfb2. destruct Hps. rewrite (ti_quiet _ _ ps_tick_a0 Hf2), (ti_quiet _ _ ps_tick_b0 Hfb2).
  split; [apply ps_read0|]. subst a1.
  destruct (pair_eofed _ _ _ _ _ (bn_net _ _ _ _ _ _ _ _ (lp_net _ _ _ _ _ _ Hlp)) (fi_eofed_b _ _ Hfin)) as [Hfa _].
  destruct (ps_quiet_a0 Hfa) as (_ & more & Ho & Hi & _). change (TCPConnection.segments_out (conn (flushed a))) with (@nil TCPSegment.t) in Ho.
  destruct (ti_local _ _ ps_tick_a0) as (? & ? & L3). split.
  - rewrite Ho. eapply Forall_impl; [exact Hi|]. intros g. unfold idle. change (nxt (flushed a)) with (nxt a). rewrite Hn3.
    rewrite (la_isn _ _ _ _ (local_later _ _ _ _ L3)), (la_isn _ _ _ _ (ad_later _ _ _ ps_second0)). done.
  - intros Hob Hia. pose proof (fi_full_b _ _ Hfin) as [Hfb _]%andb_prop. destruct (ps_quiet_b0 Hfb) as (_ & mb & Hob1 & _ & Hqb).
    rewrite (Hqb Hgb Hia), Hob in Hob1. by rewrite (ps_nil_a0 Hob1).
Qed.

(** In silence the clocks run. *)
Lemma finished_clock :
  TCPConnection.segments_out (conn a) = [] → TCPConnection.segments_out (conn b) = [] →
  TCPConnection.last_seg_timer (conn a3) = TCPConnection.last_seg_timer (conn a) + 1000 ∧
  TCPConnection.last_seg_timer (conn b3) = TCPConnection.last_seg_timer (conn b) + 1000.
Proof.
  intros Ha Hb. destruct (passed_eofed _ _ _ _ _ _ _ _ _ _ _ _ Hlp Hps _ _ _ _ Hlp' (fi_eofed_b _ _ Hfin)) as (Ea & _).
  destruct Hps. subst a1. specialize (ps_nil_b0 Ha). subst b1. specialize (ps_nil_a0 Hb). subst a2.
  rewrite (ti_timer _ _ ps_tick_a0), (ti_timer _ _ ps_tick_b0). destruct ps_read0 as (_ & _ & _ & _ & ->). done.
Qed.

(** Ten initial timeouts of silence end a connection. *)
Lemma finished_life :
  (TCPConnection.active (conn a3) = true → TCPConnection.last_seg_timer (conn a3) < 655360) ∧
  (TCPConnection.active (conn b3) = true → TCPConnection.last_seg_timer (conn b3) < 655360).
Proof.
  destruct (passed_eofed _ _ _ _ _ _ _ _ _ _ _ _ Hlp Hps _ _ _ _ Hlp' (fi_eofed_b _ _ Hfin)) as (_ & Hf2 & _).
  pose proof finished_b2 as Hfb2. destruct finished_kept, Hps.
  pose proof (bn_net _ _ _ _ _ _ _ _ (lp_net _ _ _ _ _ _ Hlp')) as Hn'. destruct (lv_timeout _ _ _ (lp_live _ _ _ _ _ _ Hlp')) as [Ta Tb].
  rewrite <- (pair_full _ _ _ _ _ Hn') in fi_eofed_b0. rewrite <- (pair_full _ _ _ _ _ (ninv_sym _ _ _ _ _ Hn')) in fi_eofed_a0.
  destruct (ti_local _ _ ps_tick_a0) as (? & ? & La). destruct (local_facts _ _ _ _ La) as (Ra & _). rewrite Ra in fi_eofed_a0.
  destruct (ti_local _ _ ps_tick_b0) as (? & ? & Lb). destruct (local_facts _ _ _ _ Lb) as (Rb & _). rewrite Rb in fi_eofed_b0.
  rewrite (ti_cfg _ _ ps_tick_a0) in Ta. rewrite (ti_cfg _ _ ps_tick_b0) in Tb. unfold is_u16 in *. split; intros Hact.
  - pose proof (ti_life _ _ ps_tick_a0 Hact Hf2 fi_eofed_a0). lia.
  - pose proof (ti_life _ _ ps_tick_b0 Hact Hfb2 fi_eofed_b0). lia.
Qed.
End stable.
End round.

(** ** The start *)

Lemma prepared_new P cfg rand :
  config_ok cfg → prepared P (TCPConnection.new cfg rand) [] [].
Proof.
  intros Hc. split; try done; [|by right].
  destruct Hc. apply cinv_new; try done. unfold_w. lia.
Qed.

Lemma flow_fresh ca cb ra rb : flow (fresh ca ra) (fresh cb rb) [].
Proof. split; try done; [unfold nxt; simpl; lia|by right|by left]. Qed.

(** A connection right after it was opened, with the SYN on its way. *)
Record opening (cfg : TCPConfig.t) (rand : Z) (a : endpoint) : Prop := mk_opening {
  op_local : ∃ s1 more, local (fresh cfg rand) a s1 more;
  op_calm : calm (conn a) (written a);
  op_plain : plain (snd a);
  op_tries : tries a = 0;
  op_room : ByteStream.capacity (TCPSender.stream (snd a)) = TCPConfig.send_capacity cfg;
  op_timer : TCPConnection.last_seg_timer (conn a) = 0;
  op_cfg : TCPConnection.cfg (conn a) = cfg;
}.

Lemma opening_intro cfg rand c s1 more :
  moved (TCPConnection.with_sender (TCPConnection.new cfg rand) s1) c [] false more →
  later (snd (fresh cfg rand)) s1 [] [] → TCPSender.next_abs_seqno s1 = 0 → TCPSender.last_acked_abs_seqno s1 = 0 →
  TCPSender.window_size s1 = 1 → TCPSender.resend_try_times s1 = 0 →
  ByteStream.capacity (TCPSender.stream s1) = TCPConfig.send_capacity cfg → opening cfg rand (mk_endpoint c [] []).
Proof.
  intros Hm Hl En Ea Ew Et Ec. pose proof Hm as []. split; try done.
  - exists s1, more. split; try done. by exists 0.
  - unfold tries. simpl. by rewrite (st_tries _ _ mo_same).
  - unfold snd. simpl. by rewrite mo_capacity.
Qed.

Lemma connect_opens cfg rand c :
  config_ok cfg → TCPConnection.connect (TCPConnection.new cfg rand) = Ok c →
  opening cfg rand (mk_endpoint c [] []) ∧ ByteStream.input_ended_flag (TCPSender.stream (TCPConnection.sender c)) = false.
Proof.
  intros Hc E. pose proof (prepared_new (λ _ _, True) cfg rand Hc) as Hp.
  destruct (connect_moves _ _ _ _ Hp) as (c' & more & E' & Hm). assert (c' = c) as -> by congruence.
  split; [|by rewrite (mo_ended _ _ _ _ _ Hm)]. eapply opening_intro; [exact Hm|..]; try done. apply later_refl. apply (ci_send _ _ _ _ (pr_inv _ _ _ _ Hp)).
Qed.

Lemma end_input_opens cfg rand c :
  config_ok cfg → TCPConnection.end_input_stream (TCPConnection.new cfg rand) = Ok c →
  opening cfg rand (mk_endpoint c [] []) ∧ ByteStream.input_ended_flag (TCPSender.stream (TCPConnection.sender c)) = true.
Proof.
  intros Hc E. pose proof (prepared_new (λ _ _, True) cfg rand Hc) as Hp. pose proof Hp as [Hci].
  pose proof (ci_send _ _ _ _ Hci) as Hs.
  set (s1 := TCPSender.with_stream (snd (fresh cfg rand)) (ByteStream.end_input (TCPSender.stream (snd (fresh cfg rand))))).
  assert (Hl : later (snd (fresh cfg rand)) s1 [] []) by (apply later_same; try done; by apply sinv_end_input).
  destruct (end_input_moves (λ _ _, True) (TCPConnection.new cfg rand) [] []) as (c' & more & E' & Hm).
  { split; try done. by apply (later_sender _ _ s1 _ _ _ Hci). }
  assert (c' = c) as -> by congruence. split; [|by rewrite (mo_ended _ _ _ _ _ Hm)].
  by eapply (opening_intro cfg rand c s1 more Hm).
Qed.

Section runs.
Context `{EndKeyFresh} (str : bytes) (Hstr : blen str < size_bound).

Lemma start_live config rx ry :
  config_ok config → 1 <= TCPConfig.recv_capacity config → 1 <= TCPConfig.send_capacity config →
  ∃ s a b wa wb, start config rx ry str = Ok s ∧ looping str s a b wa wb 0.
Proof.
  intros Hc Hr Hsc. pose proof (bnet_start str Hstr config rx ry Hc) as Hb. unfold start.
  destruct (bnet_act_a str Hstr App_connect _ _ _ _ _ _ _ Hb) as (a' & E & Ha'); try done. unfold act in E.
  cbn [conn fresh] in E. apply result_bind_Ok in E as (cx & E & [= <-]). rewrite E. cbn [mbind result_bind].
  destruct (Ha' eq_refl) as (wa' & Hb1).
  { eapply connect_sender; [..|exact E]; eauto with sponge. apply Hb. }
  clear Ha'. cbn [written wire fresh] in Hb1. destruct (connect_opens config rx cx Hc E) as [Oa Hopen].
  set (a := mk_endpoint cx _ _) in *. rewrite Z.add_0_r in Hb1.
  destruct (bnet_act_b str Hstr App_end_input _ _ _ _ _ _ _ Hb1) as (b' & E' & Hb'); try done. unfold act in E'.
  cbn [conn fresh] in E'. apply result_bind_Ok in E' as (cy & E' & [= <-]). rewrite E'. cbn [mbind result_bind].
  destruct (Hb' eq_refl) as (wb' & Hb2). clear Hb'. cbn [written wire fresh] in Hb2.
  destruct (end_input_opens config ry cy Hc E') as [Ob Hend]. set (b := mk_endpoint cy _ _) in *. rewrite Z.add_0_r in Hb2.
  destruct (op_local _ _ _ Oa) as (sa & ma & La). destruct (op_local _ _ _ Ob) as (sb & mb & Lb).
  destruct (local_facts _ _ _ _ La) as (Ra & _ & Aa & Wa & Na & _). destruct (local_facts _ _ _ _ Lb) as (Rb & _ & Ab & _ & Nb & Cb & _).
  change (nxt a <= 1) in Na. change (nxt b <= 1) in Nb. change (ackd a = 0) in Aa.
  assert (Fa : flow a (fresh config ry) (TCPConnection.segments_out (conn a))).
  { apply (local_flow_out (fresh config rx) a _ [] [] 0 wa' [] 0 sa ma); try done; [apply Hb|apply Hb1|by eapply bnet_sized|].
    apply flow_fresh. }
  assert (Fb : flow (fresh config ry) a []) by (eapply local_flow_in; [exact La|apply flow_fresh]).
  assert (Hlv : lively a b 0).
  { split; rewrite ?(op_timer _ _ _ Oa), ?(op_timer _ _ _ Ob), ?(op_cfg _ _ _ Oa), ?(op_cfg _ _ _ Ob), ?Cb, ?Wa; try apply Oa; try apply Ob; try done.
    - by eapply local_flow_in.
    - apply (local_flow_out (fresh config ry) b a [] wa' 0 wb' wa' 0 sb mb); try done; [by apply ninv_sym, Hb1|by apply ninv_sym, Hb2| |].
      + by eapply sized_sym, bnet_sized.
      + rewrite Ra. done.
    - unfold flight. fold (nxt a) (ackd a). rewrite Aa. unfold recv_capacity. simpl. lia.
    - by rewrite (op_room _ _ _ Oa).
    - split; apply (co_timeout _ Hc). }
  exists (mk cx cy (Buffer.of_string str) false []), a, b, wa', wb'. split; [done|]. split; try done.
  - rewrite (op_tries _ _ _ Oa). lia.
  - rewrite (op_tries _ _ _ Ob). lia.
  - by rewrite Aa, Rb.
  - by left.
  - pose proof (pair_first _ _ _ _ _ (bn_net _ _ _ _ _ _ _ _ Hb2)) as [Hf _]. rewrite Rb in Hf.
    unfold consumed, TCPConnection.inbound_stream. fold (rcv b). rewrite Rb. exact Hf.
  - intros He. change (snd a) with (TCPConnection.sender cx) in He. congruence.
Qed.
(** ** The loops *)

(** A loop ends when every round brings the state to a lower stage. *)
Lemma while_ends (stage : nat → t → Z → Prop) cond reorder :
  (∀ n s k, stage n s k → cond s = true → k + 2 < UINT32_MAX →
     ∃ s' n', loop reorder s = Ok s' ∧ (n' < n)%nat ∧ stage n' s' (k + 2)) →
  ∀ fuel n s k, stage n s k → (n <= fuel)%nat → k + 2 * Z.of_nat fuel + 2 < UINT32_MAX →
  ∃ s' n' k', while fuel cond reorder s = Ok s' ∧ stage n' s' k' ∧ cond s' = false ∧ k' <= k + 2 * Z.of_nat fuel.
Proof.
  intros Hstep. induction fuel as [|fuel IH]; intros n s k Hs Hn Hk; simpl; destruct (cond s) eqn:Ec.
  2,4: exists s, n, k; split_and!; try done; lia.
  - destruct (Hstep n s k Hs Ec) as (s' & n' & E & Hlt & Hs'); lia.
  - destruct (Hstep n s k Hs Ec) as (s' & n' & E & Hlt & Hs'); [lia|]. rewrite E. cbn [mbind result_bind]. destruct (IH n' s' (k + 2) Hs') as (s2 & n2 & k2 & E2 & ? & ? & ?); [lia|lia|].
    exists s2, n2, k2. split_and!; try done. lia.
Qed.

Lemma looping_receiving s a b wa wb k :
  looping str s a b wa wb k → receiving s = negb (StreamReassembler.eofed (TCPReceiver.reassembler (rcv b))).
Proof.
  intros Hlp. pose proof (bn_net _ _ _ _ _ _ _ _ (lp_net _ _ _ _ _ _ _ Hlp)) as Hn. pose proof (pair_re _ _ _ _ _ Hn) as Hre.
  unfold receiving. rewrite <- (lp_y _ _ _ _ _ _ _ Hlp). f_equal. rewrite <- (inv_ended _ _ _ Hre).
  pose proof (ByteStream.rep_eof _ _ (inv_rep _ _ _ (inv_core _ _ _ Hre))) as Heof. pose proof (lp_read _ _ _ _ _ _ _ Hlp) as Hrd.
  change (ByteStream.read_count (StreamReassembler.output (TCPReceiver.reassembler (rcv b))) = blen wb) in Hrd.
  change (TCPConnection.inbound_stream (conn b)) with (StreamReassembler.output (TCPReceiver.reassembler (rcv b))).
  destruct (ByteStream.input_ended_flag _); [by apply Heof|]. destruct (ByteStream.eof _); [|done].
  by destruct (proj1 Heof eq_refl) as [? _].
Qed.

Lemma looping_total s a b wa wb k : looping str s a b wa wb k → got (rcv b) <= blen str + 2 ∧ ackd b <= got (rcv a) <= 2.
Proof.
  intros Hlp. pose proof (lp_net _ _ _ _ _ _ _ Hlp) as Hbn. pose proof (bn_net _ _ _ _ _ _ _ _ Hbn) as Hn.
  destruct (looping_syned _ _ _ _ _ _ _ Hlp) as [Hsa Hsb]. pose proof (bnet_written _ _ _ _ _ _ _ _ Hbn).
  pose proof (got_next _ _ _ _ _ Hn Hsa). pose proof (got_next _ _ _ _ _ (ninv_sym _ _ _ _ _ Hn) Hsb).
  pose proof (pair_next _ _ _ _ _ Hn) as Ha. pose proof (pair_next _ _ _ _ _ (ninv_sym _ _ _ _ _ Hn)) as Hb.
  pose proof (blen_data_of _ _ _ _ _ Hn). pose proof (blen_data_of _ _ _ _ _ (ninv_sym _ _ _ _ _ Hn)) as Hdb.
  rewrite (bn_quiet _ _ _ _ _ _ _ _ Hbn), blen_nil in Hdb. pose proof (fl_acked _ _ _ (lv_ab _ _ _ (lp_live _ _ _ _ _ _ _ Hlp))).
  destruct (TCPSender.syned_ (snd a)), (TCPSender.syned_ (snd b)), (TCPSender.fined_ (snd a)), (TCPSender.fined_ (snd b)); unfold b2n in *; lia.
Qed.

(** The first loop: at least one more number arrives at [y] in every round. *)
Definition receiving_stage (n : nat) (s : t) (k : Z) : Prop :=
  ∃ a b wa wb, looping str s a b wa wb k ∧ blen str + 2 - got (rcv b) <= Z.of_nat n.

Lemma receiving_step reorder n s k :
  receiving_stage n s k → receiving s = true → k + 2 < UINT32_MAX →
  ∃ s' n', loop reorder s = Ok s' ∧ (n' < n)%nat ∧ receiving_stage n' s' (k + 2).
Proof.
  intros (a & b & wa & wb & Hlp & Hn) Hrc Hk. rewrite (looping_receiving _ _ _ _ _ _ Hlp) in Hrc. apply negb_true_iff in Hrc.
  destruct (round_passes str Hstr s a b wa wb k reorder Hlp Hk) as (s' & a1 & b1 & a2 & b2 & a3 & b3 & wa' & wb' & E & Hlp' & Hps).
  destruct (passed_got_b _ _ _ _ _ _ _ _ _ Hps) as [Hg _]. destruct (looping_total _ _ _ _ _ _ Hlp') as [Htot _].
  destruct (ps_progress _ _ _ _ _ _ _ _ _ Hps) as [Hlt|?]; [|congruence].
  exists s', (n - 1)%nat. split; [done|]. split; [lia|]. exists a3, b3, wa', wb'. split; [done|]. lia.
Qed.

(** The second loop: the streams finish, the network falls silent, and the
    connections wait. *)
Definition closing_stage (n : nat) (s : t) (k : Z) : Prop :=
  ∃ a b wa wb, looping str s a b wa wb k ∧ StreamReassembler.eofed (TCPReceiver.reassembler (rcv b)) = true ∧
    (665 - got (rcv a) - ackd b <= Z.of_nat n ∨
     finished a b ∧
     (660 <= Z.of_nat n ∨
      TCPConnection.segments_out (conn b) = [] ∧ Forall (idle a) (TCPConnection.segments_out (conn a)) ∧ 659 <= Z.of_nat n ∨
      ∃ j, TCPConnection.segments_out (conn b) = [] ∧ TCPConnection.segments_out (conn a) = [] ∧
        1000 * j <= TCPConnection.last_seg_timer (conn a) ∧ 1000 * j <= TCPConnection.last_seg_timer (conn b) ∧
        (TCPConnection.active (conn a) = true → TCPConnection.last_seg_timer (conn a) < 655360) ∧
        (TCPConnection.active (conn b) = true → TCPConnection.last_seg_timer (conn b) < 655360) ∧ 658 - j <= Z.of_nat n)).

Lemma closing_step reorder n s k :
  closing_stage n s k → running s = true → k + 2 < UINT32_MAX →
  ∃ s' n', loop reorder s = Ok s' ∧ (n' < n)%nat ∧ closing_stage n' s' (k + 2).
Proof.
  intros (a & b & wa & wb & Hlp & He & Hst) Hrun Hk.
  destruct (round_passes str Hstr s a b wa wb k reorder Hlp Hk) as (s' & a1 & b1 & a2 & b2 & a3 & b3 & wa' & wb' & E & Hlp' & Hps).
  destruct (passed_got_a _ _ _ _ _ _ _ _ _ Hps) as (Hg1 & Hg2 & Hak). destruct (looping_total _ _ _ _ _ _ Hlp) as [_ Htot].
  destruct (passed_eofed _ _ _ _ _ _ _ _ _ _ _ _ _ Hlp Hps _ _ _ _ Hlp' He) as (_ & _ & _ & _ & He').
  assert (Hn : (1 <= n)%nat ∧ closing_stage (n - 1) s' (k + 2)); [|destruct Hn; exists s', (n - 1)%nat; split_and!; try done; lia].
  destruct Hst as [Hst|[Hfin Hst]].
  - split; [lia|]. exists a3, b3, wa', wb'. split_and!; try done. destruct (decide (2 <= ackd b3)) as [H2|H2]; [right|left; lia].
    split; [by eapply finished_intro|]. left. lia.
  - pose proof (finished_kept _ _ _ _ _ _ _ _ _ _ _ _ _ Hlp Hps _ _ _ _ Hlp' Hfin) as Hfin'.
    destruct (finished_out _ _ _ _ _ _ _ _ _ _ _ _ _ Hlp Hps _ _ _ _ Hlp' Hfin) as (Hob & Hoa & Hnil).
    destruct (finished_life _ _ _ _ _ _ _ _ _ _ _ _ _ Hlp Hps _ _ _ _ Hlp' Hfin) as [Hla Hlb].
    destruct Hst as [Hst|[(Hb & Ha & Hst)|(j & Hb & Ha & Hta & Htb & Haa & Hab & Hst)]].
    + split; [lia|]. exists a3, b3, wa', wb'. split_and!; try done. right. split; [done|]. right. left. split_and!; try done. lia.
    + split; [lia|]. exists a3, b3, wa', wb'. split_and!; try done. right. split; [done|]. right. right. exists 0.
      destruct (lv_clock _ _ _ (lp_live _ _ _ _ _ _ _ Hlp')). split_and!; try done; try lia. by apply Hnil.
    + destruct (finished_clock _ _ _ _ _ _ _ _ _ _ _ _ _ Hlp Hps _ _ _ _ Hlp' Hfin Ha Hb) as [Hca Hcb].
      assert (Hj : j <= 655).
      { unfold running in Hrun. rewrite <- (lp_x _ _ _ _ _ _ _ Hlp), <- (lp_y _ _ _ _ _ _ _ Hlp) in Hrun.
        apply orb_true_iff in Hrun as [Hr|Hr]; [specialize (Haa Hr)|specialize (Hab Hr)]; lia. }
      split; [lia|]. exists a3, b3, wa', wb'. split_and!; try done. right. split; [done|]. right. right. exists (j + 1).
      split_and!; try done; try lia. apply Hnil; [done|]. by rewrite Ha.
Qed.

(** Both loops. *)
Lemma main_loop_live fuel config rx ry reorder :
  config_ok config → 1 <= TCPConfig.recv_capacity config → 1 <= TCPConfig.send_capacity config →
  Z.max (blen str + 2) 665 <= Z.of_nat fuel → 4 * Z.of_nat fuel + 2 < UINT32_MAX →
  ∃ s, main_loop fuel config rx ry str reorder = Ok s ∧ string_received s = str ∧ running s = false.
Proof.
  intros Hc Hr Hs Hf Hk. unfold main_loop. destruct (start_live config rx ry Hc Hr Hs) as (s & a & b & wa & wb & -> & Hlp).
  cbn [mbind result_bind]. assert (Heq : ∀ s a b wa wb k, looping str s a b wa wb k → receiving s = false → string_received s = str).
  { intros s0 a0 b0 wa0 wb0 k0 Hlp0 Hrc. eapply bnet_eof; [apply (lp_net _ _ _ _ _ _ _ Hlp0)|]. rewrite (lp_y _ _ _ _ _ _ _ Hlp0).
    by apply negb_false_iff. }
  destruct (while_ends receiving_stage receiving reorder (receiving_step reorder) fuel (Z.to_nat (blen str + 2)) s 0)
    as (s1 & n1 & k1 & -> & (a1 & b1 & wa1 & wb1 & Hlp1 & _) & Hrc1 & Hk1); [|lia|lia|].
  { exists a, b, wa, wb. split; [done|]. rewrite <- (lp_acked _ _ _ _ _ _ _ Hlp).
    pose proof (si_acked _ _ (ci_send _ _ _ _ (ni_a _ _ _ _ _ (bn_net _ _ _ _ _ _ _ _ (lp_net _ _ _ _ _ _ _ Hlp))))) as Ha.
    change (0 <= ackd a <= nxt a) in Ha. pose proof (blen_nonneg str). lia. }
  cbn [mbind result_bind]. rewrite bool_decide_true by (by eapply Heq). cbn [negb].
  pose proof (looping_receiving _ _ _ _ _ _ Hlp1) as Hr1. rewrite Hrc1 in Hr1. symmetry in Hr1. apply negb_false_iff in Hr1.
  destruct (while_ends closing_stage running reorder (closing_step reorder) fuel 665 s1 k1)
    as (s2 & n2 & k2 & -> & (a2 & b2 & wa2 & wb2 & Hlp2 & He2 & _) & Hrun & _); [|lia|lia|].
  { exists a1, b1, wa1, wb1. split_and!; try done. left. destruct (looping_total _ _ _ _ _ _ Hlp1) as [_ ?].
    pose proof (si_acked _ _ (ci_send _ _ _ _ (ni_b _ _ _ _ _ (bn_net _ _ _ _ _ _ _ _ (lp_net _ _ _ _ _ _ _ Hlp1))))) as Ha.
    change (0 <= ackd b1 <= nxt b1) in Ha. lia. }
  exists s2. split_and!; try done. eapply Heq; [exact Hlp2|]. rewrite (looping_receiving _ _ _ _ _ _ Hlp2), He2. done.
Qed.
End runs.

(** C5. The benchmark delivers, with or without reordering, for every string,
    every configuration with room for at least one byte in each direction and
    every choice of the initial sequence numbers: neither loop runs longer than
    the larger of 665 rounds and two rounds more than the string has bytes, no
    call throws, no write falls short, the comparison succeeds, what was received
    is what was sent, and both connections have closed. The string is so short
    that neither the sequence numbers nor the counts of retransmissions wrap. *)
Theorem benchmark_delivers `{EndKeyFresh} fuel config rx ry str reorder :
  config_ok config → 1 <= TCPConfig.recv_capacity config → 1 <= TCPConfig.send_capacity config →
  Z.max (blen str + 2) 665 <= Z.of_nat fuel → 4 * Z.of_nat fuel + 2 < UINT32_MAX →
  ∃ s, main_loop fuel config rx ry str reorder = Ok s ∧ string_received s = str ∧ running s = false.
Proof. intros Hc Hr Hs Hf Hk. apply main_loop_live; try done. unfold size_bound, UINT32_MAX in *. lia. Qed.

Definition sample_config : TCPConfig.t := TCPConfig.mk 1000 100 70 (Some (WrappingInt32.mk 0xffffffff)).

Lemma sample_config_fine : config_ok sample_config.
Proof. split; simpl; [lia|range_compute|range_compute|]. intros j [= <-]. range_compute. Qed.

Lemma benchmark_delivers_witness :
  ∃ s, main_loop 700 sample_config 0 0 (slice alphabet 0 250) true = Ok s ∧ string_received s = slice alphabet 0 250 ∧
    running s = false.
Proof.
  apply (benchmark_delivers 700 sample_config 0 0 (slice alphabet 0 250) true).
  - exact sample_config_fine.
  - simpl. lia.
  - simpl. lia.
  - rewrite blen_slice by lia. lia.
  - vm_compute. done.
Defined.

(** The program reports success when it is given the rounds for its two strings. *)
Theorem benchmark_succeeds `{EndKeyFresh} fuel (random : bool → Z * Z * bytes) :
  (∀ reorder, Z.max (blen (random reorder).2 + 2) 665 <= Z.of_nat fuel) → 4 * Z.of_nat fuel + 2 < UINT32_MAX →
  main fuel random = EXIT_SUCCESS.
Proof.
  intros Hf Hk. assert (Hc : config_ok TCPConfig.default) by (split; [split; vm_compute; congruence|range_compute|range_compute|done]).
  assert (Hrun : ∀ reorder, is_Ok (let '(rx, ry, str) := random reorder in main_loop fuel TCPConfig.default rx ry str reorder)).
  { intros reorder. specialize (Hf reorder). destruct (random reorder) as [[rx ry] str]. cbn [Datatypes.snd] in Hf.
    assert (Hstr : blen str < size_bound) by (unfold size_bound, UINT32_MAX in *; lia).
    destruct (main_loop_live str Hstr fuel TCPConfig.default rx ry reorder) as (s & E & _);
      try done; by exists s. }
  unfold main. destruct (Hrun false) as [s0 ->], (Hrun true) as [s1 E1]. cbn [mbind result_bind]. by rewrite E1.
Qed.
