(* ===== verification/Netif.v ===== *)
(** * The network interface: network_interface.hh and network_interface.cc

    The module [NetworkInterface] translates the class that joins IP with
    Ethernet: the ARP table, the datagrams waiting for an address, and the frames
    to send. An [Address] is its 32-bit [ipv4_numeric()]; the system part of that
    class is not needed. [AsyncNetworkInterface] is the wrapper of router.hh. *)

From stdpp Require Import gmap.
From S2P Require Import Prelude Buffers Parsing Checksum Ipv4 Link.

Module NetworkInterface.

(** [_etb_node_t]. *)
Record node := mk_node {
  eAddr : EthernetAddress;
  updated_time : Z;
  ask_time : Z;
  exist : bool;
}.

Record t := mk {
  ethernet_address : EthernetAddress;           (* _ethernet_address *)
  ip_address : Z;                               (* _ip_address *)
  frames_out : list EthernetFrame.t;            (* _frames_out *)
  arp_table : gmap Z node;                      (* _arp_table *)
  sent_dgram : list (Z * IPv4Datagram.t);       (* _sent_dgram, in key order *)
  timer : Z;                                    (* _timer *)
}.

Definition new (ethernet_address : EthernetAddress) (ip_address : Z) : t :=
  mk ethernet_address ip_address [] ∅ [] 0.

Definition with_frames (i : t) (q : list EthernetFrame.t) : t :=
  mk (ethernet_address i) (ip_address i) q (arp_table i) (sent_dgram i) (timer i).

Definition with_table (i : t) (m : gmap Z node) : t :=
  mk (ethernet_address i) (ip_address i) (frames_out i) m (sent_dgram i) (timer i).

Definition with_sent (i : t) (l : list (Z * IPv4Datagram.t)) : t :=
  mk (ethernet_address i) (ip_address i) (frames_out i) (arp_table i) l (timer i).

(** [std::multimap::insert]: after the elements with the same key. *)
Fixpoint multimap_insert (k : Z) (d : IPv4Datagram.t) (l : list (Z * IPv4Datagram.t)) : list (Z * IPv4Datagram.t) :=
  match l with
  | [] => [(k, d)]
  | (k', d') :: l' => if k' <=? k then (k', d') :: multimap_insert k d l' else (k, d) :: l
  end.

(** Lines 40 to 65: the frame around an ARP message. *)
Definition arp_frame (i : t) (target_ip : Z) (target_ethaddr : option EthernetAddress) : result EthernetFrame.t :=
  let dst := default ETHERNET_BROADCAST target_ethaddr in
  let opcode :=
    if bool_decide (dst = ETHERNET_BROADCAST) then ARPMessage.OPCODE_REQUEST else ARPMessage.OPCODE_REPLY in
  let arpm := ARPMessage.mk ARPMessage.TYPE_ETHERNET EthernetHeader.TYPE_IPv4 6 4 opcode
    (ethernet_address i) (ip_address i) (default zero_address target_ethaddr) target_ip in
  payload ← ARPMessage.serialize arpm;
  Ok (EthernetFrame.mk (EthernetHeader.mk dst (ethernet_address i) EthernetHeader.TYPE_ARP)
        (BufferList.of_string payload)).

Definition send_arp (i : t) (target_ip : Z) (target_ethaddr : option EthernetAddress) : result t :=
  let '(i, se, first_send) :=
    match arp_table i !! target_ip with
    | Some se => (i, se, false)
    | None =>
        let se := mk_node zero_address 0 0 false in
        (with_table i (<[target_ip := se]> (arp_table i)), se, true)
    end in
  if negb first_send && (w64 (timer i - ask_time se) <=? 5 * 1000) then Ok i
  else
    f ← arp_frame i target_ip target_ethaddr;
    let i := with_frames i (frames_out i ++ [f]) in
    Ok (with_table i (<[target_ip := mk_node (eAddr se) (updated_time se) (timer i) (exist se)]> (arp_table i))).

Definition send_dgram (i : t) (dgram : IPv4Datagram.t) (address : EthernetAddress) : result t :=
  payload ← IPv4Datagram.serialize dgram;
  let f := EthernetFrame.mk (EthernetHeader.mk address (ethernet_address i) EthernetHeader.TYPE_IPv4) payload in
  Ok (with_frames i (frames_out i ++ [f])).

Definition send_datagram (i : t) (dgram : IPv4Datagram.t) (next_ip : Z) : result t :=
  let unresolved :=
    i ← send_arp i next_ip None;
    Ok (with_sent i (multimap_insert next_ip dgram (sent_dgram i))) in
  match arp_table i !! next_ip with
  | None => unresolved
  | Some se =>
      if negb (exist se) || (30 * 1000 <? w64 (timer i - updated_time se)) then unresolved
      else send_dgram i dgram (eAddr se)
  end.

(** The loop of lines 142 to 146 over the datagrams kept for [ip]. *)
Fixpoint resend (i : t) (ip : Z) (address : EthernetAddress) (l : list (Z * IPv4Datagram.t)) : result t :=
  match l with
  | [] => Ok (with_sent i [])
  | (k, d) :: l' =>
      if k =? ip then i ← send_dgram i d address; resend i ip address l'
      else i ← resend i ip address l'; Ok (with_sent i ((k, d) :: sent_dgram i))
  end.

(** Lines 148 to 158. *)
Definition learn (i : t) (ip : Z) (address : EthernetAddress) : t :=
  let asked := match arp_table i !! ip with Some se => ask_time se | None => 0 end in
  with_table i (<[ip := mk_node address (timer i) asked true]> (arp_table i)).

(** Lines 127 to 158: an ARP message for this interface. *)
Definition recv_arp (i : t) (arpm : ARPMessage.t) : result t :=
  let ip := ARPMessage.sender_ip_address arpm in
  let address := ARPMessage.sender_ethernet_address arpm in
  if negb (ARPMessage.target_ip_address arpm =? ip_address i) && negb (ip =? ARPMessage.target_ip_address arpm)
  then Ok i
  else
    i ← (if ARPMessage.opcode arpm =? ARPMessage.OPCODE_REQUEST then send_arp i ip (Some address)
         else if ARPMessage.opcode arpm =? ARPMessage.OPCODE_REPLY then resend i ip address (sent_dgram i)
         else Ok i);
    Ok (learn i ip address).

(** Lines 102 to 111. *)
Definition pkg_type (i : t) (ehder : EthernetHeader.t) : Z :=
  if bool_decide (EthernetHeader.dst ehder = ethernet_address i) then
    if EthernetHeader.type ehder =? EthernetHeader.TYPE_IPv4 then 1
    else if EthernetHeader.type ehder =? EthernetHeader.TYPE_ARP then 2 else 0
  else if bool_decide (EthernetHeader.dst ehder = ETHERNET_BROADCAST) &&
          (EthernetHeader.type ehder =? EthernetHeader.TYPE_ARP) then 2
  else 0.

Definition recv_frame (i : t) (efram : EthernetFrame.t) : result (t * option IPv4Datagram.t) :=
  let pkg := pkg_type i (EthernetFrame.header efram) in
  if pkg =? 0 then Ok (i, None)
  else
    b ← BufferList.to_buffer (EthernetFrame.payload efram);
    if pkg =? 1 then
      '(idata, err) ← IPv4Datagram.parse IPv4Datagram.default b;
      if bool_decide (err = NoError) then Ok (i, Some idata) else Ok (i, None)
    else
      '(arpm, err) ← ARPMessage.parse ARPMessage.default b;
      if bool_decide (err = NoError) then i ← recv_arp i arpm; Ok (i, None) else Ok (i, None).

Definition tick (i : t) (ms_since_last_tick : Z) : t :=
  mk (ethernet_address i) (ip_address i) (frames_out i) (arp_table i) (sent_dgram i)
     (w64 (timer i + ms_since_last_tick)).

End NetworkInterface.

Module AsyncNetworkInterface.

Record t := mk {
  interface : NetworkInterface.t;
  datagrams_out : list IPv4Datagram.t;    (* _datagrams_out *)
}.

Definition of_interface (i : NetworkInterface.t) : t := mk i [].

Definition recv_frame (a : t) (frame : EthernetFrame.t) : result t :=
  '(i, d) ← NetworkInterface.recv_frame (interface a) frame;
  Ok (mk i (match d with Some d => datagrams_out a ++ [d] | None => datagrams_out a end)).

Definition send_datagram (a : t) (dgram : IPv4Datagram.t) (next_hop : Z) : result t :=
  i ← NetworkInterface.send_datagram (interface a) dgram next_hop;
  Ok (mk i (datagrams_out a)).

End AsyncNetworkInterface.
