(* ===== verification/NetifSpec.v ===== *)
(** * Correctness of the network interface *)

From stdpp Require Import gmap sorting.
From S2P Require Import Prelude Buffers Parsing Checksum Ipv4 Link Netif.
Import NetworkInterface.

(** A datagram whose payload has the length its header announces. *)
Record dgram_ok (d : IPv4Datagram.t) : Prop := mk_dgram_ok {
  dg_header : IPv4Header.ok (IPv4Datagram.header d);
  dg_le : 4 * IPv4Header.hlen (IPv4Datagram.header d) <= IPv4Header.len (IPv4Datagram.header d);
  dg_len : blen (BufferList.concatenate (IPv4Datagram.payload d)) =
    IPv4Header.len (IPv4Datagram.header d) - 4 * IPv4Header.hlen (IPv4Datagram.header d);
}.

Lemma dgram_serialize d : dgram_ok d → ∃ l, IPv4Datagram.serialize d = Ok l.
Proof.
  intros []. destruct (datagram_parse_core d d) as (l & E & _); [done..|]. by exists l.
Qed.

(** The wire format of a datagram, and the frame that carries it. *)
Definition dgram_payload (d : IPv4Datagram.t) : BufferList.t :=
  match IPv4Datagram.serialize d with Ok l => l | Err _ => [] end.

Definition dgram_frame (i : t) (address : EthernetAddress) (d : IPv4Datagram.t) : EthernetFrame.t :=
  EthernetFrame.mk (EthernetHeader.mk address (ethernet_address i) EthernetHeader.TYPE_IPv4) (dgram_payload d).

Lemma send_dgram_spec i d address :
  dgram_ok d → send_dgram i d address = Ok (with_frames i (frames_out i ++ [dgram_frame i address d])).
Proof.
  intros Hd. destruct (dgram_serialize d Hd) as [l E]. unfold send_dgram, dgram_frame, dgram_payload. by rewrite E.
Qed.

(** The datagrams that wait for the address of [ip], in the order they came. *)
Definition pending_for (ip : Z) (l : list (Z * IPv4Datagram.t)) : list IPv4Datagram.t :=
  (filter (λ kd, kd.1 = ip) l).*2.

Definition key_le (a b : Z * IPv4Datagram.t) : Prop := a.1 <= b.1.

Record node_ok (now : Z) (se : node) : Prop := mk_node_ok {
  no_ask : 0 <= ask_time se <= now;
  no_updated : 0 <= updated_time se <= now;
}.

Record iinv (i : t) : Prop := mk_iinv {
  ii_address : address_ok (ethernet_address i);
  ii_ip : is_u32 (ip_address i);
  ii_timer : is_u64 (timer i);
  ii_table : map_Forall (λ _ se, node_ok (timer i) se) (arp_table i);
  ii_sorted : StronglySorted key_le (sent_dgram i);
  ii_sent : Forall (λ kd, dgram_ok kd.2) (sent_dgram i);
}.

Lemma iinv_new a ip : address_ok a → is_u32 ip → iinv (new a ip).
Proof. intros Ha Hi. split; simpl; try done. by constructor. Qed.

(** ** The waiting datagrams *)

Lemma multimap_insert_elem k d l x : x ∈ multimap_insert k d l ↔ x = (k, d) ∨ x ∈ l.
Proof.
  induction l as [|[k' d'] l IH]; simpl; [set_solver|].
  destruct (k' <=? k); set_solver.
Qed.

Lemma multimap_insert_sorted k d l :
  StronglySorted key_le l → StronglySorted key_le (multimap_insert k d l).
Proof.
  induction 1 as [|[k' d'] l Hs IH Hall]; simpl; [repeat constructor|].
  destruct (Z.leb_spec k' k).
  - constructor; [done|]. apply Forall_forall. intros x Hx.
    apply multimap_insert_elem in Hx as [->|Hx]; [done|]. rewrite Forall_forall in Hall. by apply Hall.
  - constructor; [by constructor|]. constructor; [unfold key_le; simpl; lia|].
    eapply Forall_impl; [exact Hall|]. unfold key_le. simpl. intros. lia.
Qed.

Lemma filter_none ip (l : list (Z * IPv4Datagram.t)) :
  Forall (λ kd, kd.1 ≠ ip) l → filter (λ kd, kd.1 = ip) l = [].
Proof. induction 1 as [|x l Hx _ IH]; [done|]. by rewrite filter_cons, decide_False. Qed.

Lemma multimap_insert_pending k d l ip :
  StronglySorted key_le l →
  pending_for ip (multimap_insert k d l) = pending_for ip l ++ (if decide (ip = k) then [d] else []).
Proof.
  unfold pending_for. induction 1 as [|[k' d'] l Hs IH Hall]; cbn [multimap_insert].
  { unfold filter. simpl. repeat case_decide; simpl in *; congruence. }
  destruct (Z.leb_spec k' k) as [Hle|Hlt].
  - rewrite !filter_cons. destruct (decide ((k', d').1 = ip)); [rewrite !fmap_cons, IH|rewrite IH]; done.
  - rewrite filter_cons. destruct (decide (ip = k)) as [->|Hne].
    + rewrite decide_True by done.
      assert (Hnone : filter (λ kd, kd.1 = k) ((k', d') :: l) = []).
      { apply filter_none. constructor; [simpl; lia|]. rewrite Forall_forall in Hall |- *.
        intros x Hx. specialize (Hall x Hx). unfold key_le in Hall. simpl in *. lia. }
      by rewrite Hnone.
    + rewrite decide_False by (simpl; congruence). by rewrite app_nil_r.
Qed.

(** ** Resolving addresses *)

(** No ARP message for [ip] may be sent yet: one went out at most five seconds ago. *)
Definition quiet (i : t) (ip : Z) : bool :=
  match arp_table i !! ip with Some se => timer i - ask_time se <=? 5000 | None => false end.

Lemma age_spec i t0 : iinv i → 0 <= t0 <= timer i → w64 (timer i - t0) = timer i - t0.
Proof. intros [] Ht. apply w64_small. unfold is_u64 in *. lia. Qed.

Lemma arp_frame_ok i ip target :
  ∃ f, arp_frame i ip target = Ok f ∧
    EthernetFrame.header f = EthernetHeader.mk (default ETHERNET_BROADCAST target) (ethernet_address i) EthernetHeader.TYPE_ARP.
Proof.
  unfold arp_frame, ARPMessage.serialize.
  assert (Hs : ∀ op a b c d, op = ARPMessage.OPCODE_REQUEST ∨ op = ARPMessage.OPCODE_REPLY →
    ARPMessage.supported (ARPMessage.mk ARPMessage.TYPE_ETHERNET EthernetHeader.TYPE_IPv4 6 4 op a b c d) = true)
    by (intros op a b c d [->| ->]; done).
  rewrite Hs by (case_bool_decide; auto). cbn [negb mbind result_bind]. eexists. by split.
Qed.

(** [send_arp] is silent for five seconds after an ARP message for the same
    address, and otherwise sends one. *)
Lemma send_arp_spec i ip target :
  iinv i →
  ∃ i', send_arp i ip target = Ok i' ∧ iinv i' ∧ ethernet_address i' = ethernet_address i ∧
    ip_address i' = ip_address i ∧ timer i' = timer i ∧ sent_dgram i' = sent_dgram i ∧
    (∀ ip', ip' ≠ ip → arp_table i' !! ip' = arp_table i !! ip') ∧
    (∃ se, arp_table i' !! ip = Some se ∧
       match arp_table i !! ip with
       | Some old => eAddr se = eAddr old ∧ updated_time se = updated_time old ∧ exist se = exist old
       | None => exist se = false
       end ∧ (quiet i ip = false → ask_time se = timer i)) ∧
    if quiet i ip then frames_out i' = frames_out i
    else ∃ f, arp_frame i ip target = Ok f ∧ frames_out i' = frames_out i ++ [f].
Proof.
  intros Hi. pose proof Hi as []. unfold send_arp, quiet.
  destruct (arp_frame_ok i ip target) as (f & Ef & _). unfold is_u64 in ii_timer0.
  assert (Hnew : ∀ e u x, 0 <= u <= timer i →
    map_Forall (λ _ se, node_ok (timer i) se) (<[ip := mk_node e u (timer i) x]> (arp_table i)))
    by (intros; apply map_Forall_insert_2; [split; simpl; lia|done]).
  destruct (arp_table i !! ip) as [se|] eqn:E.
  - pose proof (map_Forall_lookup_1 _ _ _ _ ii_table0 E) as [Ha Hu]. rewrite (age_spec i _ Hi Ha). cbn [negb andb].
    destruct (Z.leb_spec (timer i - ask_time se) (5 * 1000)) as [Hq|Hq].
    + exists i. rewrite (proj2 (Z.leb_le _ _)) by lia. split_and!; try done. exists se. by split_and!.
    + rewrite Ef, (proj2 (Z.leb_gt _ _)) by lia. cbn [mbind result_bind]. eexists. split; [done|].
      split; [split; simpl; try done; apply Hnew; lia|]. split_and!; try done.
      * intros ip' Hne. simpl. by rewrite lookup_insert_ne.
      * eexists. simpl. rewrite lookup_insert_eq. split; [done|]. by split_and!.
      * by exists f.
  - cbn [negb andb]. change (arp_frame (with_table i _) ip target) with (arp_frame i ip target). rewrite Ef.
    cbn [mbind result_bind]. eexists. split; [done|]. simpl. rewrite insert_insert_eq.
    split; [split; simpl; try done; apply Hnew; lia|]. split_and!; try done.
    + intros ip' Hne. simpl. by rewrite lookup_insert_ne.
    + eexists. simpl. rewrite lookup_insert_eq. split; [done|]. by split_and!.
    + by exists f.
Qed.

(** The table has an address for [ip] that is at most thirty seconds old. *)
Definition resolved (i : t) (ip : Z) : option EthernetAddress :=
  match arp_table i !! ip with
  | Some se => if exist se && (timer i - updated_time se <=? 30000) then Some (eAddr se) else None
  | None => None
  end.

Lemma send_datagram_core i d ip :
  iinv i → dgram_ok d →
  ∃ i', send_datagram i d ip = Ok i' ∧ iinv i' ∧ timer i' = timer i ∧
    ethernet_address i' = ethernet_address i ∧ ip_address i' = ip_address i ∧
    match resolved i ip with
    | Some address => i' = with_frames i (frames_out i ++ [dgram_frame i address d])
    | None =>
        (∀ ip', pending_for ip' (sent_dgram i') =
           pending_for ip' (sent_dgram i) ++ (if decide (ip' = ip) then [d] else [])) ∧
        if quiet i ip then frames_out i' = frames_out i
        else ∃ f, frames_out i' = frames_out i ++ [f] ∧ quiet i' ip = true ∧ arp_frame i ip None = Ok f
    end.
Proof.
  intros Hi Hd. unfold send_datagram.
  set (unresolved := (i0 ← send_arp i ip None; Ok (with_sent i0 (multimap_insert ip d (sent_dgram i0))))).
  assert (Hun : ∃ i', unresolved = Ok i' ∧ iinv i' ∧ timer i' = timer i ∧
    ethernet_address i' = ethernet_address i ∧ ip_address i' = ip_address i ∧
    (∀ ip', pending_for ip' (sent_dgram i') =
       pending_for ip' (sent_dgram i) ++ (if decide (ip' = ip) then [d] else [])) ∧
    if quiet i ip then frames_out i' = frames_out i
    else ∃ f, frames_out i' = frames_out i ++ [f] ∧ quiet i' ip = true ∧ arp_frame i ip None = Ok f).
  { subst unresolved.
    destruct (send_arp_spec i ip None Hi) as (i1 & -> & Hi1 & He & Hip & Ht & Hs & _ & (se & Hse & _ & Hask) & Hf).
    cbn [mbind result_bind]. eexists. split; [done|]. pose proof Hi1 as []. pose proof (ii_timer _ Hi) as Htm.
    split; [split; simpl; try done|split_and!; try done].
    - by apply multimap_insert_sorted.
    - apply Forall_forall. intros x Hx. apply multimap_insert_elem in Hx as [->|Hx]; [done|].
      rewrite Forall_forall in ii_sent0. by apply ii_sent0.
    - intros ip'. simpl. rewrite multimap_insert_pending, Hs by done. done.
    - destruct (quiet i ip) eqn:Eq; [done|]. destruct Hf as (f & Ef & Hf). exists f. split; [exact Hf|]. split; [|done].
      unfold quiet. simpl. rewrite Hse, (Hask eq_refl), Ht, Z.sub_diag. done. }
  unfold resolved. destruct (arp_table i !! ip) as [se|] eqn:E; [|exact Hun].
  pose proof (map_Forall_lookup_1 _ _ _ _ (ii_table _ Hi) E) as [_ Hu]. rewrite (age_spec i _ Hi Hu).
  destruct (exist se); [|exact Hun]. cbn [negb orb andb].
  destruct (Z.ltb_spec (30 * 1000) (timer i - updated_time se)).
  - rewrite (proj2 (Z.leb_gt _ _)) by lia. exact Hun.
  - rewrite (proj2 (Z.leb_le _ _)) by lia. rewrite send_dgram_spec by done.
    eexists. split; [done|]. split_and!; try done. destruct Hi. by split.
Qed.

(** The frame of a question: a broadcast with a request inside. *)
Lemma arp_request_frame i ip f :
  arp_frame i ip None = Ok f →
  ∃ s, ARPMessage.serialize (ARPMessage.mk 1 0x800 6 4 1 (ethernet_address i) (ip_address i)
         (replicate 6 Byte.x00) ip) = Ok s ∧
    f = EthernetFrame.mk (EthernetHeader.mk (replicate 6 Byte.xff) (ethernet_address i) 0x806) (BufferList.of_string s).
Proof.
  unfold arp_frame. cbn [default]. rewrite bool_decide_true by done. intros H.
  apply result_bind_Ok in H as (s & Hs & [= <-]). exists s. by split.
Qed.

(** C33. Sending a datagram, on every branch. With a fresh entry in the ARP
    table exactly one frame leaves, to that Ethernet address and with the
    datagram inside, and nothing else changes. Otherwise the datagram joins the
    end of those waiting for the same next hop, and, unless an ARP message for
    that address was sent in the last five seconds, exactly one frame leaves: a
    broadcast from this interface whose payload is the serialised ARP request
    that names this interface's Ethernet and IP addresses as the sender's, no
    target Ethernet address, and the next hop as the address asked for. *)
Theorem interface_send_datagram i d ip :
  iinv i → dgram_ok d →
  ∃ i', send_datagram i d ip = Ok i' ∧ iinv i' ∧ timer i' = timer i ∧
    match resolved i ip with
    | Some address => i' = with_frames i (frames_out i ++ [dgram_frame i address d])
    | None =>
        (∀ ip', pending_for ip' (sent_dgram i') =
           pending_for ip' (sent_dgram i) ++ (if decide (ip' = ip) then [d] else [])) ∧
        if quiet i ip then frames_out i' = frames_out i
        else ∃ s, quiet i' ip = true ∧
               ARPMessage.serialize (ARPMessage.mk 1 0x800 6 4 1 (ethernet_address i) (ip_address i)
                 (replicate 6 Byte.x00) ip) = Ok s ∧
               frames_out i' = frames_out i ++
                 [EthernetFrame.mk (EthernetHeader.mk (replicate 6 Byte.xff) (ethernet_address i) 0x806)
                    (BufferList.of_string s)]
    end.
Proof.
  intros Hi Hd. destruct (send_datagram_core i d ip Hi Hd) as (i' & E & Hi' & Ht & _ & _ & H).
  exists i'. split_and!; [done..|]. destruct (resolved i ip); [done|]. destruct H as [Hp H]. split; [done|].
  destruct (quiet i ip); [done|]. destruct H as (f & Hf & Hq & Ef).
  destruct (arp_request_frame i ip f Ef) as (s & Es & ->). by exists s.
Qed.

Definition mac_a : EthernetAddress := replicate 6 Byte.x0a.

Definition mac_b : EthernetAddress := replicate 6 Byte.x0b.

Definition host_a : t := new mac_a 0x0a000001.

Lemma host_a_inv : iinv host_a.
Proof. apply iinv_new; [done|range_compute]. Qed.

Lemma sample_dgram_ok : dgram_ok sample_datagram.
Proof. split; [apply sample_ip_header_ok|range_compute|reflexivity]. Qed.

Lemma interface_send_datagram_witness :
  ∃ i', send_datagram host_a sample_datagram 0x0a000002 = Ok i' ∧ length (frames_out i') = 1%nat ∧
    pending_for 0x0a000002 (sent_dgram i') = [sample_datagram].
Proof.
  destruct (interface_send_datagram host_a sample_datagram 0x0a000002 host_a_inv sample_dgram_ok)
    as (i' & E & _ & _ & Hp & Hf).
  exists i'. split; [exact E|]. split.
  - destruct Hf as (f & _ & _ & Hf). rewrite Hf. reflexivity.
  - rewrite Hp. reflexivity.
Defined.

(** ** Learning addresses *)

Lemma resend_spec i ip address l :
  Forall (λ kd, dgram_ok kd.2) l →
  resend i ip address l =
    Ok (with_sent (with_frames i (frames_out i ++ map (dgram_frame i address) (pending_for ip l)))
          (filter (λ kd, kd.1 ≠ ip) l)).
Proof.
  revert i. induction l as [|[k d] l IH]; intros i Hl; cbn [resend].
  { unfold pending_for. simpl. by rewrite app_nil_r. }
  apply Forall_cons in Hl as [Hd Hl]. simpl in Hd. unfold pending_for in *. rewrite !filter_cons.
  destruct (Z.eqb_spec k ip) as [->|Hne].
  - rewrite send_dgram_spec by done. cbn [mbind result_bind]. rewrite IH by done.
    rewrite decide_True, decide_False by (simpl; congruence). simpl. by rewrite <- app_assoc.
  - rewrite IH by done. cbn [mbind result_bind]. rewrite decide_False, decide_True by (simpl; congruence). done.
Qed.

Lemma learn_spec i ip address :
  iinv i → iinv (learn i ip address) ∧ resolved (learn i ip address) ip = Some address ∧
  (∀ ip', ip' ≠ ip → arp_table (learn i ip address) !! ip' = arp_table i !! ip').
Proof.
  intros Hi. pose proof Hi as []. unfold learn. split_and!.
  - split; simpl; try done. apply map_Forall_insert_2; [|done]. unfold is_u64 in ii_timer0.
    split; simpl; [|lia]. destruct (arp_table i !! ip) as [se|] eqn:E; [|lia].
    by destruct (map_Forall_lookup_1 _ _ _ _ ii_table0 E).
  - unfold resolved. simpl. rewrite lookup_insert_eq. simpl. rewrite Z.sub_diag. done.
  - intros ip' Hne. simpl. by rewrite lookup_insert_ne.
Qed.

(** A frame for this interface that carries an ARP message. *)
Definition arp_for (i : t) (f : EthernetFrame.t) (m : ARPMessage.t) : Prop :=
  pkg_type i (EthernetFrame.header f) = 2 ∧
  ∃ b, BufferList.to_buffer (EthernetFrame.payload f) = Ok b ∧ ARPMessage.parse ARPMessage.default b = Ok (m, NoError).

Lemma recv_arp_frame i f m :
  arp_for i f m → recv_frame i f = (i' ← recv_arp i m; Ok (i', None)).
Proof.
  intros (Hp & b & Hb & Hm). unfold recv_frame. rewrite Hp, Hb. cbn [Z.eqb Pos.eqb mbind result_bind].
  rewrite Hm. cbn [mbind result_bind]. by rewrite bool_decide_true.
Qed.

Lemma arp_reply_core i f m :
  iinv i → arp_for i f m → ARPMessage.opcode m = ARPMessage.OPCODE_REPLY →
  ARPMessage.target_ip_address m = ip_address i →
  let ip := ARPMessage.sender_ip_address m in
  let address := ARPMessage.sender_ethernet_address m in
  ∃ i', recv_frame i f = Ok (i', None) ∧ iinv i' ∧ resolved i' ip = Some address ∧
    frames_out i' = frames_out i ++ map (dgram_frame i address) (pending_for ip (sent_dgram i)) ∧
    pending_for ip (sent_dgram i') = [] ∧
    (∀ ip', ip' ≠ ip → pending_for ip' (sent_dgram i') = pending_for ip' (sent_dgram i) ∧
       arp_table i' !! ip' = arp_table i !! ip').
Proof.
  intros Hi Hf Hop Htarget ip address. pose proof Hi as []. rewrite (recv_arp_frame i f m Hf).
  unfold recv_arp. rewrite Htarget, Z.eqb_refl, Hop. cbn [negb andb Z.eqb ARPMessage.OPCODE_REPLY ARPMessage.OPCODE_REQUEST Pos.eqb].
  rewrite resend_spec by done. cbn [mbind result_bind]. fold ip address.
  set (i1 := with_sent _ _).
  assert (Hi1 : iinv i1).
  { subst i1. split; simpl; try done.
    - clear -ii_sorted0. induction ii_sorted0 as [|x l Hs IH Hall]; [constructor|]. rewrite filter_cons.
      case_decide; [|done]. constructor; [done|]. rewrite Forall_forall in Hall |- *. intros y Hy.
      apply list_elem_of_filter in Hy as [_ Hy]. by apply Hall.
    - rewrite Forall_forall in ii_sent0 |- *. intros x Hx. apply list_elem_of_filter in Hx as [_ Hx]. by apply ii_sent0. }
  destruct (learn_spec i1 ip address Hi1) as (Hi2 & Hr & Ht).
  eexists. split; [done|]. split_and!; try done.
  - unfold pending_for. simpl. rewrite filter_none; [done|]. apply Forall_forall.
    intros x Hx. by apply list_elem_of_filter in Hx as [? _].
  - intros ip' Hne. split; [|by rewrite Ht]. unfold pending_for. simpl. f_equal. clear -Hne.
    induction (sent_dgram i) as [|x l IH]; [done|]. rewrite !(filter_cons _ x).
    destruct (decide (x.1 ≠ ip)) as [n|n]; [by rewrite filter_cons, IH|].
    rewrite decide_False; [done|]. intros E. apply n. congruence.
Qed.

(** An ARP reply to this interface: every datagram that waits for the
    sender leaves at once, in the order it was handed in, to the Ethernet
    address of the reply; no other waits any less; and the mapping is fresh, so
    that later datagrams for that address leave directly. *)
Theorem interface_arp_reply i f m :
  iinv i → arp_for i f m → ARPMessage.opcode m = ARPMessage.OPCODE_REPLY →
  ARPMessage.target_ip_address m = ip_address i →
  let ip := ARPMessage.sender_ip_address m in
  let address := ARPMessage.sender_ethernet_address m in
  ∃ i', recv_frame i f = Ok (i', None) ∧ iinv i' ∧ resolved i' ip = Some address ∧
    frames_out i' = frames_out i ++ map (dgram_frame i address) (pending_for ip (sent_dgram i)) ∧
    pending_for ip (sent_dgram i') = [] ∧
    (∀ ip', ip' ≠ ip → pending_for ip' (sent_dgram i') = pending_for ip' (sent_dgram i) ∧
       arp_table i' !! ip' = arp_table i !! ip').
Proof. apply arp_reply_core. Qed.

(** What [host_a] holds after a first datagram, and the reply of its neighbour. *)
Definition waiting_a : t :=
  match send_datagram host_a sample_datagram 0x0a000002 with Ok i => i | Err _ => host_a end.

Definition reply_b : ARPMessage.t :=
  ARPMessage.mk 1 0x800 6 4 ARPMessage.OPCODE_REPLY mac_b 0x0a000002 mac_a 0x0a000001.

Definition reply_frame : EthernetFrame.t :=
  EthernetFrame.mk (EthernetHeader.mk mac_a mac_b EthernetHeader.TYPE_ARP)
    (match ARPMessage.serialize reply_b with Ok s => BufferList.of_string s | Err _ => [] end).

Lemma waiting_a_inv : iinv waiting_a.
Proof.
  unfold waiting_a, send_datagram. destruct (send_arp_spec host_a 0x0a000002 None host_a_inv) as (i1 & E & Hi & _ & _ & _ & Hs & _).
  change (arp_table host_a !! 0x0a000002) with (@None node). rewrite E. cbn [mbind result_bind].
  destruct Hi. split; try done; simpl; rewrite Hs; [repeat constructor|].
  apply Forall_singleton. apply sample_dgram_ok.
Qed.

Lemma interface_arp_reply_witness :
  ∃ i', recv_frame waiting_a reply_frame = Ok (i', None) ∧ resolved i' 0x0a000002 = Some mac_b ∧
    length (frames_out i') = 2%nat ∧ pending_for 0x0a000002 (sent_dgram i') = [].
Proof.
  destruct (interface_arp_reply waiting_a reply_frame reply_b waiting_a_inv) as (i' & E & _ & Hr & Hf & Hp & _).
  - split; [reflexivity|]. eexists. split; [reflexivity|]. vm_compute. reflexivity.
  - reflexivity.
  - reflexivity.
  - exists i'. split; [exact E|]. split; [exact Hr|]. split; [rewrite Hf; reflexivity|exact Hp].
Defined.

Lemma arp_request_core i f m :
  iinv i → arp_for i f m → ARPMessage.opcode m = ARPMessage.OPCODE_REQUEST →
  ARPMessage.target_ip_address m = ip_address i →
  ARPMessage.sender_ethernet_address m ≠ ETHERNET_BROADCAST →
  let ip := ARPMessage.sender_ip_address m in
  let address := ARPMessage.sender_ethernet_address m in
  ∃ i', recv_frame i f = Ok (i', None) ∧ iinv i' ∧ resolved i' ip = Some address ∧
    sent_dgram i' = sent_dgram i ∧ ethernet_address i' = ethernet_address i ∧
    if quiet i ip then frames_out i' = frames_out i
    else ∃ s, frames_out i' = frames_out i ++
           [EthernetFrame.mk (EthernetHeader.mk address (ethernet_address i) EthernetHeader.TYPE_ARP) (BufferList.of_string s)] ∧
         ARPMessage.serialize (ARPMessage.mk 1 0x800 6 4 ARPMessage.OPCODE_REPLY
           (ethernet_address i) (ip_address i) address ip) = Ok s.
Proof.
  intros Hi Hf Hop Htarget Hnb ip address. rewrite (recv_arp_frame i f m Hf).
  unfold recv_arp. rewrite Htarget, Z.eqb_refl, Hop. cbn [negb andb Z.eqb ARPMessage.OPCODE_REQUEST Pos.eqb].
  fold ip address.
  destruct (send_arp_spec i ip (Some address) Hi) as (i1 & -> & Hi1 & He & _ & _ & Hs & _ & _ & Hfr).
  cbn [mbind result_bind]. destruct (learn_spec i1 ip address Hi1) as (Hi2 & Hr & _).
  eexists. split; [done|]. split_and!; try done. destruct (quiet i ip); [exact Hfr|].
  destruct Hfr as (g & Eg & Hfr). unfold arp_frame in Eg. cbn [default] in Eg.
  rewrite bool_decide_false in Eg by done. apply result_bind_Ok in Eg as (s & Es & Eg). injection Eg as <-.
  exists s. split; [exact Hfr|exact Es].
Qed.

(** C34. An ARP request for this interface: the sender's address is learned
    from it, but a reply goes out only when no ARP message for the sender was
    sent in the last five seconds, and datagrams that wait for the sender keep
    waiting although its address is now known. *)
Theorem interface_arp_request i f m :
  iinv i → arp_for i f m → ARPMessage.opcode m = ARPMessage.OPCODE_REQUEST →
  ARPMessage.target_ip_address m = ip_address i →
  ARPMessage.sender_ethernet_address m ≠ ETHERNET_BROADCAST →
  let ip := ARPMessage.sender_ip_address m in
  let address := ARPMessage.sender_ethernet_address m in
  ∃ i', recv_frame i f = Ok (i', None) ∧ iinv i' ∧ resolved i' ip = Some address ∧
    sent_dgram i' = sent_dgram i ∧ ethernet_address i' = ethernet_address i ∧
    if quiet i ip then frames_out i' = frames_out i
    else ∃ s, frames_out i' = frames_out i ++
           [EthernetFrame.mk (EthernetHeader.mk address (ethernet_address i) EthernetHeader.TYPE_ARP) (BufferList.of_string s)] ∧
         ARPMessage.serialize (ARPMessage.mk 1 0x800 6 4 ARPMessage.OPCODE_REPLY
           (ethernet_address i) (ip_address i) address ip) = Ok s.
Proof. apply arp_request_core. Qed.

Definition request_b : ARPMessage.t :=
  ARPMessage.mk 1 0x800 6 4 ARPMessage.OPCODE_REQUEST mac_b 0x0a000002 zero_address 0x0a000001.

Definition request_frame : EthernetFrame.t :=
  EthernetFrame.mk (EthernetHeader.mk ETHERNET_BROADCAST mac_b EthernetHeader.TYPE_ARP)
    (match ARPMessage.serialize request_b with Ok s => BufferList.of_string s | Err _ => [] end).

(** The neighbour asks while [waiting_a] waits for it: it gets no answer, and the
    datagram keeps waiting. *)
Lemma interface_arp_request_witness :
  ∃ i', recv_frame waiting_a request_frame = Ok (i', None) ∧ resolved i' 0x0a000002 = Some mac_b ∧
    frames_out i' = frames_out waiting_a ∧ pending_for 0x0a000002 (sent_dgram i') = [sample_datagram].
Proof.
  destruct (interface_arp_request waiting_a request_frame request_b waiting_a_inv) as (i' & E & _ & Hr & Hp & _ & Hf).
  - split; [reflexivity|]. eexists. split; [reflexivity|]. vm_compute. reflexivity.
  - reflexivity.
  - reflexivity.
  - discriminate.
  - exists i'. split; [exact E|]. split; [exact Hr|]. split; [exact Hf|]. rewrite Hp. reflexivity.
Defined.

(** [f], read back from its bytes, is [fr]. *)
Definition on_wire (f fr : EthernetFrame.t) : Prop :=
  EthernetFrame.parse EthernetFrame.default
    (Buffer.of_string (BufferList.concatenate (EthernetFrame.serialize f))) = Ok (fr, NoError).

(** The frame of a datagram, at the interface it is addressed to. *)
Lemma dgram_frame_received a b d :
  address_ok (ethernet_address a) → address_ok (ethernet_address b) → dgram_ok d →
  ∃ fr p, on_wire (dgram_frame a (ethernet_address b) d) fr ∧
    recv_frame b fr = Ok (b, Some (IPv4Datagram.mk
      (IPv4Header.set_cksum (IPv4Datagram.header d) (ip_cksum (IPv4Datagram.header d))) (BufferList.of_buffer p))) ∧
    Buffer.ok p ∧ Buffer.str p = BufferList.concatenate (IPv4Datagram.payload d).
Proof.
  intros Ha Hb [Hh Hle Hl]. set (f := dgram_frame a (ethernet_address b) d).
  pose proof (IPv4Header.ok_len _ Hh) as Hu.
  destruct (datagram_parse_core d IPv4Datagram.default Hh Hle Hl) as (l & El & Hlen & Hparse).
  assert (Hpay : dgram_payload d = l) by (unfold dgram_payload; by rewrite El).
  destruct (frame_roundtrip_core f EthernetFrame.default) as (q & Hfp & Hq & Hqs).
  { split; simpl; [done|done|range_compute]. }
  { simpl. rewrite Hpay, Hlen. revert Hu. unfold_w. lia. }
  simpl in Hqs. rewrite Hpay in Hqs. destruct (Hparse q Hq Hqs) as (p & _ & Hd' & Hp & Hps).
  eexists _, p. split; [exact Hfp|]. split; [|by split].
  unfold recv_frame, pkg_type. simpl. rewrite bool_decide_true by done. cbn [Z.eqb Pos.eqb]. by rewrite Hd'.
Qed.

Lemma link_delivery_core a b d ip :
  iinv a → dgram_ok d → resolved a ip = Some (ethernet_address b) → address_ok (ethernet_address b) →
  ∃ f fr p, send_datagram a d ip = Ok (with_frames a (frames_out a ++ [f])) ∧ on_wire f fr ∧
    recv_frame b fr = Ok (b, Some (IPv4Datagram.mk
      (IPv4Header.set_cksum (IPv4Datagram.header d) (ip_cksum (IPv4Datagram.header d))) (BufferList.of_buffer p))) ∧
    Buffer.ok p ∧ Buffer.str p = BufferList.concatenate (IPv4Datagram.payload d).
Proof.
  intros Ha Hd Hr Hb. destruct (dgram_frame_received a b d (ii_address _ Ha) Hb Hd) as (fr & p & Hfr & H).
  exists (dgram_frame a (ethernet_address b) d), fr, p. split; [|done].
  destruct (send_datagram_core a d ip Ha Hd) as (i' & -> & _ & _ & _ & _ & E). rewrite Hr in E. by subst.
Qed.

(** The frame of an ARP message, at an interface that accepts it. *)
Lemma arp_frame_received i m dst src :
  address_ok dst → address_ok src → ARPMessage.ok m →
  dst = ethernet_address i ∨ dst = ETHERNET_BROADCAST →
  ∃ s fr, ARPMessage.serialize m = Ok s ∧
    on_wire (EthernetFrame.mk (EthernetHeader.mk dst src EthernetHeader.TYPE_ARP) (BufferList.of_string s)) fr ∧
    arp_for i fr m.
Proof.
  intros Hd Hs Hm Hfor. destruct (proj2 (arp_roundtrip_core m ARPMessage.default) Hm) as (s & Es & Hl & Hp).
  set (f := EthernetFrame.mk (EthernetHeader.mk dst src EthernetHeader.TYPE_ARP) (BufferList.of_string s)).
  destruct (frame_roundtrip_core f EthernetFrame.default) as (q & Hfp & Hq & Hqs).
  { split; simpl; [done|done|range_compute]. }
  { unfold f. cbn [EthernetFrame.payload]. rewrite concatenate_of_string, Hl. range_compute. }
  unfold f in Hqs. cbn [EthernetFrame.payload] in Hqs. rewrite concatenate_of_string in Hqs.
  eexists s, _. split; [done|]. split; [exact Hfp|]. split.
  - unfold pkg_type. simpl. destruct (bool_decide_reflect (dst = ethernet_address i)); [done|].
    destruct Hfor as [?| ->]; [done|]. done.
  - exists q. split; [done|]. by apply Hp.
Qed.

(** From interface to interface: a datagram sent to a neighbour whose
    Ethernet address is known leaves in one frame whose bytes, parsed and handed
    to the neighbour's [recv_frame], yield the datagram with the same header
    (its checksum filled in) and the same payload. *)
Theorem interface_link_delivery a b d ip :
  iinv a → dgram_ok d → resolved a ip = Some (ethernet_address b) → address_ok (ethernet_address b) →
  ∃ a' f fr d', send_datagram a d ip = Ok a' ∧ frames_out a' = frames_out a ++ [f] ∧
    EthernetFrame.parse EthernetFrame.default
      (Buffer.of_string (BufferList.concatenate (EthernetFrame.serialize f))) = Ok (fr, NoError) ∧
    recv_frame b fr = Ok (b, Some d') ∧
    IPv4Datagram.header d' = IPv4Header.set_cksum (IPv4Datagram.header d) (ip_cksum (IPv4Datagram.header d)) ∧
    BufferList.concatenate (IPv4Datagram.payload d') = BufferList.concatenate (IPv4Datagram.payload d).
Proof.
  intros Ha Hd Hr Hb. destruct (link_delivery_core a b d ip Ha Hd Hr Hb) as (f & fr & p & H1 & H2 & H3 & _ & H4).
  eexists _, f, fr, _. split; [exact H1|]. split; [done|]. split; [exact H2|]. split; [exact H3|]. split; [done|].
  simpl. by rewrite H4, app_nil_r.
Qed.

Definition host_b : t := new mac_b 0x0a000002.

Definition knowing_a : t := learn host_a 0x0a000002 mac_b.

Lemma interface_link_delivery_witness :
  ∃ a' f fr d', send_datagram knowing_a sample_datagram 0x0a000002 = Ok a' ∧ frames_out a' = [f] ∧
    EthernetFrame.parse EthernetFrame.default
      (Buffer.of_string (BufferList.concatenate (EthernetFrame.serialize f))) = Ok (fr, NoError) ∧
    recv_frame host_b fr = Ok (host_b, Some d') ∧
    BufferList.concatenate (IPv4Datagram.payload d') = [Byte.x61; Byte.x62; Byte.x63].
Proof.
  destruct (interface_link_delivery knowing_a host_b sample_datagram 0x0a000002)
    as (a' & f & fr & d' & H1 & H2 & H3 & H4 & _ & H5).
  - apply (learn_spec host_a 0x0a000002 mac_b host_a_inv).
  - exact sample_dgram_ok.
  - reflexivity.
  - reflexivity.
  - exists a', f, fr, d'. rewrite H5. repeat split; done.
Defined.

(** C16. From nothing to delivery: two interfaces on one link, neither knowing
    the other. A datagram for the second makes the first broadcast an ARP
    request; the second answers it; the answer makes the first send the waiting
    datagram; and the second takes it out of its frame, header (checksum filled
    in) and payload unchanged. Each frame is read back from its bytes. At the end
    each knows the Ethernet address of the other. *)
Theorem arp_exchange_delivers a b d :
  iinv a → iinv b → dgram_ok d →
  ethernet_address a ≠ ETHERNET_BROADCAST →
  resolved a (ip_address b) = None → pending_for (ip_address b) (sent_dgram a) = [] →
  quiet a (ip_address b) = false → quiet b (ip_address a) = false →
  ∃ a1 b1 a2 f1 f2 f3 g1 g2 g3 d',
    (send_datagram a d (ip_address b) = Ok a1 ∧ frames_out a1 = frames_out a ++ [f1] ∧ on_wire f1 g1) ∧
    (recv_frame b g1 = Ok (b1, None) ∧ frames_out b1 = frames_out b ++ [f2] ∧ on_wire f2 g2) ∧
    (recv_frame a1 g2 = Ok (a2, None) ∧ frames_out a2 = frames_out a1 ++ [f3] ∧ on_wire f3 g3) ∧
    recv_frame b1 g3 = Ok (b1, Some d') ∧
    IPv4Datagram.header d' = IPv4Header.set_cksum (IPv4Datagram.header d) (ip_cksum (IPv4Datagram.header d)) ∧
    BufferList.concatenate (IPv4Datagram.payload d') = BufferList.concatenate (IPv4Datagram.payload d) ∧
    resolved a2 (ip_address b) = Some (ethernet_address b) ∧ resolved b1 (ip_address a) = Some (ethernet_address a).
Proof.
  intros Ha Hb Hd Hna Hr Hp Hqa Hqb. pose proof Ha as [Haa Hai _ _ _ _]. pose proof Hb as [Hba Hbi _ _ _ _].
  destruct (send_datagram_core a d (ip_address b) Ha Hd) as (a1 & Es & Ha1 & _ & He1 & Hi1 & H).
  rewrite Hr, Hqa in H. destruct H as (Hpend & f1 & Hf1 & _ & Ef1).
  (* the request *)
  set (m1 := ARPMessage.mk 1 0x800 6 4 ARPMessage.OPCODE_REQUEST (ethernet_address a) (ip_address a) zero_address (ip_address b)).
  destruct (arp_frame_received b m1 ETHERNET_BROADCAST (ethernet_address a)) as (s1 & g1 & Em1 & Hg1 & Hfor1);
    [done|done|split; simpl; done|by right|].
  assert (f1 = EthernetFrame.mk (EthernetHeader.mk ETHERNET_BROADCAST (ethernet_address a) EthernetHeader.TYPE_ARP)
    (BufferList.of_string s1)) as ->.
  { destruct (arp_request_frame _ _ _ Ef1) as (s & Es1 & ->).
    change (ARPMessage.mk _ _ _ _ _ _ _ _ _) with m1 in Es1. by assert (s = s1) as -> by congruence. }
  (* the answer *)
  destruct (arp_request_core b g1 m1 Hb Hfor1) as (b1 & Eb1 & _ & Hrb & _ & Hb1a & Hf2); [done..|].
  change (ARPMessage.sender_ip_address m1) with (ip_address a) in *. rewrite Hqb in Hf2.
  destruct Hf2 as (s2 & Hf2 & Es2). simpl in Hf2, Es2.
  set (m2 := ARPMessage.mk 1 0x800 6 4 ARPMessage.OPCODE_REPLY (ethernet_address b) (ip_address b)
    (ethernet_address a) (ip_address a)) in *.
  destruct (arp_frame_received a1 m2 (ethernet_address a) (ethernet_address b)) as (s2' & g2 & Em2 & Hg2 & Hfor2);
    [done|done|split; simpl; done|left; by rewrite He1|].
  assert (s2' = s2) as -> by congruence.
  (* the datagram *)
  destruct (arp_reply_core a1 g2 m2 Ha1 Hfor2) as (a2 & Ea2 & Ha2 & Hra & Hf3 & _ & _); [done|by rewrite Hi1|].
  change (ARPMessage.sender_ip_address m2) with (ip_address b) in *.
  change (ARPMessage.sender_ethernet_address m2) with (ethernet_address b) in *.
  rewrite Hpend, decide_True, Hp in Hf3 by done. cbn [app map] in Hf3.
  rewrite <- Hb1a in Hf3 at 1.
  destruct (dgram_frame_received a1 b1 d) as (g3 & p & Hg3 & Hrecv & _ & Hps);
    [by rewrite He1|by rewrite Hb1a|done|].
  eexists a1, b1, a2, _, _, _, g1, g2, g3, _. split_and!; try done. simpl. by rewrite Hps, app_nil_r.
Qed.

Lemma host_b_inv : iinv host_b.
Proof. by apply iinv_new. Qed.

Lemma arp_exchange_delivers_witness :
  ∃ a1 b1 a2 f1 f2 f3 g1 g2 g3 d',
    (send_datagram host_a sample_datagram 0x0a000002 = Ok a1 ∧ frames_out a1 = [f1] ∧ on_wire f1 g1) ∧
    (recv_frame host_b g1 = Ok (b1, None) ∧ frames_out b1 = [f2] ∧ on_wire f2 g2) ∧
    (recv_frame a1 g2 = Ok (a2, None) ∧ frames_out a2 = [f1; f3] ∧ on_wire f3 g3) ∧
    recv_frame b1 g3 = Ok (b1, Some d') ∧
    BufferList.concatenate (IPv4Datagram.payload d') = [Byte.x61; Byte.x62; Byte.x63].
Proof.
  destruct (arp_exchange_delivers host_a host_b sample_datagram)
    as (a1 & b1 & a2 & f1 & f2 & f3 & g1 & g2 & g3 & d' & (H1 & H2 & H3) & (H4 & H5 & H6) & (H7 & H8 & H9) & H10 & _ & H11 & _).
  - exact host_a_inv.
  - exact host_b_inv.
  - exact sample_dgram_ok.
  - discriminate.
  - reflexivity.
  - reflexivity.
  - reflexivity.
  - reflexivity.
  - exists a1, b1, a2, f1, f2, f3, g1, g2, g3, d'. rewrite H2 in H8.
    split; [repeat split; [exact H1|exact H2|exact H3]|].
    split; [repeat split; [exact H4|exact H5|exact H6]|].
    split; [repeat split; [exact H7|exact H8|exact H9]|].
    split; [exact H10|exact H11].
Defined.
