(* ===== verification/Router.v ===== *)
(** * The router: router.hh and router.cc

    [Router] translates the class: its interfaces, and the routing table. The
    table is a [std::map] from (prefix, last address) to the route, ordered by
    [cmp_map]; here it is the list of its elements in that order. An iterator of
    the table is [Some] key of the element it stands at, or [None] for [end()].
    The two loops whose end is not plain from the code, the forward scan of
    [add_route] and the search of [route_one_datagram], run on fuel. *)

From S2P Require Import Prelude Buffers Parsing Checksum Ipv4 Link Netif.

Module Router.

(** [_rt_k]. *)
Record key := mk_key {
  first : Z;
  second : Z;
}.

#[export] Instance key_eq_decision : EqDecision key.
Proof. solve_decision. Defined.

Abbreviation iterator := (option key).

(** [_rt_v]; the [std::any] always holds an iterator of the table. *)
Record val := mk_val {
  nearest : iterator;
  interf : Z;
  next_hop : Z;
  plen : Z;
}.

Abbreviation table := (list (key * val)).

(** The order of the table: by first address, the larger range in front. *)
Definition cmp_map (ts tb : key) : bool :=
  if first ts =? first tb then second tb <? second ts else first ts <? first tb.

Record t := mk {
  interfaces : list AsyncNetworkInterface.t;   (* _interfaces *)
  router_table : table;                        (* _router_table *)
}.

Definition new : t := mk [] [].

(** ** The operations of std::map *)

Definition begin (T : table) : iterator := fst <$> head T.

Definition deref (T : table) (it : iterator) : result (key * val) :=
  match it with
  | Some k =>
      match find (λ e, bool_decide (e.1 = k)) T with
      | Some e => Ok e
      | None => Err (undefined_behaviour "dereference of an iterator that is not of the map")
      end
  | None => Err (undefined_behaviour "dereference of end()")
  end.

Definition lower_bound (T : table) (k : key) : iterator :=
  fst <$> find (λ e, negb (cmp_map e.1 k)) T.

(** The elements in front of an iterator, and those behind it. *)
Definition before (T : table) (it : iterator) : table :=
  match it with Some k => filter (λ e, cmp_map e.1 k = true) T | None => T end.

Definition after (T : table) (k : key) : table := filter (λ e, cmp_map k e.1 = true) T.

(** [--it], which the code applies only when [it] is not [begin()]. *)
Definition prev (T : table) (it : iterator) : result key :=
  match last (before T it) with Some e => Ok e.1 | None => Err (undefined_behaviour "decrement of begin()") end.

(** [insert]: an element whose key is in the table already stays as it is. *)
Fixpoint insert (k : key) (v : val) (T : table) : table :=
  match T with
  | [] => [(k, v)]
  | (k', v') :: T' =>
      if cmp_map k k' then (k, v) :: T
      else if cmp_map k' k then (k', v') :: insert k v T'
      else T
  end.

Definition set_nearest (T : table) (k : key) (n : iterator) : table :=
  (λ e, if bool_decide (e.1 = k) then (e.1, mk_val n (interf e.2) (next_hop e.2) (plen e.2)) else e) <$> T.

(** ** Adding a route *)

(** Lines 43 to 52, over the elements in front of the new one, the last first. *)
Fixpoint scan_back (l : table) (end_index : Z) : option key :=
  match l with
  | [] => None
  | (k, _) :: l' => if end_index <? second k then Some k else scan_back l' end_index
  end.

(** Line 71: the first element behind that does not start before [it_end]. *)
Fixpoint skip_inner (l : table) (it_end : Z) : iterator :=
  match l with
  | [] => None
  | (k, _) :: l' => if first k <? it_end then skip_inner l' it_end else Some k
  end.

(** Lines 61 to 87. *)
Fixpoint scan_forward (fuel : nat) (T : table) (x : key) (log_length : Z) (it : iterator) : result table :=
  match fuel with
  | O => Err out_of_fuel
  | S fuel =>
      match it with
      | None => Ok T
      | Some k =>
          let it_end := second k in
          if second k <=? second x then Ok T
          else
            let T := set_nearest T k (Some x) in
            let it :=
              if w32 (second k - first k + 1) <? log_length then skip_inner (after T k) it_end
              else lower_bound T (mk_key it_end UINT32_MAX) in
            scan_forward fuel T x log_length it
      end
  end.

(** The first and the last address of a prefix. *)
Definition start_index (route_prefix prefix_length : Z) : Z :=
  let shift := if prefix_length =? 0 then 0 else 32 - prefix_length in
  Z.land route_prefix (w32 (Z.shiftl UINT32_MAX shift)).

Definition end_index (route_prefix prefix_length : Z) : Z :=
  w32 (start_index route_prefix prefix_length + (2 ^ (32 - prefix_length) - 1)).

(** [ln] is [static_cast<uint32_t>(log(...))] of the C library. A prefix longer
    than 32 bits makes the shift undefined. *)
Definition add_route_table (ln : Z → Z) (fuel : nat) (T : table)
    (route_prefix prefix_length : Z) (hop : option Z) (interface_num : Z) : result table :=
  if 32 <? prefix_length then Err (undefined_behaviour "shift by more than 31 bits")
  else
    let last := end_index route_prefix prefix_length in
    let x := mk_key route_prefix last in
    let T := insert x (mk_val (begin T) interface_num (default 0 hop) prefix_length) T in
    let T := match scan_back (reverse (before T (Some x))) last with
             | Some k => set_nearest T x (Some k)
             | None => T
             end in
    scan_forward fuel T x (ln (w32 (last - route_prefix + 1))) (fst <$> head (after T x)).

Definition add_route (ln : Z → Z) (fuel : nat) (r : t)
    (route_prefix prefix_length : Z) (hop : option Z) (interface_num : Z) : result t :=
  T ← add_route_table ln fuel (router_table r) route_prefix prefix_length hop interface_num;
  Ok (mk (interfaces r) T).

(** ** Routing *)

(** The locals of the search: [tar_plen], [save_interf], [tar_nexthop], [saved]. *)
Record target := mk_target {
  tar_plen : Z;
  save_interf : Z;
  tar_nexthop : Z;
  saved : bool;
}.

(** Lines 123 to 131. *)
Definition consider (dst_ip : Z) (e : key * val) (g : target) : target :=
  if (dst_ip <=? second e.1) && (tar_plen g <=? plen e.2)
  then mk_target (plen e.2) (interf e.2) (next_hop e.2) true
  else g.

(** Lines 109 to 132. *)
Fixpoint search (fuel : nat) (T : table) (dst_ip : Z) (it : iterator) (fast_search : bool) (g : target) : result target :=
  match fuel with
  | O => Err out_of_fuel
  | S fuel =>
      if bool_decide (it = begin T) then Ok g
      else if negb fast_search then
        k ← prev T it;
        e ← deref T (Some k);
        search fuel T dst_ip (Some k) (second k <=? dst_ip) (consider dst_ip e g)
      else
        e ← deref T it;
        e' ← deref T (nearest e.2);
        search fuel T dst_ip (nearest e.2) true (consider dst_ip e' g)
  end.

(** [interface(N)], a [vector::at]. *)
Definition interface (r : t) (n : Z) : result AsyncNetworkInterface.t :=
  match (if n <? 0 then None else interfaces r !! Z.to_nat n) with
  | Some a => Ok a
  | None => Err (out_of_range "vector::at")
  end.

Definition with_interface (r : t) (n : Z) (a : AsyncNetworkInterface.t) : t :=
  mk (<[Z.to_nat n := a]> (interfaces r)) (router_table r).

Definition add_interface (r : t) (a : AsyncNetworkInterface.t) : t * Z :=
  (mk (interfaces r ++ [a]) (router_table r), blen (interfaces r)).

(** Lines 92 to 97: the datagram with one hop less, unless it ends here. *)
Definition age (dgram : IPv4Datagram.t) : option IPv4Datagram.t :=
  let ttl := IPv4Header.ttl (IPv4Datagram.header dgram) in
  let ttl := if negb (ttl =? 0) then w8 (ttl - 1) else ttl in
  if ttl =? 0 then None
  else Some (IPv4Datagram.mk (IPv4Header.set_ttl (IPv4Datagram.header dgram) ttl) (IPv4Datagram.payload dgram)).

Definition route_one_datagram (fuel : nat) (r : t) (dgram : IPv4Datagram.t) : result t :=
  match age dgram with
  | None => Ok r
  | Some dgram =>
      let dst_ip := IPv4Header.dst (IPv4Datagram.header dgram) in
      let T := router_table r in
      g ← search fuel T dst_ip (lower_bound T (mk_key dst_ip 0)) false (mk_target 0 0 0 false);
      if saved g then
        a ← interface r (save_interf g);
        a ← AsyncNetworkInterface.send_datagram a dgram (if tar_nexthop g =? 0 then dst_ip else tar_nexthop g);
        Ok (with_interface r (save_interf g) a)
      else Ok r
  end.

(** Lines 145 to 148, for interface [n], whose queue holds [q]. *)
Fixpoint route_queue (fuel : nat) (r : t) (n : Z) (q : list IPv4Datagram.t) : result t :=
  match q with
  | [] => Ok r
  | d :: q =>
      r ← route_one_datagram fuel r d;
      a ← interface r n;
      route_queue fuel (with_interface r n (AsyncNetworkInterface.mk (AsyncNetworkInterface.interface a) q)) n q
  end.

(** The loop of line 143 over the interfaces numbered [ns]. *)
Fixpoint route_interfaces (fuel : nat) (r : t) (ns : list Z) : result t :=
  match ns with
  | [] => Ok r
  | n :: ns =>
      a ← interface r n;
      r ← route_queue fuel r n (AsyncNetworkInterface.datagrams_out a);
      route_interfaces fuel r ns
  end.

Definition route (fuel : nat) (r : t) : result t := route_interfaces fuel r (seqZ 0 (blen (interfaces r))).

End Router.
