(* ===== verification/RouterSpec.v ===== *)
(** * Longest-prefix match

    The routing table of [Router] against its contract: the route of longest
    prefix that matches the destination. The table keeps for every prefix an
    iterator to a nearby earlier prefix; [nearest_ok] is the invariant that makes
    the search along these iterators right, and [add_route] keeps it as long as
    no prefix is added after one of its own sub-prefixes. *)

From Stdlib Require Import Sorted.
From S2P Require Import Prelude Buffers Parsing Checksum Ipv4 Link Netif NetifSpec Router.
Import Router.

(** ** The order of the table *)

Definition klt (a b : key) : Prop :=
  first a < first b ∨ first a = first b ∧ second b < second a.

Lemma cmp_map_spec a b : cmp_map a b = true ↔ klt a b.
Proof.
  unfold cmp_map, klt. destruct (Z.eqb_spec (first a) (first b)); rewrite Z.ltb_lt; lia.
Qed.

Lemma key_eq (a b : key) : first a = first b → second a = second b → a = b.
Proof. destruct a, b. simpl. by intros -> ->. Qed.

Lemma klt_total a b : klt a b ∨ a = b ∨ klt b a.
Proof.
  unfold klt. destruct (decide (a = b)) as [->|Hne]; [tauto|].
  destruct (decide (first a = first b)); [|lia].
  destruct (decide (second a = second b)); [|lia]. by destruct Hne; apply key_eq.
Qed.

Lemma klt_irrefl a : ¬ klt a a.
Proof. unfold klt. lia. Qed.

Lemma klt_trans a b c : klt a b → klt b c → klt a c.
Proof. unfold klt. lia. Qed.

Definition sorted : table → Prop := StronglySorted (λ a b, klt a.1 b.1).

(** ** Searches in a sorted list *)

Section find.
Context {A : Type} (R : A → A → Prop).

Lemma find_sorted (P : A → bool) l e :
  StronglySorted R l → find P l = Some e →
  e ∈ l ∧ P e = true ∧ ∀ f, f ∈ l → P f = true → f = e ∨ R e f.
Proof.
  induction 1 as [|a l Hl IH Ha]; simpl; [done|]. destruct (P a) eqn:Hp.
  - intros [= ->]. split_and!; [left|done|]. intros f [->|Hf]%elem_of_cons _; [by left|].
    right. by eapply (proj1 (Forall_forall _ _) Ha).
  - intros Hf. destruct (IH Hf) as (? & ? & Hmin). split_and!; [by right|done|].
    intros f [->|?]%elem_of_cons ?; [congruence|]. by apply Hmin.
Qed.

Lemma find_false (P : A → bool) l f : find P l = None → f ∈ l → P f = false.
Proof.
  induction l as [|a l IH]; simpl; intros Hf Hin; [by apply not_elem_of_nil in Hin|].
  destruct (P a) eqn:?; [done|]. apply elem_of_cons in Hin as [->|Hin]; auto.
Qed.

Lemma sorted_filter (P : A → Prop) `{∀ x, Decision (P x)} l :
  StronglySorted R l → StronglySorted R (filter P l).
Proof.
  induction 1 as [|a l Hl IH Ha]; [constructor|]. rewrite filter_cons.
  destruct (decide (P a)); [|done]. constructor; [done|].
  apply Forall_forall. intros x [_ Hx]%list_elem_of_filter. by eapply (proj1 (Forall_forall _ _) Ha).
Qed.

Lemma sorted_snoc l a : StronglySorted R l → (∀ x, x ∈ l → R x a) → StronglySorted R (l ++ [a]).
Proof.
  induction 1 as [|b l Hl IH Hb]; intros Ha; simpl; [by repeat constructor|].
  constructor; [apply IH; intros x ?; apply Ha; by right|].
  apply Forall_app. split; [done|]. constructor; [|constructor]. apply Ha. left.
Qed.

Lemma filter_lt (P Q : A → Prop) `{∀ x, Decision (P x)} `{∀ x, Decision (Q x)} l e :
  (∀ x, Q x → P x) → e ∈ l → P e → ¬ Q e → (length (filter Q l) < length (filter P l))%nat.
Proof.
  intros HQP He HP HQ.
  assert (Hle : ∀ l', (length (filter Q l') ≤ length (filter P l'))%nat).
  { induction l' as [|a l' IH]; [done|]. rewrite !filter_cons.
    destruct (decide (Q a)), (decide (P a)); simpl; try lia. by destruct n; apply HQP. }
  induction He as [x l|x a l He IH].
  - rewrite !filter_cons, decide_False, decide_True by done. simpl. specialize (Hle l). lia.
  - specialize (IH HP HQ). rewrite !filter_cons.
    destruct (decide (Q a)), (decide (P a)); simpl; try lia. by destruct n; apply HQP.
Qed.
End find.

Lemma sorted_reverse {A} (R : A → A → Prop) l : StronglySorted R l → StronglySorted (flip R) (reverse l).
Proof.
  induction 1 as [|a l Hl IH Ha]; [constructor|]. rewrite reverse_cons. apply sorted_snoc; [done|].
  intros x Hx. rewrite elem_of_reverse in Hx. rewrite Forall_forall in Ha. by apply Ha.
Qed.

Lemma head_find {A} (l : list A) : head l = find (λ _, true) l.
Proof. by destruct l. Qed.

Lemma last_find {A} (l : list A) : last l = find (λ _, true) (reverse l).
Proof. by rewrite <- head_find, head_reverse. Qed.

(** ** Keys of the table *)

Section table.
Context (T : table) (Hs : sorted T).

Lemma table_unique k v w : (k, v) ∈ T → (k, w) ∈ T → v = w.
Proof.
  induction Hs as [|a l Hl IH Ha]; [by intros ?%not_elem_of_nil|]. rewrite Forall_forall in Ha.
  intros [E1|H1]%elem_of_cons [E2|H2]%elem_of_cons; [congruence|..|by apply IH].
  - apply Ha in H2. subst. by apply klt_irrefl in H2.
  - apply Ha in H1. subst. by apply klt_irrefl in H1.
Qed.

Lemma deref_spec k : k ∈ T.*1 → ∃ v, deref T (Some k) = Ok (k, v) ∧ (k, v) ∈ T.
Proof.
  intros ((k' & v) & -> & Hin)%list_elem_of_fmap. simpl in *.
  unfold deref. destruct (find _ T) as [e|] eqn:E.
  - apply (find_sorted _ _ _ _ Hs) in E as (He & Hk & _).
    apply bool_decide_eq_true in Hk. destruct e as [k v']. simpl in *. subst k. by exists v'.
  - pose proof (find_false _ _ _ E Hin) as H. simpl in H. by rewrite bool_decide_true in H.
Qed.

Lemma table_lower_bound k :
  match lower_bound T k with
  | Some e => e ∈ T.*1 ∧ ¬ klt e k ∧ ∀ f, f ∈ T.*1 → ¬ klt f k → f = e ∨ klt e f
  | None => ∀ f, f ∈ T.*1 → klt f k
  end.
Proof.
  unfold lower_bound. destruct (find _ T) as [[e v]|] eqn:E; simpl.
  - apply (find_sorted _ _ _ _ Hs) in E as (He & Hk & Hmin). rewrite negb_true_iff, <- not_true_iff_false, cmp_map_spec in Hk.
    split_and!; [|done|].
    + apply list_elem_of_fmap. by exists (e, v).
    + intros f ((f' & w) & -> & Hf)%list_elem_of_fmap Hn. destruct (Hmin _ Hf) as [->|?]; [|by left|by right].
      rewrite negb_true_iff, <- not_true_iff_false, cmp_map_spec. done.
  - intros f ((f' & w) & -> & Hf)%list_elem_of_fmap. pose proof (find_false _ _ _ E Hf) as Hc.
    rewrite negb_false_iff, cmp_map_spec in Hc. done.
Qed.

Lemma skip_inner_find l e :
  skip_inner l e = fst <$> find (λ x, negb (first x.1 <? e)) l.
Proof. induction l as [|[k v] l IH]; simpl; [done|]. by destruct (first k <? e). Qed.

(** With [k] not a single address, the two ways to pass over the prefixes
    inside [k] meet at the same element. *)
Lemma skip_inner_spec k :
  first k < second k → Forall (λ x, is_u32 (second x)) T.*1 →
  skip_inner (after T k) (second k) = lower_bound T (mk_key (second k) UINT32_MAX).
Proof.
  intros Hk Hall. rewrite skip_inner_find. unfold lower_bound, after. f_equal. clear Hs.
  induction T as [|[a v] l IH]; [done|]. simpl in Hall. apply Forall_cons in Hall as [Ha Hall].
  specialize (IH Hall). rewrite filter_cons.
  assert (Hcmp : cmp_map a (mk_key (second k) UINT32_MAX) = (first a <? second k)).
  { unfold cmp_map. simpl. destruct (Z.eqb_spec (first a) (second k)); [|done].
    unfold_w. destruct (Z.ltb_spec 0xffffffff (second a)), (Z.ltb_spec (first a) (second k)); lia || done. }
  simpl. rewrite Hcmp. destruct (Z.ltb_spec (first a) (second k)); simpl.
  - case_decide; simpl; [|done]. rewrite (proj2 (Z.ltb_lt _ _)) by done. done.
  - rewrite decide_True. 2:{ simpl. apply cmp_map_spec. left. lia. }
    simpl. by rewrite (proj2 (Z.ltb_ge _ _)) by done.
Qed.
End table.

(** ** Prefixes as ranges of addresses *)

(** [k] is the range of a prefix of [p] bits, at most 31. *)
Record canon (k : key) (p : Z) : Prop := mk_canon {
  ca_plen : 0 <= p <= 31;
  ca_aligned : ∃ c, first k = c * 2 ^ (32 - p);
  ca_first : 0 <= first k;
  ca_second : second k = first k + 2 ^ (32 - p) - 1;
  ca_last : second k < 0x100000000;
}.

Lemma pow_split p q : 0 <= p <= q → q <= 31 →
  ∃ d, 2 ^ (32 - p) = d * 2 ^ (32 - q) ∧ 1 <= d ∧ (p < q → 2 <= d) ∧ 2 <= 2 ^ (32 - q).
Proof.
  intros Hp Hq. exists (2 ^ (q - p)). rewrite <- Z.pow_add_r by lia.
  split; [f_equal; lia|]. split; [by apply (Z.pow_le_mono_r 2 0); lia|].
  split; [intros ?; apply (Z.pow_le_mono_r 2 1); lia|apply (Z.pow_le_mono_r 2 1); lia].
Qed.

Lemma canon_proper k p : canon k p → first k < second k ∧ is_u32 (second k).
Proof.
  intros []. destruct (pow_split p p) as (_ & _ & _ & _ & ?); [lia..|]. unfold_w. lia.
Qed.

(** Prefixes do not overlap: of two, the later in the order lies inside the
    earlier or behind it. *)
Lemma laminar a p b q :
  canon a p → canon b q → ¬ klt b a → second b <= second a ∧ p <= q ∨ second a < first b.
Proof.
  intros [Hp [c Hc] Ha Ha' _] [Hq [c' Hc'] Hb Hb' _] Hle. unfold klt in Hle.
  destruct (decide (second a < first b)) as [|Hin]; [by right|]. left.
  destruct (decide (p <= q)) as [Hpq|Hpq].
  - split; [|done]. destruct (pow_split p q) as (d & Hd & ? & _ & ?); [lia..|].
    set (Q := 2 ^ (32 - q)) in *. rewrite Hd in *. clearbody Q.
    assert (c' < (c + 1) * d) by nia. assert ((c' + 1) * Q <= (c + 1) * d * Q) by nia. lia.
  - destruct (pow_split q p) as (d & Hd & _ & Hd2 & ?); [lia..|]. specialize (Hd2 ltac:(lia)).
    set (P := 2 ^ (32 - p)) in *. rewrite Hd in *. clearbody P.
    assert (c' * d < c + 1) by nia. assert (c <= c' * d) by nia.
    assert (c = c' * d) by lia. assert (first a = first b) by lia. nia.
Qed.

(** Two prefixes of the same length with a common address are the same. *)
Lemma canon_same a b p x :
  canon a p → canon b p → first a <= x <= second a → first b <= x <= second b → a = b.
Proof.
  intros [Hp [c Hc] Ha Ha' _] [_ [c' Hc'] Hb Hb' _] Hx Hy.
  assert (0 < 2 ^ (32 - p)) by (apply Z.pow_pos_nonneg; lia). set (P := 2 ^ (32 - p)) in *. clearbody P.
  assert (c = c') by nia. apply key_eq; lia.
Qed.

(** ** The invariant *)

(** What the code stores with a prefix, but for the iterator. *)
Definition data (e : key * val) : key * (Z * Z * Z) := (e.1, (interf e.2, next_hop e.2, plen e.2)).

(** An iterator the search may follow from [k]: it goes back, and passes over no
    prefix that reaches beyond [k]. *)
Definition good (ks : list key) (k n : key) : Prop :=
  n ∈ ks ∧ klt n k ∧ ∀ f, f ∈ ks → klt n f → klt f k → second f <= second k.

Definition nearest_ok (T : table) : Prop :=
  ∀ k v, (k, v) ∈ T → begin T ≠ Some k → ∃ n, nearest v = Some n ∧ good T.*1 k n.

Record tinv (T : table) : Prop := mk_tinv {
  ti_sorted : sorted T;
  ti_canon : ∀ k v, (k, v) ∈ T → canon k (plen v);
  ti_nearest : nearest_ok T;
}.

Lemma elem_of_keys (T : table) k : k ∈ T.*1 ↔ ∃ v, (k, v) ∈ T.
Proof.
  rewrite list_elem_of_fmap. split; [intros ([k' v] & -> & ?); eauto|intros [v ?]; by exists (k, v)].
Qed.

Lemma begin_keys T : begin T = head T.*1.
Proof. by destruct T. Qed.

Lemma tinv_u32 T : tinv T → Forall (λ x, is_u32 (second x)) T.*1.
Proof.
  intros [_ Hc _]. apply Forall_forall. intros k [v Hv]%elem_of_keys. by eapply canon_proper, Hc.
Qed.

Lemma sorted_keys T : sorted T ↔ StronglySorted klt T.*1.
Proof.
  unfold sorted. induction T as [|a T IH]; [split; constructor|]. rewrite fmap_cons.
  split; intros H; apply StronglySorted_inv in H as [Hl Ha]; (constructor; [by apply IH|]).
  - by rewrite Forall_fmap.
  - by rewrite Forall_fmap in Ha.
Qed.

Lemma begin_least T k x : sorted T → begin T = Some k → x ∈ T.*1 → x = k ∨ klt k x.
Proof.
  intros Hs Hb [v Hx]%elem_of_keys. unfold begin in Hb.
  destruct T as [|[k' w] T]; [done|]. injection Hb as ->.
  apply elem_of_cons in Hx as [[= -> ->]|Hx]; [by left|]. right.
  apply StronglySorted_inv in Hs as [_ Ha]. rewrite Forall_forall in Ha. by apply Ha in Hx.
Qed.

(** ** Setting an iterator *)

Lemma set_nearest_data T k n : data <$> set_nearest T k n = data <$> T.
Proof.
  unfold set_nearest. rewrite <- list_fmap_compose. apply list_fmap_ext. intros i [a v] _. simpl.
  by destruct (bool_decide _).
Qed.

Lemma data_keys T T' : data <$> T = data <$> T' → T.*1 = T'.*1.
Proof. intros H. apply (f_equal (fmap fst)) in H. by rewrite <- !list_fmap_compose in H. Qed.

Lemma set_nearest_elem T k n k' v' :
  (k', v') ∈ set_nearest T k n → (k', v') ∈ T ∧ k' ≠ k ∨ k' = k ∧ nearest v' = n ∧ ∃ v, (k, v) ∈ T ∧ plen v' = plen v.
Proof.
  intros ([a v] & E & Hin)%list_elem_of_fmap. simpl in E.
  destruct (bool_decide_reflect (a = k)) as [->|Hne]; injection E as -> ->; [right|by left].
  split_and!; [done..|]. by exists v.
Qed.

Lemma set_nearest_inv T k n : tinv T → good T.*1 k n → tinv (set_nearest T k (Some n)).
Proof.
  intros [Hs Hc Hn] Hg. pose proof (data_keys _ _ (set_nearest_data T k (Some n))) as Hk. split.
  - apply sorted_keys. rewrite Hk. by apply sorted_keys.
  - intros k' v' [[H _]|(-> & _ & v & Hv & ->)]%set_nearest_elem; eauto.
  - intros k' v' Hin. rewrite begin_keys, Hk, <- begin_keys. intros Hb.
    apply set_nearest_elem in Hin as [[H _]|(-> & -> & _)]; [by apply Hn|]. by exists n.
Qed.

(** ** The forward scan *)

(** The keys behind [k]: the measure of the forward scan. *)
Definition behind (ks : list key) (k : key) : nat := length (filter (λ f, cmp_map k f = true) ks).

Lemma behind_lt ks k k' : k' ∈ ks → klt k k' → (behind ks k' < behind ks k)%nat.
Proof.
  intros Hk' Hlt. apply (filter_lt _ _ _ k'); [|done|by apply cmp_map_spec|].
  - intros f. rewrite !cmp_map_spec. by apply klt_trans.
  - rewrite cmp_map_spec. apply klt_irrefl.
Qed.

Lemma behind_le ks k : (behind ks k <= length ks)%nat.
Proof. apply length_filter. Qed.

(** Where the scan goes after [k]: past everything inside [k]. *)
Lemma scan_next T k ll :
  tinv T → k ∈ T.*1 →
  match (if w32 (second k - first k + 1) <? ll then skip_inner (after T k) (second k)
         else lower_bound T (mk_key (second k) UINT32_MAX)) with
  | Some k' => k' ∈ T.*1 ∧ klt k k' ∧ second k <= second k' ∧ ∀ f, f ∈ T.*1 → klt f k' → second f <= second k ∨ klt f k
  | None => True
  end.
Proof.
  intros Ht Hk. pose proof (tinv_u32 T Ht) as Hu. destruct Ht as [Hs Hc _].
  pose proof Hk as [v Hv]%elem_of_keys. pose proof (Hc _ _ Hv) as Hck.
  destruct (canon_proper _ _ Hck) as [Hp Hu2].
  match goal with |- match ?m with _ => _ end =>
    replace m with (lower_bound T (mk_key (second k) UINT32_MAX)) end.
  2:{ destruct (_ <? ll); [|done]. by rewrite skip_inner_spec. }
  pose proof (table_lower_bound T Hs (mk_key (second k) UINT32_MAX)) as Hlb.
  destruct (lower_bound _ _) as [k'|]; [|done]. destruct Hlb as (Hin & Hn & Hmin).
  assert (Hge : second k <= first k').
  { pose proof (proj1 (Forall_forall _ _) Hu _ Hin) as Hu'. unfold klt in Hn. simpl in Hn. unfold_w. lia. }
  split; [done|]. split; [left; lia|]. split.
  { pose proof Hin as [w Hw]%elem_of_keys. pose proof (canon_proper _ _ (Hc _ _ Hw)). lia. }
  intros f Hf Hlt. destruct (klt_total f k) as [|[->|Hkf]]; [by right|by left; lia|]. left.
  pose proof Hf as [w Hw]%elem_of_keys.
  destruct (laminar _ _ _ _ Hck (Hc _ _ Hw)) as [[? _]|Hb]; [|done|].
  { intros ?. by eapply klt_irrefl, klt_trans. }
  destruct (Hmin f Hf) as [->|?].
  - intros Hcl. unfold klt in Hcl. simpl in Hcl. unfold_w. lia.
  - by apply klt_irrefl in Hlt.
  - by destruct (klt_irrefl f); eapply klt_trans.
Qed.

Lemma scan_forward_spec fuel T x ll it :
  tinv T → match it with
           | Some k => k ∈ T.*1 ∧ good T.*1 k x ∧ (behind T.*1 k + 2 <= fuel)%nat
           | None => (1 <= fuel)%nat
           end →
  ∃ T', scan_forward fuel T x ll it = Ok T' ∧ tinv T' ∧ data <$> T' = data <$> T.
Proof.
  revert T it. induction fuel as [|fuel IH]; intros T it Ht Hit.
  { destruct it; [destruct Hit as (_ & _ & ?)|]; lia. }
  simpl. destruct it as [k|]; [|by eauto]. destruct Hit as (Hk & Hg & Hf).
  destruct (second k <=? second x); [by eauto|].
  pose proof (set_nearest_data T k (Some x)) as Hd. pose proof (data_keys _ _ Hd) as Hks.
  pose proof (set_nearest_inv T k x Ht Hg) as Ht'. set (T1 := set_nearest T k (Some x)) in *.
  destruct (IH T1 (if w32 (second k - first k + 1) <? ll then skip_inner (after T1 k) (second k)
         else lower_bound T1 (mk_key (second k) UINT32_MAX)) Ht') as (T' & E & Hi & Hd').
  - pose proof (scan_next T1 k ll Ht' ltac:(by rewrite Hks)) as Hn. 
    match goal with |- match ?m with _ => _ end => destruct m as [k'|] end.
    2:{ lia. }
    rewrite Hks in *. destruct Hn as (Hk' & Hlt & Hfe & Hpast). destruct Hg as (Hx & Hxk & Hbt).
    split; [done|]. split; [|pose proof (behind_lt _ _ _ Hk' Hlt); lia].
    split; [done|]. split; [by eapply klt_trans|]. intros f Hf' Hxf Hfk'.
    destruct (Hpast f Hf' Hfk') as [|Hfk]; [lia|]. specialize (Hbt f Hf' Hxf Hfk). lia.
  - exists T'. by rewrite E, Hd', Hd.
Qed.

(** ** Inserting a prefix *)

Lemma insert_elem k v T e :
  sorted T → e ∈ insert k v T ↔ e ∈ T ∨ e = (k, v) ∧ k ∉ T.*1.
Proof.
  induction T as [|[k' v'] T IH]; intros Hs; cbn [insert].
  { rewrite list_elem_of_singleton. pose proof (not_elem_of_nil k). pose proof (not_elem_of_nil e). tauto. }
  pose proof Hs as [Hl Ha]%StronglySorted_inv. rewrite Forall_forall in Ha. specialize (IH Hl).
  destruct (cmp_map k k') eqn:E1; [|destruct (cmp_map k' k) eqn:E2].
  - rewrite cmp_map_spec in E1. rewrite elem_of_cons.
    assert (k ∉ ((k', v') :: T).*1); [|tauto]. rewrite fmap_cons. intros [->|[w Hw]%elem_of_keys]%elem_of_cons; [by apply klt_irrefl in E1|].
    apply Ha in Hw. simpl in Hw. by eapply klt_irrefl, klt_trans.
  - rewrite cmp_map_spec in E2. rewrite fmap_cons, !elem_of_cons, IH. simpl.
    assert (k ≠ k') by (intros ->; by apply klt_irrefl in E2). tauto.
  - assert (k = k') as ->; [|rewrite fmap_cons, !elem_of_cons; simpl; tauto].
    destruct (klt_total k k') as [H|[H|H]]; [|done|]; apply cmp_map_spec in H; congruence.
Qed.

Lemma insert_sorted k v T : sorted T → sorted (insert k v T).
Proof.
  induction 1 as [|[k' v'] T Hl IH Ha]; simpl; [by repeat constructor|].
  assert (Hs : sorted ((k', v') :: T)) by by constructor.
  destruct (cmp_map k k') eqn:E1; [|destruct (cmp_map k' k) eqn:E2].
  - constructor; [done|]. rewrite cmp_map_spec in E1. constructor; [done|].
    eapply Forall_impl; [exact Ha|]. intros e He. by eapply klt_trans.
  - constructor; [done|]. rewrite Forall_forall in *. intros e [He|[-> _]]%insert_elem; [by apply Ha| |done].
    by apply cmp_map_spec.
  - done.
Qed.

Lemma insert_present k v T : sorted T → k ∈ T.*1 → insert k v T = T.
Proof.
  induction 1 as [|[k' v'] T Hl IH Ha]; [by intros ?%not_elem_of_nil|]. rewrite Forall_forall in Ha. simpl.
  intros [->|Hin]%elem_of_cons.
  - destruct (cmp_map k' k') eqn:E; [by apply cmp_map_spec, klt_irrefl in E|done].
  - pose proof Hin as [w Hw]%elem_of_keys. apply Ha in Hw. simpl in Hw.
    destruct (cmp_map k k') eqn:E; [apply cmp_map_spec in E; by destruct (klt_irrefl k); eapply klt_trans|].
    rewrite (proj2 (cmp_map_spec k' k)) by done. by rewrite IH.
Qed.

Lemma insert_keys k v T x : sorted T → x ∈ (insert k v T).*1 ↔ x ∈ T.*1 ∨ x = k.
Proof.
  intros Hs. rewrite !elem_of_keys. setoid_rewrite insert_elem; [|done]. split.
  - intros (w & [?|[[= -> ->] _]]); eauto.
  - intros [[w ?]| ->]; [by eauto|]. destruct (decide (k ∈ T.*1)) as [[w Hw]%elem_of_keys|]; eauto.
Qed.

Lemma insert_length k v T : (length (insert k v T) <= length T + 1)%nat.
Proof. induction T as [|[k' v'] T IH]; simpl; [lia|]. repeat case_match; simpl; lia. Qed.

Lemma before_keys T x k : k ∈ (before T (Some x)).*1 ↔ k ∈ T.*1 ∧ klt k x.
Proof.
  rewrite !elem_of_keys. simpl. setoid_rewrite list_elem_of_filter. simpl. setoid_rewrite cmp_map_spec. naive_solver.
Qed.

Lemma scan_back_spec T x :
  sorted T →
  match scan_back (reverse (before T (Some x))) (second x) with
  | Some k => good T.*1 x k
  | None => ∀ f, f ∈ T.*1 → klt f x → second f <= second x
  end.
Proof.
  intros Hs.
  assert (Hf : ∀ l, scan_back l (second x) = fst <$> find (λ e, second x <? second e.1) l).
  { induction l as [|[k v] l IH]; simpl; [done|]. by destruct (_ <? _). }
  rewrite Hf. clear Hf.
  assert (Hr : StronglySorted (flip (λ a b : key * val, klt a.1 b.1)) (reverse (before T (Some x)))).
  { by apply sorted_reverse, sorted_filter. }
  destruct (find _ _) as [[k v]|] eqn:E; simpl.
  - apply (find_sorted _ _ _ _ Hr) in E as (Hin & Hk & Hmin). apply Z.ltb_lt in Hk. simpl in Hk.
    rewrite elem_of_reverse in Hin.
    destruct (proj1 (before_keys T x k)) as [Hkin Hkx]; [apply elem_of_keys; eauto|].
    split; [done|]. split; [done|]. intros f Hf Hkf Hfx. destruct (Z.le_gt_cases (second f) (second x)); [done|].
    destruct (proj1 (elem_of_keys _ f) (proj2 (before_keys T x f) (conj Hf Hfx))) as [w Hw].
    destruct (Hmin (f, w)) as [[= -> ->]|Hlt]; [by apply elem_of_reverse|by apply Z.ltb_lt| |].
    + by apply klt_irrefl in Hkf.
    + unfold flip in Hlt. simpl in Hlt. by destruct (klt_irrefl k); eapply klt_trans.
  - intros f Hf Hfx. destruct (proj1 (elem_of_keys _ f) (proj2 (before_keys T x f) (conj Hf Hfx))) as [w Hw].
    rewrite <- elem_of_reverse in Hw. pose proof (find_false _ _ _ E Hw) as H. simpl in H. by apply Z.ltb_ge in H.
Qed.

Lemma head_after T x :
  sorted T →
  match fst <$> head (after T x) with
  | Some k => k ∈ T.*1 ∧ klt x k ∧ ∀ f, f ∈ T.*1 → klt x f → f = k ∨ klt k f
  | None => ∀ f, f ∈ T.*1 → ¬ klt x f
  end.
Proof.
  intros Hs. rewrite head_find. unfold after.
  assert (Hin : ∀ f, f ∈ T.*1 → klt x f → ∃ w, (f, w) ∈ filter (λ e : key * val, cmp_map x e.1 = true) T).
  { intros f [w Hw]%elem_of_keys Hlt. exists w. apply list_elem_of_filter. by rewrite cmp_map_spec. }
  destruct (find _ _) as [[k v]|] eqn:E; simpl.
  - apply (find_sorted _ _ _ _ (sorted_filter _ _ _ Hs)) in E as ([Hlt Hk]%list_elem_of_filter & _ & Hmin).
    apply cmp_map_spec in Hlt. split; [apply elem_of_keys; eauto|]. split; [done|].
    intros f Hf Hxf. destruct (Hin f Hf Hxf) as [w Hw]. destruct (Hmin _ Hw) as [[= -> ->]|?]; [done|by left|by right].
  - intros f Hf Hxf. destruct (Hin f Hf Hxf) as [w Hw]. by pose proof (find_false _ _ _ E Hw).
Qed.

(** The invariant at every prefix but [z]. *)
Record tinv_but (z : key) (T : table) : Prop := mk_tinv_but {
  tb_sorted : sorted T;
  tb_canon : ∀ k v, (k, v) ∈ T → canon k (plen v);
  tb_nearest : ∀ k v, (k, v) ∈ T → k ≠ z → begin T ≠ Some k → ∃ n, nearest v = Some n ∧ good T.*1 k n;
}.

Lemma set_nearest_fix T z n : tinv_but z T → good T.*1 z n → tinv (set_nearest T z (Some n)).
Proof.
  intros [Hs Hc Hn] Hg. pose proof (data_keys _ _ (set_nearest_data T z (Some n))) as Hk. split.
  - apply sorted_keys. rewrite Hk. by apply sorted_keys.
  - intros k' v' [[H _]|(-> & _ & v & Hv & ->)]%set_nearest_elem; eauto.
  - intros k' v' Hin. rewrite begin_keys, Hk, <- begin_keys. intros Hb.
    apply set_nearest_elem in Hin as [[H ?]|(-> & -> & _)]; [by apply Hn|]. by exists n.
Qed.

Lemma tinv_weaken z T : tinv T → tinv_but z T.
Proof. intros [? ? Hn]. split; [done..|]. intros k v ? _. by apply Hn. Qed.

Lemma good_extend ks ks' x k n :
  (∀ f, f ∈ ks' ↔ f ∈ ks ∨ f = x) → good ks k n → (klt n x → klt x k → second x <= second k) → good ks' k n.
Proof.
  intros Hks (Hn & Hlt & Hb) Hx. split; [rewrite Hks; by left|]. split; [done|].
  intros f [Hf| ->]%Hks; auto.
Qed.

Lemma begin_unique T b : sorted T → b ∈ T.*1 → (∀ f, f ∈ T.*1 → ¬ klt f b) → begin T = Some b.
Proof.
  intros Hs Hb Hmin. destruct (begin T) as [c|] eqn:E.
  - destruct (begin_least T c b Hs E Hb) as [->|Hlt]; [done|]. destruct (Hmin c); [|done].
    destruct T as [|[c' w] T]; [done|]. injection E as ->. left.
  - by destruct T; [apply not_elem_of_nil in Hb|].
Qed.

Lemma begin_elem T b : begin T = Some b → b ∈ T.*1.
Proof. destruct T as [|[c w] T]; [done|]. intros [= ->]. left. Qed.

Section insertion.
Context (T : table) (x : key) (v : val).
Context (Ht : tinv T) (Hx : canon x (plen v)) (Hnew : x ∉ T.*1).
Context (Hsub : ∀ k, k ∈ T.*1 → klt x k → second x < first k).

Let T1 := insert x v T.

Lemma inserted_keys f : f ∈ T1.*1 ↔ f ∈ T.*1 ∨ f = x.
Proof. apply insert_keys, Ht. Qed.

Lemma inserted_canon k w : (k, w) ∈ T1 → canon k (plen w).
Proof. intros [H|[[= -> ->] _]]%insert_elem; [by eapply ti_canon|done|apply Ht]. Qed.

(** The new prefix comes behind the first: only its own iterator is open. *)
Lemma insert_behind b : begin T = Some b → klt b x → begin T1 = Some b ∧ tinv_but x T1.
Proof.
  intros Hb Hbx. assert (Hb1 : begin T1 = Some b).
  { apply begin_unique; [apply insert_sorted, Ht|apply inserted_keys; left; by apply begin_elem|].
    intros f [Hf| ->]%inserted_keys Hlt; [|by eapply klt_irrefl, klt_trans].
    destruct (begin_least T b f (ti_sorted _ Ht) Hb Hf) as [->|?]; by eapply klt_irrefl, klt_trans. }
  split; [done|]. split; [apply insert_sorted, Ht|apply inserted_canon|].
  intros k w [Hk|[[= -> ->] _]]%insert_elem Hne Hkb; [|done|apply Ht].
  destruct (ti_nearest T Ht k w Hk) as (n & En & Hg); [by rewrite Hb, <- Hb1|].
  exists n. split; [done|]. eapply good_extend; [apply inserted_keys|done|]. intros _ Hxk.
  pose proof (Hsub k ltac:(apply elem_of_keys; eauto) Hxk).
  pose proof (canon_proper _ _ (ti_canon T Ht _ _ Hk)). lia.
Qed.

(** The new prefix comes first: the iterator of the former first is open. *)
Lemma insert_first b :
  begin T = Some b → klt x b →
  begin T1 = Some x ∧ tinv_but b T1 ∧ good T1.*1 b x ∧ fst <$> head (after T1 x) = Some b.
Proof.
  intros Hb Hxb. pose proof (insert_sorted x v T (ti_sorted _ Ht)) as Hs1. fold T1 in Hs1.
  assert (Hmin : ∀ f, f ∈ T.*1 → ¬ klt f b).
  { intros f Hf Hlt. destruct (begin_least T b f (ti_sorted _ Ht) Hb Hf) as [->|?]; by eapply klt_irrefl, klt_trans. }
  assert (Hb1 : begin T1 = Some x).
  { apply begin_unique; [done|apply inserted_keys; by right|].
    intros f [Hf| ->]%inserted_keys Hlt; [|by eapply klt_irrefl]. by eapply Hmin, klt_trans. }
  split; [done|]. split; [split; [done|apply inserted_canon|]|].
  - intros k w [Hk|[[= -> ->] _]]%insert_elem Hne Hkb; [|by rewrite Hb1 in Hkb|apply Ht].
    destruct (ti_nearest T Ht k w Hk) as (n & En & Hg); [by rewrite Hb; intros [= ->]|].
    exists n. split; [done|]. eapply good_extend; [apply inserted_keys|done|]. intros Hnx _.
    exfalso. eapply Hmin; [apply Hg|]. by eapply klt_trans.
  - split.
    + split; [apply inserted_keys; by right|]. split; [done|].
      intros f [Hf| ->]%inserted_keys Hxf Hfb; [by destruct (Hmin f)|by apply klt_irrefl in Hxf].
    + pose proof (head_after T1 x Hs1) as Hh. destruct (fst <$> head (after T1 x)) as [k|].
      * destruct Hh as (Hk & Hxk & Hh). destruct (Hh b) as [->|Hkb];
          [apply inserted_keys; left; by apply begin_elem|done|done|].
        apply inserted_keys in Hk as [Hk| ->]; [by destruct (Hmin k)|by apply klt_irrefl in Hxk].
      * destruct (Hh b); [|done]. apply inserted_keys. left. by apply begin_elem.
Qed.
End insertion.

(** Insertion and the backward scan leave at most one iterator open, the one
    that the forward scan sets first. *)
Definition add_step (T : table) (x : key) (v : val) : table :=
  match scan_back (reverse (before (insert x v T) (Some x))) (second x) with
  | Some k => set_nearest (insert x v T) x (Some k)
  | None => insert x v T
  end.

Lemma add_step_data T x v : data <$> add_step T x v = data <$> insert x v T.
Proof. unfold add_step. destruct (scan_back _ _); [apply set_nearest_data|done]. Qed.

Lemma add_step_inv T x v :
  tinv T → canon x (plen v) → nearest v = begin T →
  (∀ k, k ∈ T.*1 → klt x k → second x < first k) →
  tinv (add_step T x v) ∨
  ∃ b, fst <$> head (after (add_step T x v) x) = Some b ∧ second x < second b ∧
    good (add_step T x v).*1 b x ∧ tinv (set_nearest (add_step T x v) b (Some x)).
Proof.
  intros Ht Hx Hv Hsub. unfold add_step.
  pose proof (scan_back_spec (insert x v T) x (insert_sorted x v T (ti_sorted _ Ht))) as Hsb.
  destruct (decide (x ∈ T.*1)) as [Hin|Hnew].
  { rewrite insert_present in * by (done || apply Ht). left. destruct (scan_back _ _); [by apply set_nearest_inv|done]. }
  destruct (begin T) as [b|] eqn:Hb.
  2:{ destruct T; [|done]. left. change (insert x v []) with [(x, v)] in *.
      assert (tinv [(x, v)]).
      { split; [by repeat constructor|by intros ?? [= -> ->]%list_elem_of_singleton|].
        by intros ?? [= -> ->]%list_elem_of_singleton. }
      destruct (scan_back _ _); [by apply set_nearest_inv|done]. }
  destruct (klt_total b x) as [Hbx|[->|Hxb]]; [|by destruct Hnew; apply begin_elem|].
  - left. destruct (insert_behind T x v Ht Hx Hsub b Hb Hbx) as [Hb1 Hbut].
    destruct (scan_back _ _); [by apply set_nearest_fix|].
    destruct Hbut as [Hs Hc Hn]. split; [done..|]. intros k w Hkw Hkb.
    destruct (decide (k = x)) as [->|]; [|by apply Hn]. exists b.
    pose proof Hkw as [Hin|[[= ->] _]]%insert_elem; [|split; [by rewrite Hv|]|apply Ht].
    { destruct Hnew. apply elem_of_keys. eauto. }
    split; [by apply begin_elem|]. split; [done|]. intros f Hf _ Hfx. by apply Hsb.
  - right. destruct (insert_first T x v Ht Hx b Hb Hxb) as (Hb1 & Hbut & Hg & Hh).
    destruct (scan_back _ _) as [k|].
    { destruct Hsb as (Hk & Hkx & _). exfalso.
      destruct (begin_least _ _ _ (insert_sorted x v T (ti_sorted _ Ht)) Hb1 Hk) as [->|?];
        unfold klt in *; lia. }
    exists b. split; [done|]. split; [|split; [done|by apply set_nearest_fix]].
    pose proof (begin_elem _ _ Hb) as Hbin. specialize (Hsub b Hbin Hxb).
    apply elem_of_keys in Hbin as [w Hw]. pose proof (canon_proper _ _ (ti_canon _ Ht _ _ Hw)). lia.
Qed.

Lemma set_nearest_idemp T k n : set_nearest (set_nearest T k n) k n = set_nearest T k n.
Proof.
  unfold set_nearest. rewrite <- list_fmap_compose. apply list_fmap_ext. intros i [a v] _. simpl.
  by destruct (bool_decide_reflect (a = k)); simpl; [rewrite bool_decide_true|rewrite bool_decide_false].
Qed.

(** Adding a prefix to a table that holds none of its strict sub-prefixes. *)
Lemma add_prefix_spec fuel T x v ll :
  tinv T → canon x (plen v) → nearest v = begin T →
  (∀ k, k ∈ T.*1 → klt x k → second x < first k) → (length T + 3 <= fuel)%nat →
  ∃ T', scan_forward fuel (add_step T x v) x ll (fst <$> head (after (add_step T x v) x)) = Ok T' ∧
    tinv T' ∧ data <$> T' = data <$> insert x v T.
Proof.
  intros Ht Hx Hv Hsub Hfuel. pose proof (add_step_inv T x v Ht Hx Hv Hsub) as Hstep.
  pose proof (add_step_data T x v) as Hd. pose proof (data_keys _ _ Hd) as Hks.
  assert (Hlen : (length (add_step T x v) <= length T + 1)%nat).
  { apply (f_equal length) in Hd. rewrite !length_fmap in Hd. rewrite Hd. apply insert_length. }
  set (T2 := add_step T x v) in *. rewrite <- Hd.
  destruct Hstep as [Ht2|(b & Hb & Hlt & Hg & Ht2)].
  - apply scan_forward_spec; [done|]. pose proof (head_after T2 x (ti_sorted _ Ht2)) as Hh.
    destruct (fst <$> head _) as [k|]; [|lia]. destruct Hh as (Hk & Hxk & Hmin).
    split; [done|]. split.
    + split; [rewrite Hks; apply insert_keys; [apply Ht|by right]|]. split; [done|].
      intros f Hf Hxf Hfk. destruct (Hmin f Hf Hxf) as [->|?]; [done|]. by destruct (klt_irrefl f); eapply klt_trans.
    + pose proof (behind_le T2.*1 k) as Hle. rewrite length_fmap in Hle. lia.
  - rewrite Hb. pose proof (set_nearest_data T2 b (Some x)) as Hd2. pose proof (data_keys _ _ Hd2) as Hk2.
    destruct (scan_forward_spec fuel (set_nearest T2 b (Some x)) x ll (Some b) Ht2) as (T' & E & Hi & Hd').
    { rewrite Hk2. split; [|split; [done|]].
      - assert (Hs2 : sorted T2) by (apply sorted_keys; rewrite <- Hk2; apply sorted_keys, Ht2).
        pose proof (head_after T2 x Hs2) as Hh. rewrite Hb in Hh. apply Hh.
      - pose proof (behind_le T2.*1 b) as Hle. rewrite length_fmap in Hle. lia. }
    exists T'. split; [|by rewrite Hd']. rewrite <- E. destruct fuel; [lia|]. cbn [scan_forward].
    rewrite (proj2 (Z.leb_gt _ _)) by done. by rewrite set_nearest_idemp.
Qed.

(** ** The search *)

(** A prefix of the table that holds the destination. *)
Definition holds (k : key) (dst : Z) : Prop := first k <= dst <= second k.

Definition hit (e : key * val) : target := mk_target (plen e.2) (interf e.2) (next_hop e.2) true.

(** The element of the longest prefix that holds [dst]. *)
Definition longest (T : table) (dst : Z) (e : key * val) : Prop :=
  e ∈ T ∧ holds e.1 dst ∧ ∀ f, f ∈ T → holds f.1 dst → plen f.2 <= plen e.2.

(** What the search has found when it has looked at [k]: the longest match, or
    nothing, and then every match is still ahead. *)
Definition found (T : table) (dst : Z) (k : key) (g : target) : Prop :=
  (∃ e, longest T dst e ∧ g = hit e) ∨
  g = mk_target 0 0 0 false ∧ second k < dst ∧ ∀ f, f ∈ T.*1 → holds f dst → klt f k.

Section search.
Context (T : table) (dst : Z) (Ht : tinv T).

Lemma consider_longest e f :
  longest T dst e → f ∈ T → first f.1 <= dst → consider dst f (hit e) = hit e.
Proof.
  intros (He & Hh & Hmax) Hf Hle. unfold consider. cbn [hit tar_plen].
  destruct (Z.leb_spec dst (second f.1)), (Z.leb_spec (plen e.2) (plen f.2)); try done. simpl.
  assert (Hhf : holds f.1 dst) by done. specialize (Hmax f Hf Hhf).
  destruct e as [k v], f as [k' v']. simpl in *. assert (E : plen v' = plen v) by lia.
  pose proof (ti_canon _ Ht _ _ Hf) as Hc. rewrite E in Hc.
  assert (k' = k) as -> by (eapply canon_same; [exact Hc|by eapply ti_canon|done..]).
  by rewrite (table_unique T (ti_sorted _ Ht) _ _ _ He Hf).
Qed.

(** A look at [k] when all matches are at [k] or in front of it. *)
Lemma consider_first k v :
  (k, v) ∈ T → first k <= dst → (∀ f, f ∈ T.*1 → holds f dst → f = k ∨ klt f k) →
  found T dst k (consider dst (k, v) (mk_target 0 0 0 false)).
Proof.
  intros Hk Hle Hall. unfold consider, found. simpl. pose proof (ti_canon _ Ht _ _ Hk) as Hc.
  rewrite (proj2 (Z.leb_le 0 _)) by apply Hc. rewrite andb_true_r.
  destruct (Z.leb_spec dst (second k)).
  - left. exists (k, v). split; [|done]. split; [done|]. split; [done|]. intros [f w] Hf Hh. simpl in *.
    destruct (Hall f ltac:(apply elem_of_keys; eauto) Hh) as [->|Hlt].
    { by rewrite (table_unique T (ti_sorted _ Ht) _ _ _ Hk Hf). }
    pose proof (ti_canon _ Ht _ _ Hf) as Hcf.
    destruct (laminar f (plen w) k (plen v) Hcf Hc) as [[_ ?]|?]; [unfold klt in *; lia|done|].
    unfold holds in Hh. lia.
  - right. split; [done|]. split; [done|]. intros f Hf Hh. destruct (Hall f Hf Hh) as [->|]; [|done].
    unfold holds in Hh. lia.
Qed.

Lemma found_step k k' v' g :
  k ∈ T.*1 → (k', v') ∈ T → klt k' k → first k <= dst → found T dst k g →
  (second k < dst → ∀ f, f ∈ T.*1 → klt k' f → klt f k → second f <= second k) →
  found T dst k' (consider dst (k', v') g).
Proof.
  intros Hk Hk' Hlt Hle Hf Hbt. assert (first k' <= dst) by (unfold klt in *; lia).
  destruct Hf as [(e & He & ->)|(-> & Hsk & Hall)].
  - left. exists e. by rewrite consider_longest.
  - apply consider_first; [done..|]. intros f Hfin Hh. destruct (klt_total f k') as [|[|Hkf]]; [by right|by left|].
    specialize (Hbt Hsk f Hfin Hkf (Hall f Hfin Hh)). unfold holds in Hh. lia.
Qed.

Lemma prev_spec it k0 :
  k0 ∈ T.*1 → match it with Some k => klt k0 k | None => True end →
  ∃ k, prev T it = Ok k ∧ k ∈ T.*1 ∧ match it with Some i => klt k i | None => True end ∧
    ∀ f, f ∈ T.*1 → match it with Some i => klt f i | None => True end → f = k ∨ klt f k.
Proof.
  intros Hk0 Hit. unfold prev.
  assert (Hin : ∀ f, f ∈ T.*1 → match it with Some i => klt f i | None => True end → f ∈ (before T it).*1).
  { intros f Hf Hi. destruct it; [by apply before_keys|done]. }
  assert (Hout : ∀ f, f ∈ (before T it).*1 → f ∈ T.*1 ∧ match it with Some i => klt f i | None => True end).
  { intros f Hf. destruct it; [by apply before_keys|done]. }
  assert (Hr : StronglySorted (flip (λ a b : key * val, klt a.1 b.1)) (reverse (before T it))).
  { apply sorted_reverse. destruct it; [apply sorted_filter|]; apply Ht. }
  rewrite last_find. destruct (find _ _) as [[k v]|] eqn:E.
  - apply (find_sorted _ _ _ _ Hr) in E as (Hk & _ & Hmin). rewrite elem_of_reverse in Hk.
    destruct (Hout k) as [Hk1 Hk2]; [apply elem_of_keys; eauto|]. exists k. split_and!; [done..|].
    intros f Hf Hi. apply Hin in Hi as [w Hw]%elem_of_keys; [|done]. rewrite <- elem_of_reverse in Hw.
    destruct (Hmin _ Hw) as [[= -> ->]|?]; [done|by left|by right].
  - pose proof (Hin k0 Hk0 Hit) as [w Hw]%elem_of_keys. rewrite <- elem_of_reverse in Hw.
    by pose proof (find_false _ _ _ E Hw).
Qed.

(** The outcome of the search: the longest match, or no match at all. *)
Definition outcome (g : target) : Prop :=
  (∃ e, longest T dst e ∧ g = hit e) ∨
  g = mk_target 0 0 0 false ∧ ∀ f, f ∈ T.*1 → ¬ holds f dst.

(** The keys in front of [k]: the measure of the search. *)
Definition front (k : key) : nat := length (filter (λ f, cmp_map f k = true) T.*1).

Lemma front_lt k k' : k' ∈ T.*1 → klt k' k → (front k' < front k)%nat.
Proof.
  intros Hk' Hlt. apply (filter_lt _ _ _ k'); [|done|by apply cmp_map_spec|].
  - intros f. rewrite !cmp_map_spec. intros ?. by eapply klt_trans.
  - rewrite cmp_map_spec. apply klt_irrefl.
Qed.

Lemma search_from fuel k fast g :
  k ∈ T.*1 → first k <= dst → found T dst k g → (fast = false → dst < second k) →
  (front k < fuel)%nat → ∃ g', search fuel T dst (Some k) fast g = Ok g' ∧ outcome g'.
Proof.
  revert k fast g. induction fuel as [|fuel IH]; intros k fast g Hk Hle Hf Hfast Hfuel; [lia|].
  cbn [search]. destruct (bool_decide_reflect (Some k = begin T)) as [Hb|Hb].
  { exists g. split; [done|]. destruct Hf as [?|(-> & _ & Hall)]; [by left|right].
    split; [done|]. intros f Hf Hh. specialize (Hall f Hf Hh).
    destruct (begin_least T k f (ti_sorted _ Ht) (eq_sym Hb) Hf) as [->|?]; unfold klt in *; lia. }
  destruct (begin T) as [b|] eqn:Eb.
  2:{ by destruct T; [apply not_elem_of_nil in Hk|]. }
  assert (Hbk : klt b k).
  { destruct (begin_least T b k (ti_sorted _ Ht) Eb Hk) as [->|]; done. }
  destruct fast; cbn [negb].
  - destruct (deref_spec T (ti_sorted _ Ht) k Hk) as (v & -> & Hv). cbn [mbind result_bind snd].
    destruct (ti_nearest T Ht k v Hv) as (n & -> & Hn & Hnk & Hbt); [congruence|].
    destruct (deref_spec T (ti_sorted _ Ht) n Hn) as (w & -> & Hw). cbn [mbind result_bind].
    apply IH; [done|unfold klt in *; lia| |done|pose proof (front_lt k n Hn Hnk); lia].
    eapply found_step; [exact Hk|done..|]. intros _. exact Hbt.
  - destruct (prev_spec (Some k) b (begin_elem _ _ Eb) Hbk) as (k' & -> & Hk' & Hlt & _). cbn [mbind result_bind].
    destruct (deref_spec T (ti_sorted _ Ht) k' Hk') as (w & -> & Hw). cbn [mbind result_bind].
    specialize (Hfast eq_refl).
    apply IH; [done|unfold klt in *; lia| |by intros ?%Z.leb_gt|pose proof (front_lt k k' Hk' Hlt); lia].
    eapply found_step; [exact Hk|done..|]. lia.
Qed.

Lemma search_spec fuel :
  (length T + 2 <= fuel)%nat → 0 <= dst →
  ∃ g, search fuel T dst (lower_bound T (mk_key dst 0)) false (mk_target 0 0 0 false) = Ok g ∧ outcome g.
Proof.
  intros Hfuel Hdst. pose proof (table_lower_bound T (ti_sorted _ Ht) (mk_key dst 0)) as Hlb.
  assert (Hm : ∀ f, f ∈ T.*1 → holds f dst → klt f (mk_key dst 0)).
  { intros f [w Hw]%elem_of_keys Hh. pose proof (canon_proper _ _ (ti_canon _ Ht _ _ Hw)) as [? _].
    pose proof (ca_first _ _ (ti_canon _ Ht _ _ Hw)). unfold holds in Hh. unfold klt. simpl. lia. }
  destruct fuel as [|fuel]; [lia|]. cbn [search]. set (it := lower_bound T (mk_key dst 0)) in *.
  assert (Hlt : ∀ f, f ∈ T.*1 → klt f (mk_key dst 0) → match it with Some i => klt f i | None => True end).
  { intros f Hf Hfd. destruct it as [i|]; [|done]. destruct Hlb as (_ & Hni & _). unfold klt in *. simpl in *.
    destruct (klt_total f i) as [|[->|]]; unfold klt in *; lia. }
  destruct (bool_decide_reflect (it = begin T)) as [Hb|Hb].
  { eexists. split; [done|]. right. split; [done|]. intros f Hf Hh.
    specialize (Hlt f Hf (Hm f Hf Hh)). destruct it as [i|].
    - destruct (begin_least T i f (ti_sorted _ Ht) (eq_sym Hb) Hf) as [->|?]; unfold klt in *; lia.
    - by destruct T; [apply not_elem_of_nil in Hf|]. }
  destruct (begin T) as [b|] eqn:Eb.
  2:{ destruct T; [|done]. destruct it; [|done]. destruct Hlb as [Hlb _]. by apply not_elem_of_nil in Hlb. }
  cbn [negb]. destruct (prev_spec it b (begin_elem _ _ Eb)) as (k & -> & Hk & Hki & Hmax).
  { destruct it as [i|]; [|done]. destruct Hlb as (Hi & _).
    by destruct (begin_least T b i (ti_sorted _ Ht) Eb Hi) as [->|]. }
  cbn [mbind result_bind]. destruct (deref_spec T (ti_sorted _ Ht) k Hk) as (w & -> & Hw). cbn [mbind result_bind].
  assert (Hkd : klt k (mk_key dst 0)).
  { destruct it as [i|]; [|by apply Hlb]. destruct Hlb as (_ & _ & Hmin).
    destruct (decide (cmp_map k (mk_key dst 0) = true)) as [?%cmp_map_spec|Hn]; [done|].
    rewrite cmp_map_spec in Hn. destruct (Hmin k Hk Hn) as [->|?]; unfold klt in *; lia. }
  assert (first k <= dst) by (unfold klt in Hkd; simpl in Hkd; lia).
  apply search_from; [done|done| |by intros ?%Z.leb_gt|].
  - apply consider_first; [done..|]. intros f Hf Hh. apply Hmax; [done|]. by apply Hlt, Hm.
  - pose proof (length_filter (λ f, cmp_map f k = true) T.*1) as Hle. rewrite length_fmap in Hle. unfold front. lia.
Qed.
End search.

(** ** Routes *)

(** The arguments of [add_route]. *)
Record route_entry := mk_route {
  rt_prefix : Z;
  rt_len : Z;
  rt_hop : option Z;
  rt_iface : Z;
}.

(** A prefix of at most 31 bits, with no bit set behind its length. *)
Definition route_ok (r : route_entry) : bool :=
  (0 <=? rt_len r) && (rt_len r <=? 31) && (0 <=? rt_prefix r) && (rt_prefix r <? 0x100000000) &&
  (rt_prefix r mod 2 ^ (32 - rt_len r) =? 0).

(** The first [rt_len r] bits of [ip] are those of the prefix. *)
Definition matches (r : route_entry) (ip : Z) : bool :=
  Z.shiftr ip (32 - rt_len r) =? Z.shiftr (rt_prefix r) (32 - rt_len r).

Definition strict_sub (r r' : route_entry) : bool :=
  (rt_len r' <? rt_len r) && matches r' (rt_prefix r).

(** No prefix is added after one of its strict sub-prefixes. *)
Fixpoint outer_first (rs : list route_entry) : bool :=
  match rs with
  | [] => true
  | r :: rs => forallb (λ r', negb (strict_sub r r')) rs && outer_first rs
  end.

(** The contract: among the routes that match, the first added of the longest
    prefix. *)
Definition longest_prefix_match (rs : list route_entry) (ip : Z) : option route_entry :=
  foldl (λ best r,
    if matches r ip && match best with Some b => rt_len b <? rt_len r | None => true end
    then Some r else best) None rs.

Definition add_routes (ln : Z → Z) (fuel : nat) (rs : list route_entry) (r : Router.t) : result Router.t :=
  foldl (λ m e, r ← m; add_route ln fuel r (rt_prefix e) (rt_len e) (rt_hop e) (rt_iface e)) (Ok r) rs.

Definition route_key (r : route_entry) : key := mk_key (rt_prefix r) (rt_prefix r + 2 ^ (32 - rt_len r) - 1).

Lemma pow32_split n : 0 <= n <= 32 → 0x100000000 = 2 ^ n * 2 ^ (32 - n).
Proof. intros Hn. rewrite <- Z.pow_add_r by lia. by replace (n + (32 - n)) with 32 by lia. Qed.

Lemma route_canon r : route_ok r = true → canon (route_key r) (rt_len r).
Proof.
  unfold route_ok. intros H. bool_to_prop.
  assert (0 < 2 ^ (32 - rt_len r)) by (apply Z.pow_pos_nonneg; lia).
  pose proof (Z.div_mod (rt_prefix r) (2 ^ (32 - rt_len r)) ltac:(lia)) as Hd.
  assert (Ha : rt_prefix r = rt_prefix r / 2 ^ (32 - rt_len r) * 2 ^ (32 - rt_len r)) by lia.
  split; simpl; [lia|eauto|lia|lia|].
  pose proof (pow32_split (rt_len r) ltac:(lia)) as Hp.
  assert (0 < 2 ^ rt_len r) by (apply Z.pow_pos_nonneg; lia).
  set (P := 2 ^ (32 - rt_len r)) in *. set (L := 2 ^ rt_len r) in *. set (d := rt_prefix r / P) in *. clearbody P L d.
  assert (d < L) by nia. nia.
Qed.

Lemma matches_spec r ip : route_ok r = true → matches r ip = true ↔ holds (route_key r) ip.
Proof.
  intros Hr. destruct (route_canon r Hr) as [Hl [c Hc] _ _ _]. simpl in Hc.
  unfold matches, holds, route_key. simpl. rewrite Z.eqb_eq, !Z.shiftr_div_pow2, Hc by lia.
  assert (0 < 2 ^ (32 - rt_len r)) by (apply Z.pow_pos_nonneg; lia).
  set (P := 2 ^ (32 - rt_len r)) in *. clearbody P. rewrite Z.div_mul by lia.
  pose proof (Z.div_mod ip P ltac:(lia)). pose proof (Z.mod_pos_bound ip P ltac:(lia)). split; [nia|].
  intros ?. symmetry. apply (Z.div_unique ip P c (ip - c * P)); lia.
Qed.

(** The mask of the code leaves a well-formed prefix as it is. *)
Lemma shifted_mask n : 0 <= n <= 31 → w32 (Z.shiftl UINT32_MAX n) = Z.shiftl (Z.ones (32 - n)) n.
Proof.
  intros Hn. rewrite !Z.shiftl_mul_pow2, Z.ones_equiv by lia. unfold w32, UINT32_MAX.
  pose proof (pow32_split n ltac:(lia)) as Hp.
  assert (0 < 2 ^ n) by (apply Z.pow_pos_nonneg; lia). assert (0 < 2 ^ (32 - n)) by (apply Z.pow_pos_nonneg; lia).
  replace 0xffffffff with (2 ^ n * 2 ^ (32 - n) - 1) by lia. rewrite Hp.
  symmetry. apply (Z.mod_unique _ _ (2 ^ n - 1)); [left|]; rewrite <- ?Z.sub_1_r; nia.
Qed.

Lemma end_index_spec r : route_ok r = true → end_index (rt_prefix r) (rt_len r) = second (route_key r).
Proof.
  intros Hr. pose proof (route_canon r Hr) as [Hl [c Hc] Hf Hs Hlast]. simpl in *.
  assert (start_index (rt_prefix r) (rt_len r) = rt_prefix r) as E.
  { unfold start_index. destruct (Z.eqb_spec (rt_len r) 0) as [E|Hne].
    - rewrite E in *. change (w32 (Z.shiftl UINT32_MAX 0)) with (Z.ones 32). rewrite Z.land_ones by lia.
      apply Z.mod_small. change (2 ^ (32 - 0)) with 0x100000000 in *. lia.
    - rewrite shifted_mask by lia. replace (32 - (32 - rt_len r)) with (rt_len r) by lia.
      assert (Hsh : rt_prefix r = Z.shiftl c (32 - rt_len r)) by (rewrite Z.shiftl_mul_pow2 by lia; done).
      rewrite Hsh, <- Z.shiftl_land, Z.land_ones by lia. f_equal. apply Z.mod_small.
      pose proof (pow32_split (rt_len r) ltac:(lia)) as Hp.
      assert (0 < 2 ^ (32 - rt_len r)) by (apply Z.pow_pos_nonneg; lia). nia. }
  unfold end_index. rewrite E. assert (0 < 2 ^ (32 - rt_len r)) by (apply Z.pow_pos_nonneg; lia).
  rewrite w32_small; [lia|]. unfold_w. lia.
Qed.

(** ** Tables and routes *)

Definition added (rs : list route_entry) (k : key) : option route_entry :=
  find (λ r, bool_decide (route_key r = k)) rs.

Definition row (r : route_entry) : key * (Z * Z * Z) := (route_key r, (rt_iface r, default 0 (rt_hop r), rt_len r)).

(** The table holds for every key the first route that was added for it. *)
Definition represents (rs : list route_entry) (T : table) : Prop :=
  ∀ k, match added rs k with
       | Some r => row r ∈ data <$> T
       | None => k ∉ T.*1
       end.

Lemma find_snoc {A} (P : A → bool) l a :
  find P (l ++ [a]) = match find P l with Some e => Some e | None => if P a then Some a else None end.
Proof. induction l as [|b l IH]; simpl; [done|]. by destruct (P b). Qed.

Lemma added_spec rs k r : added rs k = Some r → r ∈ rs ∧ route_key r = k.
Proof.
  unfold added. induction rs as [|a rs IH]; simpl; [done|].
  destruct (bool_decide_reflect (route_key a = k)); [intros [= ->]; split; [left|done]|].
  intros H. destruct (IH H). split; [by right|done].
Qed.

Lemma represents_elem rs T k v :
  sorted T → represents rs T → (k, v) ∈ T →
  ∃ r, r ∈ rs ∧ added rs k = Some r ∧ data (k, v) = row r.
Proof.
  intros Hs Hr Hk. specialize (Hr k). destruct (added rs k) as [r|] eqn:E.
  - pose proof (added_spec _ _ _ E) as [Hin <-]. exists r. split_and!; [done..|].
    apply list_elem_of_fmap in Hr as ([k' v'] & Ed & Hin'). injection Ed as <- E1 E2 E3.
    rewrite (table_unique T Hs _ _ _ Hk Hin'). unfold data, row. simpl. congruence.
  - destruct Hr. apply elem_of_keys. eauto.
Qed.

Lemma represents_insert rs T T' r n :
  sorted T → represents rs T →
  data <$> T' = data <$> insert (route_key r) (mk_val n (rt_iface r) (default 0 (rt_hop r)) (rt_len r)) T →
  represents (rs ++ [r]) T'.
Proof.
  intros Hs Hr Hd k. specialize (Hr k). unfold added in *. rewrite find_snoc.
  assert (Hin : ∀ e, e ∈ T → data e ∈ data <$> T').
  { intros e He. rewrite Hd. apply list_elem_of_fmap_2, insert_elem; [done|]. by left. }
  destruct (find _ rs) as [r0|] eqn:E.
  - apply list_elem_of_fmap in Hr as (e & -> & He). by apply Hin.
  - destruct (bool_decide_reflect (route_key r = k)) as [<-|Hne].
    + rewrite Hd. apply list_elem_of_fmap.
      exists (route_key r, mk_val n (rt_iface r) (default 0 (rt_hop r)) (rt_len r)).
      split; [done|]. apply insert_elem; [done|]. by right.
    + rewrite (data_keys _ _ Hd), insert_keys by done. by intros [?| ->].
Qed.

Lemma lpm_spec rs ip :
  forallb route_ok rs = true →
  match longest_prefix_match rs ip with
  | Some r => matches r ip = true ∧ (∀ r', r' ∈ rs → matches r' ip = true → rt_len r' <= rt_len r) ∧
      added rs (route_key r) = Some r
  | None => ∀ r', r' ∈ rs → matches r' ip = false
  end.
Proof.
  unfold longest_prefix_match. induction rs as [|r rs IH] using rev_ind; [by intros _ ? ?%not_elem_of_nil|].
  rewrite forallb_app, foldl_app. simpl. intros H. bool_to_prop. specialize (IH H).
  set (best := foldl _ None rs) in *. clearbody best. unfold added in *.
  assert (Hmem : ∀ r', r' ∈ rs ++ [r] ↔ r' ∈ rs ∨ r' = r).
  { intros r'. by rewrite elem_of_app, list_elem_of_singleton. }
  destruct (matches r ip) eqn:Hm; simpl.
  2:{ destruct best as [b|].
      - destruct IH as (Hb & Hmax & Hfirst). split; [done|]. split; [|by rewrite find_snoc, Hfirst].
        intros r' [Hr'| ->]%Hmem; [auto|congruence].
      - intros r' [Hr'| ->]%Hmem; auto. }
  assert (Hnew : (∀ r', r' ∈ rs → matches r' ip = true → rt_len r' < rt_len r) →
    match find (λ r0, bool_decide (route_key r0 = route_key r)) rs with
    | Some e => Some e | None => if bool_decide (route_key r = route_key r) then Some r else None end = Some r).
  { intros Hlt. destruct (find _ rs) as [r0|] eqn:E; [|by rewrite bool_decide_true].
    apply added_spec in E as [Hin Hk].
    assert (Hok0 : route_ok r0 = true) by (apply forallb_forall with (x := r0) in H; [done|by apply list_elem_of_In]).
    assert (Hm0 : matches r0 ip = true) by (apply matches_spec; [done|]; rewrite Hk; by apply matches_spec).
    specialize (Hlt r0 Hin Hm0). exfalso.
    injection Hk as Hk1 Hk2. rewrite Hk1 in Hk2.
    assert (2 ^ (32 - rt_len r0) = 2 ^ (32 - rt_len r)) as Hp by lia.
    pose proof (route_canon r0 Hok0) as []. pose proof (route_canon r ltac:(done)) as [].
    apply Z.pow_inj_r in Hp; lia. }
  destruct best as [b|]; simpl.
  - destruct IH as (Hb & Hmax & Hfirst). destruct (Z.ltb_spec (rt_len b) (rt_len r)).
    + split; [done|]. split.
      * intros r' [Hr'| ->]%Hmem ?; [|lia]. specialize (Hmax r' Hr' ltac:(done)). lia.
      * rewrite find_snoc. apply Hnew. intros r' Hr' ?. specialize (Hmax r' Hr' ltac:(done)). lia.
    + split; [done|]. split; [|by rewrite find_snoc, Hfirst]. intros r' [Hr'| ->]%Hmem ?; [auto|lia].
  - split; [done|]. split; [|rewrite find_snoc; apply Hnew; intros r' Hr' ?; by rewrite IH in *].
    intros r' [Hr'| ->]%Hmem ?; [by rewrite IH in *|lia].
Qed.

Lemma outer_first_snoc rs r :
  outer_first (rs ++ [r]) = true → outer_first rs = true ∧ ∀ r0, r0 ∈ rs → strict_sub r0 r = false.
Proof.
  induction rs as [|a rs IH]; simpl; [intros _; split; [done|by intros ? ?%not_elem_of_nil]|].
  rewrite forallb_app. simpl. intros H. bool_to_prop. destruct (IH ltac:(done)) as [-> Hsub].
  split; [by rewrite andb_true_r|]. intros r0 [->|?]%elem_of_cons; auto.
Qed.

(** The prefixes of the table behind a new one are not inside it. *)
Lemma outer_first_behind rs r T :
  tinv T → represents rs T → forallb route_ok rs = true → route_ok r = true →
  (∀ r0, r0 ∈ rs → strict_sub r0 r = false) →
  ∀ k, k ∈ T.*1 → klt (route_key r) k → second (route_key r) < first k.
Proof.
  intros Ht Hrep Hoks Hok Hsub k [v Hv]%elem_of_keys Hlt.
  destruct (represents_elem rs T k v (ti_sorted _ Ht) Hrep Hv) as (r0 & Hin & Hadd & Hrow).
  injection Hrow as -> _ _ _.
  assert (Hok0 : route_ok r0 = true) by (eapply forallb_forall in Hoks; [done|by apply list_elem_of_In]).
  pose proof (route_canon r Hok) as Hc. pose proof (route_canon r0 Hok0) as Hc0.
  pose proof (canon_proper _ _ Hc0) as [Hp0 _].
  destruct (laminar _ _ _ _ Hc Hc0) as [[Hle Hlen]|]; [unfold klt in *; lia| |done]. exfalso.
  assert (Hh : holds (route_key r) (first (route_key r0))) by (unfold holds, klt in *; lia).
  destruct (decide (rt_len r = rt_len r0)) as [E|Hne].
  - rewrite <- E in Hc0. assert (route_key r = route_key r0) as Ek.
    { eapply canon_same; [done|done|exact Hh|lia]. }
    rewrite Ek in Hlt. by apply klt_irrefl in Hlt.
  - specialize (Hsub r0 Hin). unfold strict_sub in Hsub. apply (matches_spec r) in Hh; [|done]. simpl in Hh.
    rewrite Hh, (proj2 (Z.ltb_lt _ _)) in Hsub by lia. done.
Qed.

Lemma add_route_spec ln fuel R rs r :
  tinv (router_table R) → represents rs (router_table R) →
  forallb route_ok rs = true → route_ok r = true → (∀ r0, r0 ∈ rs → strict_sub r0 r = false) →
  (length (router_table R) + 3 <= fuel)%nat →
  ∃ T', add_route ln fuel R (rt_prefix r) (rt_len r) (rt_hop r) (rt_iface r) = Ok (mk (interfaces R) T') ∧
    tinv T' ∧ represents (rs ++ [r]) T' ∧ (length T' <= length (router_table R) + 1)%nat.
Proof.
  intros Ht Hrep Hoks Hok Hsub Hfuel. set (T := router_table R) in *.
  pose proof (route_canon r Hok) as Hc. pose proof Hc as [Hl _ _ _ _].
  set (v := mk_val (begin T) (rt_iface r) (default 0 (rt_hop r)) (rt_len r)).
  destruct (add_prefix_spec fuel T (route_key r) v
    (ln (w32 (second (route_key r) - rt_prefix r + 1)))) as (T' & E & Ht' & Hd); [done..| |done|].
  { by eapply outer_first_behind. }
  exists T'. split_and!; [|done| |].
  - unfold add_route, add_route_table. fold T. rewrite (proj2 (Z.ltb_ge 32 _)) by lia.
    rewrite (end_index_spec r Hok).
    change (mk_key (rt_prefix r) (second (route_key r))) with (route_key r).
    change (mk_val (begin T) (rt_iface r) (default 0 (rt_hop r)) (rt_len r)) with v.
    fold (add_step T (route_key r) v). cbv zeta. by rewrite E.
  - eapply represents_insert; [apply Ht|done|exact Hd].
  - apply (f_equal length) in Hd. rewrite !length_fmap in Hd. rewrite Hd. apply insert_length.
Qed.

Lemma add_routes_spec ln fuel rs R :
  router_table R = [] → forallb route_ok rs = true → outer_first rs = true → (length rs + 3 <= fuel)%nat →
  ∃ T, add_routes ln fuel rs R = Ok (mk (interfaces R) T) ∧ tinv T ∧ represents rs T ∧ (length T <= length rs)%nat.
Proof.
  intros HR. induction rs as [|r rs IH] using rev_ind; intros Hok Ho Hfuel.
  - exists []. split; [by destruct R; simpl in *; subst|]. split; [|split; [|done]].
    + split; [constructor|by intros ? ? ?%not_elem_of_nil..].
    + intros k. apply not_elem_of_nil.
  - rewrite forallb_app in Hok. rewrite length_app in *. simpl in *. bool_to_prop.
    apply outer_first_snoc in Ho as [Ho Hsub].
    destruct IH as (T & E & Ht & Hrep & Hlen); [done..|lia|].
    destruct (add_route_spec ln fuel (mk (interfaces R) T) rs r) as (T' & E' & Ht' & Hrep' & Hlen'); [done..|simpl; lia|].
    exists T'. split_and!; [|done..|simpl in *; lia]. unfold add_routes in *. rewrite foldl_app, E. simpl. exact E'.
Qed.

(** Sending a datagram along the route the contract chooses. *)
Definition forward (R : Router.t) (d : IPv4Datagram.t) (best : option route_entry) : result Router.t :=
  match best with
  | None => Ok R
  | Some r =>
      let dst := IPv4Header.dst (IPv4Datagram.header d) in
      let hop := default 0 (rt_hop r) in
      a ← interface R (rt_iface r);
      a ← AsyncNetworkInterface.send_datagram a d (if hop =? 0 then dst else hop);
      Ok (with_interface R (rt_iface r) a)
  end.

Lemma search_lpm fuel rs T ip :
  tinv T → represents rs T → forallb route_ok rs = true → 0 <= ip → (length T + 2 <= fuel)%nat →
  search fuel T ip (lower_bound T (mk_key ip 0)) false (mk_target 0 0 0 false) =
    Ok match longest_prefix_match rs ip with
       | Some r => mk_target (rt_len r) (rt_iface r) (default 0 (rt_hop r)) true
       | None => mk_target 0 0 0 false
       end.
Proof.
  intros Ht Hrep Hok Hip Hfuel. destruct (search_spec T ip Ht fuel Hfuel Hip) as (g & -> & Hg). f_equal.
  pose proof (lpm_spec rs ip Hok) as Hl. destruct Hg as [([k v] & (Hin & Hh & Hmax) & ->)|[-> Hnone]].
  - destruct (represents_elem rs T k v (ti_sorted _ Ht) Hrep Hin) as (r0 & Hin0 & Hadd & Hrow).
    injection Hrow as Hk E1 E2 E3. subst k. simpl in Hh.
    assert (Hok0 : route_ok r0 = true) by (eapply forallb_forall in Hok; [done|by apply list_elem_of_In]).
    apply matches_spec in Hh; [|done].
    destruct (longest_prefix_match rs ip) as [r|]; [|specialize (Hl r0 Hin0); congruence].
    destruct Hl as (Hm & Hlmax & Hfirst). pose proof (added_spec _ _ _ Hfirst) as [Hr _].
    assert (Hokr : route_ok r = true) by (eapply forallb_forall in Hok; [done|by apply list_elem_of_In]).
    pose proof (Hrep (route_key r)) as Hrow. rewrite Hfirst in Hrow.
    apply list_elem_of_fmap in Hrow as ([k' v'] & Ed & Hin'). injection Ed as <- F1 F2 F3.
    specialize (Hmax _ Hin' (proj1 (matches_spec r ip Hokr) Hm)). specialize (Hlmax r0 Hin0 Hh). simpl in *.
    assert (Hlen : rt_len r0 = rt_len r) by lia.
    assert (Hke : route_key r0 = route_key r).
    { eapply (canon_same _ _ (rt_len r0)); [by apply route_canon|rewrite Hlen; by apply route_canon| |];
        by apply matches_spec. }
    unfold hit. simpl. rewrite <- Hke, Hadd in Hfirst. injection Hfirst as ->. congruence.
  - destruct (longest_prefix_match rs ip) as [r|]; [|done]. destruct Hl as (Hm & _ & Hfirst).
    pose proof (added_spec _ _ _ Hfirst) as [Hr _].
    assert (Hokr : route_ok r = true) by (eapply forallb_forall in Hok; [done|by apply list_elem_of_In]).
    pose proof (Hrep (route_key r)) as Hrow. rewrite Hfirst in Hrow.
    apply list_elem_of_fmap in Hrow as ([k' v'] & Ed & Hin'). injection Ed as <- _ _ _.
    destruct (Hnone (route_key r)); [apply elem_of_keys; eauto|by apply matches_spec].
Qed.

Lemma route_one_spec fuel rs R d :
  tinv (router_table R) → represents rs (router_table R) → forallb route_ok rs = true →
  (length (router_table R) + 2 <= fuel)%nat → is_u32 (IPv4Header.dst (IPv4Datagram.header d)) →
  route_one_datagram fuel R d =
    match age d with
    | None => Ok R
    | Some d' => forward R d' (longest_prefix_match rs (IPv4Header.dst (IPv4Datagram.header d)))
    end.
Proof.
  intros Ht Hrep Hok Hfuel Hdst. unfold route_one_datagram, forward. destruct (age d) as [d'|] eqn:Ea; [|done].
  assert (Hd : IPv4Header.dst (IPv4Datagram.header d') = IPv4Header.dst (IPv4Datagram.header d)).
  { unfold age in Ea. by repeat case_match; simplify_eq. }
  rewrite Hd, (search_lpm fuel rs) by (done || lia || apply Hdst).
  cbn [mbind result_bind]. by destruct (longest_prefix_match rs _).
Qed.

(** C13. Longest-prefix match: when well-formed routes of at most 31 bits are
    added, none after one of its own sub-prefixes, every [add_route] returns,
    and from then on a datagram with hops left is sent, one hop older, on the
    interface and to the next hop of the longest prefix that matches its
    destination, or dropped when no prefix does; whatever the C library's
    logarithm returns. *)
Theorem router_longest_prefix_match ln fuel rs R :
  router_table R = [] → forallb route_ok rs = true → outer_first rs = true → (length rs + 3 <= fuel)%nat →
  ∃ R', add_routes ln fuel rs R = Ok R' ∧ interfaces R' = interfaces R ∧
    ∀ R1 d, router_table R1 = router_table R' → is_u32 (IPv4Header.dst (IPv4Datagram.header d)) →
      route_one_datagram fuel R1 d =
        match age d with
        | None => Ok R1
        | Some d' => forward R1 d' (longest_prefix_match rs (IPv4Header.dst (IPv4Datagram.header d)))
        end.
Proof.
  intros HR Hok Ho Hfuel. destruct (add_routes_spec ln fuel rs R HR Hok Ho Hfuel) as (T & E & Ht & Hrep & Hlen).
  eexists. split; [exact E|]. split; [done|]. intros R1 d HT Hdst. simpl in HT.
  apply route_one_spec; rewrite ?HT; done || lia.
Qed.

Definition sample_routes : list route_entry :=
  [mk_route 0 0 (Some 0x0a000001) 0; mk_route 0x0a000000 8 None 1; mk_route 0x0a010000 16 None 2].

Definition to_host (ip : Z) : IPv4Datagram.t :=
  IPv4Datagram.mk (IPv4Header.mk 4 6 0 27 77 true false 0 64 6 0 0x0a000001 ip) (IPv4Datagram.payload sample_datagram).

Definition sample_router : Router.t :=
  let a ip := AsyncNetworkInterface.of_interface (NetworkInterface.new (replicate 6 Byte.x01) ip) in
  Router.mk [a 0xc0a80001; a 0x0a000001; a 0x0a010001] [].

(** 10.3.0.1 is routed to the second interface, which asks for its address. *)
Lemma router_longest_prefix_match_witness :
  ∃ R' R2, add_routes Z.log2 10 sample_routes sample_router = Ok R' ∧
    longest_prefix_match sample_routes 0x0a030001 = Some (mk_route 0x0a000000 8 None 1) ∧
    route_one_datagram 10 R' (to_host 0x0a030001) = Ok R2 ∧
    ((λ a, length (NetworkInterface.frames_out (AsyncNetworkInterface.interface a))) <$> interfaces R2) = [0; 1; 0]%nat.
Proof.
  destruct (router_longest_prefix_match Z.log2 10 sample_routes sample_router) as (R' & E & Hi & H);
    [reflexivity..|simpl; lia|].
  exists R'. specialize (H R' (to_host 0x0a030001) eq_refl ltac:(range_compute)).
  vm_compute in E. injection E as <-. eexists. split; [reflexivity|]. split; [reflexivity|].
  rewrite H. split; vm_compute; reflexivity.
Defined.

(** The order of the routes matters: with 10.1.0.0/16 added before
    10.0.0.0/8, both calls return, and the search for 10.3.0.1, which the /8
    holds, follows the iterator of the /16 to [end()] and dereferences it. *)
Theorem router_outer_prefix_last ln :
  ∃ R, add_routes ln 10 [mk_route 0x0a010000 16 None 0; mk_route 0x0a000000 8 None 1] Router.new = Ok R ∧
    longest_prefix_match [mk_route 0x0a010000 16 None 0; mk_route 0x0a000000 8 None 1] 0x0a030001 =
      Some (mk_route 0x0a000000 8 None 1) ∧
    route_one_datagram 10 R (to_host 0x0a030001) = Err (undefined_behaviour "dereference of end()").
Proof. eexists. split; [reflexivity|]. split; reflexivity. Qed.

(** The table while the host route 10.0.0.1/32 is added after 10.0.0.2/32. *)
Definition looping_table : table :=
  [(mk_key 0x0a000001 0x0a000001, mk_val (Some (mk_key 0x0a000002 0x0a000002)) 1 0 32);
   (mk_key 0x0a000002 0x0a000002, mk_val (Some (mk_key 0x0a000001 0x0a000001)) 0 0 32)].

Lemma looping_scan fuel :
  scan_forward fuel looping_table (mk_key 0x0a000001 0x0a000001) 0 (Some (mk_key 0x0a000002 0x0a000002)) = Err out_of_fuel.
Proof. induction fuel as [|fuel IH]; [done|]. cbn [scan_forward]. exact IH. Qed.

(** Two host routes: adding 10.0.0.1/32 after 10.0.0.2/32 never returns,
    however long it runs. The logarithm of the length of a /32 is 0, so the
    forward scan takes [lower_bound], which finds the same /32 again. *)
Theorem router_host_routes_loop ln fuel :
  ln 1 = 0 →
  add_routes ln fuel [mk_route 0x0a000002 32 None 0; mk_route 0x0a000001 32 None 1] Router.new = Err out_of_fuel.
Proof.
  intros Hln. destruct fuel as [|fuel]; [reflexivity|].
  set (k1 := mk_key 0x0a000001 0x0a000001). set (k2 := mk_key 0x0a000002 0x0a000002).
  transitivity (T ← scan_forward (S fuel) [(k1, mk_val (Some k2) 1 0 32); (k2, mk_val None 0 0 32)] k1 (ln 1) (Some k2);
    Ok (mk [] T)); [reflexivity|].
  rewrite Hln. transitivity (T ← scan_forward fuel looping_table k1 0 (Some k2); Ok (mk [] T)); [reflexivity|].
  subst k1 k2. by rewrite looping_scan.
Qed.

Lemma router_host_routes_loop_witness :
  add_routes Z.log2 1000 [mk_route 0x0a000002 32 None 0; mk_route 0x0a000001 32 None 1] Router.new = Err out_of_fuel.
Proof. apply router_host_routes_loop. reflexivity. Defined.

(** ** Routing everything *)

Definition queues (R : Router.t) : list (list IPv4Datagram.t) :=
  AsyncNetworkInterface.datagrams_out <$> interfaces R.

(** The interfaces are in order and every datagram in a queue is well formed. *)
Definition router_inv (R : Router.t) : Prop :=
  Forall (λ a, iinv (AsyncNetworkInterface.interface a) ∧ Forall dgram_ok (AsyncNetworkInterface.datagrams_out a)) (interfaces R).

(** What the lemmas on [route] need of the interfaces ([IP]) and of the datagrams
    ([DP]). *)
Record forwards (IP : NetworkInterface.t → Prop) (DP : IPv4Datagram.t → Prop) : Prop := mk_forwards {
  fw_ok : ∀ d, DP d → dgram_ok d;
  fw_age : ∀ d d', DP d → age d = Some d' → DP d';
  fw_send : ∀ i d next, IP i → DP d → ∃ i', NetworkInterface.send_datagram i d next = Ok i' ∧ IP i';
}.

Lemma age_ok d d' : dgram_ok d → age d = Some d' → dgram_ok d'.
Proof.
  intros [Hh Hle Hl] Ha. unfold age in Ha. set (ttl := if negb _ then _ else _) in Ha.
  assert (Ht : is_u8 ttl).
  { subst ttl. destruct (negb _); [apply w8_range|apply Hh]. }
  destruct (ttl =? 0); [done|]. injection Ha as <-. destruct Hh. split; simpl; [by split|done|done].
Qed.

Lemma interface_lookup R n a : interface R (Z.of_nat n) = Ok a ↔ interfaces R !! n = Some a.
Proof.
  unfold interface. rewrite (proj2 (Z.ltb_ge _ _)), Nat2Z.id by lia. destruct (interfaces R !! n); naive_solver.
Qed.

Section routing.
Context (fuel : nat) (rs : list route_entry) (T : table) (N : nat).
Context (Ht : tinv T) (Hrep : represents rs T) (Hok : forallb route_ok rs = true).
Context (Hfuel : (length T + 2 <= fuel)%nat).
Context (Hif : Forall (λ r, 0 <= rt_iface r < Z.of_nat N) rs).
Context (IP : NetworkInterface.t → Prop) (DP : IPv4Datagram.t → Prop) (Hfw : forwards IP DP).

(** A router with the table [T], [N] interfaces, and all well formed. *)
Definition ready (R : Router.t) : Prop := router_table R = T ∧ length (interfaces R) = N ∧
  Forall (λ a, IP (AsyncNetworkInterface.interface a) ∧ Forall DP (AsyncNetworkInterface.datagrams_out a)) (interfaces R).

Lemma route_one_ready R d :
  ready R → DP d → ∃ R', route_one_datagram fuel R d = Ok R' ∧ ready R' ∧ queues R' = queues R.
Proof.
  intros (HT & HN & HR) Hd. rewrite (route_one_spec fuel rs) by (rewrite ?HT; done || apply (dg_header _ (fw_ok _ _ Hfw _ Hd))).
  destruct (age d) as [d'|] eqn:Ea; [|by exists R]. pose proof (fw_age _ _ Hfw d d' Hd Ea) as Hd'.
  unfold forward. pose proof (lpm_spec rs (IPv4Header.dst (IPv4Datagram.header d)) Hok) as Hl.
  destruct (longest_prefix_match rs _) as [r|]; [|by exists R]. destruct Hl as (_ & _ & Hadd).
  apply added_spec in Hadd as [Hin _]. rewrite Forall_forall in Hif. pose proof (Hif r Hin) as Hr.
  destruct (lookup_lt_is_Some_2 (interfaces R) (Z.to_nat (rt_iface r))) as [a Ha]; [lia|].
  assert (Hi : interface R (rt_iface r) = Ok a).
  { rewrite <- (Z2Nat.id (rt_iface r)) by lia. by apply interface_lookup. }
  rewrite Hi. cbn [mbind result_bind]. unfold AsyncNetworkInterface.send_datagram.
  pose proof (Forall_lookup_1 _ _ _ _ HR Ha) as [Hai Haq].
  destruct (fw_send _ _ Hfw (AsyncNetworkInterface.interface a) d'
    (if default 0 (rt_hop r) =? 0 then IPv4Header.dst (IPv4Datagram.header d') else default 0 (rt_hop r)) Hai Hd')
    as (i' & -> & Hi').
  cbn [mbind result_bind]. eexists. split; [done|]. unfold with_interface, queues. simpl.
  split; [split_and!; simpl|].
  - done.
  - by rewrite length_insert.
  - by apply Forall_insert.
  - rewrite list_fmap_insert. simpl. apply list_insert_id. by rewrite list_lookup_fmap, Ha.
Qed.

Lemma route_queue_ready n q R :
  ready R → queues R !! n = Some q →
  ∃ R', route_queue fuel R (Z.of_nat n) q = Ok R' ∧ ready R' ∧ queues R' = <[n := []]> (queues R).
Proof.
  revert R. induction q as [|d q IH]; intros R HR Hq; cbn [route_queue].
  { exists R. split_and!; [done..|]. by rewrite list_insert_id. }
  assert (Hd : DP d ∧ Forall DP q).
  { unfold queues in Hq. rewrite list_lookup_fmap in Hq. apply fmap_Some in Hq as (a & Ha & Eq).
    destruct HR as (_ & _ & HR). pose proof (Forall_lookup_1 _ _ _ _ HR Ha) as [_ H]. rewrite <- Eq in H.
    by apply Forall_cons in H. }
  destruct (route_one_ready R d HR (proj1 Hd)) as (R1 & -> & HR1 & Hq1). cbn [mbind result_bind].
  rewrite <- Hq1 in Hq. pose proof Hq as Hq'. unfold queues in Hq'. rewrite list_lookup_fmap in Hq'.
  apply fmap_Some in Hq' as (a & Ha & Eq). rewrite (proj2 (interface_lookup R1 n a) Ha). cbn [mbind result_bind].
  set (R2 := with_interface _ _ _).
  assert (Hq2 : queues R2 = <[n := q]> (queues R)).
  { rewrite <- Hq1. unfold queues, R2, with_interface. simpl. by rewrite Nat2Z.id, list_fmap_insert. }
  destruct (IH R2) as (R' & E & HR' & Hq3).
  - destruct HR1 as (H1 & H2 & H3). split_and!; simpl; [done|by rewrite length_insert|].
    pose proof (Forall_lookup_1 _ _ _ _ H3 Ha) as [Hai _]. unfold R2, with_interface. simpl. rewrite Nat2Z.id. apply Forall_insert; [done|]. split; [done|apply Hd].
  - rewrite Hq2. apply list_lookup_insert_eq. rewrite <- Hq1. by eapply lookup_lt_Some.
  - exists R'. split_and!; [done..|]. by rewrite Hq3, Hq2, list_insert_insert_eq.
Qed.

Lemma route_interfaces_ready ns R :
  ready R → Forall (λ n, (n < N)%nat) ns →
  ∃ R', route_interfaces fuel R (Z.of_nat <$> ns) = Ok R' ∧ ready R' ∧
    ∀ i q, queues R' !! i = Some q → q = [] ∨ ((i ∉ ns) ∧ queues R !! i = Some q).
Proof.
  revert R. induction ns as [|n ns IH]; intros R HR Hns; cbn [route_interfaces].
  { exists R. split_and!; [done..|]. intros i q Hq. right. split; [apply not_elem_of_nil|done]. }
  apply Forall_cons in Hns as [Hn Hns]. simpl. pose proof HR as (_ & HN & _).
  destruct (lookup_lt_is_Some_2 (interfaces R) n) as [a Ha]; [lia|].
  rewrite (proj2 (interface_lookup R n a) Ha). cbn [mbind result_bind].
  destruct (route_queue_ready n (AsyncNetworkInterface.datagrams_out a) R HR) as (R1 & -> & HR1 & Hq1).
  { unfold queues. by rewrite list_lookup_fmap, Ha. }
  cbn [mbind result_bind]. destruct (IH R1 HR1 Hns) as (R' & E & HR' & Hq'). exists R'. split_and!; [done..|].
  intros i q Hq. destruct (Hq' i q Hq) as [->|[Hi Hq2]]; [by left|]. rewrite Hq1 in Hq2.
  destruct (decide (i = n)) as [->|Hne].
  - apply list_lookup_insert_Some in Hq2 as [(_ & <- & _)|[? _]]; [by left|done].
  - rewrite list_lookup_insert_ne in Hq2 by done. right. split; [|done]. rewrite elem_of_cons. tauto.
Qed.

(** The whole of [route]. *)
Lemma route_ready R :
  ready R → ∃ R', route fuel R = Ok R' ∧ ready R' ∧ Forall (λ q, q = []) (queues R').
Proof.
  intros HR. pose proof HR as (_ & HN & _).
  destruct (route_interfaces_ready (seq 0 N) R HR) as (R' & E & HR' & Hq).
  { apply Forall_forall. intros n Hn%elem_of_seq. lia. }
  exists R'. split; [|split; [done|]].
  - unfold route. rewrite <- E. f_equal. unfold blen, seqZ. rewrite Nat2Z.id, HN. apply list_fmap_ext. intros ? ? _. lia.
  - apply Forall_lookup. intros i q Hi. destruct (Hq i q Hi) as [|[Hn Hq0]]; [done|].
    destruct Hn. apply elem_of_seq. split; [lia|]. apply lookup_lt_Some in Hq0. unfold queues in Hq0.
    rewrite length_fmap in Hq0. lia.
Qed.

End routing.

Lemma iinv_forwards : forwards iinv dgram_ok.
Proof.
  split; [done|exact age_ok|]. intros i d next Hi Hd. destruct (send_datagram_core i d next Hi Hd) as (i' & E & Hi' & _). by exists i'.
Qed.

(** C35. [route] empties the router: with routes as above that name existing
    interfaces, and well-formed datagrams in the queues, [route] returns, every
    queue of received datagrams is empty afterwards, and the routing table and the
    invariants of the interfaces are kept. *)
Theorem router_route_drains ln fuel rs R :
  router_table R = [] → forallb route_ok rs = true → outer_first rs = true → (length rs + 3 <= fuel)%nat →
  Forall (λ r, 0 <= rt_iface r < blen (interfaces R)) rs → router_inv R →
  ∃ R1 R2, add_routes ln fuel rs R = Ok R1 ∧ route fuel R1 = Ok R2 ∧
    Forall (λ q, q = []) (queues R2) ∧ router_table R2 = router_table R1 ∧
    length (interfaces R2) = length (interfaces R) ∧ router_inv R2.
Proof.
  intros HR Hok Ho Hfuel Hif Hinv. destruct (add_routes_spec ln fuel rs R HR Hok Ho Hfuel) as (T & E & Ht & Hrep & Hlen).
  destruct (route_ready fuel rs T (length (interfaces R)) Ht Hrep Hok ltac:(lia) Hif iinv dgram_ok iinv_forwards
    (mk (interfaces R) T)) as (R2 & E2 & (HT2 & HN2 & HR2) & Hq); [by split_and!|].
  eexists _, R2. split; [exact E|]. split; [exact E2|]. by split_and!.
Qed.

(** A datagram for 10.3.0.1 waits at the first interface. *)
Definition busy_router : Router.t :=
  with_interface sample_router 0
    (AsyncNetworkInterface.mk (NetworkInterface.new (replicate 6 Byte.x01) 0xc0a80001) [to_host 0x0a030001]).

Lemma router_route_drains_witness :
  ∃ R1 R2, add_routes Z.log2 10 sample_routes busy_router = Ok R1 ∧ route 10 R1 = Ok R2 ∧
    Forall (λ q, q = []) (queues R2).
Proof.
  destruct (router_route_drains Z.log2 10 sample_routes busy_router) as (R1 & R2 & H1 & H2 & H3 & _).
  - reflexivity.
  - reflexivity.
  - reflexivity.
  - simpl. lia.
  - repeat constructor; range_compute.
  - assert (Hi : ∀ ip, is_u32 ip → iinv (NetworkInterface.new (replicate 6 Byte.x01) ip)) by (intros; by apply iinv_new).
    apply Forall_cons. split; [split; [apply Hi; range_compute|apply Forall_singleton; split; [split|..]; range_compute]|].
    apply Forall_cons. split; [split; [apply Hi; range_compute|by constructor]|].
    apply Forall_cons. split; [split; [apply Hi; range_compute|by constructor]|]. by constructor.
  - exists R1, R2. split; [exact H1|]. split; [exact H2|exact H3].
Defined.
