(* ===== verification/Simulator.v ===== *)
(** * The network simulator: apps/network_simulator.cc

    A router with seven interfaces, six hosts and the wires between them, as the
    program builds and exercises them. The random generator is an argument, the
    numbers it draws in order; addresses given as strings are their numbers;
    [_hosts] is the list of the hosts in the order of their insertion; of the debug
    output only the text of a frame is made, which can throw. *)

From S2P Require Import Prelude Buffers Parsing Ipv4 Link Printing Netif Router.

(** ** The random generator *)

(** [rd] is the sequence of the numbers drawn, and [drawn] how many were. *)
Definition draw (rd : nat → Z) (drawn : nat) : Z * nat := (w32 (rd drawn), S drawn).

Definition draw_bytes (rd : nat → Z) (drawn : nat) : EthernetAddress * nat :=
  ((λ i, z2b (rd (drawn + i)%nat)) <$> seq 0 6, (drawn + 6)%nat).

Module SimulatorRandom.

Definition random_host_ethernet_address (rd : nat → Z) (drawn : nat) : EthernetAddress * nat :=
  let '(addr, drawn) := draw_bytes rd drawn in
  (match addr with first :: rest => z2b (Z.land (Z.lor (b2z first) 0x02) 0xfe) :: rest | [] => [] end, drawn).

Definition random_router_ethernet_address (rd : nat → Z) (drawn : nat) : EthernetAddress * nat :=
  let '(addr, drawn) := draw_bytes rd drawn in
  (match addr with _ :: _ :: _ :: rest => [Byte.x02; Byte.x00; Byte.x00] ++ rest | _ => [] end, drawn).

End SimulatorRandom.
Export SimulatorRandom.

(** ** Hosts *)

Definition quote : string := String (Ascii.ascii_of_nat 34) EmptyString.

(** The text of a frame, as the debug output shows it. *)
Definition frame_summary (frame : EthernetFrame.t) : result string :=
  let h := EthernetFrame.header frame in
  let ret := ethernet_to_string h in
  if EthernetHeader.type h =? EthernetHeader.TYPE_IPv4 then
    b ← BufferList.to_buffer (EthernetFrame.payload frame);
    '(dgram, err) ← IPv4Datagram.parse IPv4Datagram.default b;
    if bool_decide (err = NoError) then
      Ok (ret ++ " " ++ ipv4_summary (IPv4Datagram.header dgram) ++ " payload=" ++ quote ++
          String.string_of_list_byte (BufferList.concatenate (IPv4Datagram.payload dgram)) ++ quote)%string
    else Ok (ret ++ " (bad IPv4)")%string
  else if EthernetHeader.type h =? EthernetHeader.TYPE_ARP then
    b ← BufferList.to_buffer (EthernetFrame.payload frame);
    '(arp, err) ← ARPMessage.parse ARPMessage.default b;
    if bool_decide (err = NoError) then Ok (ret ++ " " ++ arp_to_string arp)%string
    else Ok (ret ++ " (bad ARP)")%string
  else Ok ret.

Module Host.

Record t := mk {
  name : string;                                 (* _name *)
  my_address : Z;                                (* _my_address *)
  interface : AsyncNetworkInterface.t;           (* _interface *)
  next_hop : Z;                                  (* _next_hop *)
  expecting_to_receive : list IPv4Datagram.t;    (* _expecting_to_receive *)
}.

Definition new (rd : nat → Z) (drawn : nat) (name : string) (my_address next_hop : Z) : t * nat :=
  let '(addr, drawn) := random_host_ethernet_address rd drawn in
  (mk name my_address (AsyncNetworkInterface.of_interface (NetworkInterface.new addr my_address)) next_hop [], drawn).

Definition with_interface (h : t) (i : AsyncNetworkInterface.t) : t :=
  mk (name h) (my_address h) i (next_hop h) (expecting_to_receive h).

Definition with_expectations (h : t) (l : list IPv4Datagram.t) : t :=
  mk (name h) (my_address h) (interface h) (next_hop h) l.

(** The bytes of a datagram, by which datagrams are compared. *)
Definition text (d : IPv4Datagram.t) : result bytes :=
  l ← IPv4Datagram.serialize d; Ok (BufferList.concatenate l).

Fixpoint expecting_in (expected : IPv4Datagram.t) (l : list IPv4Datagram.t) : result bool :=
  match l with
  | [] => Ok false
  | x :: l =>
      a ← text x;
      b ← text expected;
      if bool_decide (a = b) then Ok true else expecting_in expected l
  end.

Definition expecting (h : t) (expected : IPv4Datagram.t) : result bool := expecting_in expected (expecting_to_receive h).

Fixpoint remove_in (expected : IPv4Datagram.t) (l : list IPv4Datagram.t) : result (list IPv4Datagram.t) :=
  match l with
  | [] => Ok []
  | x :: l =>
      a ← text x;
      b ← text expected;
      if bool_decide (a = b) then Ok l else l ← remove_in expected l; Ok (x :: l)
  end.

Definition remove_expectation (h : t) (expected : IPv4Datagram.t) : result t :=
  l ← remove_in expected (expecting_to_receive h); Ok (with_expectations h l).

(** The datagram that [send_to] makes; [number] is the random number in it. *)
Definition datagram_for (h : t) (destination ttl number : Z) : IPv4Datagram.t :=
  let payload := String.list_byte_of_string ("random payload: {" ++ to_string number ++ "}") in
  let d := IPv4Header.default in
  let hdr := IPv4Header.mk (IPv4Header.ver d) (IPv4Header.hlen d) (IPv4Header.tos d)
    (w16 (IPv4Header.hlen d * 4 + blen payload)) (IPv4Header.id d) (IPv4Header.df d) (IPv4Header.mf d) (IPv4Header.offset d)
    ttl (IPv4Header.proto d) (IPv4Header.cksum d) (my_address h) destination in
  IPv4Datagram.mk hdr (BufferList.of_string payload).

Definition send_to (rd : nat → Z) (drawn : nat) (h : t) (destination ttl : Z) : result (t * nat * IPv4Datagram.t) :=
  let '(number, drawn) := draw rd drawn in
  let dgram := datagram_for h destination ttl number in
  i ← AsyncNetworkInterface.send_datagram (interface h) dgram (next_hop h);
  Ok (with_interface h i, drawn, dgram).

Definition expect (h : t) (expected : IPv4Datagram.t) : t :=
  with_expectations h (expecting_to_receive h ++ [expected]).

(** What an exception says of a datagram. *)
Definition described (d : IPv4Datagram.t) : string :=
  (ipv4_summary (IPv4Datagram.header d) ++ " payload=" ++ quote ++
   String.string_of_list_byte (BufferList.concatenate (IPv4Datagram.payload d)) ++ quote)%string.

(** The loop of [check] over the datagrams received. *)
Fixpoint check_received (h : t) (q : list IPv4Datagram.t) : result t :=
  match q with
  | [] => Ok h
  | dgram_received :: q =>
      known ← expecting h dgram_received;
      if negb known then
        Err (runtime_error ("Host " ++ name h ++ " received unexpected Internet datagram: " ++ described dgram_received)%string)
      else
        h ← remove_expectation h dgram_received;
        check_received (with_interface h (AsyncNetworkInterface.mk (AsyncNetworkInterface.interface (interface h)) q)) q
  end.

Definition check (h : t) : result t :=
  h ← check_received h (AsyncNetworkInterface.datagrams_out (interface h));
  match expecting_to_receive h with
  | expected :: _ =>
      Err (runtime_error ("Host " ++ name h ++ " did NOT receive an expected Internet datagram: " ++ described expected)%string)
  | [] => Ok h
  end.

End Host.

(** ** The network *)

Module Network.

Record t := mk {
  router : Router.t;          (* _router *)
  hosts : list Host.t;        (* _hosts *)
  drawn : nat;                (* the numbers drawn so far *)
}.

(** The numbers of the interfaces, as add_interface gives them. *)
Definition default_id : Z := 0.

Definition eth0_id : Z := 1.

Definition eth1_id : Z := 2.

Definition eth2_id : Z := 3.

Definition uun3_id : Z := 4.

Definition hs4_id : Z := 5.

Definition mit5_id : Z := 6.

(** The key of a host in [_hosts] is its name, so that the second check of the
    source always passes. *)
Definition host (n : t) (name : string) : result Host.t :=
  match find (λ h, String.eqb (Host.name h) name) (hosts n) with
  | Some h => Ok h
  | None => Err (runtime_error ("unknown host: " ++ name)%string)
  end.

Definition with_router (n : t) (r : Router.t) : t := mk r (hosts n) (drawn n).

(** The change made through the reference that [host] returns. *)
Definition with_host (n : t) (h : Host.t) : t :=
  mk (router n) ((λ x, if String.eqb (Host.name x) (Host.name h) then h else x) <$> hosts n) (drawn n).

Definition frames (a : AsyncNetworkInterface.t) : list EthernetFrame.t :=
  NetworkInterface.frames_out (AsyncNetworkInterface.interface a).

(** Each frame is shown and delivered with its payload in one piece. *)
Fixpoint deliver (src : list EthernetFrame.t) (dst : AsyncNetworkInterface.t) : result AsyncNetworkInterface.t :=
  match src with
  | [] => Ok dst
  | f :: src =>
      let f := EthernetFrame.mk (EthernetFrame.header f) (BufferList.of_string (BufferList.concatenate (EthernetFrame.payload f))) in
      _ ← frame_summary f;
      dst ← AsyncNetworkInterface.recv_frame dst f;
      deliver src dst
  end.

(** [clear(queue1, queue2)]: as many frames leave the second queue as the first
    one holds. *)
Definition clear (queue1 : list EthernetFrame.t) (a : AsyncNetworkInterface.t) : AsyncNetworkInterface.t :=
  AsyncNetworkInterface.mk
    (NetworkInterface.with_frames (AsyncNetworkInterface.interface a) (drop (length queue1) (frames a)))
    (AsyncNetworkInterface.datagrams_out a).

Definition exchange_frames (x y : AsyncNetworkInterface.t) : result (AsyncNetworkInterface.t * AsyncNetworkInterface.t) :=
  let x_frames := frames x in
  let y_frames := frames y in
  y ← deliver x_frames y;
  x ← deliver y_frames x;
  Ok (clear x_frames x, clear y_frames y).

Definition exchange_frames3 (x y z : AsyncNetworkInterface.t)
    : result (AsyncNetworkInterface.t * AsyncNetworkInterface.t * AsyncNetworkInterface.t) :=
  let x_frames := frames x in
  let y_frames := frames y in
  let z_frames := frames z in
  y ← deliver x_frames y;
  z ← deliver x_frames z;
  x ← deliver y_frames x;
  z ← deliver y_frames z;
  x ← deliver z_frames x;
  y ← deliver z_frames y;
  Ok (clear x_frames x, clear y_frames y, clear z_frames z).

(** A wire between an interface of the router and a host. *)
Definition wire (n : t) (id : Z) (name : string) : result t :=
  x ← Router.interface (router n) id;
  h ← host n name;
  '(x, y) ← exchange_frames x (Host.interface h);
  Ok (with_host (with_router n (Router.with_interface (router n) id x)) (Host.with_interface h y)).

Definition wire3 (n : t) (id : Z) (name1 name2 : string) : result t :=
  x ← Router.interface (router n) id;
  h1 ← host n name1;
  h2 ← host n name2;
  '(x, y, z) ← exchange_frames3 x (Host.interface h1) (Host.interface h2);
  Ok (with_host (with_host (with_router n (Router.with_interface (router n) id x)) (Host.with_interface h1 y)) (Host.with_interface h2 z)).

Definition simulate_physical_connections (n : t) : result t :=
  n ← wire n default_id "default_router";
  n ← wire n eth0_id "applesauce";
  n ← wire n eth2_id "cherrypie";
  n ← wire n hs4_id "hs_router";
  wire3 n uun3_id "dm42" "dm43".

Definition ROUNDS : nat := 256.

(** [fuel] bounds the searches of the router. *)
Fixpoint simulate_rounds (fuel : nat) (k : nat) (n : t) : result t :=
  match k with
  | O => Ok n
  | S k =>
      r ← Router.route fuel (router n);
      n ← simulate_physical_connections (with_router n r);
      simulate_rounds fuel k n
  end.

Fixpoint check_all (l : list Host.t) : result (list Host.t) :=
  match l with
  | [] => Ok []
  | h :: l => h ← Host.check h; l ← check_all l; Ok (h :: l)
  end.

Definition simulate (fuel : nat) (n : t) : result t :=
  n ← simulate_rounds fuel ROUNDS n;
  l ← check_all (hosts n);
  Ok (mk (router n) l (drawn n)).

(** *** Construction *)

(** The interfaces, with their addresses, in the order of the members. *)
Definition interface_addresses : list string :=
  ["171.67.76.46"; "10.0.0.1"; "172.16.0.1"; "192.168.0.1"; "198.178.229.1"; "143.195.0.2"; "128.30.76.255"]%string.

(** The hosts: their names, addresses and next hops. *)
Definition host_addresses : list (string * string * string) :=
  [("applesauce", "10.0.0.2", "10.0.0.1"); ("default_router", "171.67.76.1", "0"); ("cherrypie", "192.168.0.2", "192.168.0.1");
   ("hs_router", "143.195.0.1", "0"); ("dm42", "198.178.229.42", "198.178.229.1"); ("dm43", "198.178.229.43", "198.178.229.1")]%string.

(** The routes: prefix, length, the host or address that is the next hop, and the
    interface. *)
Definition routes : list (string * Z * option string * Z) :=
  [("0.0.0.0", 0, Some "171.67.76.1", default_id); ("10.0.0.0", 8, None, eth0_id); ("172.16.0.0", 16, None, eth1_id);
   ("192.168.0.0", 24, None, eth2_id); ("198.178.229.0", 24, None, uun3_id); ("143.195.0.0", 17, Some "143.195.0.1", hs4_id);
   ("143.195.128.0", 18, Some "143.195.0.1", hs4_id); ("143.195.192.0", 19, Some "143.195.0.1", hs4_id);
   ("128.30.76.255", 16, Some "128.30.0.1", mit5_id)]%string%Z.

(** [Address{str}.ipv4_numeric()]. *)
Definition ip (str : string) : result Z :=
  match read_host str with Some z => Ok z | None => Err (runtime_error ("getaddrinfo(" ++ str ++ ")")%string) end.

Fixpoint add_interfaces (rd : nat → Z) (drawn : nat) (l : list string) (r : Router.t) : result (Router.t * nat) :=
  match l with
  | [] => Ok (r, drawn)
  | s :: l =>
      let '(addr, drawn) := random_router_ethernet_address rd drawn in
      a ← ip s;
      let '(r, _) := Router.add_interface r (AsyncNetworkInterface.of_interface (NetworkInterface.new addr a)) in
      add_interfaces rd drawn l r
  end.

Fixpoint add_hosts (rd : nat → Z) (drawn : nat) (l : list (string * string * string)) : result (list Host.t * nat) :=
  match l with
  | [] => Ok ([], drawn)
  | (name, my_address, next_hop) :: l =>
      a ← ip my_address;
      b ← ip next_hop;
      let '(h, drawn) := Host.new rd drawn name a b in
      '(hs, drawn) ← add_hosts rd drawn l;
      Ok (h :: hs, drawn)
  end.

Fixpoint add_routes (ln : Z → Z) (fuel : nat) (l : list (string * Z * option string * Z)) (r : Router.t) : result Router.t :=
  match l with
  | [] => Ok r
  | (prefix, length, next_hop, id) :: l =>
      p ← ip prefix;
      nh ← match next_hop with Some s => a ← ip s; Ok (Some a) | None => Ok None end;
      r ← Router.add_route ln fuel r p length nh id;
      add_routes ln fuel l r
  end.

(** [ln] is the logarithm of the C library. *)
Definition new (rd : nat → Z) (ln : Z → Z) (fuel : nat) : result t :=
  '(r, drawn) ← add_interfaces rd 0 interface_addresses Router.new;
  '(hs, drawn) ← add_hosts rd drawn host_addresses;
  r ← add_routes ln fuel routes r;
  Ok (mk r hs drawn).

(** *** The tests *)

Definition lower_ttl (d : IPv4Datagram.t) : IPv4Datagram.t :=
  IPv4Datagram.mk (IPv4Header.set_ttl (IPv4Datagram.header d) (w8 (IPv4Header.ttl (IPv4Datagram.header d) - 1))) (IPv4Datagram.payload d).

(** [from] sends a datagram; if [to] is given, it is expected there, one hop
    older; then the network runs. *)
Definition test (rd : nat → Z) (fuel : nat) (n : t) (from : string) (destination : Z) (ttl : Z) (to : option string) : result t :=
  h ← host n from;
  '(h, drawn, dgram_sent) ← Host.send_to rd (drawn n) h destination ttl;
  let n := with_host (mk (router n) (hosts n) drawn) h in
  n ← match to with
      | Some name => g ← host n name; Ok (with_host n (Host.expect g (lower_ttl dgram_sent)))
      | None => Ok n
      end;
  simulate fuel n.

(** The address of a host, or one given in the program. *)
Definition address (n : t) (dst : string + string) : result Z :=
  match dst with
  | inl name => h ← host n name; Ok (Host.my_address h)
  | inr str => ip str
  end.

(** Who sends, where to, with which TTL, and who is to receive. *)
Definition tests : list (string * (string + string) * Z * option string) :=
  [("applesauce", inl "cherrypie", 64, Some "cherrypie");
   ("cherrypie", inl "applesauce", 64, Some "applesauce");
   ("applesauce", inr "1.2.3.4", 64, Some "default_router");
   ("applesauce", inr "143.195.131.17", 64, Some "hs_router");
   ("cherrypie", inr "143.195.193.52", 64, Some "hs_router");
   ("cherrypie", inr "143.195.223.255", 64, Some "hs_router");
   ("cherrypie", inr "143.195.224.0", 64, Some "default_router");
   ("dm42", inl "dm43", 64, Some "dm43");
   ("applesauce", inr "1.2.3.4", 1, None);
   ("applesauce", inr "1.2.3.4", 0, None)]%string%Z.

Fixpoint run_tests (rd : nat → Z) (fuel : nat) (n : t) (l : list (string * (string + string) * Z * option string)) : result t :=
  match l with
  | [] => Ok n
  | (from, dst, ttl, to) :: l =>
      a ← address n dst;
      n ← test rd fuel n from a ttl to;
      run_tests rd fuel n l
  end.

Definition network_simulator (rd : nat → Z) (ln : Z → Z) (fuel : nat) : result t :=
  n ← new rd ln fuel;
  run_tests rd fuel n tests.

(** The status; an exception is reported. *)
Definition main (rd : nat → Z) (ln : Z → Z) (fuel : nat) : Z :=
  match network_simulator rd ln fuel with
  | Ok _ => EXIT_SUCCESS
  | Err _ => EXIT_FAILURE
  end.

End Network.

(** The program runs to its end, with this sequence of random numbers: every
    datagram arrives where it is expected, those whose TTL runs out nowhere, and
    nothing throws. *)
Definition sample_rd (i : nat) : Z := 0x9e3779b9 * Z.of_nat (S i) + Z.shiftr (0x85ebca6b * Z.of_nat i) 7.

Lemma simulator_passes :
  match Network.network_simulator sample_rd Z.log2 20 with
  | Ok n => Network.drawn n = 88%nat ∧ Forall (λ h, Host.expecting_to_receive h = []) (Network.hosts n)
  | Err _ => False
  end.
Proof. vm_compute. split; [reflexivity|]. repeat constructor. Qed.
