(* ===== verification/Dump.v ===== *)
(** * The packet dump: apps/udp_tcpdump.cc

    What the program does with one captured packet: finding the IP header behind
    the header of the link, the UDP payload behind that, and what it prints of
    the TCP segment in it. libpcap and the text of an IPv6 address are
    parameters; a read past the end of the packet is undefined. *)

From S2P Require Import Prelude Buffers Wrapping Parsing Segment Printing.
From Stdlib Require Import Ascii.

Module Dump.

(** [data[i]] of a packet. *)
Definition at_ (data : bytes) (i : Z) : result Z :=
  match data !! Z.to_nat i with
  | Some b => Ok (b2z b)
  | None => Err (undefined_behaviour "read past the end of the packet")
  end.

(** The [n] bytes at [data + i], which [inet_ntop] reads. *)
Definition bytes_at (data : bytes) (i n : Z) : result bytes :=
  if blen data <? i + n then Err (undefined_behaviour "read past the end of the packet") else Ok (ztake n (zdrop i data)).

Definition inet4_addr (data : bytes) (i : Z) : result string :=
  b ← bytes_at data i 4; Ok (inet_ntoa (be_val b)).

Section dump.
(** [inet_ntop(AF_INET6, ...)]. *)
Context (inet6_ntop : bytes → string).

Definition inet6_addr (data : bytes) (i : Z) : result string :=
  b ← bytes_at data i 16; Ok (inet6_ntop b).

(** The walk over the extension headers of IPv6: the offset of the UDP header, or
    what is printed before giving up. Each round moves on by at least eight. *)
Fixpoint skip_headers (fuel : nat) (data : bytes) (nxt data_offset : Z) : result (string + Z) :=
  if nxt =? 0x11 then Ok (inr data_offset)
  else if negb (nxt =? 0) && negb (nxt =? 43) && negb (nxt =? 60) then Ok (inl "Not UDP or fragmented; "%string)
  else
    match fuel with
    | O => Err out_of_fuel
    | S fuel =>
        nxt ← at_ data data_offset;
        b ← at_ data (data_offset + 1);
        let data_offset := data_offset + 8 * (1 + b) in
        if blen data <? data_offset + 2 then Ok (inl ""%string) else skip_headers fuel data nxt data_offset
    end.

(** The offset of the UDP payload with the two addresses, or what is printed with
    the answer -1. *)
Definition process_ipv4_ipv6 (data : bytes) : result (string + Z * string * string) :=
  let len := blen data in
  if len <? 1 then Ok (inl ""%string)
  else
    b ← at_ data 0;
    let pt := Z.land b 0xf0 in
    if pt =? 0x40 then
      let data_offset := Z.land b 0x0f * 4 in
      if len <? data_offset then Ok (inl ""%string)
      else
        proto ← at_ data 9;
        if negb (proto =? 0x11) then Ok (inl "Not UDP; "%string)
        else
          src ← inet4_addr data 12;
          dst ← inet4_addr data 16;
          Ok (inr (data_offset + 8, src, dst))
    else if pt =? 0x60 then
      if len <? 42 then Ok (inl ""%string)
      else
        nxt ← at_ data 6;
        found ← skip_headers (length data) data nxt 40;
        match found with
        | inl msg => Ok (inl msg)
        | inr data_offset =>
            src ← inet6_addr data 8;
            dst ← inet6_addr data 24;
            Ok (inr (data_offset + 8, src, dst))
        end
    else Ok (inl ""%string).

(** *** The link *)

Definition DLT_NULL : Z := 0.

Definition DLT_EN10MB : Z := 1.

Definition DLT_RAW : Z := 12.

Definition DLT_LINUX_SLL : Z := 113.

Definition DLT_LINUX_SLL2 : Z := 276.

Inductive outcome :=
  | Printed (out : string)          (* to standard output *)
  | Skipped (err : string)          (* to standard error *)
  | Gave_up (err : string).

Definition malformed : outcome := Skipped ("[INFO] Skipping malformed packet." ++ nl)%string.

Definition not_ip : outcome := Skipped ("[INFO] Skipping non-IP packet." ++ nl)%string.

(** The ether type at [i]. *)
Definition carries_ip (data : bytes) (i : Z) : result bool :=
  a ← at_ data i;
  b ← at_ data (i + 1);
  let pt := w16 (Z.lor (Z.shiftl a 8) b) in
  Ok ((pt =? 0x0800) || (pt =? 0x86dd)).

(** A header of [hdr_off] bytes with the ether type at [i]. *)
Definition ether_header (data : bytes) (hdr_off i : Z) : result (outcome + Z) :=
  if blen data <? hdr_off then Ok (inl malformed)
  else ip ← carries_ip data i; Ok (if (ip : bool) then inr hdr_off else inl not_ip).

(** Where the IP header starts, or why the packet is skipped. *)
Definition link_header (dl_type : Z) (data : bytes) : result (outcome + Z) :=
  if dl_type =? DLT_NULL then
    if blen data <? 4 then Ok (inl malformed)
    else
      pt ← at_ data 3;
      if negb (pt =? 2) && negb (pt =? 24) && negb (pt =? 28) && negb (pt =? 30) then Ok (inl not_ip) else Ok (inr 4)
  else if dl_type =? DLT_EN10MB then ether_header data 14 12
  else if dl_type =? DLT_LINUX_SLL then ether_header data 16 14
  else if dl_type =? DLT_LINUX_SLL2 then ether_header data 20 0
  else if negb (dl_type =? DLT_RAW) then Ok (inl (Gave_up "Mysterious datalink type. Giving up."))
  else Ok (inr 0).

(** *** What is printed *)

(** Lines 264 to 281: the segment, when at most its checksum is wrong. *)
Definition describe (seg : TCPSegment.t) (res : ParseResult) (src dst : string) (payload_len : Z) : string :=
  let h := TCPSegment.header seg in
  let seqlen := w32 (TCPSegment.length_in_sequence_space seg) in
  (src ++ ":" ++ to_string (TCPHeader.sport h) ++ " > " ++ dst ++ ":" ++ to_string (TCPHeader.dport h) ++ nl ++ "    Flags [" ++
   (if TCPHeader.urg h then "U" else "") ++ (if TCPHeader.psh h then "P" else "") ++ (if TCPHeader.rst h then "R" else "") ++
   (if TCPHeader.syn h then "S" else "") ++ (if TCPHeader.fin h then "F" else "") ++ (if TCPHeader.ack h then "." else "") ++
   "] cksum 0x" ++ pad 4 "0"%char (hex (TCPHeader.cksum h)) ++ (if bool_decide (res = NoError) then " (correct)" else " (incorrect!)") ++
   " seq " ++ wrapping_to_string 10 (TCPHeader.seqno h) ++
   (if (0 <? seqlen)%Z then ":" ++ wrapping_to_string 10 (WrappingInt32.add (TCPHeader.seqno h) seqlen) else "") ++
   " ack " ++ wrapping_to_string 10 (TCPHeader.ackno h) ++ " win " ++ to_string (TCPHeader.win h) ++
   " length " ++ to_string payload_len ++ nl)%string.

(** Lines 253 to 283: the payload starts at [payload_off] of the packet. Its
    length is computed in a [size_t]. *)
Definition show_payload (data : bytes) (payload_off : Z) (src dst : string) : result string :=
  let payload_len := w64 (blen data - payload_off) in
  if blen data <? payload_off then Err (length_error "basic_string::_M_create")
  else
    let payload := zdrop payload_off data in
    '(seg, res) ← TCPSegment.parse TCPSegment.default (Buffer.of_string payload) 0;
    let line :=
      if (ParseResult_index BadChecksum <? ParseResult_index res)%nat
      then ("(did not recognize TCP header) src: " ++ src ++ " dst: " ++ dst ++ nl)%string
      else describe seg res src dst payload_len in
    Ok (line ++ hexdump payload 8)%string.

(** The body of the loop over the packets. *)
Definition dump_packet (dl_type : Z) (data : bytes) : result outcome :=
  start ← link_header dl_type data;
  match start with
  | inl o => Ok o
  | inr hdr_off =>
      parsed ← process_ipv4_ipv6 (zdrop hdr_off data);
      match parsed with
      | inl msg => Ok (Skipped (msg ++ "Error parsing IPv4/IPv6 packet. Skipping." ++ nl)%string)
      | inr (start_off, src, dst) => out ← show_payload data (hdr_off + start_off) src dst; Ok (Printed out)
      end
  end.

End dump.

End Dump.

(** ** Bounds *)

Definition overrun : exn := undefined_behaviour "read past the end of the packet".

Lemma at_inside data i : 0 <= i < blen data → ∃ b, Dump.at_ data i = Ok b ∧ 0 <= b < 256.
Proof.
  intros Hi. unfold Dump.at_. destruct (lookup_lt_is_Some_2 data (Z.to_nat i)) as [b ->]; [unfold blen in Hi; lia|].
  exists (b2z b). split; [done|apply b2z_range].
Qed.

Lemma at_outside data i : blen data <= i → Dump.at_ data i = Err overrun.
Proof. intros Hi. unfold Dump.at_. rewrite lookup_ge_None_2 by (unfold blen in Hi; lia). done. Qed.

Lemma bytes_at_inside data i n : i + n <= blen data → ∃ b, Dump.bytes_at data i n = Ok b.
Proof. intros Hi. unfold Dump.bytes_at. rewrite (proj2 (Z.ltb_ge _ _)) by done. by eexists. Qed.

(** The walk over the extension headers ends and stays inside the packet. *)
Lemma skip_headers_total fuel data nxt off :
  0 <= off → off + 2 <= blen data → (Z.to_nat (blen data - off) <= fuel)%nat →
  ∃ r, Dump.skip_headers fuel data nxt off = Ok r ∧ ∀ o, r = inr o → off <= o ∧ o + 2 <= blen data.
Proof.
  revert nxt off. induction fuel as [|fuel IH]; intros nxt off Hoff Hin Hf; [lia|]. simpl.
  destruct (nxt =? 0x11). { eexists. split; [done|]. intros o [= <-]. lia. }
  destruct (_ && _ && _). { eexists. split; [done|]. intros o E. discriminate E. }
  destruct (at_inside data off) as (x & -> & _); [lia|]. destruct (at_inside data (off + 1)) as (b & -> & Hb); [lia|].
  cbn [mbind result_bind]. destruct (Z.ltb_spec (blen data) (off + 8 * (1 + b) + 2)).
  { eexists. split; [done|]. intros o E. discriminate E. }
  destruct (IH x (off + 8 * (1 + b))) as (r & -> & Hr); [lia|lia|lia|]. exists r. split; [done|]. intros o Eo. specialize (Hr o Eo). lia.
Qed.

(** An IPv4 packet whose header is announced as shorter than the twenty bytes it
    must have, and cut off before a byte that is needed. *)
Definition cut_off (data : bytes) : Prop :=
  ∃ b, Dump.at_ data 0 = Ok b ∧ Z.land b 0xf0 = 0x40 ∧ Z.land b 0x0f * 4 <= blen data ∧
    (blen data <= 9 ∨ (Dump.at_ data 9 = Ok 0x11 ∧ blen data < 20)).

Lemma process_ipv4 inet6 data b :
  Dump.at_ data 0 = Ok b → Z.land b 0xf0 = 0x40 → 1 <= blen data →
  match Dump.process_ipv4_ipv6 inet6 data with Ok _ => ¬ cut_off data | Err e => e = overrun ∧ cut_off data end.
Proof.
  intros Eb Hpt Hlen. unfold Dump.process_ipv4_ipv6. rewrite (proj2 (Z.ltb_ge _ _)) by done. rewrite Eb. cbn [mbind result_bind].
  rewrite Hpt. change (0x40 =? 0x40) with true. cbv iota.
  assert (Hcut : cut_off data ↔ Z.land b 0x0f * 4 <= blen data ∧ (blen data <= 9 ∨ (Dump.at_ data 9 = Ok 0x11 ∧ blen data < 20))).
  { split; [intros (b' & E' & _ & H); by assert (b' = b) as -> by congruence|]. intros H. by exists b. }
  destruct (Z.ltb_spec (blen data) (Z.land b 0x0f * 4)); [rewrite Hcut; lia|].
  destruct (Z.le_gt_cases (blen data) 9).
  { rewrite at_outside by done. cbn [mbind result_bind]. split; [done|]. rewrite Hcut. by split; [|left]. }
  destruct (at_inside data 9) as (p & Ep & _); [lia|]. rewrite Ep in *. cbn [mbind result_bind].
  destruct (Z.eqb_spec p 0x11) as [->|Hp]; cbn [negb].
  2:{ rewrite Hcut. intros [_ [?|[E _]]]; [lia|congruence]. }
  destruct (Z.lt_ge_cases (blen data) 20).
  - assert (Hc : cut_off data) by (rewrite Hcut; split; [lia|right; done]).
    unfold Dump.inet4_addr, Dump.bytes_at. destruct (blen data <? 12 + 4); [by split|]. cbn [mbind result_bind].
    rewrite (proj2 (Z.ltb_lt _ _)) by lia. by split.
  - unfold Dump.inet4_addr. destruct (bytes_at_inside data 12 4) as (? & ->); [lia|]. destruct (bytes_at_inside data 16 4) as (? & ->); [lia|].
    cbn [mbind result_bind]. rewrite Hcut. intros [_ [?|[_ ?]]]; lia.
Qed.

(** C40. The packet dump on any packet at all: it never loops, and reads only
    bytes of the packet, except for one case, which it does not check: an IPv4
    packet whose header length field is at most its length in words but which is
    shorter than the ten bytes up to the protocol, or, for UDP, than the twenty
    of a header. Then it reads past the end. *)
Theorem packet_dump_bounds inet6 data :
  match Dump.process_ipv4_ipv6 inet6 data with
  | Ok _ => ¬ cut_off data
  | Err e => e = undefined_behaviour "read past the end of the packet" ∧ cut_off data
  end.
Proof.
  destruct (Z.lt_ge_cases (blen data) 1).
  { unfold Dump.process_ipv4_ipv6. rewrite (proj2 (Z.ltb_lt _ _)) by done. intros (b & E & _). by rewrite at_outside in E by lia. }
  destruct (at_inside data 0) as (b & Eb & _); [lia|].
  destruct (Z.eq_dec (Z.land b 0xf0) 0x40) as [Hpt|Hpt]; [by apply (process_ipv4 inet6 data b)|].
  assert (Hno : ¬ cut_off data) by (intros (b' & E' & H' & _); congruence).
  unfold Dump.process_ipv4_ipv6. rewrite (proj2 (Z.ltb_ge _ _)) by done. rewrite Eb. cbn [mbind result_bind].
  rewrite (proj2 (Z.eqb_neq _ _) Hpt). destruct (_ =? 0x60); [|done]. destruct (Z.ltb_spec (blen data) 42); [done|].
  destruct (at_inside data 6) as (nxt & -> & _); [lia|]. cbn [mbind result_bind].
  destruct (skip_headers_total (length data) data nxt 40) as (r & -> & _); [lia|lia|unfold blen; lia|]. cbn [mbind result_bind].
  destruct r; [done|]. unfold Dump.inet6_addr. destruct (bytes_at_inside data 8 16) as (? & ->); [lia|].
  by destruct (bytes_at_inside data 24 16) as (? & ->); [lia|].
Qed.

(** A UDP packet that ends with its IP header makes the length of the payload
    wrap, and the string for it cannot be made. *)
Definition headless : bytes := [Byte.x45] ++ replicate 8 Byte.x00 ++ [Byte.x11] ++ replicate 10 Byte.x00.

Lemma dump_payload_wraps inet6 :
  Dump.dump_packet inet6 Dump.DLT_RAW headless = Err (length_error "basic_string::_M_create") ∧
  w64 (blen headless - 28) = 0xfffffffffffffff8.
Proof. split; reflexivity. Qed.
