(* ===== verification/Addresses.v ===== *)
(** * Socket addresses: util/address.*

    [RawAddress] translates the class as it is, a [sockaddr_storage] and the part
    of it that is used. The rest of the stack needs only IPv4 addresses, and
    [Address] is what such a one stands for: a number and a port. The sections
    below show that nothing is lost. Resolving names (getaddrinfo, getnameinfo)
    is left to the C library. *)

From S2P Require Import Prelude Buffers Parsing.

Module Address.

Record t := mk {
  ipv4_numeric : Z;
  port : Z;
}.

#[global] Instance address_eq_decision : EqDecision t.
Proof. solve_decision. Defined.

End Address.

Module RawAddress.

(** [sizeof(sockaddr_storage)] and [sizeof(sockaddr_in)] on Linux. *)
Definition STORAGE_SIZE : Z := 128.

Definition SOCKADDR_IN_SIZE : Z := 16.

Definition AF_INET : Z := 2.

Record t := mk {
  size : Z;              (* _size *)
  storage : bytes;       (* _address.storage *)
}.

(** [Address(const sockaddr * addr, size_t size)]; the storage starts as zeros. *)
Definition of_sockaddr (addr : bytes) (size : Z) : result t :=
  if STORAGE_SIZE <? size then Err (runtime_error "invalid sockaddr size")
  else if blen addr <? size then Err (undefined_behaviour "memcpy reads past the end of the sockaddr")
  else Ok (mk size (resize (ztake size addr) STORAGE_SIZE)).

(** A [sockaddr_in] in memory: the family in the byte order of the machine
    (little-endian), port and number in that of the network, and padding. *)
Definition sockaddr_in (family port s_addr : Z) : bytes :=
  [z2b family; z2b (Z.shiftr family 8)] ++ NetUnparser.unparse_bytes 2 port ++ NetUnparser.unparse_bytes 4 s_addr ++
  replicate 8 Byte.x00.

Definition ss_family (a : t) : Z :=
  be_val (reverse (ztake 2 (storage a))).

Definition ipv4_numeric (a : t) : result Z :=
  if negb (ss_family a =? AF_INET) || negb (size a =? SOCKADDR_IN_SIZE)
  then Err (runtime_error "ipv4_numeric called on non-IPV4 address")
  else Ok (be_val (ztake 4 (zdrop 4 (storage a)))).

(** [port()]: [getnameinfo] with NI_NUMERICSERV gives the port as it stands. *)
Definition port (a : t) : Z := be_val (ztake 2 (zdrop 2 (storage a))).

Definition from_ipv4_numeric (ip_address : Z) : result t :=
  of_sockaddr (sockaddr_in AF_INET 0 ip_address) SOCKADDR_IN_SIZE.

(** [memcmp] over the used part. *)
Definition eqb (a b : t) : bool :=
  if negb (size a =? size b) then false
  else bool_decide (ztake (size a) (storage a) = ztake (size a) (storage b)).

Definition neqb (a b : t) : bool := negb (eqb a b).

End RawAddress.

(** ** What a raw address stands for *)

(** The raw address of an IPv4 address and port. *)
Definition raw_of (a : Address.t) : result RawAddress.t :=
  RawAddress.of_sockaddr (RawAddress.sockaddr_in RawAddress.AF_INET (Address.port a) (Address.ipv4_numeric a))
    RawAddress.SOCKADDR_IN_SIZE.

(** The address that raw bytes stand for. *)
Definition address_of (r : RawAddress.t) : result Address.t :=
  n ← RawAddress.ipv4_numeric r; Ok (Address.mk n (RawAddress.port r)).

Lemma raw_of_spec a :
  raw_of a = Ok (RawAddress.mk 16 (RawAddress.sockaddr_in RawAddress.AF_INET (Address.port a) (Address.ipv4_numeric a) ++
    replicate 112 Byte.x00)).
Proof.
  unfold raw_of, RawAddress.of_sockaddr. set (x := RawAddress.sockaddr_in _ _ _).
  assert (Hx : blen x = 16) by (unfold x, RawAddress.sockaddr_in; by rewrite !blen_app, !blen_unparse).
  rewrite Hx. change (RawAddress.STORAGE_SIZE <? RawAddress.SOCKADDR_IN_SIZE) with false. cbn [Z.ltb Z.compare].
  change (16 <? RawAddress.SOCKADDR_IN_SIZE) with false. cbv iota.
  rewrite ztake_all by (rewrite Hx; done). rewrite resize_pad by (rewrite Hx; done). by rewrite Hx.
Qed.

Lemma unparse_inj n x y :
  0 <= x < 2 ^ (8 * Z.of_nat n) → 0 <= y < 2 ^ (8 * Z.of_nat n) →
  NetUnparser.unparse_bytes n x = NetUnparser.unparse_bytes n y → x = y.
Proof.
  intros Hx Hy E. apply (f_equal be_val) in E. rewrite !be_val_unparse in E. by rewrite !Z.mod_small in E by done.
Qed.

Lemma raw_ipv4_core a r : is_u32 (Address.ipv4_numeric a) → raw_of a = Ok r → RawAddress.ipv4_numeric r = Ok (Address.ipv4_numeric a).
Proof.
  intros Hu. rewrite raw_of_spec. intros [= <-]. unfold RawAddress.ipv4_numeric, RawAddress.ss_family.
  cbn [RawAddress.size RawAddress.storage]. unfold RawAddress.sockaddr_in.
  change (ztake 2 (([z2b RawAddress.AF_INET; z2b (Z.shiftr RawAddress.AF_INET 8)] ++ ?x) ++ ?y))
    with [Byte.x02; Byte.x00].
  replace (ztake 4 _) with (NetUnparser.unparse_bytes 4 (Address.ipv4_numeric a)).
  - rewrite be_val_unparse. change (2 ^ (8 * Z.of_nat 4)) with 0x100000000. by rewrite Z.mod_small by done.
  - done.
Qed.

Lemma address_of_raw a r :
  is_u32 (Address.ipv4_numeric a) → is_u16 (Address.port a) → raw_of a = Ok r → address_of r = Ok a.
Proof.
  intros Hu Hp Er. unfold address_of. rewrite (raw_ipv4_core a r Hu Er). cbn [mbind result_bind].
  rewrite raw_of_spec in Er. injection Er as <-. unfold RawAddress.port. cbn [RawAddress.storage]. unfold RawAddress.sockaddr_in.
  replace (ztake 2 _) with (NetUnparser.unparse_bytes 2 (Address.port a)) by done.
  rewrite be_val_unparse. change (2 ^ (8 * Z.of_nat 2)) with 0x10000. rewrite Z.mod_small by done. by destruct a.
Qed.

Lemma sockaddr_in_inj p q x y :
  is_u16 p → is_u16 q → is_u32 x → is_u32 y →
  RawAddress.sockaddr_in RawAddress.AF_INET p x = RawAddress.sockaddr_in RawAddress.AF_INET q y → p = q ∧ x = y.
Proof.
  intros Hp Hq Hx Hy E. unfold RawAddress.sockaddr_in in E.
  apply app_inj_1 in E as [_ E]; [|done].
  apply app_inj_1 in E as [E1 E]; [|done].
  apply app_inj_1 in E as [E2 _]; [|done].
  split; [by apply (unparse_inj 2)|by apply (unparse_inj 4)].
Qed.

(** The class Address, for IPv4, stands exactly for a number and a port: it
    gives number and port back, an address made from a number has port zero, and
    [operator==], which compares the used bytes of the storage, says whether
    number and port are the same. *)
Theorem raw_address_faithful a b :
  is_u32 (Address.ipv4_numeric a) → is_u16 (Address.port a) →
  is_u32 (Address.ipv4_numeric b) → is_u16 (Address.port b) →
  ∃ ra rb, raw_of a = Ok ra ∧ raw_of b = Ok rb ∧
    address_of ra = Ok a ∧
    RawAddress.from_ipv4_numeric (Address.ipv4_numeric a) = raw_of (Address.mk (Address.ipv4_numeric a) 0) ∧
    RawAddress.eqb ra rb = bool_decide (a = b).
Proof.
  intros Ha Hpa Hb Hpb. eexists _, _. rewrite !raw_of_spec. split; [done|]. split; [done|].
  split; [by apply address_of_raw; [| |apply raw_of_spec]|]. split; [by rewrite <- raw_of_spec|].
  unfold RawAddress.eqb. cbn [RawAddress.size RawAddress.storage Z.eqb Pos.eqb negb].
  assert (Ht : ∀ c, ztake 16 (RawAddress.sockaddr_in RawAddress.AF_INET (Address.port c) (Address.ipv4_numeric c) ++
    replicate 112 Byte.x00) = RawAddress.sockaddr_in RawAddress.AF_INET (Address.port c) (Address.ipv4_numeric c)) by done.
  rewrite !Ht. apply bool_decide_ext. split; [|by intros ->].
  intros E. destruct a, b. apply sockaddr_in_inj in E as [Ep Ei]; try done. simpl in *. congruence.
Qed.

Lemma raw_address_faithful_witness :
  ∃ ra rb, raw_of (Address.mk 0x0a000001 80) = Ok ra ∧ raw_of (Address.mk 0x0a000001 81) = Ok rb ∧
    address_of ra = Ok (Address.mk 0x0a000001 80) ∧ RawAddress.eqb ra rb = false.
Proof.
  destruct (raw_address_faithful (Address.mk 0x0a000001 80) (Address.mk 0x0a000001 81)) as (ra & rb & Ea & Eb & En & _ & Eq).
  - range_compute.
  - range_compute.
  - range_compute.
  - range_compute.
  - exists ra, rb. split; [exact Ea|]. split; [exact Eb|]. split; [exact En|exact Eq].
Defined.
