(* ===== verification/Adapters.v ===== *)
(** * The adapters: tcp_helpers/fd_adapter.*, tcp_over_ip.*, tuntap_adapter.* and lossy_fd_adapter.hh

    What carries the segments of a connection: over UDP, over IPv4 on a TUN
    device, or over IPv4 and Ethernet on a TAP device, each possibly with
    random losses. The sockets and devices are outside the model: what a [read]
    takes from its descriptor is an argument, and what a [write] hands to it is
    a result. An [Address] is its IPv4 number and its port. *)

From S2P Require Import Prelude Buffers Parsing Checksum Wrapping Segment Ipv4 Link Netif Addresses.

Module FdAdapterConfig.

Record t := mk {
  source : Address.t;
  destination : Address.t;
  loss_rate_dn : Z;
  loss_rate_up : Z;
}.

Definition default : t := mk (Address.mk 0 0) (Address.mk 0 0) 0 0.

End FdAdapterConfig.

Module FdAdapterBase.

Record t := mk {
  cfg : FdAdapterConfig.t;     (* _cfg *)
  listen : bool;               (* _listen *)
}.

Definition default : t := mk FdAdapterConfig.default false.

Definition set_listening (a : t) (l : bool) : t := mk (cfg a) l.

Definition listening (a : t) : bool := listen a.

Definition config (a : t) : FdAdapterConfig.t := cfg a.

(** Assignments through [config_mutable()]. *)
Definition set_source (a : t) (s : Address.t) : t :=
  let c := cfg a in
  mk (FdAdapterConfig.mk s (FdAdapterConfig.destination c) (FdAdapterConfig.loss_rate_dn c) (FdAdapterConfig.loss_rate_up c)) (listen a).

Definition set_destination (a : t) (d : Address.t) : t :=
  let c := cfg a in
  mk (FdAdapterConfig.mk (FdAdapterConfig.source c) d (FdAdapterConfig.loss_rate_dn c) (FdAdapterConfig.loss_rate_up c)) (listen a).

Definition tick (a : t) (_ : Z) : t := a.

(** The ports a segment leaves with, in all the adapters. *)
Definition set_ports (a : t) (seg : TCPSegment.t) : TCPSegment.t :=
  TCPSegment.mk (TCPHeader.set_ports (TCPSegment.header seg)
    (Address.port (FdAdapterConfig.source (config a))) (Address.port (FdAdapterConfig.destination (config a))))
    (TCPSegment.payload seg).

End FdAdapterBase.

(** ** TCP in UDP *)

Module TCPOverUDPSocketAdapter.

Definition t : Type := FdAdapterBase.t.

(** [datagram] is the one that [_sock.recv()] returns: its source address and
    its payload. *)
Definition read (a : t) (datagram : Address.t * bytes) : result (t * option TCPSegment.t) :=
  let '(source_address, payload) := datagram in
  if negb (FdAdapterBase.listening a) &&
     negb (bool_decide (source_address = FdAdapterConfig.destination (FdAdapterBase.config a)))
  then Ok (a, None)
  else
    '(seg, err) ← TCPSegment.parse TCPSegment.default (Buffer.of_string payload) 0;
    if negb (bool_decide (err = NoError)) then Ok (a, None)
    else if FdAdapterBase.listening a then
      if TCPHeader.syn (TCPSegment.header seg) && negb (TCPHeader.rst (TCPSegment.header seg))
      then Ok (FdAdapterBase.set_listening (FdAdapterBase.set_destination a source_address) false, Some seg)
      else Ok (a, None)
    else Ok (a, Some seg).

(** The segment, which [write] changes, and what it passes to [sendto]. *)
Definition write (a : t) (seg : TCPSegment.t) : result (TCPSegment.t * (Address.t * bytes)) :=
  let seg := FdAdapterBase.set_ports a seg in
  payload ← TCPSegment.serialize seg 0;
  Ok (seg, (FdAdapterConfig.destination (FdAdapterBase.config a), BufferList.concatenate payload)).

End TCPOverUDPSocketAdapter.

(** ** TCP in IPv4 *)

Module TCPOverIPv4Adapter.

(** Lines 55 to 70, once the segment is known to be for us. *)
Definition accept (a : FdAdapterBase.t) (ip_dgram : IPv4Datagram.t) (tcp_seg : TCPSegment.t)
    : FdAdapterBase.t * option TCPSegment.t :=
  let hder := TCPSegment.header tcp_seg in
  let source := FdAdapterConfig.source (FdAdapterBase.config a) in
  let from_peer a :=
    if negb (TCPHeader.sport hder =? Address.port (FdAdapterConfig.destination (FdAdapterBase.config a)))
    then (a, None) else (a, Some tcp_seg) in
  if FdAdapterBase.listening a then
    if TCPHeader.syn hder && negb (TCPHeader.rst hder) then
      let a := FdAdapterBase.set_source a
        (Address.mk (IPv4Header.dst (IPv4Datagram.header ip_dgram)) (Address.port source)) in
      let a := FdAdapterBase.set_destination a
        (Address.mk (IPv4Header.src (IPv4Datagram.header ip_dgram)) (TCPHeader.sport hder)) in
      from_peer (FdAdapterBase.set_listening a false)
    else (a, None)
  else from_peer a.

Definition unwrap_tcp_in_ip (a : FdAdapterBase.t) (ip_dgram : IPv4Datagram.t)
    : result (FdAdapterBase.t * option TCPSegment.t) :=
  let h := IPv4Datagram.header ip_dgram in
  let source := FdAdapterConfig.source (FdAdapterBase.config a) in
  let destination := FdAdapterConfig.destination (FdAdapterBase.config a) in
  if negb (FdAdapterBase.listening a) && negb (IPv4Header.dst h =? Address.ipv4_numeric source) then Ok (a, None)
  else if negb (FdAdapterBase.listening a) && negb (IPv4Header.src h =? Address.ipv4_numeric destination) then Ok (a, None)
  else if negb (IPv4Header.proto h =? IPv4Header.PROTO_TCP) then Ok (a, None)
  else
    payload ← BufferList.to_buffer (IPv4Datagram.payload ip_dgram);
    '(tcp_seg, err) ← TCPSegment.parse TCPSegment.default payload (IPv4Header.pseudo_cksum h);
    if negb (bool_decide (err = NoError)) then Ok (a, None)
    else if negb (TCPHeader.dport (TCPSegment.header tcp_seg) =? Address.port source) then Ok (a, None)
    else Ok (accept a ip_dgram tcp_seg).

(** Lines 80 to 84: the header of the datagram around a segment. *)
Definition header_for (a : FdAdapterBase.t) (seg : TCPSegment.t) : IPv4Header.t :=
  let h := IPv4Header.default in
  let len := w16 (IPv4Header.hlen h * 4 + TCPHeader.doff (TCPSegment.header seg) * 4 + Buffer.size (TCPSegment.payload seg)) in
  IPv4Header.mk (IPv4Header.ver h) (IPv4Header.hlen h) (IPv4Header.tos h) len (IPv4Header.id h) (IPv4Header.df h)
    (IPv4Header.mf h) (IPv4Header.offset h) (IPv4Header.ttl h) (IPv4Header.proto h) (IPv4Header.cksum h)
    (Address.ipv4_numeric (FdAdapterConfig.source (FdAdapterBase.config a)))
    (Address.ipv4_numeric (FdAdapterConfig.destination (FdAdapterBase.config a))).

(** The datagram, and the segment, which the function changes. *)
Definition wrap_tcp_in_ip (a : FdAdapterBase.t) (seg : TCPSegment.t) : result (TCPSegment.t * IPv4Datagram.t) :=
  let seg := FdAdapterBase.set_ports a seg in
  let h := header_for a seg in
  payload ← TCPSegment.serialize seg (IPv4Header.pseudo_cksum h);
  Ok (seg, IPv4Datagram.mk h payload).

End TCPOverIPv4Adapter.

Module TCPOverIPv4OverTunFdAdapter.

Definition t : Type := FdAdapterBase.t.

Definition read (a : t) (packet : bytes) : result (t * option TCPSegment.t) :=
  '(ip_dgram, err) ← IPv4Datagram.parse IPv4Datagram.default (Buffer.of_string packet);
  if negb (bool_decide (err = NoError)) then Ok (a, None)
  else TCPOverIPv4Adapter.unwrap_tcp_in_ip a ip_dgram.

Definition write (a : t) (seg : TCPSegment.t) : result (TCPSegment.t * bytes) :=
  '(seg, ip_dgram) ← TCPOverIPv4Adapter.wrap_tcp_in_ip a seg;
  packet ← IPv4Datagram.serialize ip_dgram;
  Ok (seg, BufferList.concatenate packet).

End TCPOverIPv4OverTunFdAdapter.

(** ** TCP in IPv4 in Ethernet *)

Module TCPOverIPv4OverEthernetAdapter.

Record t := mk {
  base : FdAdapterBase.t;
  interface : NetworkInterface.t;     (* _interface *)
  next_hop : Address.t;               (* _next_hop *)
}.

(** The adapter, and the frame that primes the device. *)
Definition new (eth_address : EthernetAddress) (ip_address next_hop : Address.t) : t * list bytes :=
  (mk FdAdapterBase.default (NetworkInterface.new eth_address (Address.ipv4_numeric ip_address)) next_hop,
   [BufferList.concatenate (EthernetFrame.serialize EthernetFrame.default)]).

(** The adapter, and the frames it writes to the device. *)
Definition send_pending (a : t) : t * list bytes :=
  (mk (base a) (NetworkInterface.with_frames (interface a) []) (next_hop a),
   (λ f, BufferList.concatenate (EthernetFrame.serialize f)) <$> NetworkInterface.frames_out (interface a)).

Definition read (a : t) (packet : bytes) : result (t * list bytes * option TCPSegment.t) :=
  '(frame, err) ← EthernetFrame.parse EthernetFrame.default (Buffer.of_string packet);
  if negb (bool_decide (err = NoError)) then Ok (a, [], None)
  else
    '(i, ip_dgram) ← NetworkInterface.recv_frame (interface a) frame;
    let '(a, out) := send_pending (mk (base a) i (next_hop a)) in
    match ip_dgram with
    | Some ip_dgram =>
        '(b, seg) ← TCPOverIPv4Adapter.unwrap_tcp_in_ip (base a) ip_dgram;
        Ok (mk b (interface a) (next_hop a), out, seg)
    | None => Ok (a, out, None)
    end.

Definition tick (a : t) (ms_since_last_tick : Z) : t * list bytes :=
  send_pending (mk (base a) (NetworkInterface.tick (interface a) ms_since_last_tick) (next_hop a)).

Definition write (a : t) (seg : TCPSegment.t) : result (t * list bytes * TCPSegment.t) :=
  '(seg, ip_dgram) ← TCPOverIPv4Adapter.wrap_tcp_in_ip (base a) seg;
  i ← NetworkInterface.send_datagram (interface a) ip_dgram (Address.ipv4_numeric (next_hop a));
  let '(a, out) := send_pending (mk (base a) i (next_hop a)) in
  Ok (a, out, seg).

End TCPOverIPv4OverEthernetAdapter.

(** ** Losses *)

(** What the template LossyFdAdapter needs of its argument: [In] is what the
    descriptor gives to a read, [Out] what a write hands to it. *)
Class FdAdapter (A In Out : Type) := mk_adapter {
  adapter_read : A → In → result (A * option TCPSegment.t);
  adapter_write : A → TCPSegment.t → result (TCPSegment.t * Out);
  adapter_config : A → FdAdapterConfig.t;
  adapter_set_listening : A → bool → A;
  adapter_tick : A → Z → A;
}.

(** The two types have the same members and different operations. *)
#[global] Typeclasses Opaque TCPOverUDPSocketAdapter.t TCPOverIPv4OverTunFdAdapter.t.

#[export] Instance udp_adapter : FdAdapter TCPOverUDPSocketAdapter.t (Address.t * bytes) (Address.t * bytes) :=
  mk_adapter _ _ _ TCPOverUDPSocketAdapter.read TCPOverUDPSocketAdapter.write
    FdAdapterBase.config FdAdapterBase.set_listening FdAdapterBase.tick.

#[export] Instance tun_adapter : FdAdapter TCPOverIPv4OverTunFdAdapter.t bytes bytes :=
  mk_adapter _ _ _ TCPOverIPv4OverTunFdAdapter.read TCPOverIPv4OverTunFdAdapter.write
    FdAdapterBase.config FdAdapterBase.set_listening FdAdapterBase.tick.

Module LossyFdAdapter.

Section lossy.
Context {A In Out : Type} `{FdAdapter A In Out}.

(** The generator [std::mt19937] of the C++ library: a draw and its next state. *)
Context {Rng : Type} (rand : Rng → Z * Rng).

Record t := mk {
  rng : Rng;           (* _rand *)
  adapter : A;         (* _adapter *)
}.

(** No number is drawn when the loss rate is zero. *)
Definition should_drop (a : t) (uplink : bool) : bool * t :=
  let cfg := adapter_config (adapter a) in
  let loss := if uplink then FdAdapterConfig.loss_rate_up cfg else FdAdapterConfig.loss_rate_dn cfg in
  if negb (loss =? 0) then
    let '(n, g) := rand (rng a) in (w16 n <? loss, mk g (adapter a))
  else (false, a).

Definition read (a : t) (i : In) : result (t * option TCPSegment.t) :=
  '(b, ret) ← adapter_read (adapter a) i;
  let '(drop, a) := should_drop (mk (rng a) b) false in
  Ok (a, if (drop : bool) then None else ret).

(** [None] when nothing is written. *)
Definition write (a : t) (seg : TCPSegment.t) : result (t * TCPSegment.t * option Out) :=
  let '(drop, a) := should_drop a true in
  if (drop : bool) then Ok (a, seg, None)
  else '(seg, out) ← adapter_write (adapter a) seg; Ok (a, seg, Some out).

Definition set_listening (a : t) (l : bool) : t := mk (rng a) (adapter_set_listening (adapter a) l).

Definition config (a : t) : FdAdapterConfig.t := adapter_config (adapter a).

Definition tick (a : t) (ms_since_last_tick : Z) : t := mk (rng a) (adapter_tick (adapter a) ms_since_last_tick).

End lossy.

Arguments t : clear implicits.

End LossyFdAdapter.
