(* ===== verification/AdaptersSpec.v ===== *)
(** * The adapters deliver what they send, and nothing else

    A segment written by one adapter and read by the adapter of its peer, through
    TCP, IPv4 and Ethernet headers and their checksums; what an adapter lets
    through; and the losses of the lossy wrapper. *)

From S2P Require Import Prelude Buffers Parsing Checksum Wrapping Segment Ipv4 Link Netif NetifSpec Addresses Adapters.

(** An address whose members hold values of their types. *)
Definition endpoint_ok (x : Address.t) : Prop := is_u32 (Address.ipv4_numeric x) ∧ is_u16 (Address.port x).

Definition source (a : FdAdapterBase.t) : Address.t := FdAdapterConfig.source (FdAdapterBase.config a).

Definition destination (a : FdAdapterBase.t) : Address.t := FdAdapterConfig.destination (FdAdapterBase.config a).

(** A segment that fits into a datagram. *)
Record fits (seg : TCPSegment.t) : Prop := mk_fits {
  fi_header : TCPHeader.ok (TCPSegment.header seg);
  fi_length : 20 + 4 * TCPHeader.doff (TCPSegment.header seg) + Buffer.size (TCPSegment.payload seg) <= 0xffff;
}.

(** [b] is open for a segment [seg] of [a]: it is connected to [a], or it listens
    on the port that [a] sends to and the segment opens a connection. *)
Definition hears (b a : FdAdapterBase.t) (seg : TCPSegment.t) : Prop :=
  if FdAdapterBase.listening b then
    Address.port (source b) = Address.port (destination a) ∧
    TCPHeader.syn (TCPSegment.header seg) = true ∧ TCPHeader.rst (TCPSegment.header seg) = false
  else source b = destination a ∧ destination b = source a.

(** The adapter once it has heard [a]. *)
Definition connected (b a : FdAdapterBase.t) : FdAdapterBase.t :=
  if FdAdapterBase.listening b then
    FdAdapterBase.set_listening (FdAdapterBase.set_destination (FdAdapterBase.set_source b (destination a)) (source a)) false
  else b.

(** The sum that seeds the checksum of a segment of [a]. *)
Definition pseudo (a : FdAdapterBase.t) (seg : TCPSegment.t) : Z :=
  IPv4Header.pseudo_cksum (TCPOverIPv4Adapter.header_for a (FdAdapterBase.set_ports a seg)).

(** What arrives: the segment with the ports of [a] and the checksum filled in. *)
Definition stamped (init : Z) (a : FdAdapterBase.t) (seg : TCPSegment.t) : TCPHeader.t :=
  let seg := FdAdapterBase.set_ports a seg in
  TCPHeader.set_cksum (TCPSegment.header seg) (segment_cksum seg init).

Lemma pseudo_cksum_bound h :
  is_u32 (IPv4Header.src h) → is_u32 (IPv4Header.dst h) → is_u8 (IPv4Header.proto h) →
  0 <= IPv4Header.pseudo_cksum h <= 0xffff * 5 + 0xff.
Proof.
  intros Hs Hd Hp. unfold IPv4Header.pseudo_cksum.
  assert (Hhalf : ∀ x, is_u32 x → 0 <= Z.shiftr x 16 + Z.land x 0xffff <= 0xffff * 2).
  { intros x Hx. change 0xffff with (Z.ones 16). rewrite Z.shiftr_div_pow2, Z.land_ones by lia.
    change (Z.ones 16) with 0xffff. change (2 ^ 16) with 0x10000. zmod_lia. }
  pose proof (Hhalf _ Hs). pose proof (Hhalf _ Hd).
  assert (is_u16 (IPv4Header.payload_length h)) by apply w16_range.
  set (x := Z.shiftr (IPv4Header.src h) 16 + _) in *. set (y := Z.shiftr (IPv4Header.dst h) 16 + _) in *.
  clearbody x y. rewrite (w32_small x), (w32_small y) by (unfold_w; lia).
  rewrite (w32_small (x + y)) by (unfold_w; lia). wsmall_in Hp.
  rewrite (w32_small (x + y + _)) by (unfold_w; lia). rewrite w32_small; unfold_w; lia.
Qed.

Lemma set_ports_ok a seg :
  endpoint_ok (source a) → endpoint_ok (destination a) → fits seg → fits (FdAdapterBase.set_ports a seg).
Proof. intros [_ Hs] [_ Hd] [[] Hl]. split; [split|]; done. Qed.

(** The datagram of a segment: well formed, and what its peer reads from it. *)
Lemma wrap_core a seg :
  endpoint_ok (source a) → endpoint_ok (destination a) → fits seg →
  ∃ d, TCPOverIPv4Adapter.wrap_tcp_in_ip a seg = Ok (FdAdapterBase.set_ports a seg, d) ∧ dgram_ok d ∧
    IPv4Datagram.header d = TCPOverIPv4Adapter.header_for a (FdAdapterBase.set_ports a seg) ∧
    ∀ q, Buffer.ok q → Buffer.str q = BufferList.concatenate (IPv4Datagram.payload d) →
      ∃ p, TCPSegment.parse TCPSegment.default q (pseudo a seg) =
          Ok (TCPSegment.mk (stamped (pseudo a seg) a seg) p, NoError) ∧
        Buffer.str p = Buffer.str (TCPSegment.payload seg).
Proof.
  intros Hs Hd Hf. pose proof (set_ports_ok a seg Hs Hd Hf) as [Hok Hlen].
  set (seg' := FdAdapterBase.set_ports a seg) in *. set (h := TCPOverIPv4Adapter.header_for a seg').
  destruct Hs as [Hs1 Hs2]. destruct Hd as [Hd1 Hd2].
  pose proof (TCPHeader.ok_doff _ Hok) as Hdo. unfold Buffer.size in Hlen.
  pose proof (blen_nonneg (Buffer.str (TCPSegment.payload seg'))) as Hn.
  assert (Hl : IPv4Header.len h = 20 + 4 * TCPHeader.doff (TCPSegment.header seg') + blen (Buffer.str (TCPSegment.payload seg'))).
  { unfold h, TCPOverIPv4Adapter.header_for, Buffer.size. cbn [IPv4Header.len].
    change (IPv4Header.hlen IPv4Header.default) with 5. rewrite w16_small; [lia|]. unfold_w. lia. }
  pose proof (pseudo_cksum_bound h Hs1 Hd1 ltac:(range_compute)) as Hp.
  pose proof (word_sum_bounds (Buffer.str (TCPSegment.payload seg'))) as Hw.
  destruct (segment_parse_core seg' TCPSegment.default (IPv4Header.pseudo_cksum h) Hok) as (l & El & Hll & Hparse).
  { unfold_w. lia. }
  { unfold Buffer.size. unfold_w. lia. }
  { unfold_w. lia. }
  eexists. unfold TCPOverIPv4Adapter.wrap_tcp_in_ip. fold seg'. fold h. rewrite El.
  split; [done|]. split; [|split; [done|]].
  - assert (Hh : IPv4Header.hlen h = 5) by done. split; cbn [IPv4Datagram.header IPv4Datagram.payload].
    + assert (is_u16 (IPv4Header.len h)) by (rewrite Hl; unfold_w; lia).
      clear - H Hs1 Hd1. split; try done; range_compute.
    + lia.
    + rewrite Hll, Hl, Hh. unfold Buffer.size. lia.
  - intros q Hq Hqs. destruct (Hparse q Hq Hqs) as (p & Hpp & Hps). by exists p.
Qed.

Lemma unwrap_core a b seg d q :
  hears b a seg →
  IPv4Datagram.header d = IPv4Header.set_cksum (TCPOverIPv4Adapter.header_for a (FdAdapterBase.set_ports a seg))
    (IPv4Header.cksum (IPv4Datagram.header d)) →
  IPv4Datagram.payload d = BufferList.of_buffer q →
  ∀ p, TCPSegment.parse TCPSegment.default q (pseudo a seg) = Ok (TCPSegment.mk (stamped (pseudo a seg) a seg) p, NoError) →
  TCPOverIPv4Adapter.unwrap_tcp_in_ip b d =
    Ok (connected b a, Some (TCPSegment.mk (stamped (pseudo a seg) a seg) p)).
Proof.
  intros Hh Hd Hq p Hp. unfold TCPOverIPv4Adapter.unwrap_tcp_in_ip. rewrite Hq.
  assert (Hps : IPv4Header.pseudo_cksum (IPv4Datagram.header d) = pseudo a seg) by (rewrite Hd; done).
  assert (Hpr : IPv4Header.proto (IPv4Datagram.header d) = IPv4Header.PROTO_TCP) by (rewrite Hd; done).
  assert (Hsrc : IPv4Header.src (IPv4Datagram.header d) = Address.ipv4_numeric (source a)) by (rewrite Hd; done).
  assert (Hdst : IPv4Header.dst (IPv4Datagram.header d) = Address.ipv4_numeric (destination a)) by (rewrite Hd; done).
  rewrite Hps, Hpr, Z.eqb_refl. unfold hears, connected, source, destination in *.
  destruct (FdAdapterBase.listening b) eqn:El; cbn [negb andb] in *.
  - destruct Hh as (Hport & Hsyn & Hrst). cbn [BufferList.to_buffer BufferList.of_buffer mbind result_bind].
    rewrite Hp. cbn [mbind result_bind]. rewrite bool_decide_true by done. cbn [negb].
    change (TCPHeader.dport _) with (Address.port (FdAdapterConfig.destination (FdAdapterBase.config a))).
    rewrite Hport, Z.eqb_refl. cbn [negb]. f_equal. unfold TCPOverIPv4Adapter.accept. rewrite El, Hsrc, Hdst.
    cbn -[Z.eqb]. change (FdAdapterBase.config a) with (FdAdapterBase.cfg a) in *.
    change (FdAdapterBase.config b) with (FdAdapterBase.cfg b) in *. rewrite Hsyn, Hrst. cbn -[Z.eqb].
    rewrite Z.eqb_refl. cbn [negb]. rewrite Hport.
    by destruct (FdAdapterConfig.source (FdAdapterBase.cfg a)), (FdAdapterConfig.destination (FdAdapterBase.cfg a)).
  - destruct Hh as [Hs' Hd']. rewrite Hs', Hd', Hsrc, Hdst, !Z.eqb_refl. cbn [negb].
    cbn [BufferList.to_buffer BufferList.of_buffer mbind result_bind].
    rewrite Hp. cbn [mbind result_bind]. rewrite bool_decide_true by done. cbn [negb].
    change (TCPHeader.dport _) with (Address.port (FdAdapterConfig.destination (FdAdapterBase.config a))).
    rewrite Z.eqb_refl. cbn [negb]. unfold TCPOverIPv4Adapter.accept. rewrite El, Hd'.
    change (TCPHeader.sport _) with (Address.port (FdAdapterConfig.source (FdAdapterBase.config a))).
    by rewrite Z.eqb_refl.
Qed.

(** Over a TUN device: the packet that one adapter writes for a segment is
    read by any adapter that is open for it as the same segment, ports and
    checksum filled in; an adapter that listened takes over the two addresses of
    the datagram and listens no more. *)
Theorem tun_adapter_delivers a b seg :
  endpoint_ok (source a) → endpoint_ok (destination a) → fits seg → hears b a seg →
  ∃ packet p, TCPOverIPv4OverTunFdAdapter.write a seg = Ok (FdAdapterBase.set_ports a seg, packet) ∧
    TCPOverIPv4OverTunFdAdapter.read b packet =
      Ok (connected b a, Some (TCPSegment.mk (stamped (pseudo a seg) a seg) p)) ∧
    Buffer.str p = Buffer.str (TCPSegment.payload seg).
Proof.
  intros Hs Hd Hf Hh. destruct (wrap_core a seg Hs Hd Hf) as (d & Ew & [Hok Hle Hlen] & Eh & Hparse).
  destruct (datagram_parse_core d IPv4Datagram.default Hok Hle Hlen) as (l & El & Hll & Hread).
  destruct (Hread (Buffer.of_string (BufferList.concatenate l))) as (q & _ & Hq & Hqo & Hqs).
  { apply buffer_of_string_ok. rewrite Hll. pose proof (IPv4Header.ok_len _ Hok). unfold_w. lia. }
  { apply buffer_str_of_string. }
  destruct (Hparse q Hqo Hqs) as (p & Hp & Hps). exists (BufferList.concatenate l), p.
  unfold TCPOverIPv4OverTunFdAdapter.write, TCPOverIPv4OverTunFdAdapter.read. rewrite Ew. cbn [mbind result_bind].
  rewrite El. split; [done|]. split; [|done]. rewrite Hq. cbn [mbind result_bind].
  rewrite bool_decide_true by done. cbn [negb].
  apply (unwrap_core a b seg _ q); [done| |done|done]. cbn [IPv4Datagram.header]. by rewrite Eh.
Qed.

Definition client : FdAdapterBase.t :=
  FdAdapterBase.mk (FdAdapterConfig.mk (Address.mk 0x0a000001 4321) (Address.mk 0x0a000002 80) 0 0) false.

Definition listener : FdAdapterBase.t :=
  FdAdapterBase.mk (FdAdapterConfig.mk (Address.mk 0 80) (Address.mk 0 0) 0 0) true.

Definition syn_segment : TCPSegment.t :=
  TCPSegment.mk (TCPHeader.set_syn TCPHeader.default true) (Buffer.of_string [Byte.x61]).

Lemma syn_fits : fits syn_segment.
Proof. split; [split|]; range_compute. Qed.

Lemma tun_adapter_delivers_witness :
  ∃ packet b' seg, TCPOverIPv4OverTunFdAdapter.write client syn_segment = Ok (FdAdapterBase.set_ports client syn_segment, packet) ∧
    TCPOverIPv4OverTunFdAdapter.read listener packet = Ok (b', Some seg) ∧
    source b' = Address.mk 0x0a000002 80 ∧ destination b' = Address.mk 0x0a000001 4321 ∧
    Buffer.str (TCPSegment.payload seg) = [Byte.x61].
Proof.
  destruct (tun_adapter_delivers client listener syn_segment) as (packet & p & Hw & Hr & Hp).
  - split; range_compute.
  - split; range_compute.
  - exact syn_fits.
  - split; [reflexivity|split; reflexivity].
  - eexists packet, _, _. split; [exact Hw|]. split; [exact Hr|]. split; [reflexivity|]. split; [reflexivity|exact Hp].
Defined.

(** C17. Over Ethernet: when the sending adapter knows the Ethernet address of
    its next hop, a segment leaves in exactly one frame, and the adapter with
    that address, open for the segment, reads from the frame the same segment,
    ports and checksum filled in, and sends nothing. *)
Theorem ethernet_adapter_delivers (a b : TCPOverIPv4OverEthernetAdapter.t) seg :
  let ia := TCPOverIPv4OverEthernetAdapter.interface a in
  let ib := TCPOverIPv4OverEthernetAdapter.interface b in
  let fa := TCPOverIPv4OverEthernetAdapter.base a in
  let fb := TCPOverIPv4OverEthernetAdapter.base b in
  endpoint_ok (source fa) → endpoint_ok (destination fa) → fits seg → hears fb fa seg →
  iinv ia → NetworkInterface.frames_out ia = [] → NetworkInterface.frames_out ib = [] →
  address_ok (NetworkInterface.ethernet_address ib) →
  resolved ia (Address.ipv4_numeric (TCPOverIPv4OverEthernetAdapter.next_hop a)) = Some (NetworkInterface.ethernet_address ib) →
  ∃ frame p, TCPOverIPv4OverEthernetAdapter.write a seg = Ok (a, [frame], FdAdapterBase.set_ports fa seg) ∧
    TCPOverIPv4OverEthernetAdapter.read b frame =
      Ok (TCPOverIPv4OverEthernetAdapter.mk (connected fb fa) ib (TCPOverIPv4OverEthernetAdapter.next_hop b), [],
          Some (TCPSegment.mk (stamped (pseudo fa seg) fa seg) p)) ∧
    Buffer.str p = Buffer.str (TCPSegment.payload seg).
Proof.
  destruct a as [fa ia na], b as [fb ib nb]. cbn. intros Hs Hd Hf Hh Hi Hfa Hfb Hb Hr.
  destruct (wrap_core fa seg Hs Hd Hf) as (d & Ew & Hok & Eh & Hparse).
  destruct (link_delivery_core ia ib d _ Hi Hok Hr Hb) as (f & fr & q & Hsend & Hfr & Hrecv & Hqo & Hqs).
  destruct (Hparse q Hqo Hqs) as (p & Hp & Hps).
  exists (BufferList.concatenate (EthernetFrame.serialize f)), p.
  unfold TCPOverIPv4OverEthernetAdapter.write, TCPOverIPv4OverEthernetAdapter.read. cbn [TCPOverIPv4OverEthernetAdapter.base
    TCPOverIPv4OverEthernetAdapter.interface TCPOverIPv4OverEthernetAdapter.next_hop].
  rewrite Ew. cbn [mbind result_bind]. rewrite Hsend. cbn [mbind result_bind]. rewrite Hfa. split.
  { unfold TCPOverIPv4OverEthernetAdapter.send_pending. simpl. do 4 f_equal. destruct ia. simpl in *. by rewrite Hfa. }
  split; [|done]. rewrite Hfr. cbn [mbind result_bind]. rewrite bool_decide_true by done. cbn [negb].
  rewrite Hrecv. cbn [mbind result_bind]. unfold TCPOverIPv4OverEthernetAdapter.send_pending.
  cbn [TCPOverIPv4OverEthernetAdapter.base TCPOverIPv4OverEthernetAdapter.interface TCPOverIPv4OverEthernetAdapter.next_hop].
  rewrite (unwrap_core fa fb seg _ q Hh) with (p := p); [|by rewrite <- Eh|done|done].
  cbn [mbind result_bind]. rewrite Hfb. do 4 f_equal. destruct ib. simpl in *. by rewrite Hfb.
Qed.

Definition sending : TCPOverIPv4OverEthernetAdapter.t :=
  TCPOverIPv4OverEthernetAdapter.mk client knowing_a (Address.mk 0x0a000002 0).

Definition receiving : TCPOverIPv4OverEthernetAdapter.t :=
  TCPOverIPv4OverEthernetAdapter.mk listener host_b (Address.mk 0x0a000001 0).

Lemma ethernet_adapter_delivers_witness :
  ∃ frame b' seg, TCPOverIPv4OverEthernetAdapter.write sending syn_segment =
      Ok (sending, [frame], FdAdapterBase.set_ports client syn_segment) ∧
    TCPOverIPv4OverEthernetAdapter.read receiving frame = Ok (b', [], Some seg) ∧
    Buffer.str (TCPSegment.payload seg) = [Byte.x61].
Proof.
  destruct (ethernet_adapter_delivers sending receiving syn_segment) as (frame & p & Hw & Hr & Hp).
  - split; range_compute.
  - split; range_compute.
  - exact syn_fits.
  - split; [reflexivity|split; reflexivity].
  - apply (learn_spec host_a 0x0a000002 mac_b host_a_inv).
  - reflexivity.
  - reflexivity.
  - reflexivity.
  - reflexivity.
  - eexists frame, _, _. split; [exact Hw|]. split; [exact Hr|exact Hp].
Defined.

(** C36. What [unwrap_tcp_in_ip] lets through: a segment comes out only of a
    TCP datagram whose checksum holds and which goes to the address and port of
    the adapter and comes from the address and port of its peer; a listening
    adapter takes both from the datagram, and only with a SYN that is no reset.
    Whenever no segment comes out, the adapter is unchanged. *)
Theorem unwrap_tcp_in_ip_filters a d a' r :
  TCPOverIPv4Adapter.unwrap_tcp_in_ip a d = Ok (a', r) →
  match r with
  | None => a' = a
  | Some seg =>
      let h := IPv4Datagram.header d in
      IPv4Header.proto h = IPv4Header.PROTO_TCP ∧
      (∃ q, BufferList.to_buffer (IPv4Datagram.payload d) = Ok q ∧
        InternetChecksum.value (InternetChecksum.add (InternetChecksum.new (IPv4Header.pseudo_cksum h)) (Buffer.str q)) = 0) ∧
      Address.ipv4_numeric (source a') = IPv4Header.dst h ∧
      Address.port (source a') = TCPHeader.dport (TCPSegment.header seg) ∧
      Address.ipv4_numeric (destination a') = IPv4Header.src h ∧
      Address.port (destination a') = TCPHeader.sport (TCPSegment.header seg) ∧
      FdAdapterBase.listening a' = false ∧
      if FdAdapterBase.listening a
      then TCPHeader.syn (TCPSegment.header seg) = true ∧ TCPHeader.rst (TCPSegment.header seg) = false ∧
           Address.port (source a') = Address.port (source a)
      else a' = a
  end.
Proof.
  unfold TCPOverIPv4Adapter.unwrap_tcp_in_ip. intros H.
  destruct (negb (FdAdapterBase.listening a) && negb (_ =? Address.ipv4_numeric (FdAdapterConfig.source _))) eqn:E1; [by simplify_eq|].
  destruct (negb (FdAdapterBase.listening a) && negb (_ =? Address.ipv4_numeric (FdAdapterConfig.destination _))) eqn:E2; [by simplify_eq|].
  destruct (negb (IPv4Header.proto _ =? _)) eqn:E3; [by simplify_eq|].
  apply result_bind_Ok in H as (q & Eq & H). apply result_bind_Ok in H as ([seg err] & Ep & H).
  destruct (bool_decide_reflect (err = NoError)) as [->|]; cbn [negb] in H; [|by simplify_eq].
  destruct (negb (TCPHeader.dport _ =? _)) eqn:E4; [by simplify_eq|].
  assert (Hck : InternetChecksum.value (InternetChecksum.add (InternetChecksum.new
    (IPv4Header.pseudo_cksum (IPv4Datagram.header d))) (Buffer.str q)) = 0).
  { unfold TCPSegment.parse in Ep. by destruct (Z.eqb_spec (InternetChecksum.value
      (InternetChecksum.add (InternetChecksum.new (IPv4Header.pseudo_cksum (IPv4Datagram.header d))) (Buffer.str q))) 0). }
  injection H as H. unfold TCPOverIPv4Adapter.accept in H.
  apply negb_false_iff, Z.eqb_eq in E3, E4. unfold source, destination.
  destruct (FdAdapterBase.listening a) eqn:El.
  - destruct (TCPHeader.syn _ && _) eqn:Es; [|by simplify_eq]. bool_to_prop. cbn -[Z.eqb] in H.
    rewrite Z.eqb_refl in H. cbn [negb] in H. injection H as <- <-. cbn. split_and!; try done. eauto.
  - cbn [negb andb] in *. apply negb_false_iff, Z.eqb_eq in E1, E2.
    destruct (TCPHeader.sport _ =? _) eqn:E5; cbn [negb] in H; injection H as <- <-; [|done].
    apply Z.eqb_eq in E5. split_and!; try done. eauto.
Qed.

(** The SYN of the client, as its peer has it after parsing. *)
Definition syn_datagram : IPv4Datagram.t :=
  match TCPOverIPv4Adapter.wrap_tcp_in_ip client syn_segment with
  | Ok (_, d) => IPv4Datagram.mk (IPv4Datagram.header d) (BufferList.of_string (BufferList.concatenate (IPv4Datagram.payload d)))
  | Err _ => IPv4Datagram.default
  end.

Lemma unwrap_tcp_in_ip_filters_witness :
  ∃ a' seg, TCPOverIPv4Adapter.unwrap_tcp_in_ip listener syn_datagram = Ok (a', Some seg) ∧
    Address.port (source a') = TCPHeader.dport (TCPSegment.header seg) ∧
    Address.port (destination a') = TCPHeader.sport (TCPSegment.header seg) ∧ FdAdapterBase.listening a' = false.
Proof.
  assert (E : ∃ a' seg, TCPOverIPv4Adapter.unwrap_tcp_in_ip listener syn_datagram = Ok (a', Some seg)).
  { eexists _, _. vm_compute. reflexivity. }
  destruct E as (a' & seg & E). exists a', seg. split; [exact E|].
  destruct (unwrap_tcp_in_ip_filters listener syn_datagram a' (Some seg) E) as (_ & _ & _ & H1 & _ & H2 & H3 & _).
  split; [exact H1|]. split; [exact H2|exact H3].
Defined.

(** Over UDP: what one adapter passes to [sendto] for a segment, received
    from its own address, is read by the adapter of its peer as the same segment;
    an adapter that listened takes the sender of a SYN as its peer. *)
Theorem udp_adapter_delivers a b from seg :
  endpoint_ok (source a) → endpoint_ok (destination a) → fits seg →
  (if FdAdapterBase.listening b
   then TCPHeader.syn (TCPSegment.header seg) = true ∧ TCPHeader.rst (TCPSegment.header seg) = false
   else destination b = from) →
  ∃ payload p, TCPOverUDPSocketAdapter.write a seg = Ok (FdAdapterBase.set_ports a seg, (destination a, payload)) ∧
    TCPOverUDPSocketAdapter.read b (from, payload) =
      Ok (if FdAdapterBase.listening b
          then FdAdapterBase.set_listening (FdAdapterBase.set_destination b from) false else b,
          Some (TCPSegment.mk (stamped 0 a seg) p)) ∧
    Buffer.str p = Buffer.str (TCPSegment.payload seg).
Proof.
  intros Hs Hd Hf Hb. pose proof (set_ports_ok a seg Hs Hd Hf) as [Hok Hlen].
  pose proof (TCPHeader.ok_doff _ Hok) as Hdo. unfold Buffer.size in Hlen.
  pose proof (blen_nonneg (Buffer.str (TCPSegment.payload (FdAdapterBase.set_ports a seg)))) as Hn.
  pose proof (word_sum_bounds (Buffer.str (TCPSegment.payload (FdAdapterBase.set_ports a seg)))) as Hw.
  destruct (segment_parse_core (FdAdapterBase.set_ports a seg) TCPSegment.default 0 Hok) as (l & El & Hll & Hparse).
  { range_compute. }
  { unfold Buffer.size. unfold_w. lia. }
  { unfold_w. lia. }
  destruct (Hparse (Buffer.of_string (BufferList.concatenate l))) as (p & Hp & Hps).
  { apply buffer_of_string_ok. rewrite Hll. unfold Buffer.size. unfold_w. lia. }
  { apply buffer_str_of_string. }
  exists (BufferList.concatenate l), p.
  unfold TCPOverUDPSocketAdapter.write, TCPOverUDPSocketAdapter.read. rewrite El. split; [done|]. split; [|done].
  unfold destination in Hb. destruct (FdAdapterBase.listening b) eqn:Elb; cbn [negb andb].
  - destruct Hb as [Hsyn Hrst]. rewrite Hp. cbn [mbind result_bind]. rewrite bool_decide_true by done. cbn [negb].
    cbn. by rewrite Hsyn, Hrst.
  - rewrite bool_decide_true by done. cbn [negb]. rewrite Hp. cbn [mbind result_bind]. by rewrite bool_decide_true.
Qed.

Lemma udp_adapter_delivers_witness :
  ∃ payload b' seg, TCPOverUDPSocketAdapter.write client syn_segment =
      Ok (FdAdapterBase.set_ports client syn_segment, (Address.mk 0x0a000002 80, payload)) ∧
    TCPOverUDPSocketAdapter.read listener (Address.mk 0x0a000001 4321, payload) = Ok (b', Some seg) ∧
    destination b' = Address.mk 0x0a000001 4321 ∧ Buffer.str (TCPSegment.payload seg) = [Byte.x61].
Proof.
  destruct (udp_adapter_delivers client listener (Address.mk 0x0a000001 4321) syn_segment) as (payload & p & Hw & Hr & Hp).
  - split; range_compute.
  - split; range_compute.
  - exact syn_fits.
  - split; reflexivity.
  - eexists payload, _, _. split; [exact Hw|]. split; [exact Hr|]. split; [reflexivity|exact Hp].
Defined.

(** ** Losses *)

Section lossy.
Context {A In Out : Type} `{FdAdapter A In Out} {Rng : Type} (rand : Rng → Z * Rng).

(** The next draw drops a packet under the loss rate [loss]. *)
Definition unlucky (loss : Z) (g : Rng) : bool := negb (loss =? 0) && (w16 (rand g).1 <? loss).

Definition drawn (loss : Z) (g : Rng) : Rng := if loss =? 0 then g else (rand g).2.

(** A lossy adapter does what its adapter does, for every adapter and every
    generator, except that a packet may be lost: a read hands its packet to the
    adapter in any case and forgets the segment when the draw is below the loss
    rate; a write is skipped when its draw is. With loss rate zero no number is
    drawn and nothing is lost. *)
Lemma lossy_adapter_only_drops (a : LossyFdAdapter.t A Rng) (i : In) (seg : TCPSegment.t) :
  LossyFdAdapter.read rand a i =
    ('(b, r) ← adapter_read (LossyFdAdapter.adapter a) i;
     let loss := FdAdapterConfig.loss_rate_dn (adapter_config b) in
     Ok (LossyFdAdapter.mk (drawn loss (LossyFdAdapter.rng a)) b,
         if unlucky loss (LossyFdAdapter.rng a) then None else r)) ∧
  let loss := FdAdapterConfig.loss_rate_up (adapter_config (LossyFdAdapter.adapter a)) in
  let a' := LossyFdAdapter.mk (drawn loss (LossyFdAdapter.rng a)) (LossyFdAdapter.adapter a) in
  LossyFdAdapter.write rand a seg =
    if unlucky loss (LossyFdAdapter.rng a) then Ok (a', seg, None)
    else '(seg', out) ← adapter_write (LossyFdAdapter.adapter a) seg; Ok (a', seg', Some out).
Proof.
  destruct a as [g b]. unfold LossyFdAdapter.read, LossyFdAdapter.write, LossyFdAdapter.should_drop, unlucky, drawn.
  cbn [LossyFdAdapter.rng LossyFdAdapter.adapter]. split.
  - destruct (adapter_read b i) as [[b' r]|e]; cbn [mbind result_bind]; [|done].
    by destruct (Z.eqb_spec (FdAdapterConfig.loss_rate_dn (adapter_config b')) 0), (rand g).
  - by destruct (Z.eqb_spec (FdAdapterConfig.loss_rate_up (adapter_config b)) 0), (rand g).
Qed.

End lossy.
