(* ===== verification/Options.v ===== *)
(** * Command lines: get_config of apps/tcp_udp.cc, apps/tcp_ipv4.cc and apps/tcp_ip_ethernet.cc

    The three programs read their options in the same way, with different sets of
    them. The arguments from [curr] on are a list; [strtol], the product of
    [strtof] with the largest rate, and the resolver are parameters; an
    exit is its code and message, and the usage text is in Usage.v. *)

From S2P Require Import Prelude Buffers Sender Addresses Adapters.

(** [strncmp(a, b, n) == 0] on strings without zeros: the first [n] characters,
    the terminating zero included. *)
Definition strncmp_eq (a b : bytes) (n : nat) : bool := bool_decide (take n (a ++ [Byte.x00]) = take n (b ++ [Byte.x00])).

Definition opt (s : string) : bytes := String.list_byte_of_string s.
Arguments opt : simpl never.

(** [exit(code)] after the usage and a message. *)
Record exit_status := mk_exit {
  code : Z;
  message : bytes;
}.

(** What the loop over the options sets. *)
Record options := mk_options {
  c_fsm : TCPConfig.t;
  loss_rate_dn : Z;
  loss_rate_up : Z;
  listen : bool;
  source_address : bytes;
  source_port : bytes;
  next_hop_address : bytes;
  device : option bytes;
}.

Definition set_fsm (o : options) (c : TCPConfig.t) : options :=
  mk_options c (loss_rate_dn o) (loss_rate_up o) (listen o) (source_address o) (source_port o) (next_hop_address o) (device o).

Definition set_listen (o : options) : options :=
  mk_options (c_fsm o) (loss_rate_dn o) (loss_rate_up o) true (source_address o) (source_port o) (next_hop_address o) (device o).

Definition set_loss_up (o : options) (z : Z) : options :=
  mk_options (c_fsm o) (loss_rate_dn o) z (listen o) (source_address o) (source_port o) (next_hop_address o) (device o).

Definition set_loss_dn (o : options) (z : Z) : options :=
  mk_options (c_fsm o) z (loss_rate_up o) (listen o) (source_address o) (source_port o) (next_hop_address o) (device o).

Definition set_source_address (o : options) (s : bytes) : options :=
  mk_options (c_fsm o) (loss_rate_dn o) (loss_rate_up o) (listen o) s (source_port o) (next_hop_address o) (device o).

Definition set_source_port (o : options) (s : bytes) : options :=
  mk_options (c_fsm o) (loss_rate_dn o) (loss_rate_up o) (listen o) (source_address o) s (next_hop_address o) (device o).

Definition set_next_hop (o : options) (s : bytes) : options :=
  mk_options (c_fsm o) (loss_rate_dn o) (loss_rate_up o) (listen o) (source_address o) (source_port o) s (device o).

Definition set_device (o : options) (s : bytes) : options :=
  mk_options (c_fsm o) (loss_rate_dn o) (loss_rate_up o) (listen o) (source_address o) (source_port o) (next_hop_address o) (Some s).

Section parse.
Context (strtol loss_rate : bytes → Z) (resolve : bytes → bytes → result Address.t).

Definition set_window (o : options) (s : bytes) : options :=
  let c := c_fsm o in
  set_fsm o (TCPConfig.mk (TCPConfig.rt_timeout c) (w64 (strtol s)) (TCPConfig.send_capacity c) (TCPConfig.fixed_isn c)).

Definition set_timeout (o : options) (s : bytes) : options :=
  let c := c_fsm o in
  set_fsm o (TCPConfig.mk (w16 (strtol s)) (TCPConfig.recv_capacity c) (TCPConfig.send_capacity c) (TCPConfig.fixed_isn c)).

(** One option of a program: its name, the number of characters compared, and
    what it does; [Value] is an option with an argument, and the message when the
    argument is missing. *)
Inductive effect :=
  | Flag (f : options → options)
  | Value (err : string) (f : options → bytes → options)
  | Help.

Definition known : Type := list (string * effect).

Fixpoint find_option (l : known) (arg : bytes) : option effect :=
  match l with
  | [] => None
  | (name, e) :: l => if strncmp_eq (opt name) arg 3 then Some e else find_option l arg
  end.

(** The loop, with the arguments from [curr] on. [check_argc] wants three of them
    after the option. *)
Fixpoint parse_loop (fuel : nat) (l : known) (o : options) (args : list bytes) : result (exit_status + options * list bytes) :=
  if (length args <=? 2)%nat then Ok (inr (o, args))
  else
    match fuel, args with
    | S fuel, arg :: rest =>
        match find_option l arg with
        | Some (Flag f) => parse_loop fuel l (f o) rest
        | Some (Value err f) =>
            if (length args <=? 3)%nat then Ok (inl (mk_exit 1 (opt err)))
            else
              match rest with
              | v :: rest => parse_loop fuel l (f o v) rest
              | [] => Err (undefined_behaviour "argv past its end")
              end
        | Some Help => Ok (inl (mk_exit 0 []))
        | None => Ok (inl (mk_exit 1 (opt "ERROR: unrecognized option " ++ arg)))
        end
    | _, _ => Err out_of_fuel
    end.

(** The two arguments at [curr]. *)
Definition positional (args : list bytes) : result (bytes * bytes) :=
  match args with
  | a :: b :: _ => Ok (a, b)
  | _ => Err (undefined_behaviour "argv past its end")
  end.

Definition common : known :=
  [("-w", Value "ERROR: -w requires one argument." set_window); ("-t", Value "ERROR: -t requires one argument." set_timeout)]%string.

Definition losses : known :=
  [("-Lu", Value "ERROR: -Lu requires one argument." (λ o s, set_loss_up o (w16 (loss_rate s))));
   ("-Ld", Value "ERROR: -Lu requires one argument." (λ o s, set_loss_dn o (w16 (loss_rate s))))]%string.

Definition source : known :=
  [("-a", Value "ERROR: -a requires one argument." set_source_address); ("-s", Value "ERROR: -s requires one argument." set_source_port)]%string.

(** [default] are the defaults of the programs; [port] is the random port. *)
Definition default (address : string) (port : bytes) (next_hop : string) : options :=
  mk_options TCPConfig.default (FdAdapterConfig.loss_rate_dn FdAdapterConfig.default) (FdAdapterConfig.loss_rate_up FdAdapterConfig.default)
    false (opt address) port (opt next_hop) None.

(** *** tcp_udp *)

Definition udp_options : known := [("-l"%string, Flag set_listen)] ++ common ++ losses ++ [("-h"%string, Help)].

(** [argv] without the name of the program; the last two arguments are used. *)
Definition udp_get_config (argv : list bytes) : result (exit_status + TCPConfig.t * FdAdapterConfig.t * bool) :=
  parsed ← parse_loop (length argv) udp_options (default "" [] "") argv;
  match parsed with
  | inl e => Ok (inl e)
  | inr (o, _) =>
      '(host, port) ← positional (drop (length argv - 2) argv);
      c_filt ← (if listen o then
                  s ← resolve (opt "0") port;
                  Ok (FdAdapterConfig.mk s (FdAdapterConfig.destination FdAdapterConfig.default) (loss_rate_dn o) (loss_rate_up o))
                else
                  d ← resolve host port;
                  Ok (FdAdapterConfig.mk (FdAdapterConfig.source FdAdapterConfig.default) d (loss_rate_dn o) (loss_rate_up o)));
      Ok (inr (c_fsm o, c_filt, listen o))
  end.

(** *** tcp_ipv4 *)

Definition ipv4_options : known :=
  [("-l"%string, Flag set_listen)] ++ source ++ common ++ [("-d"%string, Value "ERROR: -t requires one argument." set_device)] ++ losses ++
  [("-h"%string, Help)].

Definition ipv4_get_config (port : bytes) (argv : list bytes)
    : result (exit_status + TCPConfig.t * FdAdapterConfig.t * bool * option bytes) :=
  parsed ← parse_loop (length argv) ipv4_options (default "169.254.144.9" port "") argv;
  match parsed with
  | inl e => Ok (inl e)
  | inr (o, args) =>
      '(host, service) ← positional args;
      if listen o then
        s ← resolve (opt "0") service;
        if Address.port s =? 0 then Ok (inl (mk_exit 1 (opt "ERROR: listen port cannot be zero in server mode.")))
        else
          Ok (inr (c_fsm o, FdAdapterConfig.mk s (FdAdapterConfig.destination FdAdapterConfig.default) (loss_rate_dn o) (loss_rate_up o),
                   true, device o))
      else
        d ← resolve host service;
        s ← resolve (source_address o) (source_port o);
        Ok (inr (c_fsm o, FdAdapterConfig.mk s d (loss_rate_dn o) (loss_rate_up o), false, device o))
  end.

(** *** tcp_ip_ethernet *)

Definition ethernet_options : known :=
  source ++ [("-n"%string, Value "ERROR: -n requires one argument." set_next_hop)] ++ common ++
  [("-d"%string, Value "ERROR: -t requires one argument." set_device); ("-h"%string, Help)].

Definition ethernet_get_config (port : bytes) (argv : list bytes)
    : result (exit_status + TCPConfig.t * FdAdapterConfig.t * Address.t * bytes) :=
  parsed ← parse_loop (length argv) ethernet_options (default "169.254.10.9" port "169.254.10.1") argv;
  match parsed with
  | inl e => Ok (inl e)
  | inr (o, args) =>
      '(host, service) ← positional args;
      d ← resolve host service;
      s ← resolve (source_address o) (source_port o);
      next_hop ← resolve (next_hop_address o) (opt "0");
      Ok (inr (c_fsm o, FdAdapterConfig.mk s d (loss_rate_dn o) (loss_rate_up o), next_hop,
               match device o with Some s => s | None => opt "tap10" end))
  end.

End parse.

(** ** Arguments stay inside argv *)

(** A command line is never read past its end, the loop ends, and when it does
    not exit, exactly two arguments are left, the last ones. *)
Lemma parse_loop_inside fuel l o args :
  (length args <= fuel)%nat → (2 <= length args)%nat →
  ∃ r, parse_loop fuel l o args = Ok r ∧ ∀ o' rest, r = inr (o', rest) → length rest = 2%nat ∧ rest `suffix_of` args.
Proof.
  revert o args. induction fuel as [|fuel IH]; intros o args Hf Hl; [lia|].
  simpl. destruct (Nat.leb_spec (length args) 2).
  { eexists. split; [done|]. intros o' rest [= <- <-]. split; [lia|done]. }
  destruct args as [|arg rest]; [simpl in *; lia|]. simpl in Hf, Hl, H.
  assert (Hstep : ∀ o1 rest1, (length rest1 <= fuel)%nat → (2 <= length rest1)%nat → rest1 `suffix_of` arg :: rest →
    ∃ r, parse_loop fuel l o1 rest1 = Ok r ∧ ∀ o' rest', r = inr (o', rest') → length rest' = 2%nat ∧ rest' `suffix_of` arg :: rest).
  { intros o1 rest1 H1 H2 Hs. destruct (IH o1 rest1 H1 H2) as (r & -> & Hr). exists r. split; [done|].
    intros o' rest' E. destruct (Hr o' rest' E) as [Hlen Hsuf]. split; [done|]. by etransitivity. }
  assert (Hexit : ∀ e : exit_status, ∃ r, Ok (inl e : exit_status + options * list bytes) = Ok r ∧
    ∀ o' rest', r = inr (o', rest') → length rest' = 2%nat ∧ rest' `suffix_of` arg :: rest).
  { intros e. eexists. split; [done|]. intros o' rest' E. discriminate E. }
  destruct (find_option l arg) as [[f|err f|]|]; [|destruct (Nat.leb_spec (length (arg :: rest)) 3) as [H3|H3]| |]; try apply Hexit.
  - apply Hstep; [lia|lia|by apply suffix_cons_r].
  - destruct rest as [|v rest]; [simpl in *; lia|]. simpl in *. apply Hstep; [lia|lia|by apply suffix_cons_r, suffix_cons_r].
Qed.

Definition stays_inside {A} (r : result A) : Prop := r ≠ Err out_of_fuel ∧ ∀ what, r ≠ Err (undefined_behaviour what).

Lemma stays_inside_bind {A B} (r : result A) (k : A → result B) :
  stays_inside r → (∀ a, r = Ok a → stays_inside (k a)) → stays_inside (r ≫= k).
Proof. intros [Hr1 Hr2] Hk. destruct r as [a|e]; [by apply Hk|]. split; [by intros [= ->]|]. intros what [= ->]. by apply (Hr2 what). Qed.

Lemma stays_inside_ok {A} (a : A) : stays_inside (Ok a).
Proof. done. Qed.

Lemma positional_inside args : (2 <= length args)%nat → stays_inside (positional args).
Proof. by destruct args as [|? [|? ?]]; simpl; [lia|lia|]. Qed.

(** Every command line of at least a host and a port, for all three programs,
    whatever the options are and in whatever order: reading it ends and touches
    no argument past the end of argv (when the resolver answers, or throws). *)
Theorem command_lines_inside strtol loss_rate resolve port argv :
  (2 <= length argv)%nat → (∀ h s, stays_inside (resolve h s)) →
  stays_inside (udp_get_config strtol loss_rate resolve argv) ∧
  stays_inside (ipv4_get_config strtol loss_rate resolve port argv) ∧
  stays_inside (ethernet_get_config strtol resolve port argv).
Proof.
  intros Hl Hres.
  assert (Hloop : ∀ l o, ∃ r, parse_loop (length argv) l o argv = Ok r ∧
    ∀ o' rest, r = inr (o', rest) → length rest = 2%nat ∧ rest `suffix_of` argv) by (intros; by apply parse_loop_inside).
  split_and!.
  - unfold udp_get_config. destruct (Hloop (udp_options strtol loss_rate) (default "" [] "")) as (r & -> & _). cbn [mbind result_bind].
    destruct r as [?|[o ?]]; [apply stays_inside_ok|]. apply stays_inside_bind; [apply positional_inside; rewrite length_drop; lia|].
    intros [host service] _. apply stays_inside_bind; [|intros; apply stays_inside_ok].
    destruct (listen o); (apply stays_inside_bind; [apply Hres|intros; apply stays_inside_ok]).
  - unfold ipv4_get_config. destruct (Hloop (ipv4_options strtol loss_rate) (default "169.254.144.9" port "")) as (r & -> & Hr). cbn [mbind result_bind].
    destruct r as [?|[o rest]]; [apply stays_inside_ok|]. destruct (Hr o rest eq_refl) as [H2 _].
    apply stays_inside_bind; [apply positional_inside; lia|]. intros [host service] _.
    destruct (listen o); (apply stays_inside_bind; [apply Hres|intros s _]); [by destruct (_ =? 0)|].
    apply stays_inside_bind; [apply Hres|intros; apply stays_inside_ok].
  - unfold ethernet_get_config. destruct (Hloop (ethernet_options strtol) (default "169.254.10.9" port "169.254.10.1")) as (r & -> & Hr). cbn [mbind result_bind].
    destruct r as [?|[o rest]]; [apply stays_inside_ok|]. destruct (Hr o rest eq_refl) as [H2 _].
    apply stays_inside_bind; [apply positional_inside; lia|]. intros [host service] _.
    do 3 (apply stays_inside_bind; [apply Hres|intros ? _]). apply stays_inside_ok.
Qed.

(** A server with a window of ten bytes. *)
Lemma command_lines_inside_witness :
  let argv := opt <$> ["-l"; "-w"; "10"; "0"; "80"]%string in
  let resolve (h s : bytes) := Ok (Address.mk 0 80) in
  stays_inside (udp_get_config (λ _, 10) (λ _, 0) resolve argv) ∧
  udp_get_config (λ _, 10) (λ _, 0) resolve argv =
    Ok (inr (TCPConfig.mk 1000 10 64000 None, FdAdapterConfig.mk (Address.mk 0 80) (Address.mk 0 0) 0 0, true)).
Proof.
  cbv zeta. split; [|vm_compute; reflexivity].
  apply (command_lines_inside (λ _, 10) (λ _, 0) (λ _ _, Ok (Address.mk 0 80)) [] (opt <$> ["-l"; "-w"; "10"; "0"; "80"]%string)).
  - vm_compute. lia.
  - intros h s. split; [discriminate|]. intros what. discriminate.
Defined.
