(* ===== verification/Usage.v ===== *)
(** * What the programs say about themselves: show_usage of src/apps

    The usage texts, as the string that is printed, with the error message in
    front of the last line break; [None] is a null pointer. *)

From S2P Require Import Prelude Buffers Printing Sender.

(** [if (msg != nullptr) cout << msg; cout << endl]. *)
Definition closing_line (msg : option string) : string := (match msg with Some m => m | None => "" end ++ nl)%string.

Definition usage_head (argv0 : string) : string :=
  ("Usage: " ++ argv0 ++ " [options] <host> <port>" ++ nl ++ nl ++
   "   Option                                                          Default" ++ nl ++
   "   --                                                              --" ++ nl ++ nl)%string.

(** The window and the timeout, which all three programs have. *)
Definition usage_window : string :=
  ("   -w <winsz>      Use a window of <winsz> bytes                   " ++ to_string TCPConfig.MAX_PAYLOAD_SIZE ++ nl ++ nl ++
   "   -t <tmout>      Set rt_timeout to tmout                         " ++ to_string TCPConfig.TIMEOUT_DFLT ++ nl ++ nl)%string.

Definition usage_listen : string :=
  ("   -l              Server (listen) mode.                           (client mode)" ++ nl ++
   "                   In server mode, <host>:<port> is the address to bind." ++ nl ++ nl)%string.

Definition usage_losses : string :=
  ("   -Lu <loss>      Set uplink loss to <rate> (float in 0..1)       (no loss)" ++ nl ++
   "   -Ld <loss>      Set downlink loss to <rate> (float in 0..1)     (no loss)" ++ nl ++ nl)%string.

Definition udp_show_usage (argv0 : string) (msg : option string) : string :=
  (usage_head argv0 ++ usage_listen ++ usage_window ++ usage_losses ++
   "   -h              Show this message and quit." ++ nl ++ nl ++ closing_line msg)%string.

Definition TUN_DFLT : string := "tun144".

Definition TUN_LOCAL_ADDRESS_DFLT : string := "169.254.144.9".

Definition ipv4_show_usage (argv0 : string) (msg : option string) : string :=
  (usage_head argv0 ++ usage_listen ++
   "   -a <addr>       Set source address (client mode only)           " ++ TUN_LOCAL_ADDRESS_DFLT ++ nl ++
   "   -s <port>       Set source port (client mode only)              (random)" ++ nl ++ nl ++ usage_window ++
   "   -d <tundev>     Connect to tun <tundev>                         " ++ TUN_DFLT ++ nl ++ nl ++ usage_losses ++
   "   -h              Show this message." ++ nl ++ nl ++ closing_line msg)%string.

Definition TAP_DFLT : string := "tap10".

Definition TAP_LOCAL_ADDRESS_DFLT : string := "169.254.10.9".

Definition GATEWAY_DFLT : string := "169.254.10.1".

Definition ethernet_show_usage (argv0 : string) (msg : option string) : string :=
  (usage_head argv0 ++
   "   -a <addr>       Set IP source address (client mode only)        " ++ TAP_LOCAL_ADDRESS_DFLT ++ nl ++
   "   -s <port>       Set TCP source port (client mode only)          (random)" ++ nl ++ nl ++
   "   -n <addr>       Set IP next-hop address                         " ++ GATEWAY_DFLT ++ nl ++ usage_window ++
   "   -d <tapdev>     Connect to tap <tapdev>                         " ++ TAP_DFLT ++ nl ++ nl ++
   "   -h              Show this message." ++ nl ++ nl ++ closing_line msg)%string.

Definition native_show_usage (argv0 : string) : string :=
  ("Usage: " ++ argv0 ++ " [-l] <host> <port>" ++ nl ++ nl ++
   "  -l specifies listen mode; <host>:<port> is the listening address." ++ nl)%string.

Definition dump_show_usage (arg0 : string) (errmsg : option string) : string :=
  ("Usage: " ++ arg0 ++ " [-i <intf>] [-F <file>] [-h|--help] <expression>" ++ nl ++ nl ++
   "  -i <intf>    only capture packets from <intf> (default: all)" ++ nl ++ nl ++
   "  -F <file>    reads in a filter expression from <file>" ++ nl ++
   "               <expression> is ignored if -F is supplied." ++ nl ++ nl ++
   "  -h, --help   show this message" ++ nl ++ nl ++
   "  <expression> a filter expression in pcap-filter(7) syntax" ++ nl ++
   match errmsg with Some m => nl ++ m | None => "" end ++ nl)%string.

Definition lab7_print_usage (argv0 : string) : string :=
  ("Usage: " ++ argv0 ++ " client HOST PORT [debug]" ++ nl ++
   "or     " ++ argv0 ++ " server HOST PORT [debug]" ++ nl)%string.

(** The default of the window in the text is not the default of the program. *)
Lemma usage_window_default :
  TCPConfig.recv_capacity TCPConfig.default = 64000 ∧ to_string TCPConfig.MAX_PAYLOAD_SIZE = "1000"%string.
Proof. split; reflexivity. Qed.
