(* ===== verification/Robustness.v ===== *)
(** * No packet makes a parser or an adapter throw

    The parsers index into buffers and cut prefixes off them, which throws when
    they are too short. [safe m Q] says that the computation [m] never throws,
    whatever is in the buffer, and that its result satisfies [Q]; it is shown for
    the parsers of all headers, and from there for the [read]s of the adapters. *)

From S2P Require Import Prelude Buffers Parsing Checksum Wrapping Segment Ipv4 Link Netif NetifSpec Addresses Adapters AdaptersSpec.

(** ** Parsers *)

Definition safe {A} (m : NetParser.M A) (Q : A → Prop) : Prop :=
  ∀ p, Buffer.ok (NetParser.buffer p) → ∃ a p', m p = Ok (a, p') ∧ Buffer.ok (NetParser.buffer p') ∧ Q a.

Lemma safe_ret {A} (a : A) (Q : A → Prop) : Q a → safe (mret a) Q.
Proof. intros Hq p Hp. by exists a, p. Qed.

Lemma safe_bind {A B} (m : NetParser.M A) (f : A → NetParser.M B) P Q :
  safe m P → (∀ a, P a → safe (f a) Q) → safe (m ≫= f) Q.
Proof.
  intros Hm Hf p Hp. destruct (Hm p Hp) as (a & p1 & E1 & Hp1 & Ha).
  destruct (Hf a Ha p1 Hp1) as (b & p2 & E2 & Hp2 & Hb). exists b, p2. split; [|done].
  unfold mbind, NetParser.M_bind. by rewrite E1.
Qed.

Lemma parse_loop_total len b i n ret :
  (i + n <= length (Buffer.str b))%nat → 0 <= ret < 2 ^ (8 * Z.of_nat len) →
  ∃ v, NetParser.parse_loop len b i n ret = Ok v ∧ 0 <= v < 2 ^ (8 * Z.of_nat len).
Proof.
  revert i ret. induction n as [|n IH]; intros i ret Hi Hr; simpl; [by eexists|].
  unfold Buffer.at_. rewrite Nat2Z.id. destruct (lookup_lt_is_Some_2 (Buffer.str b) i) as [c ->]; [lia|].
  cbn [mbind result_bind]. apply IH; [lia|]. apply Z.mod_pos_bound. apply Z.pow_pos_nonneg; lia.
Qed.

Lemma safe_parse_int n : safe (NetParser.parse_int n) (λ v, 0 <= v < 2 ^ (8 * Z.of_nat n)).
Proof.
  intros p Hp. unfold NetParser.parse_int, NetParser.check_size.
  assert (H0 : 0 <= 0 < 2 ^ (8 * Z.of_nat n)) by (split; [lia|apply Z.pow_pos_nonneg; lia]).
  destruct (Z.ltb_spec (Buffer.size (NetParser.buffer p)) (Z.of_nat n)) as [Hs|Hs]; [by eexists _, _|].
  destruct (NetParser.error p); [by eexists _, _|].
  destruct (parse_loop_total n (NetParser.buffer p) 0 n 0) as (v & -> & Hv);
    [unfold Buffer.size, blen in Hs; lia|done|]. cbn [mbind result_bind].
  destruct (buffer_remove_prefix_spec (NetParser.buffer p) (Z.of_nat n) Hp) as (b & -> & Hb & _); [lia|].
  by eexists _, _.
Qed.

Lemma safe_u8 : safe NetParser.u8 is_u8.
Proof. apply (safe_parse_int 1). Qed.

Lemma safe_u16 : safe NetParser.u16 is_u16.
Proof. apply (safe_parse_int 2). Qed.

Lemma safe_u32 : safe NetParser.u32 is_u32.
Proof. apply (safe_parse_int 4). Qed.

Lemma safe_skip n : 0 <= n → safe (NetParser.skip n) (λ _, True).
Proof.
  intros Hn p Hp. unfold NetParser.skip, NetParser.remove_prefix, NetParser.check_size.
  destruct (Z.ltb_spec (Buffer.size (NetParser.buffer p)) n) as [Hs|Hs]; [by eexists _, _|].
  destruct (NetParser.error p); [by eexists _, _|].
  destruct (buffer_remove_prefix_spec (NetParser.buffer p) n Hp) as (b & -> & Hb & _); [lia|]. by eexists _, _.
Qed.

Lemma safe_rest : safe NetParser.rest (λ _, True).
Proof. intros p Hp. by eexists _, _. Qed.

Lemma safe_error_state : safe NetParser.error_state (λ _, True).
Proof. intros p Hp. by eexists _, _. Qed.

Lemma safe_u8_array n : safe (NetParser.u8_array n) (λ l, length l = n).
Proof.
  induction n as [|n IH]; simpl; [by apply safe_ret|].
  eapply safe_bind; [apply safe_u8|]. intros b _. eapply safe_bind; [apply IH|]. intros l Hl. apply safe_ret. simpl in *. lia.
Qed.

Create HintDb safe.
#[export] Hint Resolve safe_u8 safe_u16 safe_u32 safe_rest safe_error_state safe_u8_array : safe.

(** Takes the next step of a parser. *)
Ltac safe_step := eapply safe_bind; [solve [eauto with safe]|]; intros ? ?; cbv beta zeta.

(** The ports and the window of a parsed TCP header hold values of their types. *)
Definition tcp_fields (h : TCPHeader.t) : Prop :=
  is_u16 (TCPHeader.sport h) ∧ is_u16 (TCPHeader.dport h) ∧ is_u16 (TCPHeader.win h).

Lemma safe_tcp_header : safe TCPHeader.parse (λ r, tcp_fields r.1).
Proof.
  unfold TCPHeader.parse. do 9 safe_step. destruct (_ <? 5); [by apply safe_ret|].
  eapply safe_bind; [apply safe_skip, w64_range|]. intros ? _. safe_step. by apply safe_ret.
Qed.

(** So do the addresses of a parsed IPv4 header. *)
Definition ip_fields (h : IPv4Header.t) : Prop := is_u32 (IPv4Header.src h) ∧ is_u32 (IPv4Header.dst h).

Lemma safe_ip_header h0 : ip_fields h0 → safe (IPv4Header.parse h0) (λ r, ip_fields r.1).
Proof.
  intros Hh0. unfold IPv4Header.parse. safe_step. destruct (_ <? _); [by apply safe_ret|]. do 10 safe_step.
  assert (Hret : ∀ h e, ip_fields h → safe (mret (h, e)) (λ r : IPv4Header.t * ParseResult, ip_fields r.1))
    by (intros; by apply safe_ret).
  repeat (match goal with |- safe (if ?b then _ else _) _ => destruct b; [by apply Hret|] end).
  eapply safe_bind; [apply safe_skip, w64_range|]. intros ? _. safe_step.
  repeat (match goal with |- safe (if ?b then _ else _) _ => destruct b; [by apply Hret|] end). by apply Hret.
Qed.

Lemma safe_ethernet_header h0 : safe (EthernetHeader.parse h0) (λ _, True).
Proof.
  unfold EthernetHeader.parse. safe_step. destruct (_ <? _); [by apply safe_ret|]. do 4 safe_step. by apply safe_ret.
Qed.

(** The addresses of a parsed ARP message have six bytes when the message is
    accepted. *)
Lemma safe_arp m0 :
  address_ok (ARPMessage.sender_ethernet_address m0) → address_ok (ARPMessage.target_ethernet_address m0) →
  safe (ARPMessage.parse_fields m0) (λ r, address_ok (ARPMessage.sender_ethernet_address r.1) ∧
    (r.2 = NoError → is_u32 (ARPMessage.sender_ip_address r.1))).
Proof.
  intros Hs Ht. unfold ARPMessage.parse_fields. safe_step. destruct (_ <? _); [by apply safe_ret|]. do 5 safe_step.
  destruct (negb _); [by apply safe_ret|]. do 5 safe_step. by apply safe_ret.
Qed.

(** ** Segments, datagrams and frames *)

Lemma segment_parse_total s b ck :
  tcp_fields (TCPSegment.header s) → Buffer.ok b →
  ∃ s' err, TCPSegment.parse s b ck = Ok (s', err) ∧ tcp_fields (TCPSegment.header s').
Proof.
  intros Hs Hb. unfold TCPSegment.parse. destruct (negb _); [by eexists _, _|].
  destruct (safe_tcp_header (NetParser.new b) Hb) as ([h e] & p & -> & _ & Hh). cbn [mbind result_bind].
  by eexists _, _.
Qed.

(** A parsed datagram: one buffer of payload, addresses of 32 bits. *)
Definition dgram_fields (d : IPv4Datagram.t) : Prop :=
  ip_fields (IPv4Datagram.header d) ∧ ∃ q, IPv4Datagram.payload d = BufferList.of_buffer q ∧ Buffer.ok q.

Lemma datagram_parse_total d b :
  ip_fields (IPv4Datagram.header d) → Buffer.ok b →
  ∃ d' err, IPv4Datagram.parse d b = Ok (d', err) ∧ dgram_fields d'.
Proof.
  intros Hd Hb. unfold IPv4Datagram.parse.
  destruct (safe_ip_header _ Hd (NetParser.new b) Hb) as ([h e] & p & -> & Hp & Hh). cbn [mbind result_bind].
  destruct (negb _); eexists _, _; (split; [done|]); split; eauto.
Qed.

Lemma frame_parse_total f b :
  Buffer.ok b →
  ∃ f' err q, EthernetFrame.parse f b = Ok (f', err) ∧ EthernetFrame.payload f' = BufferList.of_buffer q ∧ Buffer.ok q.
Proof.
  intros Hb. unfold EthernetFrame.parse.
  destruct (safe_ethernet_header (EthernetFrame.header f) (NetParser.new b) Hb) as ([h e] & p & -> & Hp & _).
  cbn [mbind result_bind]. by eexists _, _, _.
Qed.

Definition zero_tcp_fields : tcp_fields TCPHeader.default := ltac:(range_compute).

Definition zero_ip_fields : ip_fields IPv4Header.default := ltac:(range_compute).

(** ** Adapters *)

Definition base_ok (a : FdAdapterBase.t) : Prop := endpoint_ok (source a) ∧ endpoint_ok (destination a).

Lemma unwrap_total a d :
  base_ok a → dgram_fields d →
  ∃ a' seg, TCPOverIPv4Adapter.unwrap_tcp_in_ip a d = Ok (a', seg) ∧ base_ok a' ∧
    (∀ s, seg = Some s → tcp_fields (TCPSegment.header s)).
Proof.
  intros Ha [[Hsrc Hdst] (q & Hq & Hok)]. unfold TCPOverIPv4Adapter.unwrap_tcp_in_ip.
  do 3 (destruct (_ && _) || destruct (negb _); [by eexists _, _|]).
  rewrite Hq. cbn [BufferList.to_buffer BufferList.of_buffer mbind result_bind].
  destruct (segment_parse_total TCPSegment.default q (IPv4Header.pseudo_cksum (IPv4Datagram.header d)) zero_tcp_fields Hok)
    as (s & err & -> & Hs). cbn [mbind result_bind].
  destruct (negb _); [by eexists _, _|]. destruct (negb _); [by eexists _, _|].
  destruct Ha as [[Hs1 Hs2] [Hd1 Hd2]]. destruct Hs as (Hsp & Hdp & Hw).
  unfold TCPOverIPv4Adapter.accept. destruct (FdAdapterBase.listening a); [destruct (_ && _)|]; try destruct (negb _);
    eexists _, _; (split; [done|]); (split; [done|]); by intros x [= <-].
Qed.

Lemma udp_read_total a from payload :
  base_ok a → endpoint_ok from → is_u64 (blen payload) →
  ∃ a' seg, TCPOverUDPSocketAdapter.read a (from, payload) = Ok (a', seg) ∧ base_ok a' ∧
    (∀ s, seg = Some s → tcp_fields (TCPSegment.header s)).
Proof.
  intros Ha Hf Hl. unfold TCPOverUDPSocketAdapter.read. destruct (_ && _); [by eexists _, _|].
  destruct (segment_parse_total TCPSegment.default (Buffer.of_string payload) 0 zero_tcp_fields (buffer_of_string_ok _ Hl))
    as (s & err & -> & Hs). cbn [mbind result_bind]. destruct (negb _); [by eexists _, _|].
  destruct Ha as [Ha1 Ha2].
  destruct (FdAdapterBase.listening a); [destruct (_ && _)|]; eexists _, _; (split; [done|]); (split; [done|]);
    intros x [= <-]; done.
Qed.

Lemma tun_read_total a packet :
  base_ok a → is_u64 (blen packet) →
  ∃ a' seg, TCPOverIPv4OverTunFdAdapter.read a packet = Ok (a', seg) ∧ base_ok a' ∧
    (∀ s, seg = Some s → tcp_fields (TCPSegment.header s)).
Proof.
  intros Ha Hl. unfold TCPOverIPv4OverTunFdAdapter.read.
  destruct (datagram_parse_total IPv4Datagram.default (Buffer.of_string packet) zero_ip_fields (buffer_of_string_ok _ Hl))
    as (d & err & -> & Hd). cbn [mbind result_bind]. destruct (negb _); [by eexists _, _|]. by apply unwrap_total.
Qed.

(** ** The network interface

    What an interface keeps so that none of its operations throws; unlike the
    invariant of NetifSpec.v it says nothing of the clock, which may wrap. *)

Section limited.
(** No datagram is longer than [L]. *)
Context (L : Z) (HL : 100 <= L).

(** The frame is no longer, and if it carries an ARP message then in one piece. *)
Definition frame_upto (f : EthernetFrame.t) : Prop :=
  blen (BufferList.concatenate (EthernetFrame.serialize f)) <= L + 14 ∧
  (EthernetHeader.type (EthernetFrame.header f) = EthernetHeader.TYPE_ARP → ∃ s, EthernetFrame.payload f = BufferList.of_string s).

Definition dgram_upto (d : IPv4Datagram.t) : Prop := dgram_ok d ∧ IPv4Header.len (IPv4Datagram.header d) <= L.

Record isafe_upto (i : NetworkInterface.t) : Prop := mk_isafe {
  is_address : address_ok (NetworkInterface.ethernet_address i);
  is_table : map_Forall (λ _ se, address_ok (NetworkInterface.eAddr se)) (NetworkInterface.arp_table i);
  is_sent : Forall (λ kd, dgram_upto kd.2) (NetworkInterface.sent_dgram i);
  is_frames : Forall frame_upto (NetworkInterface.frames_out i);
}.

Lemma frame_upto_intro h p :
  address_ok (EthernetHeader.dst h) → address_ok (EthernetHeader.src h) →
  blen (BufferList.concatenate p) <= L →
  (EthernetHeader.type h = EthernetHeader.TYPE_ARP → ∃ s, p = BufferList.of_string s) → frame_upto (EthernetFrame.mk h p).
Proof.
  intros Hd Hs Hp Harp. split; [|exact Harp]. unfold EthernetFrame.serialize. cbn [EthernetFrame.header EthernetFrame.payload].
  rewrite !concatenate_app, concatenate_of_string, frame_header_serialize. unfold frame_header_bytes.
  rewrite !blen_app, blen_unparse, (blen_address _ Hd), (blen_address _ Hs). change (blen (BufferList.concatenate [])) with 0. lia.
Qed.

Lemma dgram_frame_upto i address d :
  address_ok (NetworkInterface.ethernet_address i) → address_ok address → dgram_upto d → frame_upto (dgram_frame i address d).
Proof.
  intros Hi Ha [[Hh Hle Hlen] Hlim]. apply frame_upto_intro; [done|done| |done]. unfold dgram_payload.
  destruct (datagram_parse_core d d Hh Hle Hlen) as (l & -> & Hl & _). by rewrite Hl.
Qed.

Lemma arp_frame_upto i ip target f :
  address_ok (NetworkInterface.ethernet_address i) → (∀ a, target = Some a → address_ok a) →
  NetworkInterface.arp_frame i ip target = Ok f → frame_upto f.
Proof.
  intros Hi Ht Hf. unfold NetworkInterface.arp_frame in Hf. apply result_bind_Ok in Hf as (s & Hs & [= <-]).
  apply frame_upto_intro; simpl; [by destruct target; [apply Ht|]|done| |by intros _; eexists].
  rewrite app_nil_r, buffer_str_of_string. unfold ARPMessage.serialize in Hs. destruct (negb _); [done|].
  injection Hs as <-. unfold NetUnparser.u32, NetUnparser.u16, NetUnparser.u8, NetUnparser.unparse_int.
  rewrite !unparse_address_spec, !blen_app, !blen_unparse. cbn [ARPMessage.sender_ethernet_address ARPMessage.target_ethernet_address].
  rewrite (blen_address (NetworkInterface.ethernet_address i)) by done.
  assert (blen (default zero_address target) = 6) as ->; [apply blen_address; by destruct target; [apply Ht|]|].
  rewrite blen_nil. lia.
Qed.

Lemma send_arp_upto i ip target :
  isafe_upto i → (∀ a, target = Some a → address_ok a) →
  ∃ i', NetworkInterface.send_arp i ip target = Ok i' ∧ isafe_upto i'.
Proof.
  intros [] Ht. unfold NetworkInterface.send_arp. destruct (arp_frame_ok i ip target) as (f & Ef & _).
  pose proof (arp_frame_upto i ip target f is_address0 Ht Ef) as Hf.
  destruct (NetworkInterface.arp_table i !! ip) as [se|] eqn:E.
  - destruct (_ && _); [by exists i|]. rewrite Ef. cbn [mbind result_bind]. eexists. split; [done|].
    split; simpl; try done.
    + apply map_Forall_insert_2; [|done]. apply (map_Forall_lookup_1 _ _ _ _ is_table0 E).
    + apply Forall_app. split; [done|]. by apply Forall_singleton.
  - cbn [negb andb]. change (NetworkInterface.arp_frame (NetworkInterface.with_table i _) ip target)
      with (NetworkInterface.arp_frame i ip target). rewrite Ef. cbn [mbind result_bind]. eexists. split; [done|].
    split; simpl; try done.
    + rewrite insert_insert_eq. by apply map_Forall_insert_2.
    + apply Forall_app. split; [done|]. by apply Forall_singleton.
Qed.

Lemma resend_upto i ip address :
  isafe_upto i → address_ok address → ∃ i', NetworkInterface.resend i ip address (NetworkInterface.sent_dgram i) = Ok i' ∧ isafe_upto i'.
Proof.
  intros [] Ha. rewrite resend_spec by (eapply Forall_impl; [exact is_sent0|]; by intros kd []). eexists. split; [done|]. split; simpl; try done.
  - rewrite Forall_forall in *. intros x [_ Hx]%list_elem_of_filter. by apply is_sent0.
  - apply Forall_app. split; [done|]. apply Forall_map, Forall_forall. intros d Hd. apply dgram_frame_upto; [done|done|].
    unfold pending_for in Hd. apply list_elem_of_fmap in Hd as (kd & -> & [_ Hkd]%list_elem_of_filter).
    rewrite Forall_forall in is_sent0. by apply is_sent0.
Qed.

Lemma send_datagram_upto i d ip :
  isafe_upto i → dgram_upto d → ∃ i', NetworkInterface.send_datagram i d ip = Ok i' ∧ isafe_upto i'.
Proof.
  intros Hi Hd. unfold NetworkInterface.send_datagram. cbv zeta.
  assert (Hun : ∃ i', (i ← NetworkInterface.send_arp i ip None;
    Ok (NetworkInterface.with_sent i (NetworkInterface.multimap_insert ip d (NetworkInterface.sent_dgram i)))) = Ok i' ∧ isafe_upto i').
  { destruct (send_arp_upto i ip None Hi) as (i1 & -> & []); [done|]. eexists. split; [done|]. split; simpl; try done.
    apply Forall_forall. intros x [->|Hx]%multimap_insert_elem; [done|]. rewrite Forall_forall in is_sent0. by apply is_sent0. }
  destruct (NetworkInterface.arp_table i !! ip) as [se|] eqn:E; [|done]. destruct (_ || _); [done|].
  rewrite send_dgram_spec by apply Hd. eexists. split; [done|]. destruct Hi. split; simpl; try done.
  apply Forall_app. split; [done|]. apply Forall_singleton, dgram_frame_upto; [done| |done].
  apply (map_Forall_lookup_1 _ _ _ _ is_table0 E).
Qed.

Lemma recv_frame_upto i f q :
  isafe_upto i → EthernetFrame.payload f = BufferList.of_buffer q → Buffer.ok q →
  ∃ i' d, NetworkInterface.recv_frame i f = Ok (i', d) ∧ isafe_upto i' ∧ (∀ x, d = Some x → dgram_fields x).
Proof.
  intros Hi Hp Hq. unfold NetworkInterface.recv_frame. destruct (_ =? 0); [by eexists _, _|]. rewrite Hp.
  cbn [BufferList.to_buffer BufferList.of_buffer mbind result_bind]. destruct (_ =? 1).
  - destruct (datagram_parse_total IPv4Datagram.default q zero_ip_fields Hq) as (d & err & -> & Hd). cbn [mbind result_bind].
    case_bool_decide; eexists _, _; (split; [done|]); (split; [done|]); intros x Hx; by simplify_eq.
  - unfold ARPMessage.parse.
    destruct (safe_arp ARPMessage.default eq_refl eq_refl (NetParser.new q) Hq) as ([m err] & p & -> & _ & Ha & _).
    cbn [mbind result_bind]. case_bool_decide; [|by eexists _, _]. simpl in Ha.
    assert (Hr : ∃ i', NetworkInterface.recv_arp i m = Ok i' ∧ isafe_upto i').
    { unfold NetworkInterface.recv_arp. destruct (_ && _); [by exists i|].
      match goal with |- context [mbind _ ?x] => assert (Hx : ∃ i1, x = Ok i1 ∧ isafe_upto i1) end.
      { destruct (_ =? _); [apply send_arp_upto; [done|by intros a [= <-]]|].
        destruct (_ =? _); [by apply resend_upto|by exists i]. }
      destruct Hx as (i1 & -> & []). eexists. split; [done|]. split; simpl; try done. by apply map_Forall_insert_2. }
    destruct Hr as (i1 & -> & Hi1). by eexists _, _.
Qed.

End limited.

(** Without a limit but that of the length field. *)
Definition isafe : NetworkInterface.t → Prop := isafe_upto 0x10000.

Lemma dgram_ok_upto d : dgram_ok d → dgram_upto 0x10000 d.
Proof. intros [Hh Hle Hl]. split; [by split|]. pose proof (IPv4Header.ok_len _ Hh). unfold_w. lia. Qed.

Lemma send_datagram_safe i d ip :
  isafe i → dgram_ok d → ∃ i', NetworkInterface.send_datagram i d ip = Ok i' ∧ isafe i'.
Proof. intros Hi Hd. apply send_datagram_upto; [done|done|by apply dgram_ok_upto]. Qed.

Lemma recv_frame_safe i f q :
  isafe i → EthernetFrame.payload f = BufferList.of_buffer q → Buffer.ok q →
  ∃ i' d, NetworkInterface.recv_frame i f = Ok (i', d) ∧ isafe i' ∧ (∀ x, d = Some x → dgram_fields x).
Proof. by apply recv_frame_upto. Qed.

Record ethernet_ok (a : TCPOverIPv4OverEthernetAdapter.t) : Prop := mk_ethernet_ok {
  eo_base : base_ok (TCPOverIPv4OverEthernetAdapter.base a);
  eo_interface : isafe (TCPOverIPv4OverEthernetAdapter.interface a);
}.

(** The frames that leave fit a write. *)
Definition frames_ok (out : list bytes) : Prop := Forall (λ o, blen o <= 0x10100) out.

Lemma send_pending_safe a :
  ethernet_ok a → ethernet_ok (TCPOverIPv4OverEthernetAdapter.send_pending a).1 ∧
    frames_ok (TCPOverIPv4OverEthernetAdapter.send_pending a).2.
Proof.
  intros [Hb []]. split; [split; [done|]; split; try done; apply Forall_nil_2|]. apply Forall_fmap.
  eapply Forall_impl; [exact is_frames0|]. intros fr [Hl _]. unfold compose. lia.
Qed.

Lemma ethernet_read_total a packet :
  ethernet_ok a → is_u64 (blen packet) →
  ∃ a' out seg, TCPOverIPv4OverEthernetAdapter.read a packet = Ok (a', out, seg) ∧ ethernet_ok a' ∧ frames_ok out ∧
    (∀ s, seg = Some s → tcp_fields (TCPSegment.header s)).
Proof.
  intros [Hb Hi] Hl. unfold TCPOverIPv4OverEthernetAdapter.read.
  destruct (frame_parse_total EthernetFrame.default (Buffer.of_string packet) (buffer_of_string_ok _ Hl))
    as (f & err & q & -> & Hf & Hq). cbn [mbind result_bind]. destruct (negb _).
  { eexists _, _, _. split; [done|]. split; [done|]. split; [apply Forall_nil_2|done]. }
  destruct (recv_frame_safe _ f q Hi Hf Hq) as (i' & d & -> & Hi' & Hd). cbn [mbind result_bind].
  destruct (send_pending_safe (TCPOverIPv4OverEthernetAdapter.mk (TCPOverIPv4OverEthernetAdapter.base a) i'
    (TCPOverIPv4OverEthernetAdapter.next_hop a)) (mk_ethernet_ok (TCPOverIPv4OverEthernetAdapter.mk _ i' _) Hb Hi')) as [Ha' Ho].
  destruct (TCPOverIPv4OverEthernetAdapter.send_pending _) as [a' out]. simpl in Ha', Ho.
  destruct d as [d|]; [|by eexists _, _, _]. destruct Ha' as [Hb' Hi2].
  destruct (unwrap_total _ d Hb' (Hd d eq_refl)) as (b & seg & -> & Hb2 & Hseg). cbn [mbind result_bind].
  eexists _, _, _. split; [done|]. by split.
Qed.

Lemma ethernet_tick_safe a ms :
  ethernet_ok a → ethernet_ok (TCPOverIPv4OverEthernetAdapter.tick a ms).1 ∧ frames_ok (TCPOverIPv4OverEthernetAdapter.tick a ms).2.
Proof. intros [Hb []]. apply send_pending_safe. by split. Qed.

Lemma ethernet_write_safe a seg :
  ethernet_ok a → fits seg →
  ∃ a' out seg', TCPOverIPv4OverEthernetAdapter.write a seg = Ok (a', out, seg') ∧ ethernet_ok a' ∧ frames_ok out.
Proof.
  intros [[Hs Hd] Hi] Hf. unfold TCPOverIPv4OverEthernetAdapter.write.
  destruct (wrap_core _ seg Hs Hd Hf) as (d & -> & Hok & _). cbn [mbind result_bind].
  destruct (send_datagram_safe _ d (Address.ipv4_numeric (TCPOverIPv4OverEthernetAdapter.next_hop a)) Hi Hok) as (i' & -> & Hi').
  cbn [mbind result_bind].
  destruct (send_pending_safe (TCPOverIPv4OverEthernetAdapter.mk (TCPOverIPv4OverEthernetAdapter.base a) i'
    (TCPOverIPv4OverEthernetAdapter.next_hop a)) (mk_ethernet_ok (TCPOverIPv4OverEthernetAdapter.mk _ i' _) (conj Hs Hd) Hi')) as [Ha' Ho].
  destruct (TCPOverIPv4OverEthernetAdapter.send_pending _) as [a' out]. by eexists _, _, _.
Qed.

Lemma tun_write_safe a seg :
  base_ok a → fits seg →
  ∃ packet seg', TCPOverIPv4OverTunFdAdapter.write a seg = Ok (seg', packet) ∧ blen packet <= 0x10000.
Proof.
  intros [Hs Hd] Hf. unfold TCPOverIPv4OverTunFdAdapter.write.
  destruct (wrap_core _ seg Hs Hd Hf) as (d & -> & [Hh Hle Hlen] & _). cbn [mbind result_bind].
  destruct (datagram_parse_core d d Hh Hle Hlen) as (l & -> & Hl & _). cbn [mbind result_bind].
  eexists _, _. split; [done|]. rewrite Hl. pose proof (IPv4Header.ok_len _ Hh). unfold_w. lia.
Qed.

(** C23. No packet makes an adapter throw: whatever bytes arrive from a UDP
    socket, a TUN or a TAP device, however short or malformed, [read] returns,
    with a segment whose fields are in range or with none, and leaves an adapter
    that can go on; the frames it sends meanwhile are of bounded size. *)
Theorem adapters_read_anything a b from packet :
  base_ok a → ethernet_ok b → endpoint_ok from → is_u64 (blen packet) →
  (∃ a' seg, TCPOverUDPSocketAdapter.read a (from, packet) = Ok (a', seg) ∧ base_ok a' ∧
    ∀ s, seg = Some s → tcp_fields (TCPSegment.header s)) ∧
  (∃ a' seg, TCPOverIPv4OverTunFdAdapter.read a packet = Ok (a', seg) ∧ base_ok a' ∧
    ∀ s, seg = Some s → tcp_fields (TCPSegment.header s)) ∧
  (∃ b' out seg, TCPOverIPv4OverEthernetAdapter.read b packet = Ok (b', out, seg) ∧ ethernet_ok b' ∧ frames_ok out ∧
    ∀ s, seg = Some s → tcp_fields (TCPSegment.header s)).
Proof.
  intros Ha Hb Hf Hl. split_and!; [by apply udp_read_total|by apply tun_read_total|by apply ethernet_read_total].
Qed.

Lemma receiving_ok : ethernet_ok receiving.
Proof. split; [repeat split; range_compute|]. split; [done|apply map_Forall_empty|apply Forall_nil_2|apply Forall_nil_2]. Qed.

Lemma adapters_read_anything_witness :
  ∃ b' out seg, TCPOverIPv4OverEthernetAdapter.read receiving [Byte.x01; Byte.x02] = Ok (b', out, seg) ∧ seg = None.
Proof.
  destruct (adapters_read_anything client receiving (Address.mk 0x0a000001 4321) [Byte.x01; Byte.x02])
    as (_ & _ & b' & out & seg & E & _).
  - repeat split; range_compute.
  - exact receiving_ok.
  - repeat split; range_compute.
  - range_compute.
  - exists b', out, seg. split; [exact E|]. vm_compute in E. injection E as <- <- <-. reflexivity.
Defined.
