(* ===== verification/Outgoing.v ===== *)
(** * Every segment a connection sends can be carried

    A connection builds segments in the sender, stamps them and queues them; the
    adapters refuse (by an exception) a header with an impossible length, and a
    field out of range would be cut when it is written to the wire. Here: all
    segments of a connection are well formed, in every state it can reach, and
    every adapter can carry them. *)

From S2P Require Import Prelude Buffers Wrapping Stream Reassembly ReassemblySpec Segment Receiver Sender Connection ConnectionSpec.
From S2P Require Import Ipv4 Link Netif NetifSpec Addresses Adapters AdaptersSpec Robustness.
Import TCPConnection.

(** All fields hold values of their types, no options, at most a full payload. *)
Record wf_seg (g : TCPSegment.t) : Prop := mk_wf_seg {
  wf_header : TCPHeader.ok (TCPSegment.header g);
  wf_doff : TCPHeader.doff (TCPSegment.header g) = 5;
  wf_payload : blen (Buffer.str (TCPSegment.payload g)) <= TCPConfig.MAX_PAYLOAD_SIZE;
}.

Record wf_sender (s : TCPSender.t) : Prop := mk_wf_sender {
  ws_out : Forall wf_seg (TCPSender.segments_out s);
  ws_sent : Forall (λ x, wf_seg (TCPSender.seg x)) (TCPSender.sent s);
}.

Definition wf_receiver (r : TCPReceiver.t) : Prop := ∀ a, TCPReceiver.ackno_ r = Some a → WrappingInt32.ok a.

Record wf_conn (c : t) : Prop := mk_wf_conn {
  wc_sender : wf_sender (sender c);
  wc_receiver : wf_receiver (receiver c);
  wc_out : Forall wf_seg (segments_out c);
}.

(** ** The sender *)

Lemma wf_seg_new h payload :
  TCPHeader.ok h → TCPHeader.doff h = 5 → blen (Buffer.str payload) <= 1000 → wf_seg (TCPSegment.mk h payload).
Proof. by intros. Qed.

Lemma default_header_ok n syn fin :
  TCPHeader.ok (TCPHeader.set_seqno (TCPHeader.set_fin (TCPHeader.set_syn TCPHeader.default syn) fin) (WrappingInt32.of_raw n)).
Proof. split; simpl; auto with sponge; try range_compute. Qed.

Lemma blen_ztake_le {A} n (l : list A) : 0 <= n → blen (ztake n l) <= n.
Proof. intros. rewrite blen_ztake by done. lia. Qed.

Lemma fill_once_wf s allow s' more :
  wf_sender s → 0 <= allow → TCPSender.fill_once s allow = Ok (s', more) → wf_sender s'.
Proof.
  intros [Ho Hs] Ha Hf. unfold TCPSender.fill_once in Hf. cbv zeta in Hf.
  apply result_bind_Ok in Hf as ([st data] & Er & Hf). unfold ByteStream.read in Er.
  apply result_bind_Ok in Er as (st' & _ & Er). injection Er as <- <-.
  destruct (TCPSegment.length_in_sequence_space _ =? 0); injection Hf as <- <-; [by split|].
  set (n := if _ <? TCPConfig.MAX_PAYLOAD_SIZE then _ else _).
  assert (Hn : 0 <= n <= 1000).
  { subst n. unfold TCPConfig.MAX_PAYLOAD_SIZE. pose proof (w64_range (allow - 1)) as [Hw _].
    destruct (negb _); [destruct (Z.ltb_spec (w64 (allow - 1)) 1000)|destruct (Z.ltb_spec allow 1000)]; lia. }
  match goal with |- wf_sender (TCPSender.send ?x ?g) => assert (Hg : wf_seg
    (TCPSegment.mk (TCPHeader.set_seqno (TCPSegment.header g) (wrap (TCPSender.next_abs_seqno x) (TCPSender.isn x))) (TCPSegment.payload g))) end.
  { apply wf_seg_new; [apply default_header_ok|done|]. simpl. rewrite buffer_str_of_string. unfold ByteStream.peek_output.
    pose proof (blen_ztake_le n (BufferList.concatenate (ByteStream.buffer (TCPSender.stream s))) ltac:(lia)). lia. }
  split; simpl; apply Forall_app; (split; [done|]); by apply Forall_singleton.
Qed.

Lemma fill_loop_wf fuel ex s s' : wf_sender s → TCPSender.fill_loop fuel ex s = Ok s' → wf_sender s'.
Proof.
  revert ex s. induction fuel as [|fuel IH]; intros ex s Hs Hf; simpl in Hf; [done|].
  destruct (_ <? _); [|by inv_ok]. destruct (TCPSender.fined_ s); [by inv_ok|].
  apply result_bind_Ok in Hf as ([s1 more] & E1 & Hf). apply fill_once_wf in E1; [|done|apply w64_range].
  destruct more; [by eapply IH|by inv_ok].
Qed.

Lemma fill_window_wf s s' : wf_sender s → TCPSender.fill_window s = Ok s' → wf_sender s'.
Proof. apply fill_loop_wf. Qed.

Lemma pop_acked_wf n l : Forall (λ x, wf_seg (TCPSender.seg x)) l → Forall (λ x, wf_seg (TCPSender.seg x)) (TCPSender.pop_acked n l).
Proof. intros Hl. induction Hl as [|x l Hx Hl IH]; simpl; [done|]. destruct (_ <=? _); [done|]. by constructor. Qed.

Lemma ack_received_wf s a win : wf_sender s → wf_sender (TCPSender.ack_received s a win).
Proof.
  intros [Ho Hs]. unfold TCPSender.ack_received. destruct (_ || _); [by split|].
  destruct (TCPSender.sent s) as [|x l]; split; simpl; try done. by apply (pop_acked_wf _ (x :: l)).
Qed.

Lemma sender_tick_wf s ms : wf_sender s → wf_sender (TCPSender.tick s ms).
Proof.
  intros [Ho Hs]. unfold TCPSender.tick. destruct (TCPSender.sent s) as [|x l] eqn:E; [by split|].
  destruct (_ <=? _); split; simpl; try done. apply Forall_app. split; [done|]. apply Forall_cons in Hs as [Hx _].
  by apply Forall_singleton.
Qed.

Lemma send_empty_wf s : wf_sender s → wf_sender (TCPSender.send_empty_segment s).
Proof.
  intros [Ho Hs]. split; simpl; [|done]. apply Forall_app. split; [done|]. apply Forall_singleton.
  apply wf_seg_new; [apply (default_header_ok _ false false)|done|done].
Qed.

(** ** The receiver *)

Lemma receiver_wf_step `{StreamReassembler.EndKey} r seg r' :
  wf_receiver r → TCPReceiver.segment_received r seg = Ok r' → wf_receiver r'.
Proof.
  intros Hr Hs. unfold TCPReceiver.segment_received in Hs. destruct (_ || _); [by inv_ok|]. destruct (_ && _); [by inv_ok|].
  apply result_bind_Ok in Hs as (re & _ & Hs). injection Hs as <-. unfold wf_receiver.
  set (r1 := TCPReceiver.mk _ _ _ _ _ _ _). assert (H1 : wf_receiver r1) by done. clearbody r1.
  assert (H2 : wf_receiver (TCPReceiver.note_progress r1)).
  { unfold TCPReceiver.note_progress. destruct (negb (_ =? 0)); [|done].
    intros a Ea. simpl in Ea. injection Ea as <-. destruct (negb _); auto with sponge. }
  set (r2 := TCPReceiver.note_progress r1) in *. clearbody r2.
  assert (H3 : wf_receiver (TCPReceiver.note_syn (TCPSegment.header seg) r2)).
  { unfold TCPReceiver.note_syn. destruct (TCPHeader.syn _); [|done].
    intros a Ea. simpl in Ea. injection Ea as <-. destruct (TCPReceiver.ackno_ r2); auto with sponge. }
  unfold TCPReceiver.note_fin. by destruct (_ && _).
Qed.

Lemma ackno_wf r a : wf_receiver r → TCPReceiver.ackno r = Ok (Some a) → WrappingInt32.ok a.
Proof.
  intros Hr Ha. unfold TCPReceiver.ackno in Ha. destruct (_ =? 2); [|injection Ha as Ha; by apply Hr].
  apply result_bind_Ok in Ha as (x & _ & Ha). injection Ha as <-. auto with sponge.
Qed.

(** ** The connection *)

Lemma stamp_wf c g g' : wf_receiver (receiver c) → wf_seg g → stamp c g = Ok g' → wf_seg g'.
Proof.
  intros Hr [[] Hd Hp] Hs. unfold stamp in Hs. destruct (rst c); [injection Hs as <-; split; [by split|done|done]|].
  apply result_bind_Ok in Hs as (a & Ea & Hs). injection Hs as <-.
  pose proof (window_u16 (receiver c)) as Hw.
  replace (Z.min (TCPReceiver.window_size (receiver c)) UINT16_MAX) with
    (if TCPReceiver.window_size (receiver c) <=? UINT16_MAX then TCPReceiver.window_size (receiver c) else UINT16_MAX) in Hw
    by (destruct (Z.leb_spec (TCPReceiver.window_size (receiver c)) UINT16_MAX); lia).
  destruct a as [a|]; [pose proof (ackno_wf _ _ Hr Ea)|]; split; try done; split; try done.
Qed.

Lemma pull_push_wf c q out out' :
  wf_receiver (receiver c) → Forall wf_seg q → Forall wf_seg out → pull_push c q out = Ok out' → Forall wf_seg out'.
Proof.
  intros Hr Hq. revert out. induction Hq as [|g q Hg Hq IH]; intros out Ho Hp; simpl in Hp; [by inv_ok|].
  apply result_bind_Ok in Hp as (g' & Eg & Hp). apply (IH (out ++ [g'])); [|done].
  apply Forall_app. split; [done|]. apply Forall_singleton. by eapply stamp_wf.
Qed.

Lemma pull_push_segments_wf c c' : wf_conn c → pull_push_segments c = Ok c' → wf_conn c'.
Proof.
  intros [[Ho Hs] Hr Hout] Hp. unfold pull_push_segments in Hp. apply result_bind_Ok in Hp as (out & E & Hp).
  injection Hp as <-. split; simpl; [by split|done|]. eapply (pull_push_wf c); [done|exact Ho|exact Hout|exact E].
Qed.

Lemma fully_dead_wf c e c' : wf_conn c → fully_dead c e = Ok c' → wf_conn c'.
Proof.
  intros [Hs Hr Ho] Hd. unfold fully_dead in Hd. apply result_bind_Ok in Hd as (c1 & E1 & Hd).
  apply result_bind_Ok in Hd as (c2 & E2 & Hd). injection Hd as <-.
  assert (H1 : wf_conn c1).
  { destruct (e =? 0).
    - apply result_bind_Ok in E1 as (s & Es & E1). injection E1 as <-. split; simpl; try done. by eapply fill_window_wf.
    - injection E1 as <-. destruct Hs as [Hs1 Hs2]. pose proof (send_empty_wf (sender c) (mk_wf_sender _ Hs1 Hs2)) as [? ?].
      destruct (_ && _); split; simpl; try done; by split. }
  apply pull_push_segments_wf in E2; [|done]. by destruct E2.
Qed.

Lemma judge_do_wf c c' : wf_conn c → judge_do c = Ok c' → wf_conn c'.
Proof.
  intros Hc Hj. unfold judge_do in Hj. assert (Hl : wf_conn (with_linger c false)) by (by destruct Hc).
  destruct (negb (active c)); [by inv_ok|].
  repeat match type of Hj with context [if ?b then _ else _] => destruct b end;
    (eapply fully_dead_wf; [|exact Hj]; done) || (eapply pull_push_segments_wf; [|exact Hj]; done).
Qed.

Lemma with_sender_wf c s : wf_conn c → wf_sender s → wf_conn (with_sender c s).
Proof. by intros []. Qed.

Lemma fill_if_syned_wf c c' : wf_conn c → fill_if_syned c = Ok c' → wf_conn c'.
Proof.
  intros Hc Hf. unfold fill_if_syned in Hf. destruct (TCPSender.syned _); [|by inv_ok].
  apply result_bind_Ok in Hf as (s & Es & Hf). injection Hf as <-. apply with_sender_wf; [done|].
  eapply fill_window_wf; [|exact Es]. apply Hc.
Qed.

Lemma connect_wf c c' : wf_conn c → connect c = Ok c' → wf_conn c'.
Proof.
  intros Hc Hs. unfold connect in Hs. apply result_bind_Ok in Hs as (s & Es & Hs). eapply judge_do_wf; [|exact Hs].
  apply with_sender_wf; [done|]. eapply fill_window_wf; [|exact Es]. apply Hc.
Qed.

Lemma segment_received_wf `{StreamReassembler.EndKey} c seg c' :
  wf_conn c → segment_received c seg = Ok c' → wf_conn c'.
Proof.
  intros Hc Hs. unfold segment_received in Hs.
  destruct (TCPHeader.rst _); [eapply judge_do_wf; [|exact Hs]; by destruct Hc|].
  apply result_bind_Ok in Hs as (r & Er & Hs).
  assert (H1 : wf_conn (with_receiver (with_timer c 0) r)).
  { destruct Hc as [Hcs Hcr Hco]. split; simpl; try done. by eapply receiver_wf_step; [|exact Er]. }
  destruct (_ && _); [by eapply connect_wf|]. unfold segment_handled in Hs. apply result_bind_Ok in Hs as (c2 & E2 & Hs).
  apply fill_if_syned_wf in E2.
  2:{ destruct (TCPHeader.ack _); [|done]. apply with_sender_wf; [done|]. apply ack_received_wf, H1. }
  apply result_bind_Ok in Hs as (b & _ & Hs). eapply judge_do_wf; [|exact Hs].
  destruct (_ && _), b; destruct E2; try done; (split; try done; by apply send_empty_wf).
Qed.

Lemma write_wf c data c' n : wf_conn c → write c data = Ok (c', n) → wf_conn c'.
Proof.
  intros Hc Hw. unfold write in Hw. destruct (ByteStream.write _ _) as [st k]. apply result_bind_Ok in Hw as (c1 & E1 & Hw).
  apply result_bind_Ok in Hw as (c2 & E2 & Hw). injection Hw as <- _. eapply judge_do_wf; [|exact E2].
  eapply fill_if_syned_wf; [|exact E1]. destruct Hc as [[] ? ?]. split; simpl; try done; by split.
Qed.

Lemma tick_wf c ms c' : wf_conn c → tick c ms = Ok c' → wf_conn c'.
Proof.
  intros Hc Ht. unfold tick in Ht. apply result_bind_Ok in Ht as (c1 & E1 & Ht). eapply judge_do_wf; [|exact Ht].
  eapply fill_if_syned_wf; [|exact E1]. destruct Hc. split; simpl; try done. by apply sender_tick_wf.
Qed.

Lemma end_input_wf c c' : wf_conn c → end_input_stream c = Ok c' → wf_conn c'.
Proof.
  intros Hc He. unfold end_input_stream in He. apply result_bind_Ok in He as (s & Es & He). eapply judge_do_wf; [|exact He].
  destruct Hc as [[] ? ?]. split; simpl; try done. eapply fill_window_wf; [|exact Es]. by split.
Qed.

Lemma handle_wf `{StreamReassembler.EndKey} e c c' : wf_conn c → handle e c = Ok c' → wf_conn c'.
Proof.
  intros Hc Hh. destruct e as [seg|data|ms| |]; simpl in Hh.
  - by eapply segment_received_wf.
  - apply result_bind_Ok in Hh as ([c1 n] & E & Hh). injection Hh as <-. by eapply write_wf.
  - by eapply tick_wf.
  - by eapply end_input_wf.
  - by eapply connect_wf.
Qed.

Lemma new_wf cfg random : wf_conn (new cfg random).
Proof. split; [by split; apply Forall_nil_2|done|apply Forall_nil_2]. Qed.

Lemma wf_seg_fits g : wf_seg g → fits g.
Proof.
  intros [Hh Hd Hp]. split; [done|]. unfold Buffer.size, TCPConfig.MAX_PAYLOAD_SIZE in *. lia.
Qed.

(** What the UDP adapter sends for a segment: its header and its payload. *)
Lemma udp_write_spec a seg :
  base_ok a → fits seg →
  ∃ payload seg', TCPOverUDPSocketAdapter.write a seg = Ok (seg', (destination a, payload)) ∧
    blen payload = TCPHeader.doff (TCPSegment.header seg) * 4 + Buffer.size (TCPSegment.payload seg).
Proof.
  intros [Hs Hd] Hf. pose proof (set_ports_ok a seg Hs Hd Hf) as [Hok Hlen].
  pose proof (TCPHeader.ok_doff _ Hok) as Hdo. unfold Buffer.size in Hlen.
  pose proof (blen_nonneg (Buffer.str (TCPSegment.payload (FdAdapterBase.set_ports a seg)))) as Hn.
  pose proof (Checksum.word_sum_bounds (Buffer.str (TCPSegment.payload (FdAdapterBase.set_ports a seg)))) as Hw.
  destruct (segment_parse_core (FdAdapterBase.set_ports a seg) TCPSegment.default 0 Hok) as (l & El & Hll & _).
  { range_compute. }
  { unfold Buffer.size. unfold_w. lia. }
  { unfold_w. lia. }
  unfold TCPOverUDPSocketAdapter.write. rewrite El. eexists _, _. split; [done|]. rewrite Hll. simpl. lia.
Qed.

Lemma udp_write_carried a seg :
  base_ok a → wf_seg seg →
  ∃ payload seg', TCPOverUDPSocketAdapter.write a seg = Ok (seg', (destination a, payload)) ∧ blen payload <= 1020.
Proof.
  intros Ha Hs. destruct (udp_write_spec a seg Ha (wf_seg_fits _ Hs)) as (payload & seg' & E & Hl). exists payload, seg'. split; [done|].
  destruct Hs as [_ Hd Hp]. rewrite Hl, Hd. unfold Buffer.size. unfold TCPConfig.MAX_PAYLOAD_SIZE in Hp. lia.
Qed.

(** What the three adapters can write. *)
Definition carried (g : TCPSegment.t) : Prop :=
  wf_seg g ∧
  (∀ a, base_ok a → is_Ok (TCPOverUDPSocketAdapter.write a g) ∧ is_Ok (TCPOverIPv4OverTunFdAdapter.write a g)) ∧
  (∀ a, ethernet_ok a → is_Ok (TCPOverIPv4OverEthernetAdapter.write a g)).

Lemma wf_seg_carried g : wf_seg g → carried g.
Proof.
  intros Hg. pose proof (wf_seg_fits g Hg) as Hf. split; [done|]. split; intros a Ha; [split|].
  - destruct (udp_write_spec a g Ha Hf) as (? & ? & E & _). by eexists.
  - destruct (tun_write_safe a g Ha Hf) as (? & ? & E & _). by eexists.
  - destruct (ethernet_write_safe a g Ha Hf) as (? & ? & ? & E & _). by eexists.
Qed.

Lemma handle_all_wf `{StreamReassembler.EndKey} es c c' : wf_conn c → handle_all es c = Ok c' → wf_conn c'.
Proof.
  revert c. induction es as [|e es IH]; intros c Hc Hall; simpl in Hall; [by injection Hall as <-|].
  apply result_bind_Ok in Hall as (c1 & E & Hall). eapply IH; [|exact Hall]. by eapply handle_wf.
Qed.

(** C22. Whatever segments arrive, the application writes and time passes, every
    segment that a connection puts into its queue is well typed: each header
    field holds a value of its width, the header has no options, the payload is
    at most 1000 bytes; and the UDP, the IPv4 and the Ethernet adapter all write
    it without throwing. *)
Theorem connection_segments_carried `{StreamReassembler.EndKey} es cfg random c :
  handle_all es (new cfg random) = Ok c → Forall carried (segments_out c).
Proof.
  intros Hall. apply handle_all_wf in Hall as [_ _ Ho]; [|apply new_wf].
  eapply Forall_impl; [exact Ho|]. apply wf_seg_carried.
Qed.

Lemma connection_segments_carried_witness :
  ∃ c g, handle_all [Connect; Write (slice alphabet 0 3); Tick 20] (new sample_cfg 0) = Ok c ∧ g ∈ segments_out c ∧ carried g.
Proof.
  destruct (handle_all [Connect; Write (slice alphabet 0 3); Tick 20] (new sample_cfg 0)) as [c|] eqn:E.
  - pose proof (connection_segments_carried _ _ _ _ E) as Hall.
    destruct (segments_out c) as [|g q] eqn:Eq; [vm_compute in E; injection E as <-; discriminate Eq|].
    exists c, g. split; [reflexivity|]. rewrite Eq. split; [left|]. inversion Hall. assumption.
  - vm_compute in E. discriminate E.
Defined.
