(* ===== verification/Descriptors.v ===== *)
(** * File descriptors and sockets: util/file_descriptor.*, the helper SystemCall of util/util.*, util/socket.*

    [FileDescriptor] translates the handle with its flags and counters, [Socket]
    the wrappers of the socket calls. The operating system is the class [Kernel]:
    a state, and what every system call answers and leaves; [KernelLaws] states
    what the manual pages promise: what a call does when it succeeds, and that
    one that fails transfers nothing. *)

From S2P Require Import Prelude Buffers Parsing Printing Addresses.

(** The answer of a system call: its value, or the error number. *)
Inductive sys (A : Type) :=
  | Returned (a : A)
  | Failed (errno : Z).
Arguments Returned {A} _.
Arguments Failed {A} _.

(** [SystemCall] with no accepted error number. *)
Definition SystemCall {A} (attempt : string) (r : sys A) : result A :=
  match r with Returned a => Ok a | Failed e => Err (unix_error attempt e) end.

Record pollfd := mk_pollfd {
  fd : Z;
  events : Z;
  revents : Z;
}.

(** The state of the world outside the program, and the system calls on it. A
    descriptor is its number. *)
Class Kernel (E : Type) := mk_kernel {
  sys_read : E → Z → Z → sys bytes * E;
  sys_writev : E → Z → BufferViewList.t → sys Z * E;
  sys_close : E → Z → sys Z * E;
  sys_shutdown : E → Z → Z → sys Z * E;
  sys_getfl : E → Z → sys Z * E;
  sys_setfl : E → Z → Z → sys Z * E;
  sys_poll : E → list pollfd → Z → sys (Z * list Z) * E;     (* the count, and [revents] for each *)
  steady_clock : E → Z * E;                                   (* in milliseconds *)
}.

(** One call on the state [e]. *)
Definition call {E A} (attempt : string) (r : sys A * E) : result (E * A) :=
  let '(answer, e) := r in a ← SystemCall attempt answer; Ok (e, a).

Definition timestamp_ms `{Kernel E} (e : E) : E * Z :=
  let '(now, e) := steady_clock e in (e, w64 now).

Module FileDescriptor.

(** [FDWrapper], which all the handles of a descriptor share. *)
Record t := mk {
  fd_num : Z;            (* _fd *)
  eof : bool;            (* _eof *)
  closed : bool;         (* _closed *)
  read_count : Z;        (* _read_count *)
  write_count : Z;       (* _write_count *)
}.

Definition new (fd : Z) : result t :=
  if fd <? 0 then Err (runtime_error ("invalid fd number:-" ++ to_string (- fd))%string) else Ok (mk fd false false 0 0).

Definition register_read (f : t) : t := mk (fd_num f) (eof f) (closed f) (w32 (read_count f + 1)) (write_count f).

Definition register_write (f : t) : t := mk (fd_num f) (eof f) (closed f) (read_count f) (w32 (write_count f + 1)).

Definition set_eof (f : t) : t := mk (fd_num f) true (closed f) (read_count f) (write_count f).

Definition BUFFER_SIZE : Z := 1024 * 1024.

(** The limit of a [read] that names none. *)
Definition NO_LIMIT : Z := 0xffffffffffffffff.

Definition O_NONBLOCK : Z := 0x800.

Section calls.
Context `{Kernel E}.

Definition close (e : E) (f : t) : result (E * t) :=
  '(e, _) ← call "close" (sys_close e (fd_num f));
  Ok (e, mk (fd_num f) true true (read_count f) (write_count f)).

(** The destructor of the last handle; an exception inside it is caught. *)
Definition destroy (e : E) (f : t) : E :=
  if closed f then e else snd (sys_close e (fd_num f)).

Definition read (e : E) (f : t) (limit : Z) : result (E * t * bytes) :=
  let size_to_read := Z.min BUFFER_SIZE limit in
  '(e, str) ← call "read" (sys_read e (fd_num f) size_to_read);
  let f := if (0 <? limit) && (blen str =? 0) then set_eof f else f in
  if size_to_read <? blen str then Err (runtime_error "read() read more than requested")
  else Ok (e, register_read f, str).

(** The loop runs on fuel. *)
Fixpoint write_loop (fuel : nat) (e : E) (f : t) (buffer : BufferViewList.t) (write_all : bool)
    (total_bytes_written : Z) : result (E * t * Z) :=
  match fuel with
  | O => Err out_of_fuel
  | S fuel =>
      '(e, bytes_written) ← call "writev" (sys_writev e (fd_num f) buffer);
      if (bytes_written =? 0) && negb (BufferViewList.size buffer =? 0)
      then Err (runtime_error "write returned 0 given non-empty input buffer")
      else if BufferViewList.size buffer <? bytes_written
      then Err (runtime_error "write wrote more than length of input buffer")
      else
        let f := register_write f in
        buffer ← BufferViewList.remove_prefix buffer bytes_written;
        let total_bytes_written := w64 (total_bytes_written + bytes_written) in
        if write_all && negb (BufferViewList.size buffer =? 0)
        then write_loop fuel e f buffer write_all total_bytes_written
        else Ok (e, f, total_bytes_written)
  end.

(** Each round but the first follows one that wrote at least one byte. *)
Definition write (e : E) (f : t) (buffer : BufferViewList.t) (write_all : bool) : result (E * t * Z) :=
  write_loop (S (length (mjoin buffer))) e f buffer write_all 0.

Definition set_blocking (e : E) (f : t) (blocking_state : bool) : result E :=
  '(e, flags) ← call "fcntl" (sys_getfl e (fd_num f));
  let flags := if blocking_state then Z.lxor flags (Z.land flags O_NONBLOCK) else Z.lor flags O_NONBLOCK in
  '(e, _) ← call "fcntl" (sys_setfl e (fd_num f) flags);
  Ok e.

End calls.

End FileDescriptor.

Module Socket.

Definition SHUT_RD : Z := 0.

Definition SHUT_WR : Z := 1.

Definition SHUT_RDWR : Z := 2.

Definition shutdown `{Kernel E} (e : E) (f : FileDescriptor.t) (how : Z) : result (E * FileDescriptor.t) :=
  '(e, _) ← call "shutdown" (sys_shutdown e (FileDescriptor.fd_num f) how);
  if how =? SHUT_RD then Ok (e, FileDescriptor.register_read f)
  else if how =? SHUT_WR then Ok (e, FileDescriptor.register_write f)
  else if how =? SHUT_RDWR then Ok (e, FileDescriptor.register_write (FileDescriptor.register_read f))
  else Err (runtime_error "Socket::shutdown() called with invalid `how`").

End Socket.

(** ** What the kernel promises *)

(** What is asked of sockets, apart from the bytes of streams: addresses they are
    bound and connected to, connections accepted, and datagrams, each with the
    address it came from or the one it was sent to. *)
Inductive socket_event :=
  | Bound (fd : Z) (address : bytes)
  | Connected (fd : Z) (address : bytes)
  | Listening (fd : Z)
  | Accepted (listening fd : Z)
  | Received (fd : Z) (source : Address.t) (datagram : bytes)
  | Posted (fd : Z) (destination : option bytes) (datagram : bytes).

(** [drawn e fd] is what reads of [fd] have given so far, [sunk e fd] what writes
    have taken; [world_ok] is what stays true of the world, and bounds what it
    ever gives. [history] is what sockets were asked for, and [fallible] says
    whether calls of this kernel may fail. *)
Class KernelView (E : Type) := mk_kernel_view {
  drawn : E → Z → bytes;
  sunk : E → Z → bytes;
  world_ok : E → Prop;
  history : E → list socket_event;
  fallible : Prop;
}.

(** [e'] differs from [e] only in that [fd] gave [b]. *)
Definition gave `{KernelView E} (e e' : E) (fd : Z) (b : bytes) : Prop :=
  world_ok e' ∧ (∀ k, drawn e' k = if decide (k = fd) then drawn e fd ++ b else drawn e k) ∧
  (∀ k, sunk e' k = sunk e k).

(** [e'] differs from [e] only in that [fd] took [b]. *)
Definition took `{KernelView E} (e e' : E) (fd : Z) (b : bytes) : Prop :=
  world_ok e' ∧ (∀ k, sunk e' k = if decide (k = fd) then sunk e fd ++ b else sunk e k) ∧
  (∀ k, drawn e' k = drawn e k).

Definition idle `{KernelView E} (e e' : E) : Prop :=
  world_ok e' ∧ (∀ k, drawn e' k = drawn e k) ∧ (∀ k, sunk e' k = sunk e k).

(** The call has failed, as its manual page allows (EPIPE after a shutdown, EBADF
    after a close, ECONNRESET, EIO and so on), and nothing was transferred. *)
Definition fails `{KernelView E} {A} (e : E) (r : sys A * E) : Prop :=
  fallible (E := E) ∧ ∃ errno e', r = (Failed errno, e') ∧ idle e e'.

(** Every call but the clock's may fail, at any time, on any descriptor; the
    descriptors that [poll] reports may have an error; and a poll may be
    interrupted even when nothing else fails. *)
Class KernelLaws (E : Type) `{Kernel E, KernelView E} := mk_kernel_laws {
  law_bound : ∀ e fd, world_ok e → blen (drawn e fd) < 0x2000000000000000;
  law_read : ∀ e fd n, world_ok e → 0 <= n → fails e (sys_read e fd n) ∨
    ∃ b e', sys_read e fd n = (Returned b, e') ∧ blen b <= n ∧ gave e e' fd b;
  law_writev : ∀ e fd l, world_ok e → fails e (sys_writev e fd l) ∨ ∃ n e', sys_writev e fd l = (Returned n, e') ∧
    (if decide (mjoin l = []) then n = 0 else 0 < n <= blen (mjoin l)) ∧ took e e' fd (ztake n (mjoin l));
  law_shutdown : ∀ e fd how, world_ok e → fails e (sys_shutdown e fd how) ∨
    ∃ e', sys_shutdown e fd how = (Returned 0, e') ∧ idle e e';
  law_close : ∀ e fd, world_ok e → fails e (sys_close e fd) ∨ ∃ e', sys_close e fd = (Returned 0, e') ∧ idle e e';
  law_getfl : ∀ e fd, world_ok e → fails e (sys_getfl e fd) ∨
    ∃ flags e', sys_getfl e fd = (Returned flags, e') ∧ idle e e';
  law_setfl : ∀ e fd flags, world_ok e → fails e (sys_setfl e fd flags) ∨
    ∃ e', sys_setfl e fd flags = (Returned 0, e') ∧ idle e e';
  law_poll : ∀ e l timeout, world_ok e → ∃ answer e', sys_poll e l timeout = (answer, e') ∧ idle e e' ∧
    match answer with
    | Returned (_, revs) =>
        length revs = length l ∧ (fallible (E := E) ∨ Forall (λ v, Z.land v 0x28 = 0) revs)     (* POLLERR | POLLNVAL *)
    | Failed _ => True
    end;
  law_clock : ∀ e, world_ok e → ∃ now e', steady_clock e = (now, e') ∧ idle e e';
}.

(** *** Failures in the program

    What a failed call is turned into: the exception of [SystemCall], or that of
    the event loop for a descriptor with an error. *)
Definition polled_error : exn := runtime_error "EventLoop: error on polled file descriptor".

Definition system_failure (x : exn) : Prop := (∃ attempt errno, x = unix_error attempt errno) ∨ x = polled_error.

(** An exception that a failed call explains. *)
Definition fault `{KernelView E} (x : exn) : Prop := fallible (E := E) ∧ system_failure x.

(** The computation ends with such an exception. *)
Definition faulted `{KernelView E} {A} (r : result A) : Prop := ∃ x, r = Err x ∧ fault (E := E) x.

(** Closes a goal [faulted r], or one whose first alternative it is, when the
    first step of [r] is the faulted computation of [H]. *)
Ltac by_fault H :=
  let x := fresh "x" in let Hx := fresh "Hx" in let Hf := fresh "Hf" in
  destruct H as (x & Hx & Hf); first [left; exists x | exists x];
  (split; [first [exact Hx | rewrite Hx; reflexivity | cbn [mbind result_bind]; rewrite Hx; reflexivity]|exact Hf]).

(** Refutes that what starts with the faulted computation of [H] has returned. *)
Ltac no_fault H Hok := let x := fresh in let Hx := fresh in destruct H as (x & Hx & _); rewrite Hx in Hok; discriminate Hok.

Lemma faulted_bind `{KernelView E} {A B} (r : result A) (k : A → result B) : faulted (E := E) r → faulted (E := E) (r ≫= k).
Proof. intros Hr. by_fault Hr. Qed.

Lemma fails_call `{KernelView E} {A} attempt (e : E) (r : sys A * E) : fails e r → faulted (E := E) (call attempt r).
Proof. intros (Hf & n & e' & -> & _). exists (unix_error attempt n). split; [done|]. split; [done|]. left. eauto. Qed.

(** Nothing faults where nothing fails. *)
Lemma sure_fails `{KernelView E} {A} (e : E) (r : sys A * E) P : ~ fallible (E := E) → fails e r ∨ P → P.
Proof. intros Hn [[Hf _]|?]; [|done]. by destruct (Hn Hf). Qed.

Lemma sure `{KernelView E} {A} (r : result A) P : ~ fallible (E := E) → faulted (E := E) r ∨ P → P.
Proof. intros Hn [(x & _ & Hf & _)|?]; [|done]. by destruct (Hn Hf). Qed.

(** Either way the stream of bytes is as it was. *)
Lemma idle_either `{KernelView E} {A} (e : E) (r : sys A * E) :
  fails e r ∨ (∃ a e', r = (Returned a, e') ∧ idle e e') → idle e r.2.
Proof. intros [(_ & n & e' & -> & Hi)|(a & e' & -> & Hi)]; exact Hi. Qed.

(** ** The calls under these promises *)

Section laws.
Context `{KernelLaws E}.
Implicit Types (e : E) (f : FileDescriptor.t).

Lemma idle_refl e : world_ok e → idle e e.
Proof. done. Qed.

Lemma idle_trans e1 e2 e3 : idle e1 e2 → idle e2 e3 → idle e1 e3.
Proof. intros (_ & Ha & Hb) (Hw & Hc & Hd). split; [done|]. split; intros k; by rewrite ?Hc, ?Hd. Qed.

Lemma took_trans e1 e2 e3 fd b c : took e1 e2 fd b → took e2 e3 fd c → took e1 e3 fd (b ++ c).
Proof.
  intros (_ & Ha & Hb) (Hw & Hc & Hd). split; [done|]. split; intros k; rewrite ?Hc, ?Hd, ?Ha, ?Hb; [|done].
  destruct (decide (k = fd)) as [->|]; [|done]. by rewrite decide_True, app_assoc by done.
Qed.

Lemma took_nil e e' fd : took e e' fd [] → idle e e'.
Proof.
  intros (Hw & Hs & Hd). split; [done|]. split; [done|]. intros k. rewrite Hs.
  case_decide as Ek; [subst k; apply app_nil_r|done].
Qed.

(** A read takes at most what was asked for, counts itself, and notes the end of
    the file exactly when it asked for something and got nothing. *)
Lemma descriptor_read_spec e f limit :
  world_ok e → 0 <= limit → faulted (E := E) (FileDescriptor.read e f limit) ∨
  ∃ e' f' b, FileDescriptor.read e f limit = Ok (e', f', b) ∧ blen b <= limit ∧
    gave e e' (FileDescriptor.fd_num f) b ∧
    f' = FileDescriptor.mk (FileDescriptor.fd_num f) (FileDescriptor.eof f || ((0 <? limit) && (blen b =? 0)))
      (FileDescriptor.closed f) (w32 (FileDescriptor.read_count f + 1)) (FileDescriptor.write_count f).
Proof.
  intros Hw Hl. unfold FileDescriptor.read. set (n := Z.min FileDescriptor.BUFFER_SIZE limit).
  assert (Hn : 0 <= n <= limit) by (unfold n, FileDescriptor.BUFFER_SIZE; lia).
  destruct (law_read e (FileDescriptor.fd_num f) n) as [Hf|(b & e' & -> & Hb & Hg)]; [done|lia| |].
  { apply (fails_call "read") in Hf. by_fault Hf. }
  right.
  cbn [call SystemCall mbind result_bind]. rewrite (proj2 (Z.ltb_ge n (blen b))) by done.
  eexists e', _, b. split; [done|]. split; [lia|]. split; [done|].
  destruct (_ && _); simpl; by rewrite ?orb_true_r, ?orb_false_r.
Qed.

Lemma shutdown_spec e f how :
  world_ok e → how = Socket.SHUT_WR → faulted (E := E) (Socket.shutdown e f how) ∨
  ∃ e', Socket.shutdown e f how = Ok (e', FileDescriptor.register_write f) ∧ idle e e'.
Proof.
  intros Hw ->. unfold Socket.shutdown.
  destruct (law_shutdown e (FileDescriptor.fd_num f) Socket.SHUT_WR Hw) as [Hf|(e' & -> & H')]; [|right; by exists e'].
  apply (fails_call "shutdown") in Hf. by_fault Hf.
Qed.

Lemma shutdown_both_spec e f :
  world_ok e → faulted (E := E) (Socket.shutdown e f Socket.SHUT_RDWR) ∨
  ∃ e', Socket.shutdown e f Socket.SHUT_RDWR = Ok (e', FileDescriptor.register_write (FileDescriptor.register_read f)) ∧ idle e e'.
Proof.
  intros Hw. unfold Socket.shutdown.
  destruct (law_shutdown e (FileDescriptor.fd_num f) Socket.SHUT_RDWR Hw) as [Hf|(e' & -> & H')]; [|right; by exists e'].
  apply (fails_call "shutdown") in Hf. by_fault Hf.
Qed.

Lemma close_spec e f :
  world_ok e → faulted (E := E) (FileDescriptor.close e f) ∨ ∃ e', FileDescriptor.close e f = Ok (e', FileDescriptor.mk (FileDescriptor.fd_num f) true true
    (FileDescriptor.read_count f) (FileDescriptor.write_count f)) ∧ idle e e'.
Proof.
  intros Hw. unfold FileDescriptor.close. destruct (law_close e (FileDescriptor.fd_num f) Hw) as [Hf|(e' & -> & H')];
    [|right; by exists e'].
  apply (fails_call "close") in Hf. by_fault Hf.
Qed.

Lemma set_blocking_spec e f b : world_ok e → faulted (E := E) (FileDescriptor.set_blocking e f b) ∨
  ∃ e', FileDescriptor.set_blocking e f b = Ok e' ∧ idle e e'.
Proof.
  intros Hw. unfold FileDescriptor.set_blocking.
  destruct (law_getfl e (FileDescriptor.fd_num f) Hw) as [Hf|(flags & e1 & -> & Hi)].
  { apply (fails_call "fcntl") in Hf. by_fault Hf. }
  cbn [call SystemCall mbind result_bind].
  destruct (law_setfl e1 (FileDescriptor.fd_num f)
    (if b then Z.lxor flags (Z.land flags FileDescriptor.O_NONBLOCK) else Z.lor flags FileDescriptor.O_NONBLOCK)
    (proj1 Hi)) as [Hf|(e2 & -> & Hi')].
  { apply (fails_call "fcntl") in Hf. by_fault Hf. }
  right. exists e2. split; [done|]. by eapply idle_trans.
Qed.

(** Destroying a handle: a failure is caught. *)
Lemma destroy_spec e f : world_ok e → idle e (FileDescriptor.destroy e f).
Proof.
  intros Hw. unfold FileDescriptor.destroy. destruct (FileDescriptor.closed f); [done|]. apply idle_either.
  destruct (law_close e (FileDescriptor.fd_num f) Hw) as [?|(e' & ? & ?)]; [by left|right; by exists 0, e'].
Qed.

Lemma timestamp_spec e : world_ok e → ∃ e' now, timestamp_ms e = (e', now) ∧ is_u64 now ∧ idle e e'.
Proof.
  intros Hw. unfold timestamp_ms. destruct (law_clock e Hw) as (now & e' & -> & Hi). exists e', (w64 now).
  split; [done|]. split; [apply w64_range|done].
Qed.

Lemma view_list_size_spec l : is_u64 (blen (mjoin l)) → BufferViewList.size l = blen (mjoin l).
Proof.
  assert (Hb : blen (mjoin l) = zsum blen l).
  { induction l as [|v l IH]; simpl; [done|]. by rewrite blen_app, IH. }
  rewrite Hb. intros Hu. unfold BufferViewList.size. by rewrite (foldl_w64_zsum blen) by (auto using blen_nonneg; done).
Qed.

(** What the writes of a descriptor leave of its handle. *)
Definition only_written (f f' : FileDescriptor.t) : Prop :=
  FileDescriptor.fd_num f' = FileDescriptor.fd_num f ∧ FileDescriptor.eof f' = FileDescriptor.eof f ∧
  FileDescriptor.closed f' = FileDescriptor.closed f ∧ FileDescriptor.read_count f' = FileDescriptor.read_count f.

(** One round of [write]: nothing is thrown. *)
Lemma write_round e f l n e' :
  is_u64 (blen (mjoin l)) →
  sys_writev e (FileDescriptor.fd_num f) l = (Returned n, e') →
  (if decide (mjoin l = []) then n = 0 else 0 < n <= blen (mjoin l)) →
  ∃ l', mjoin l' = zdrop n (mjoin l) ∧ 0 <= n <= blen (mjoin l) ∧ (n = 0 → mjoin l = []) ∧
    ∀ fuel write_all total, FileDescriptor.write_loop (S fuel) e f l write_all total =
      if write_all && negb (blen (mjoin l') =? 0)
      then FileDescriptor.write_loop fuel e' (FileDescriptor.register_write f) l' write_all (w64 (total + n))
      else Ok (e', FileDescriptor.register_write f, w64 (total + n)).
Proof.
  intros Hu Ew Hk. pose proof (blen_nonneg (mjoin l)) as Hn.
  assert (Hn0 : 0 <= n <= blen (mjoin l) ∧ (n = 0 → mjoin l = [])).
  { destruct (decide (mjoin l = [])) as [E0|]; [|lia]. rewrite E0. change (blen (@nil byte)) with 0. split; [lia|done]. }
  destruct Hn0 as [Hnr Hn0]. destruct (view_list_remove_prefix_spec l n Hnr) as (l' & El & El').
  exists l'. split_and!; try done; try lia. intros fuel write_all total. cbn [FileDescriptor.write_loop].
  rewrite Ew. cbn [call SystemCall mbind result_bind]. rewrite (view_list_size_spec l Hu).
  replace ((n =? 0) && negb (blen (mjoin l) =? 0)) with false.
  2:{ destruct (Z.eqb_spec n 0) as [E0|]; [|done]. by rewrite (Hn0 E0). }
  rewrite (proj2 (Z.ltb_ge _ _)) by lia. rewrite El. cbn [mbind result_bind].
  rewrite view_list_size_spec; [done|]. rewrite El', blen_zdrop by lia. unfold_w. lia.
Qed.

Lemma writev_fault fuel e f l write_all total :
  fails e (sys_writev e (FileDescriptor.fd_num f) l) →
  faulted (E := E) (FileDescriptor.write_loop (S fuel) e f l write_all total).
Proof. intros Hf. apply (fails_call "writev") in Hf. cbn [FileDescriptor.write_loop]. by_fault Hf. Qed.

(** A write that need not take everything: one call, of which [n] bytes pass. *)
Lemma write_some_spec e f l :
  world_ok e → is_u64 (blen (mjoin l)) → faulted (E := E) (FileDescriptor.write e f l false) ∨
  ∃ e' n, FileDescriptor.write e f l false = Ok (e', FileDescriptor.register_write f, n) ∧
    0 <= n <= blen (mjoin l) ∧ (n = 0 → mjoin l = []) ∧ took e e' (FileDescriptor.fd_num f) (ztake n (mjoin l)).
Proof.
  intros Hw Hu. destruct (law_writev e (FileDescriptor.fd_num f) l Hw) as [Hf|(n & e' & Ew & Hk & Ht)].
  { left. by apply writev_fault. }
  destruct (write_round e f l n e' Hu Ew Hk) as (l' & _ & Hn & Hn0 & Hr). right. exists e', n.
  unfold FileDescriptor.write. rewrite Hr. cbn [andb]. rewrite w64_small by (unfold_w; lia). done.
Qed.

Lemma write_loop_all fuel e f l total :
  world_ok e → is_u64 (total + blen (mjoin l)) → 0 <= total → (length (mjoin l) < fuel)%nat →
  faulted (E := E) (FileDescriptor.write_loop fuel e f l true total) ∨
  ∃ e' f', FileDescriptor.write_loop fuel e f l true total = Ok (e', f', total + blen (mjoin l)) ∧
    took e e' (FileDescriptor.fd_num f) (mjoin l) ∧ only_written f f'.
Proof.
  revert e f l total. induction fuel as [|fuel IH]; intros e f l total Hw Hu Ht Hf; [lia|].
  pose proof (blen_nonneg (mjoin l)) as Hnn. assert (Hul : is_u64 (blen (mjoin l))) by (unfold_w; lia).
  destruct (law_writev e (FileDescriptor.fd_num f) l Hw) as [Hfl|(n & e1 & Ew & Hk & Htk)].
  { left. by apply writev_fault. }
  destruct (write_round e f l n e1 Hul Ew Hk) as (l' & El' & Hn & Hn0 & ->). cbn [andb].
  assert (Hl' : blen (mjoin l') = blen (mjoin l) - n) by (rewrite El', blen_zdrop by lia; lia).
  rewrite w64_small by (unfold_w; lia). destruct (Z.eqb_spec (blen (mjoin l')) 0) as [E0|E0]; cbn [negb].
  - assert (n = blen (mjoin l)) as -> by lia. right. eexists _, _. split; [done|]. split; [|done].
    by rewrite ztake_all in Htk by lia.
  - destruct (IH e1 (FileDescriptor.register_write f) l' (total + n)) as [Hfl|(e' & f' & -> & Htk' & Hfw)];
      [apply Htk|unfold_w; lia|lia| |by left|].
    { unfold blen in *. assert (n ≠ 0) by (intros E1; rewrite (Hn0 E1) in *; simpl in *; lia). lia. }
    right. exists e', f'. split; [do 2 f_equal; lia|]. split; [|done].
    rewrite <- (ztake_zdrop n (mjoin l)), <- El'. by eapply took_trans.
Qed.

Lemma write_all_core e f l :
  world_ok e → is_u64 (blen (mjoin l)) → faulted (E := E) (FileDescriptor.write e f l true) ∨
  ∃ e' f', FileDescriptor.write e f l true = Ok (e', f', blen (mjoin l)) ∧
    took e e' (FileDescriptor.fd_num f) (mjoin l) ∧ only_written f f'.
Proof. intros Hw Hu. apply (write_loop_all _ e f l 0); [done|done|lia|lia]. Qed.

(** [write] with [write_all] writes everything, unless a call fails: when each
    [writev] takes at least one byte of a non-empty list, the loop ends, without
    throwing, and returns the size of the whole list, and exactly its bytes, in
    order, have gone into the descriptor. *)
Theorem descriptor_write_all e f l :
  world_ok e → is_u64 (blen (mjoin l)) → faulted (E := E) (FileDescriptor.write e f l true) ∨
  ∃ e' f', FileDescriptor.write e f l true = Ok (e', f', blen (mjoin l)) ∧
    took e e' (FileDescriptor.fd_num f) (mjoin l) ∧ only_written f f'.
Proof. apply write_all_core. Qed.

End laws.

(** ** A kernel to test with

    Every descriptor has a script of what its reads give; a write takes one byte
    at a time, [poll] finds every descriptor ready, and nothing fails. *)
Record toy := mk_toy {
  script : Z → list bytes;
  toy_drawn : Z → bytes;
  toy_sunk : Z → bytes;
  toy_time : Z;
  toy_history : list socket_event;
}.

Definition update {A} (m : Z → A) (k : Z) (a : A) : Z → A := λ x, if decide (x = k) then a else m x.

#[export] Instance toy_kernel : Kernel toy := {
  sys_read e fd n :=
    match script e fd with
    | [] => (Returned [], e)
    | b :: s =>
        let got := ztake n b in
        (Returned got, mk_toy (update (script e) fd (if n <? blen b then zdrop n b :: s else s))
           (update (toy_drawn e) fd (toy_drawn e fd ++ got)) (toy_sunk e) (toy_time e) (toy_history e))
    end;
  sys_writev e fd l :=
    let n := Z.min 1 (blen (mjoin l)) in
    (Returned n, mk_toy (script e) (toy_drawn e) (update (toy_sunk e) fd (toy_sunk e fd ++ ztake n (mjoin l))) (toy_time e) (toy_history e));
  sys_close e _ := (Returned 0, e);
  sys_shutdown e _ _ := (Returned 0, e);
  sys_getfl e _ := (Returned 0, e);
  sys_setfl e _ _ := (Returned 0, e);
  sys_poll e l _ := (Returned (blen l, (λ p, Z.land (events p) 5) <$> l), e);
  steady_clock e := (toy_time e, mk_toy (script e) (toy_drawn e) (toy_sunk e) (toy_time e + 10) (toy_history e));
}.

#[export] Instance toy_view : KernelView toy := {
  drawn := toy_drawn;
  sunk := toy_sunk;
  world_ok e := ∀ fd, blen (toy_drawn e fd) + blen (mjoin (script e fd)) < 0x2000000000000000;
  history := toy_history;
  fallible := False;
}.

Lemma toy_sure : ~ fallible (E := toy).
Proof. by intros []. Qed.

Lemma toy_read_ok e fd n : world_ok e → 0 <= n →
  ∃ b e', sys_read e fd n = (Returned b, e') ∧ blen b <= n ∧ gave e e' fd b.
Proof.
  intros Hw Hn. unfold sys_read, toy_kernel. destruct (script e fd) as [|b s] eqn:Es.
  - exists [], e. split; [done|]. split; [done|]. split; [done|]. split; [|done]. intros k. case_decide as Ek; [subst k; by rewrite app_nil_r|done].
  - eexists _, _. split; [done|]. rewrite blen_ztake by done. split; [lia|]. split; [|done].
    intros k. simpl. unfold update. case_decide as Ek; [subst k|apply Hw]. pose proof (Hw fd) as Hf. rewrite Es in Hf.
    simpl in Hf. rewrite blen_app in *. pose proof (blen_nonneg b). destruct (Z.ltb_spec n (blen b)) as [Hl|Hl].
    + simpl. rewrite blen_app, blen_ztake, blen_zdrop by lia. lia.
    + rewrite ztake_all by lia. lia.
Qed.

#[export] Program Instance toy_laws : KernelLaws toy.
Next Obligation. intros e fd Hw. pose proof (Hw fd). pose proof (blen_nonneg (mjoin (script e fd))). simpl. lia. Qed.
Next Obligation. right. by apply toy_read_ok. Qed.
Next Obligation.
  intros e fd l Hw. right. eexists _, _. split; [done|]. split; [|done].
  case_decide as E; [by rewrite E|]. pose proof (blen_nonneg (mjoin l)).
  destruct (Z.eq_dec (blen (mjoin l)) 0) as [E'|]; [by apply blen_0_nil in E'|lia].
Qed.
Next Obligation. intros e fd how Hw. right. by exists e. Qed.
Next Obligation. intros e fd Hw. right. by exists e. Qed.
Next Obligation. intros e fd Hw. right. by exists 0, e. Qed.
Next Obligation. intros e fd flags Hw. right. by exists e. Qed.
Next Obligation.
  intros e l timeout Hw. eexists _, e. split; [done|]. split; [done|]. split; [by rewrite length_fmap|right].
  apply Forall_fmap, Forall_forall. intros p _. simpl. rewrite <- Z.land_assoc. apply Z.land_0_r.
Qed.
Next Obligation. intros e Hw. eexists _, _. split; [done|]. done. Qed.

Definition toy_start (s : Z → list bytes) : toy := mk_toy s (λ _, []) (λ _, []) 0 [].

Lemma descriptor_write_all_witness :
  ∃ e' f', FileDescriptor.write (toy_start (λ _, [])) (FileDescriptor.mk 3 false false 0 0)
      [[Byte.x61; Byte.x62]; [Byte.x63]] true = Ok (e', f', 3) ∧
    sunk e' 3 = [Byte.x61; Byte.x62; Byte.x63] ∧ FileDescriptor.read_count f' = 0.
Proof.
  destruct (descriptor_write_all (toy_start (λ _, [])) (FileDescriptor.mk 3 false false 0 0)
    [[Byte.x61; Byte.x62]; [Byte.x63]]) as [(x & _ & [] & _)|(e' & f' & E & (_ & Hs & _) & _ & _ & _ & Hr)].
  - intros fd. vm_compute. reflexivity.
  - range_compute.
  - exists e', f'. split; [exact E|]. split; [exact (Hs 3)|exact Hr].
Defined.

(** [set_blocking] sets exactly the bit O_NONBLOCK, and leaves the other flags. *)
Lemma set_blocking_flags `{Kernel E} (e e1 : E) f b flags :
  sys_getfl e (FileDescriptor.fd_num f) = (Returned flags, e1) →
  FileDescriptor.set_blocking e f b =
    ('(e2, _) ← call "fcntl" (sys_setfl e1 (FileDescriptor.fd_num f)
       (if b then Z.ldiff flags FileDescriptor.O_NONBLOCK else Z.lor flags FileDescriptor.O_NONBLOCK)); Ok e2).
Proof.
  intros Hf. unfold FileDescriptor.set_blocking. rewrite Hf. cbn [call SystemCall mbind result_bind].
  destruct b; [|done]. do 2 f_equal. f_equal. apply Z.bits_inj'. intros i Hi.
  rewrite Z.lxor_spec, Z.land_spec, Z.ldiff_spec. by destruct (Z.testbit flags i), (Z.testbit _ i).
Qed.
