(* ===== verification/Events.v ===== *)
(** * The event loop: util/eventloop.*

    [EventLoop] translates the loop over rules. A rule's callbacks are functions
    on a state that the rules share, and which holds the world outside as well:
    the answer of [poll] is a parameter that may change it. *)

From S2P Require Import Prelude Buffers Descriptors.

Module EventLoop.

(** The event bits of poll(2) on Linux. *)
Definition POLLIN : Z := 1.

Definition POLLOUT : Z := 4.

Definition POLLERR : Z := 8.

Definition POLLHUP : Z := 16.

Definition POLLNVAL : Z := 32.

Definition EINTR : Z := 4.

Inductive Direction := In | Out.

(** [static_cast<short>(direction)]. *)
Definition events_of (d : Direction) : Z := match d with In => POLLIN | Out => POLLOUT end.

Inductive Result := Success | Timeout | Exit.

Section loop.
(** [St] is the state the callbacks share, and [descr] finds a descriptor in it. *)
Context {St : Type} (descr : St → Z → FileDescriptor.t).

Record Rule := mk_rule {
  rule_fd : Z;
  direction : Direction;
  callback : St → result St;
  interest : St → bool;
  cancel : St → result St;
}.

(** [poll s l timeout]: the number of ready descriptors and [revents] for each;
    the world outside, a part of the state, may have moved on meanwhile. *)
Context (poll : St → list pollfd → Z → sys (Z * list Z) * St).

Definition service_count (s : St) (r : Rule) : Z :=
  match direction r with
  | In => FileDescriptor.read_count (descr s (rule_fd r))
  | Out => FileDescriptor.write_count (descr s (rule_fd r))
  end.

Definition add_rule (rules : list Rule) (fd : Z) (d : Direction) (callback : St → result St)
    (interest : St → bool) (cancel : St → result St) : list Rule :=
  rules ++ [mk_rule fd d callback interest cancel].

(** Lines 67 to 89: the rules that stay, and what to poll for each. *)
Fixpoint set_up (s : St) (rules : list Rule) : result (St * list Rule * list pollfd * bool) :=
  match rules with
  | [] => Ok (s, [], [], false)
  | r :: rules =>
      let f := descr s (rule_fd r) in
      if (match direction r with In => FileDescriptor.eof f | Out => false end) || FileDescriptor.closed f then
        s ← cancel r s; set_up s rules
      else
        let wanted := interest r s in
        '(s, rules, pfds, something) ← set_up s rules;
        Ok (s, r :: rules,
            mk_pollfd (FileDescriptor.fd_num f) (if wanted then events_of (direction r) else 0) 0 :: pfds,
            wanted || something)
  end.

(** Lines 109 to 142: the answers of [poll], rule by rule. *)
Fixpoint dispatch (s : St) (rules : list Rule) (pollfds : list pollfd) : result (St * list Rule) :=
  match rules with
  | [] => Ok (s, [])
  | r :: rules =>
      match pollfds with
      | [] => Err (undefined_behaviour "pollfds[idx] out of range")
      | p :: pollfds =>
          if negb (Z.land (revents p) (Z.lor POLLERR POLLNVAL) =? 0)
          then Err (runtime_error "EventLoop: error on polled file descriptor")
          else
            let poll_ready := negb (Z.land (revents p) (events p) =? 0) in
            let poll_hup := negb (Z.land (revents p) POLLHUP =? 0) in
            if poll_hup && negb (events p =? 0) && negb poll_ready then
              s ← cancel r s; dispatch s rules pollfds
            else
              s ← (if poll_ready then
                     let count_before := service_count s r in
                     s ← callback r s;
                     if (count_before =? service_count s r) && interest r s
                     then Err (runtime_error "EventLoop: busy wait detected: callback did not read/write fd and is still interested")
                     else Ok s
                   else Ok s);
              '(s, rules) ← dispatch s rules pollfds;
              Ok (s, r :: rules)
      end
  end.

(** A [poll] that fails leaves the [revents] at zero. *)
Definition wait_next_event (s : St) (rules : list Rule) (timeout_ms : Z) : result (St * list Rule * Result) :=
  '(s, rules, pollfds, something_to_poll) ← set_up s rules;
  if negb something_to_poll then Ok (s, rules, Exit)
  else
    let '(answer, s) := poll s pollfds timeout_ms in
    match answer with
    | Returned (n, revs) =>
        if n =? 0 then Ok (s, rules, Timeout)
        else
          '(s, rules) ← dispatch s rules (zip_with (λ p v, mk_pollfd (fd p) (events p) v) pollfds revs);
          Ok (s, rules, Success)
    | Failed e =>
        if e =? EINTR then Ok (s, rules, Exit)
        else
          '(s, rules) ← dispatch s rules pollfds;
          Ok (s, rules, Success)
    end.

End loop.

Arguments Rule : clear implicits.

End EventLoop.

(** ** The event loop *)

Section events.
Context {St : Type} (descr : St → Z → FileDescriptor.t).
Context (poll : St → list pollfd → Z → sys (Z * list Z) * St).

(** What is to be done for a rule, from the answer of [poll]. *)
Inductive task :=
  | Call (r : EventLoop.Rule St)
  | Cancel (r : EventLoop.Rule St).

Definition ready (p : pollfd) : bool :=
  negb (Z.land (revents p) (events p) =? 0).

Definition hung_up (p : pollfd) : bool :=
  negb (Z.land (revents p) EventLoop.POLLHUP =? 0) && negb (events p =? 0) && negb (ready p).

Definition task_of (r : EventLoop.Rule St) (p : pollfd) : option task :=
  if hung_up p then Some (Cancel r) else if ready p then Some (Call r) else None.

(** The tasks in the order of the rules. *)
Definition plan (rules : list (EventLoop.Rule St)) (pfds : list pollfd) : list task :=
  omap id (zip_with task_of rules pfds).

(** Runs the tasks; a call must read or write its descriptor or lose interest. *)
Fixpoint perform (s : St) (l : list task) : result St :=
  match l with
  | [] => Ok s
  | Cancel r :: l => s ← EventLoop.cancel r s; perform s l
  | Call r :: l =>
      s' ← EventLoop.callback r s;
      if bool_decide (EventLoop.service_count descr s r = EventLoop.service_count descr s' r) && EventLoop.interest r s'
      then Err (runtime_error "EventLoop: busy wait detected: callback did not read/write fd and is still interested")
      else perform s' l
  end.

Definition remaining (rules : list (EventLoop.Rule St)) (pfds : list pollfd) : list (EventLoop.Rule St) :=
  omap id (zip_with (λ r p, if hung_up p then None else Some r) rules pfds).

Lemma dispatch_plan s rules pfds :
  length pfds = length rules →
  Forall (λ p, Z.land (revents p) (Z.lor EventLoop.POLLERR EventLoop.POLLNVAL) = 0) pfds →
  EventLoop.dispatch descr s rules pfds = (s' ← perform s (plan rules pfds); Ok (s', remaining rules pfds)).
Proof.
  revert s pfds. induction rules as [|r rules IH]; intros s [|p pfds] Hl He; simplify_eq/=; [done|].
  apply Forall_cons in He as [Hp He]. rewrite Hp. cbn [Z.eqb negb].
  unfold plan, remaining in *. simpl. unfold task_of at 1. fold (ready p). fold (hung_up p).
  destruct (hung_up p) eqn:Eh; simpl.
  - destruct (EventLoop.cancel r s) as [s1|e]; cbn [mbind result_bind]; [by apply IH|done].
  - destruct (ready p); simpl.
    + destruct (EventLoop.callback r s) as [s1|e]; cbn [mbind result_bind]; [|done].
      rewrite bool_decide_decide. destruct (Z.eqb_spec (EventLoop.service_count descr s r) (EventLoop.service_count descr s1 r)) as [E|E].
      * rewrite decide_True by done. cbn [andb]. destruct (EventLoop.interest r s1); cbn [mbind result_bind]; [done|].
        rewrite IH by done. by destruct (perform s1 _).
      * rewrite decide_False by done. cbn [andb mbind result_bind]. rewrite IH by done. by destruct (perform s1 _).
    + rewrite IH by done. by destruct (perform s _).
Qed.

Definition answered (pfds : list pollfd) (revs : list Z) : list pollfd :=
  zip_with (λ p v, mk_pollfd (fd p) (events p) v) pfds revs.

(** A rule is polled for its event only when it was interested. *)
Lemma set_up_spec s rules s1 rules1 pfds b :
  EventLoop.set_up descr s rules = Ok (s1, rules1, pfds, b) →
  length pfds = length rules1 ∧ sublist rules1 rules ∧
  Forall2 (λ r p, revents p = 0 ∧
    (events p = 0 ∨ events p = EventLoop.events_of (EventLoop.direction r))) rules1 pfds ∧
  b = existsb (λ p, negb (events p =? 0)) pfds.
Proof.
  revert s s1 rules1 pfds b. induction rules as [|r rules IH]; intros s s1 rules1 pfds b H; simpl in H.
  { injection H as <- <- <- <-. split_and!; [done|constructor|constructor|done]. }
  destruct (_ || _).
  - apply result_bind_Ok in H as (s2 & _ & H). apply IH in H as (? & ? & ? & ?). split_and!; try done. by constructor.
  - apply result_bind_Ok in H as ([[[s2 rules2] pfds2] b2] & E & H). injection H as <- <- <- <-.
    apply IH in E as (Hl & Hs & Hf & ->). split_and!; [simpl; by rewrite Hl|by constructor| |].
    + constructor; [|done]. simpl. destruct (EventLoop.interest r s); auto.
    + simpl. destruct (EventLoop.interest r s), (EventLoop.direction r); done.
Qed.

Lemma omap_filter_sublist {A B} (P : B → bool) (l : list A) (m : list B) :
  sublist (omap id (zip_with (λ a b, if P b then None else Some a) l m)) l.
Proof.
  revert m. induction l as [|a l IH]; intros [|b m]; simpl; [constructor..|apply sublist_nil_l|].
  destruct (P b); simpl; by constructor.
Qed.

Lemma remaining_sublist rules pfds : sublist (remaining rules pfds) rules.
Proof. apply (omap_filter_sublist hung_up). Qed.

(** One round of the event loop, when [poll] answers without an error bit:
    exactly the rules whose requested event came are called, and exactly those
    with a hang-up and nothing else are cancelled, in the order of the rules; a
    call that neither used its descriptor nor lost interest is reported as a
    busy wait; a called rule had asked for its event; and no rule is reordered
    or duplicated. *)
Theorem event_loop_runs_plan s rules timeout s1 s2 rules1 pfds n revs :
  EventLoop.set_up descr s rules = Ok (s1, rules1, pfds, true) →
  poll s1 pfds timeout = (Returned (n, revs), s2) → n ≠ 0 → length revs = length pfds →
  Forall (λ v, Z.land v (Z.lor EventLoop.POLLERR EventLoop.POLLNVAL) = 0) revs →
  let tasks := plan rules1 (answered pfds revs) in
  let left := remaining rules1 (answered pfds revs) in
  EventLoop.wait_next_event descr poll s rules timeout =
    (s' ← perform s2 tasks; Ok (s', left, EventLoop.Success)) ∧
  sublist left rules1 ∧ sublist rules1 rules ∧
  ∀ r, Call r ∈ tasks → ∃ p, p ∈ pfds ∧ events p = EventLoop.events_of (EventLoop.direction r).
Proof.
  intros Hset Hpoll Hn Hlen Herr tasks left. pose proof (set_up_spec _ _ _ _ _ _ Hset) as (Hl & Hs & Hf & _).
  split; [|split; [apply remaining_sublist|split; [done|]]].
  - unfold EventLoop.wait_next_event. rewrite Hset. cbn [mbind result_bind negb]. rewrite Hpoll.
    rewrite (proj2 (Z.eqb_neq n 0)) by done. fold (answered pfds revs). rewrite dispatch_plan.
    + subst tasks. by destruct (perform s2 _).
    + unfold answered. rewrite length_zip_with. lia.
    + unfold answered. clear -Herr. revert pfds. induction Herr; intros [|p pfds]; simpl; by constructor.
  - intros r Hr. subst tasks left. clear -Hf Hr Hlen. unfold plan, answered in Hr. revert revs Hlen Hr.
    induction Hf as [|r0 p rules2 pfds [Hrv Hev] Hf IH]; intros [|v revs] Hlen Hr; simplify_eq/=;
      try (by apply not_elem_of_nil in Hr).
    assert (Hrest : Call r ∈ omap id (zip_with task_of rules2
      (zip_with (λ p v, mk_pollfd (fd p) (events p) v) pfds revs)) →
      ∃ p', p' ∈ p :: pfds ∧ events p' = EventLoop.events_of (EventLoop.direction r)).
    { intros Hin. destruct (IH revs Hlen Hin) as (p' & ? & ?). exists p'. split; [by right|done]. }
    unfold task_of at 1 in Hr. destruct (hung_up _); simpl in Hr.
    { apply elem_of_cons in Hr as [|Hr]; [done|]. by apply Hrest. }
    destruct (ready _) eqn:Er; simpl in Hr; [|by apply Hrest].
    apply elem_of_cons in Hr as [[= ->]|Hr]; [|by apply Hrest].
    exists p. split; [left|]. destruct Hev as [E|]; [|done].
    unfold ready in Er. simpl in Er. rewrite E, Z.land_0_r in Er. done.
Qed.

(** A [poll] that fails, other than by a signal, is not reported: the round
    counts as a success in which nothing happened. *)
Lemma poll_failure_ignored s rules timeout s1 s2 rules1 pfds e :
  EventLoop.set_up descr s rules = Ok (s1, rules1, pfds, true) →
  poll s1 pfds timeout = (Failed e, s2) → e ≠ EventLoop.EINTR →
  EventLoop.wait_next_event descr poll s rules timeout = Ok (s2, rules1, EventLoop.Success).
Proof.
  intros Hset Hpoll He. pose proof (set_up_spec _ _ _ _ _ _ Hset) as (Hl & _ & Hf & _).
  unfold EventLoop.wait_next_event. rewrite Hset. cbn [mbind result_bind negb]. rewrite Hpoll, (proj2 (Z.eqb_neq e _)) by done.
  assert (H0 : Forall (λ p, revents p = 0) pfds) by (clear -Hf; induction Hf as [|? ? ? ? [? _]]; by constructor).
  rewrite dispatch_plan; [|done|eapply Forall_impl; [exact H0|]; by intros p ->].
  assert (Hp : plan rules1 pfds = [] ∧ remaining rules1 pfds = rules1).
  { clear -H0 Hl. revert rules1 Hl. induction H0 as [|p pfds Hp H0 IH]; intros [|r rules1] Hl; simplify_eq/=; [done|].
    destruct (IH rules1 Hl) as [IH1 IH2]. unfold plan, remaining in *. simpl. unfold task_of at 1.
    assert (Hh : hung_up p = false) by (unfold hung_up; by rewrite Hp).
    assert (Hr : ready p = false) by (unfold ready; by rewrite Hp). rewrite Hh, Hr. simpl. split; [exact IH1|f_equal; exact IH2]. }
  destruct Hp as [-> ->]. done.
Qed.

End events.

(** A loop with one rule that reads its descriptor and then loses interest; the
    state is the descriptor and whether the rule is still interested. *)
Definition one_rule : EventLoop.Rule (FileDescriptor.t * bool) :=
  EventLoop.mk_rule 3 EventLoop.In (λ s, Ok (FileDescriptor.register_read s.1, false)) snd Ok.

Lemma event_loop_runs_plan_witness :
  ∃ s', EventLoop.wait_next_event (λ s _, s.1) (λ s _ _, (Returned (1, [EventLoop.POLLIN]), s))
      (FileDescriptor.mk 3 false false 0 0, true) [one_rule] 10 = Ok (s', [one_rule], EventLoop.Success) ∧
    FileDescriptor.read_count s'.1 = 1.
Proof.
  destruct (event_loop_runs_plan (λ s (_ : Z), s.1) (λ s _ _, (Returned (1, [EventLoop.POLLIN]), s))
    (FileDescriptor.mk 3 false false 0 0, true) [one_rule] 10 (FileDescriptor.mk 3 false false 0 0, true)
    (FileDescriptor.mk 3 false false 0 0, true) [one_rule]
    [mk_pollfd 3 EventLoop.POLLIN 0] 1 [EventLoop.POLLIN]) as (E & _).
  - reflexivity.
  - reflexivity.
  - discriminate.
  - reflexivity.
  - repeat constructor.
  - eexists. rewrite E. split; reflexivity.
Defined.

(** ** Invariants of an event loop

    What every callback keeps, the whole loop keeps. *)

(** The bits for which the loop throws. *)
Definition no_error (v : Z) : Prop := Z.land v (Z.lor EventLoop.POLLERR EventLoop.POLLNVAL) = 0.

Section invariant.
Context `{KernelView E}.
Context {St : Type} (descr : St → Z → FileDescriptor.t).
Context (poll : St → list pollfd → Z → sys (Z * list Z) * St).
Context (Inv : St → Prop).

(** In any state of the invariant the callbacks return, unless a system call
    fails, keep it, and use the descriptor or lose interest. *)
Record rule_ok (r : EventLoop.Rule St) : Prop := mk_rule_ok {
  ru_callback : ∀ s, Inv s → faulted (E := E) (EventLoop.callback r s) ∨
    ∃ s', EventLoop.callback r s = Ok s' ∧ Inv s' ∧
    (EventLoop.service_count descr s r ≠ EventLoop.service_count descr s' r ∨ EventLoop.interest r s' = false);
  ru_cancel : ∀ s, Inv s → faulted (E := E) (EventLoop.cancel r s) ∨ ∃ s', EventLoop.cancel r s = Ok s' ∧ Inv s';
}.

(** [poll] keeps it, and reports no error unless something can fail. *)
Definition poll_ok : Prop := ∀ s l timeout, Inv s → ∃ answer s', poll s l timeout = (answer, s') ∧ Inv s' ∧
  match answer with
  | Returned (_, revs) => length revs = length l ∧ (fallible (E := E) ∨ Forall no_error revs)
  | Failed _ => True
  end.

Lemma set_up_invariant s rules :
  Inv s → Forall rule_ok rules →
  faulted (E := E) (EventLoop.set_up descr s rules) ∨
  ∃ s' rules' pfds b, EventLoop.set_up descr s rules = Ok (s', rules', pfds, b) ∧ Inv s' ∧ Forall rule_ok rules'.
Proof.
  revert s. induction rules as [|r rules IH]; intros s Hs Hr; simpl; [right; by eexists _, _, _, _|].
  apply Forall_cons in Hr as [Hr Hrs]. destruct (_ || _).
  - destruct (ru_cancel r Hr s Hs) as [Hf|(s1 & -> & Hs1)]; [by_fault Hf|]. cbn [mbind result_bind]. by apply IH.
  - destruct (IH s Hs Hrs) as [Hf|(s' & rules' & pfds & b & -> & Hs' & Hrs')]; [by_fault Hf|]. right. cbn [mbind result_bind].
    eexists _, _, _, _. split; [done|]. split; [done|]. by constructor.
Qed.

(** The outcome of a callback that was called. *)
Lemma called_ok s s' (r : EventLoop.Rule St) :
  EventLoop.service_count descr s r ≠ EventLoop.service_count descr s' r ∨ EventLoop.interest r s' = false →
  (EventLoop.service_count descr s r =? EventLoop.service_count descr s' r) && EventLoop.interest r s' = false.
Proof. intros [Hc|Hi]; apply andb_false_iff; [left; by apply Z.eqb_neq|by right]. Qed.

Lemma dispatch_invariant s rules pfds :
  Inv s → Forall rule_ok rules → length pfds = length rules →
  fallible (E := E) ∨ Forall (λ p, no_error (revents p)) pfds →
  faulted (E := E) (EventLoop.dispatch descr s rules pfds) ∨
  ∃ s' rules', EventLoop.dispatch descr s rules pfds = Ok (s', rules') ∧ Inv s' ∧ Forall rule_ok rules' ∧ sublist rules' rules.
Proof.
  intros Hs Hr. revert s pfds Hs. induction Hr as [|r rules Hr Hrs IH]; intros s [|p pfds] Hs Hl He; simplify_eq/=.
  { right. by exists s, []. }
  destruct (negb (Z.land (revents p) _ =? 0)) eqn:Eb.
  { left. exists polled_error. split; [done|]. split; [|by right]. destruct He as [?|He]; [done|].
    apply Forall_cons in He as [He _]. unfold no_error in He. by rewrite He in Eb. }
  assert (He' : fallible (E := E) ∨ Forall (λ p, no_error (revents p)) pfds).
  { destruct He as [?|He]; [by left|right]. by apply Forall_cons in He as [_ ?]. }
  destruct (_ && negb (events p =? 0) && _).
  { destruct (ru_cancel r Hr s Hs) as [Hf|(s1 & -> & Hs1)]; [by_fault Hf|]. cbn [mbind result_bind].
    destruct (IH s1 pfds Hs1 Hl He') as [Hf|(s' & rules' & -> & Hs' & Hr' & Hsub)]; [by left|right].
    exists s', rules'. split_and!; try done. by constructor. }
  assert (Hrest : ∀ s1, Inv s1 →
    faulted (E := E) ('(s, rules) ← EventLoop.dispatch descr s1 rules pfds; Ok (s, r :: rules)) ∨
    ∃ s' rules', ('(s, rules) ← EventLoop.dispatch descr s1 rules pfds; Ok (s, r :: rules)) = Ok (s', rules') ∧ Inv s' ∧
      Forall rule_ok rules' ∧ sublist rules' (r :: rules)).
  { intros s1 Hs1. destruct (IH s1 pfds Hs1 Hl He') as [Hf|(s' & rules' & -> & Hs' & Hr' & Hsub)]; [by_fault Hf|right].
    eexists _, _. split; [done|]. split_and!; [done|by constructor|by constructor]. }
  destruct (negb (Z.land (revents p) (events p) =? 0)); [|exact (Hrest s Hs)].
  destruct (ru_callback r Hr s Hs) as [Hf|(s1 & -> & Hs1 & Hb)]; [by_fault Hf|]. cbn [mbind result_bind].
  rewrite (called_ok s s1 r Hb). exact (Hrest s1 Hs1).
Qed.

(** The answer of [poll] as the loop passes it on. *)
Lemma answer_errors (pfds : list pollfd) revs :
  fallible (E := E) ∨ Forall no_error revs →
  fallible (E := E) ∨ Forall (λ p, no_error (revents p)) (zip_with (λ p v, mk_pollfd (fd p) (events p) v) pfds revs).
Proof.
  intros [?|He]; [by left|right]. revert pfds. induction He; intros [|p pfds]; simpl; by constructor.
Qed.

Lemma unanswered_errors (rules : list (EventLoop.Rule St)) pfds (P : EventLoop.Rule St → pollfd → Prop) :
  Forall2 (λ r p, revents p = 0 ∧ P r p) rules pfds → Forall (λ p, no_error (revents p)) pfds.
Proof. induction 1 as [|r p rs ps [Hrv _] _ IH]; constructor; [by rewrite Hrv|done]. Qed.

(** One round of the loop: nothing is thrown, unless a system call fails, and the
    invariant holds again. *)
Lemma wait_next_event_invariant s rules timeout :
  poll_ok → Inv s → Forall rule_ok rules →
  faulted (E := E) (EventLoop.wait_next_event descr poll s rules timeout) ∨
  ∃ s' rules' res, EventLoop.wait_next_event descr poll s rules timeout = Ok (s', rules', res) ∧
    Inv s' ∧ Forall rule_ok rules' ∧ sublist rules' rules.
Proof.
  intros Hp Hs Hr. unfold EventLoop.wait_next_event.
  destruct (set_up_invariant s rules Hs Hr) as [Hf|(s1 & rules1 & pfds & b & Eset & Hs1 & Hr1)]; [by_fault Hf|].
  pose proof (set_up_spec descr _ _ _ _ _ _ Eset) as (Hlen & Hsub & Hrev & _).
  rewrite Eset. cbn [mbind result_bind]. destruct b; cbn [negb]; [|right; by eexists _, _, _].
  destruct (Hp s1 pfds timeout Hs1) as (answer & s2 & -> & Hs2 & Hans).
  assert (Hdispatch : ∀ q, length q = length rules1 → fallible (E := E) ∨ Forall (λ p, no_error (revents p)) q →
    faulted (E := E) ('(s0, rules0) ← EventLoop.dispatch descr s2 rules1 q; Ok (s0, rules0, EventLoop.Success)) ∨
    ∃ s' rules' res, ('(s0, rules0) ← EventLoop.dispatch descr s2 rules1 q; Ok (s0, rules0, EventLoop.Success)) = Ok (s', rules', res) ∧
      Inv s' ∧ Forall rule_ok rules' ∧ sublist rules' rules).
  { intros q Hq He. destruct (dispatch_invariant s2 rules1 q Hs2 Hr1 Hq He) as [Hf|(s' & rules' & -> & Hs' & Hr' & Hsl)]; [by_fault Hf|right].
    eexists _, _, _. split; [done|]. split; [done|]. split; [done|]. by etransitivity. }
  destruct answer as [[n revs]|err].
  - destruct (n =? 0); [right; by eexists _, _, _|]. destruct Hans as [Hl He]. apply Hdispatch; [rewrite length_zip_with; lia|].
    by apply answer_errors.
  - destruct (err =? EventLoop.EINTR); [right; by eexists _, _, _|]. apply Hdispatch; [done|right]. eapply (unanswered_errors rules1); exact Hrev.
Qed.

(** What holds when a rule is not interested, and survives the cancelling of
    rules, holds when the loop exits while that rule is still there. *)
Lemma set_up_quiet (Q : St → Prop) r rules s s1 rules1 pfds :
  (∀ s, EventLoop.interest r s = false → Q s) →
  Forall (λ r', ∀ s s', Q s → EventLoop.cancel r' s = Ok s' → Q s') rules →
  EventLoop.set_up descr s rules = Ok (s1, rules1, pfds, false) → r ∈ rules1 ∨ Q s → Q s1.
Proof.
  intros Hr Hc. revert s s1 rules1 pfds. induction Hc as [|r0 rules Hr0 Hc IH]; intros s s1 rules1 pfds Hup Hin; simpl in Hup.
  { simplify_eq. destruct Hin as [Hin|Hin]; [by apply not_elem_of_nil in Hin|done]. }
  destruct (_ || _).
  - apply result_bind_Ok in Hup as (s2 & Ec & Hup). apply (IH _ _ _ _ Hup).
    destruct Hin as [Hin|Hin]; [by left|right; by eapply Hr0].
  - apply result_bind_Ok in Hup as ([[[s2 rules2] pfds2] b2] & Eup & Hup).
    injection Hup as -> <- <- Hb. apply orb_false_elim in Hb as [Hi ->]. apply (IH _ _ _ _ Eup).
    destruct Hin as [Hin|Hin]; [|by right]. apply elem_of_cons in Hin as [->|Hin]; [right; by apply Hr|by left].
Qed.

Lemma exit_quiet (Q : St → Prop) r rules s timeout s' rules' :
  (∀ s, EventLoop.interest r s = false → Q s) →
  Forall (λ r', ∀ s s', Q s → EventLoop.cancel r' s = Ok s' → Q s') rules →
  EventLoop.wait_next_event descr poll s rules timeout = Ok (s', rules', EventLoop.Exit) →
  (∀ s l, (poll s l timeout).1 ≠ Failed EventLoop.EINTR) → r ∈ rules' → Q s'.
Proof.
  unfold EventLoop.wait_next_event. intros Hr Hc Hw Hp Hin.
  apply result_bind_Ok in Hw as ([[[s1 rules1] pfds] b] & Eset & Hw). destruct b; cbn [negb] in Hw.
  - destruct (poll s1 pfds timeout) as [answer s2] eqn:Ep. destruct answer as [[n revs]|err].
    + destruct (n =? 0); [done|]. by apply result_bind_Ok in Hw as ([??] & _ & Hw).
    + destruct (Z.eqb_spec err EventLoop.EINTR) as [->|]; [by pose proof (Hp s1 pfds) as Hn; rewrite Ep in Hn|].
      by apply result_bind_Ok in Hw as ([??] & _ & Hw).
  - simplify_eq. eapply set_up_quiet; eauto.
Qed.

End invariant.

(** ** Invariants of the state and the rules that are left

    [P s todo kept] holds of the state [s] while the rules [kept] have been gone
    through and stay, and the rules [todo] are still to be gone through. *)

Section tracked.
Context {St : Type} (descr : St → Z → FileDescriptor.t).
Context (poll : St → list pollfd → Z → sys (Z * list Z) * St).
Context (P : St → list (EventLoop.Rule St) → list (EventLoop.Rule St) → Prop).

(** Dropping a rule at its cancellation, and keeping one. *)
Definition cancels_tracked : Prop := ∀ s s' r todo kept,
  P s (r :: todo) kept → EventLoop.cancel r s = Ok s' → P s' todo kept.

Definition skips_tracked : Prop := ∀ s r todo kept, P s (r :: todo) kept → P s todo (kept ++ [r]).

Lemma set_up_tracked s rules kept s1 rules1 pfds b :
  cancels_tracked →
  (∀ s r todo kept, P s (r :: todo) kept →
     (match EventLoop.direction r with EventLoop.In => FileDescriptor.eof (descr s (EventLoop.rule_fd r)) | EventLoop.Out => false end) = false →
     P s todo (kept ++ [r])) →
  P s rules kept → EventLoop.set_up descr s rules = Ok (s1, rules1, pfds, b) → P s1 [] (kept ++ rules1).
Proof.
  intros Hc Hk. revert s kept s1 rules1 pfds b. induction rules as [|r rules IH]; intros s kept s1 rules1 pfds b Hs Hup; simpl in Hup.
  { simplify_eq. by rewrite app_nil_r. }
  destruct (_ || _) eqn:Ef.
  - apply result_bind_Ok in Hup as (s2 & Ec & Hup). eapply IH; [by eapply Hc|exact Hup].
  - apply result_bind_Ok in Hup as ([[[s2 rules2] pfds2] b2] & Eup & Hup). simplify_eq. apply orb_false_elim in Ef as [Ef _].
    specialize (IH s (kept ++ [r]) s1 rules2 pfds2 b2 (Hk _ _ _ _ Hs Ef) Eup). by rewrite <- app_assoc in IH.
Qed.

Lemma dispatch_tracked s rules kept pfds s1 rules1 :
  cancels_tracked → skips_tracked →
  (∀ s s' r todo kept, P s (r :: todo) kept → EventLoop.callback r s = Ok s' → P s' todo (kept ++ [r])) →
  P s rules kept → EventLoop.dispatch descr s rules pfds = Ok (s1, rules1) → P s1 [] (kept ++ rules1).
Proof.
  intros Hc Hk Hcall. revert s kept pfds s1 rules1. induction rules as [|r rules IH]; intros s kept pfds s1 rules1 Hs Hd; simpl in Hd.
  { simplify_eq. by rewrite app_nil_r. }
  destruct pfds as [|p pfds]; [done|]. destruct (negb _); [done|]. destruct (_ && negb (events p =? 0) && _).
  - apply result_bind_Ok in Hd as (s2 & Ec & Hd). eapply IH; [by eapply Hc|exact Hd].
  - apply result_bind_Ok in Hd as (s2 & Ec & Hd). apply result_bind_Ok in Hd as ([s3 rules3] & Ed & Hd). simplify_eq.
    assert (Hs2 : P s2 rules (kept ++ [r])).
    { destruct (negb _); [|simplify_eq; by apply Hk]. apply result_bind_Ok in Ec as (s4 & Ec & Hb).
      destruct (_ && _); [done|]. simplify_eq. by eapply Hcall. }
    specialize (IH s2 (kept ++ [r]) pfds s1 rules3 Hs2 Ed). by rewrite <- app_assoc in IH.
Qed.

End tracked.

(** ** Loops whose callbacks rely on their interest

    A callback may take from a queue that its rule was interested in because it was
    not empty. It is safe when no rule in front of it can empty that queue, and
    cancelling a rule changes nothing. *)

Section guarded.
Context `{KernelView E}.
Context {St : Type} (descr : St → Z → FileDescriptor.t).
Context (poll : St → list pollfd → Z → sys (Z * list Z) * St).
Context (Inv : St → Prop).

Record rule_guarded (r : EventLoop.Rule St) : Prop := mk_rule_guarded {
  rg_callback : ∀ s, Inv s → EventLoop.interest r s = true → faulted (E := E) (EventLoop.callback r s) ∨
    ∃ s', EventLoop.callback r s = Ok s' ∧ Inv s' ∧
    (EventLoop.service_count descr s r ≠ EventLoop.service_count descr s' r ∨ EventLoop.interest r s' = false);
  rg_cancel : ∀ s, EventLoop.cancel r s = Ok s;
}.

(** The callback of [r] leaves [r'] interested. *)
Definition leaves_interest (r r' : EventLoop.Rule St) : Prop :=
  ∀ s s', Inv s → EventLoop.interest r' s = true → EventLoop.callback r s = Ok s' → EventLoop.interest r' s' = true.

Definition poll_leaves_interest (r : EventLoop.Rule St) : Prop :=
  ∀ s l timeout, EventLoop.interest r s = true → EventLoop.interest r (poll s l timeout).2 = true.

Record guarded (rules : list (EventLoop.Rule St)) : Prop := mk_guarded {
  gu_rules : Forall rule_guarded rules;
  gu_order : ForallOrdPairs leaves_interest rules;
  gu_poll : Forall poll_leaves_interest rules;
}.

Lemma ForallOrdPairs_sublist {A} (R : A → A → Prop) l l' : sublist l l' → ForallOrdPairs R l' → ForallOrdPairs R l.
Proof.
  induction 1 as [|x l l' Hs IH|x l l' Hs IH]; intros Hf; inversion Hf as [|? ? Hx Hf']; subst; [constructor| |by apply IH].
  constructor; [|by apply IH]. rewrite Forall_forall in *. eauto using elem_of_sublist.
Qed.

Lemma guarded_sublist l l' : sublist l l' → guarded l' → guarded l.
Proof.
  intros Hs []. split; [|by eapply ForallOrdPairs_sublist|]; rewrite Forall_forall in *; eauto using elem_of_sublist.
Qed.

(** What was polled for is wanted. *)
Definition asked (s : St) (rules : list (EventLoop.Rule St)) (pfds : list pollfd) : Prop :=
  Forall2 (λ r p, events p ≠ 0 → EventLoop.interest r s = true) rules pfds.

Lemma set_up_guarded s rules :
  Forall rule_guarded rules →
  ∃ rules' pfds b, EventLoop.set_up descr s rules = Ok (s, rules', pfds, b) ∧ asked s rules' pfds.
Proof.
  induction 1 as [|r rules Hr Hrs IH]; simpl; [eexists _, _, _; split; [done|constructor]|].
  destruct IH as (rules' & pfds & b & E1 & Ha). destruct (_ || _).
  - rewrite (rg_cancel r Hr). cbn [mbind result_bind]. by eexists _, _, _.
  - rewrite E1. cbn [mbind result_bind]. eexists _, _, _. split; [done|]. constructor; [|done]. simpl.
    by destruct (EventLoop.interest r s).
Qed.

Lemma asked_after r rules pfds s s1 :
  Inv s → Forall (leaves_interest r) rules → EventLoop.callback r s = Ok s1 → asked s rules pfds → asked s1 rules pfds.
Proof.
  intros Hs Hx Ec Ha. revert Hx. induction Ha as [|r' p' rules pfds Hp' Ha IH]; intros Hx; constructor.
  - apply Forall_cons in Hx as [Hx _]. intros He. by apply (Hx s s1 Hs (Hp' He)).
  - apply IH. by apply Forall_cons in Hx as [_ Hx].
Qed.

Lemma dispatch_guarded s rules pfds :
  Inv s → Forall rule_guarded rules → ForallOrdPairs leaves_interest rules → asked s rules pfds →
  fallible (E := E) ∨ Forall (λ p, no_error (revents p)) pfds →
  faulted (E := E) (EventLoop.dispatch descr s rules pfds) ∨
  ∃ s' rules', EventLoop.dispatch descr s rules pfds = Ok (s', rules') ∧ Inv s' ∧ sublist rules' rules.
Proof.
  revert pfds s. induction rules as [|r rules IH]; intros pfds s Hs Hr Ho Ha He; [right; by exists s, []|].
  inversion Ha as [|? p ? pfds' Hp Ha']; subst. apply Forall_cons in Hr as [Hr Hrs]. inversion Ho as [|? ? Hx Ho']; subst. simpl.
  destruct (negb (Z.land (revents p) _ =? 0)) eqn:Eb.
  { left. exists polled_error. split; [done|]. split; [|by right]. destruct He as [?|He]; [done|].
    apply Forall_cons in He as [He _]. unfold no_error in He. by rewrite He in Eb. }
  assert (He' : fallible (E := E) ∨ Forall (λ p, no_error (revents p)) pfds').
  { destruct He as [?|He]; [by left|right]. by apply Forall_cons in He as [_ ?]. }
  destruct (_ && negb (events p =? 0) && _).
  { rewrite (rg_cancel r Hr). cbn [mbind result_bind].
    destruct (IH pfds' s Hs Hrs Ho' Ha' He') as [Hf|(s' & rules' & -> & Hs' & Hsub)]; [by left|right].
    exists s', rules'. split_and!; try done. by constructor. }
  assert (Hrest : ∀ s1, Inv s1 → asked s1 rules pfds' →
    faulted (E := E) ('(s, rules) ← EventLoop.dispatch descr s1 rules pfds'; Ok (s, r :: rules)) ∨
    ∃ s' rules', ('(s, rules) ← EventLoop.dispatch descr s1 rules pfds'; Ok (s, r :: rules)) = Ok (s', rules') ∧ Inv s' ∧
      sublist rules' (r :: rules)).
  { intros s1 Hs1 Ha1. destruct (IH pfds' s1 Hs1 Hrs Ho' Ha1 He') as [Hf|(s' & rules' & -> & Hs' & Hsub)]; [by_fault Hf|right].
    eexists _, _. split; [done|]. split_and!; [done|by constructor]. }
  destruct (negb (Z.land (revents p) (events p) =? 0)) eqn:Er; [|exact (Hrest s Hs Ha')].
  assert (Hint : EventLoop.interest r s = true).
  { apply Hp. intros E1. by rewrite E1, Z.land_0_r in Er. }
  destruct (rg_callback r Hr s Hs Hint) as [Hf|(s1 & Ec & Hs1 & Hb)]; [by_fault Hf|]. rewrite Ec. cbn [mbind result_bind].
  rewrite (called_ok descr s s1 r Hb). apply (Hrest s1 Hs1). exact (asked_after r rules pfds' s s1 Hs Hx Ec Ha').
Qed.

Lemma asked_answer s s' rules pfds (g : pollfd → Z → pollfd) revs :
  (∀ p v, events (g p v) = events p) → (∀ r, r ∈ rules → EventLoop.interest r s = true → EventLoop.interest r s' = true) →
  asked s rules pfds → length revs = length pfds → asked s' rules (zip_with g pfds revs).
Proof.
  intros Hg Hk Ha. revert revs. induction Ha as [|r p rules pfds Hp Ha IH]; intros [|v revs] Hl; simplify_eq/=; [constructor|].
  constructor.
  - rewrite Hg. intros He. apply Hk; [left|by apply Hp].
  - apply IH; [|done]. intros r' Hr'. apply Hk. by right.
Qed.

(** One round of such a loop throws nothing, unless a system call fails, and keeps
    the invariant. *)
Lemma wait_next_event_guarded s rules timeout :
  poll_ok poll Inv → Inv s → guarded rules →
  faulted (E := E) (EventLoop.wait_next_event descr poll s rules timeout) ∨
  ∃ s' rules' res, EventLoop.wait_next_event descr poll s rules timeout = Ok (s', rules', res) ∧
    Inv s' ∧ guarded rules' ∧ sublist rules' rules.
Proof.
  intros Hp Hs Hg. destruct (set_up_guarded s rules (gu_rules _ Hg)) as (rules1 & pfds & b & Eset & Hask).
  pose proof (set_up_spec descr _ _ _ _ _ _ Eset) as (Hlen & Hsub & Hrev & _).
  pose proof (guarded_sublist _ _ Hsub Hg) as Hg1.
  unfold EventLoop.wait_next_event. rewrite Eset. cbn [mbind result_bind]. destruct b; cbn [negb]; [|right; by eexists _, _, _].
  destruct (Hp s pfds timeout Hs) as (answer & s2 & Epoll & Hs2 & Hans). rewrite Epoll.
  assert (Hkeep : ∀ r, r ∈ rules1 → EventLoop.interest r s = true → EventLoop.interest r s2 = true).
  { intros r Hr Hi. pose proof (gu_poll _ Hg1) as Hpl. rewrite Forall_forall in Hpl.
    specialize (Hpl r Hr s pfds timeout Hi). by rewrite Epoll in Hpl. }
  assert (Hdispatch : ∀ q, asked s2 rules1 q → fallible (E := E) ∨ Forall (λ p, no_error (revents p)) q →
    faulted (E := E) ('(s0, rules0) ← EventLoop.dispatch descr s2 rules1 q; Ok (s0, rules0, EventLoop.Success)) ∨
    ∃ s' rules' res, ('(s0, rules0) ← EventLoop.dispatch descr s2 rules1 q; Ok (s0, rules0, EventLoop.Success)) = Ok (s', rules', res) ∧
      Inv s' ∧ guarded rules' ∧ sublist rules' rules).
  { intros q Haq He. pose proof Hg1 as [].
    destruct (dispatch_guarded s2 rules1 q) as [Hf|(s' & rules' & -> & Hs' & Hsl)]; try done; [by_fault Hf|right]. cbn [mbind result_bind].
    eexists _, _, _. split; [done|]. split; [done|]. split; [by eapply guarded_sublist|by etransitivity]. }
  destruct answer as [[n revs]|err].
  - destruct (n =? 0); [right; by eexists _, _, _|]. destruct Hans as [Hl He]. apply Hdispatch.
    + apply (asked_answer s); try done.
    + by apply answer_errors.
  - destruct (err =? EventLoop.EINTR); [right; by eexists _, _, _|]. apply Hdispatch; [|right; eapply (unanswered_errors rules1); exact Hrev].
    clear -Hask Hkeep. unfold asked in *. induction Hask as [|r p rules pfds Hp Ha IH]; constructor.
    + intros He. apply Hkeep; [left|by apply Hp].
    + apply IH. intros r' Hr'. apply Hkeep. by right.
Qed.

End guarded.
