(* ===== verification/Sockets.v ===== *)
(** * Sockets and TUN devices: util/socket.*, util/tun.*, socket_pair_helper of tcp_sponge_socket.cc

    The wrappers of the socket calls: what they pass to the kernel, what they
    check of its answer, and the counters they keep. The calls themselves are the
    class [SocketCalls], with the laws of datagram sockets in [DatagramLaws]. *)

From S2P Require Import Prelude Buffers Parsing Addresses Descriptors.

(** The calls on sockets and devices. A socket address is its bytes. *)
Class SocketCalls (E : Type) := mk_socket_calls {
  sys_socket : E → Z → Z → sys Z * E;
  sys_socketpair : E → Z → Z → sys (Z * Z) * E;
  sys_getsockopt : E → Z → Z → Z → sys (Z * Z) * E;               (* the value, and [len] *)
  sys_setsockopt : E → Z → Z → Z → Z → sys Z * E;
  sys_getsockname : E → Z → Z → sys (bytes * Z) * E;              (* what fits into the buffer, and the true size *)
  sys_getpeername : E → Z → Z → sys (bytes * Z) * E;
  sys_bind : E → Z → bytes → sys Z * E;
  sys_connect : E → Z → bytes → sys Z * E;
  sys_listen : E → Z → Z → sys Z * E;
  sys_accept : E → Z → sys Z * E;
  sys_recvfrom : E → Z → Z → Z → sys (bytes * Z * (bytes * Z)) * E;   (* what fits, the length returned; the source likewise *)
  sys_sendmsg : E → Z → option bytes → BufferViewList.t → sys Z * E;
  sys_open : E → string → Z → sys Z * E;
  sys_tunsetiff : E → Z → bytes → Z → sys Z * E;                  (* ioctl TUNSETIFF: ifr_name and ifr_flags *)
}.

Definition AF_UNIX : Z := 1.

Definition SOCK_STREAM : Z := 1.

Definition SOCK_DGRAM : Z := 2.

Definition SOL_SOCKET : Z := 1.

Definition SO_REUSEADDR : Z := 2.

Definition SO_TYPE : Z := 3.

Definition SO_DOMAIN : Z := 39.

(** [MSG_TRUNC]: return the real length of the datagram. *)
Definition MSG_TRUNC : Z := 0x20.

(** [sizeof(int)]. *)
Definition INT_SIZE : Z := 4.

(** The bytes of an address that are passed to the kernel. *)
Definition sockaddr_of (a : RawAddress.t) : bytes := ztake (RawAddress.size a) (RawAddress.storage a).

(** An address made of what the kernel wrote into an empty [Address::Raw]. *)
Definition raw_from (answer : bytes * Z) : result RawAddress.t :=
  RawAddress.of_sockaddr (resize answer.1 RawAddress.STORAGE_SIZE) answer.2.

Module BaseSocket.

Section calls.
Context `{SocketCalls E}.

Definition new (e : E) (domain type : Z) : result (E * FileDescriptor.t) :=
  '(e, fd) ← call "socket" (sys_socket e domain type);
  f ← FileDescriptor.new fd;
  Ok (e, f).

Definition of_fd (e : E) (f : FileDescriptor.t) (domain type : Z) : result (E * FileDescriptor.t) :=
  '(e, answer) ← call "getsockopt" (sys_getsockopt e (FileDescriptor.fd_num f) SOL_SOCKET SO_DOMAIN);
  let '(actual_value, len) := answer in
  if negb (len =? INT_SIZE) || negb (actual_value =? domain) then Err (runtime_error "socket domain mismatch")
  else
    '(e, answer) ← call "getsockopt" (sys_getsockopt e (FileDescriptor.fd_num f) SOL_SOCKET SO_TYPE);
    let '(actual_value, len) := answer in
    if negb (len =? INT_SIZE) || negb (actual_value =? type) then Err (runtime_error "socket type mismatch")
    else Ok (e, f).

Definition get_address (name_of_function : string) (function : E → Z → Z → sys (bytes * Z) * E) (e : E) (f : FileDescriptor.t)
    : result (E * RawAddress.t) :=
  '(e, answer) ← call name_of_function (function e (FileDescriptor.fd_num f) RawAddress.STORAGE_SIZE);
  address ← raw_from answer;
  Ok (e, address).

Definition local_address (e : E) (f : FileDescriptor.t) : result (E * RawAddress.t) := get_address "getsockname" sys_getsockname e f.

Definition peer_address (e : E) (f : FileDescriptor.t) : result (E * RawAddress.t) := get_address "getpeername" sys_getpeername e f.

Definition bind (e : E) (f : FileDescriptor.t) (address : RawAddress.t) : result E :=
  '(e, _) ← call "bind" (sys_bind e (FileDescriptor.fd_num f) (sockaddr_of address)); Ok e.

Definition connect (e : E) (f : FileDescriptor.t) (address : RawAddress.t) : result E :=
  '(e, _) ← call "connect" (sys_connect e (FileDescriptor.fd_num f) (sockaddr_of address)); Ok e.

Definition setsockopt (e : E) (f : FileDescriptor.t) (level option option_value : Z) : result E :=
  '(e, _) ← call "setsockopt" (sys_setsockopt e (FileDescriptor.fd_num f) level option option_value); Ok e.

Definition set_reuseaddr (e : E) (f : FileDescriptor.t) : result E := setsockopt e f SOL_SOCKET SO_REUSEADDR 1.

End calls.

End BaseSocket.

Module UDPSocket.

Section calls.
Context `{SocketCalls E}.

Definition new (e : E) : result (E * FileDescriptor.t) := BaseSocket.new e RawAddress.AF_INET SOCK_DGRAM.

Definition of_fd (e : E) (f : FileDescriptor.t) : result (E * FileDescriptor.t) := BaseSocket.of_fd e f RawAddress.AF_INET SOCK_DGRAM.

Record received_datagram := mk_datagram {
  source_address : RawAddress.t;
  payload : bytes;
}.

Definition DEFAULT_MTU : Z := 65536.

(** Both forms of [recv]; the storage of the caller is overwritten. *)
Definition recv (e : E) (f : FileDescriptor.t) (mtu : Z) : result (E * FileDescriptor.t * received_datagram) :=
  '(e, answer) ← call "recvfrom" (sys_recvfrom e (FileDescriptor.fd_num f) mtu MSG_TRUNC);
  let '(data, recv_len, source) := answer in
  if mtu <? recv_len then Err (runtime_error "recvfrom (oversized datagram)")
  else
    source_address ← raw_from source;
    Ok (e, FileDescriptor.register_read f, mk_datagram source_address (resize (resize data mtu) recv_len)).

Definition sendmsg_helper (e : E) (fd_num : Z) (destination : option bytes) (payload : BufferViewList.t) : result E :=
  '(e, bytes_sent) ← call "sendmsg" (sys_sendmsg e fd_num destination payload);
  if negb (w64 bytes_sent =? BufferViewList.size payload) then Err (runtime_error "datagram payload too big for sendmsg()")
  else Ok e.

Definition sendto (e : E) (f : FileDescriptor.t) (destination : RawAddress.t) (payload : BufferViewList.t) : result (E * FileDescriptor.t) :=
  e ← sendmsg_helper e (FileDescriptor.fd_num f) (Some (sockaddr_of destination)) payload;
  Ok (e, FileDescriptor.register_write f).

Definition send (e : E) (f : FileDescriptor.t) (payload : BufferViewList.t) : result (E * FileDescriptor.t) :=
  e ← sendmsg_helper e (FileDescriptor.fd_num f) None payload;
  Ok (e, FileDescriptor.register_write f).

End calls.

End UDPSocket.

Module TCPSocket.

Section calls.
Context `{SocketCalls E}.

Definition new (e : E) : result (E * FileDescriptor.t) := BaseSocket.new e RawAddress.AF_INET SOCK_STREAM.

Definition of_fd (e : E) (f : FileDescriptor.t) : result (E * FileDescriptor.t) := BaseSocket.of_fd e f RawAddress.AF_INET SOCK_STREAM.

Definition listen (e : E) (f : FileDescriptor.t) (backlog : Z) : result E :=
  '(e, _) ← call "listen" (sys_listen e (FileDescriptor.fd_num f) backlog); Ok e.

(** The new socket, and the listening one. *)
Definition accept (e : E) (f : FileDescriptor.t) : result (E * FileDescriptor.t * FileDescriptor.t) :=
  let f := FileDescriptor.register_read f in
  '(e, fd) ← call "accept" (sys_accept e (FileDescriptor.fd_num f));
  g ← FileDescriptor.new fd;
  '(e, g) ← of_fd e g;
  Ok (e, f, g).

End calls.

End TCPSocket.

Module LocalStreamSocket.

Definition of_fd `{SocketCalls E} (e : E) (f : FileDescriptor.t) : result (E * FileDescriptor.t) :=
  BaseSocket.of_fd e f AF_UNIX SOCK_STREAM.

End LocalStreamSocket.

Definition socket_pair_helper `{SocketCalls E} (e : E) (type : Z) : result (E * (FileDescriptor.t * FileDescriptor.t)) :=
  '(e, fds) ← call "socketpair" (sys_socketpair e AF_UNIX type);
  first ← FileDescriptor.new fds.1;
  second ← FileDescriptor.new fds.2;
  Ok (e, (first, second)).

Module TunTapFD.

Definition CLONEDEV : string := "/dev/net/tun".

Definition O_RDWR : Z := 2.

Definition IFF_TUN : Z := 1.

Definition IFF_TAP : Z := 2.

Definition IFF_NO_PI : Z := 0x1000.

Definition IFNAMSIZ : Z := 16.

(** The characters up to the first zero. *)
Fixpoint c_string (s : bytes) : bytes :=
  match s with
  | [] => []
  | b :: s => if b2z b =? 0 then [] else b :: c_string s
  end.

(** [strncpy] of at most [n] characters, the rest of the [n] filled with zeros. *)
Definition strncpy (s : bytes) (n : Z) : bytes := resize (c_string s) n.

(** [ifr_name]: fifteen characters and the zero behind them. *)
Definition ifr_name (devname : bytes) : bytes := strncpy devname (IFNAMSIZ - 1) ++ [Byte.x00].

Definition new `{SocketCalls E} (e : E) (devname : bytes) (is_tun : bool) : result (E * FileDescriptor.t) :=
  '(e, fd) ← call "open" (sys_open e CLONEDEV O_RDWR);
  f ← FileDescriptor.new fd;
  let ifr_flags := Z.lor (if is_tun then IFF_TUN else IFF_TAP) IFF_NO_PI in
  '(e, _) ← call "ioctl" (sys_tunsetiff e (FileDescriptor.fd_num f) (ifr_name devname) ifr_flags);
  Ok (e, f).

End TunTapFD.

(** ** Datagrams *)

(** What udp(7), recvfrom(2) and sendmsg(2) promise when they succeed: a datagram
    comes whole, cut only to the buffer, with its real length and its IPv4 source;
    one that is not too long goes out whole, to the address named. *)
Definition MAX_DATAGRAM : Z := 65507.

Class DatagramLaws (E : Type) `{SocketCalls E, KernelView E} := mk_datagram_laws {
  law_recvfrom : ∀ e fd mtu, world_ok e → 0 <= mtu → fails e (sys_recvfrom e fd mtu MSG_TRUNC) ∨ ∃ whole src e',
    sys_recvfrom e fd mtu MSG_TRUNC =
      (Returned (ztake mtu whole, blen whole,
         (RawAddress.sockaddr_in RawAddress.AF_INET (Address.port src) (Address.ipv4_numeric src), RawAddress.SOCKADDR_IN_SIZE)), e') ∧
    is_u32 (Address.ipv4_numeric src) ∧ is_u16 (Address.port src) ∧ blen whole <= MAX_DATAGRAM ∧ gave e e' fd whole ∧
    history e' = history e ++ [Received fd src whole];
  law_sendmsg : ∀ e fd destination l, world_ok e → blen (mjoin l) <= MAX_DATAGRAM →
    fails e (sys_sendmsg e fd destination l) ∨
    ∃ e', sys_sendmsg e fd destination l = (Returned (blen (mjoin l)), e') ∧ took e e' fd (mjoin l) ∧
      history e' = history e ++ [Posted fd destination (mjoin l)];
}.

Lemma raw_from_sockaddr_in src :
  raw_from (RawAddress.sockaddr_in RawAddress.AF_INET (Address.port src) (Address.ipv4_numeric src), RawAddress.SOCKADDR_IN_SIZE) = raw_of src.
Proof.
  rewrite raw_of_spec. unfold raw_from, RawAddress.of_sockaddr. cbn [fst snd].
  change (RawAddress.STORAGE_SIZE <? RawAddress.SOCKADDR_IN_SIZE) with false. cbv iota. by vm_compute.
Qed.

Lemma resize_whole b mtu : blen b <= mtu → resize (resize b mtu) (blen b) = b.
Proof.
  intros Hb. pose proof (blen_nonneg b). rewrite (resize_pad b mtu Hb). unfold resize.
  rewrite ztake_app_l, ztake_all, blen_app by lia. set (pad := replicate (Z.to_nat (mtu - blen b)) _). pose proof (blen_nonneg pad).
  replace (Z.to_nat _) with 0%nat by lia. by rewrite app_nil_r.
Qed.

Section datagrams.
Context `{DatagramLaws E}.
Implicit Types (e : E) (f : FileDescriptor.t).

Lemma recv_core e f mtu :
  world_ok e → 0 <= mtu → faulted (E := E) (UDPSocket.recv e f mtu) ∨
  ∃ whole src raw e', raw_of src = Ok raw ∧ is_u32 (Address.ipv4_numeric src) ∧ is_u16 (Address.port src) ∧
    blen whole <= MAX_DATAGRAM ∧ gave e e' (FileDescriptor.fd_num f) whole ∧
    history e' = history e ++ [Received (FileDescriptor.fd_num f) src whole] ∧
    UDPSocket.recv e f mtu =
      if mtu <? blen whole then Err (runtime_error "recvfrom (oversized datagram)")
      else Ok (e', FileDescriptor.register_read f, UDPSocket.mk_datagram raw whole).
Proof.
  intros Hw Hm. unfold UDPSocket.recv.
  destruct (law_recvfrom e (FileDescriptor.fd_num f) mtu Hw Hm) as [Hf|(whole & src & e' & Er & Hip & Hp & Hl & Hg & Hh)].
  { apply (fails_call "recvfrom") in Hf. by_fault Hf. }
  right. exists whole, src. eexists _, e'. split; [apply raw_of_spec|]. do 5 (split; [done|]).
  rewrite Er. cbn [call SystemCall mbind result_bind].
  destruct (Z.ltb_spec mtu (blen whole)); [done|]. rewrite raw_from_sockaddr_in, raw_of_spec. cbn [mbind result_bind].
  by rewrite ztake_all, resize_whole by done.
Qed.

Lemma sendto_core e f dst l :
  world_ok e → blen (mjoin l) <= MAX_DATAGRAM → faulted (E := E) (UDPSocket.sendto e f dst l) ∨
  ∃ e', UDPSocket.sendto e f dst l = Ok (e', FileDescriptor.register_write f) ∧ took e e' (FileDescriptor.fd_num f) (mjoin l) ∧
    history e' = history e ++ [Posted (FileDescriptor.fd_num f) (Some (sockaddr_of dst)) (mjoin l)].
Proof.
  intros Hw Hl. unfold UDPSocket.sendto, UDPSocket.sendmsg_helper.
  destruct (law_sendmsg e (FileDescriptor.fd_num f) (Some (sockaddr_of dst)) l Hw Hl) as [Hf|(e' & Es & Ht)].
  { apply (fails_call "sendmsg") in Hf. by_fault Hf. }
  right. exists e'. split; [|done]. rewrite Es. cbn [call SystemCall mbind result_bind].
  pose proof (blen_nonneg (mjoin l)). assert (Hu : is_u64 (blen (mjoin l))) by (unfold MAX_DATAGRAM in Hl; unfold_w; lia).
  by rewrite view_list_size_spec, (w64_small _ Hu), Z.eqb_refl.
Qed.

End datagrams.

(** C37. A UDP socket never hands out part of a datagram: unless the call fails,
    one datagram has arrived, and [recv] returns all of it with the address it
    came from, or throws because it is longer than [mtu]; and, unless the call
    fails, [sendto] with a payload that fits into a datagram sends exactly one
    datagram, of exactly that payload, to exactly the address it was given. *)
Theorem udp_datagrams_whole `{DatagramLaws E} (e : E) f mtu dst l :
  world_ok e → 0 <= mtu → blen (mjoin l) <= MAX_DATAGRAM →
  let fd := FileDescriptor.fd_num f in
  (faulted (E := E) (UDPSocket.recv e f mtu) ∨
   ∃ whole src raw e', gave e e' fd whole ∧ history e' = history e ++ [Received fd src whole] ∧
     raw_of src = Ok raw ∧ address_of raw = Ok src ∧
     UDPSocket.recv e f mtu =
       if mtu <? blen whole then Err (runtime_error "recvfrom (oversized datagram)")
       else Ok (e', FileDescriptor.register_read f, UDPSocket.mk_datagram raw whole)) ∧
  (faulted (E := E) (UDPSocket.sendto e f dst l) ∨
   ∃ e', UDPSocket.sendto e f dst l = Ok (e', FileDescriptor.register_write f) ∧ took e e' fd (mjoin l) ∧
     history e' = history e ++ [Posted fd (Some (ztake (RawAddress.size dst) (RawAddress.storage dst))) (mjoin l)]).
Proof.
  intros Hw Hm Hl fd. split; [|by apply sendto_core].
  destruct (recv_core e f mtu Hw Hm) as [?|(whole & src & raw & e' & Er & Hip & Hp & _ & Hg & Hh & ->)]; [by left|right].
  exists whole, src, raw, e'. split; [done|]. split; [done|]. split; [done|]. split; [by apply address_of_raw|done].
Qed.

(** ** Sockets of the toy kernel

    A datagram comes from 10.0.0.2, port 80. *)
Definition toy_peer : Address.t := Address.mk 0x0a000002 80.

Definition toy_log (e : toy) (event : socket_event) : toy :=
  mk_toy (script e) (toy_drawn e) (toy_sunk e) (toy_time e) (toy_history e ++ [event]).

#[export] Instance toy_sockets : SocketCalls toy := {
  sys_socket e _ _ := (Returned 3, e);
  sys_socketpair e _ _ := (Returned (4, 5), e);
  sys_getsockopt e fd _ option :=
    (Returned (if option =? SO_DOMAIN then AF_UNIX else SOCK_STREAM, INT_SIZE), e);
  sys_setsockopt e _ _ _ _ := (Returned 0, e);
  sys_getsockname e _ _ := (Returned (RawAddress.sockaddr_in RawAddress.AF_INET 80 0x0a000001, 16), e);
  sys_getpeername e _ _ := (Returned (RawAddress.sockaddr_in RawAddress.AF_INET 80 0x0a000002, 16), e);
  sys_bind e fd address := (Returned 0, toy_log e (Bound fd address));
  sys_connect e fd address := (Returned 0, toy_log e (Connected fd address));
  sys_listen e fd _ := (Returned 0, toy_log e (Listening fd));
  sys_accept e fd := (Returned 6, toy_log e (Accepted fd 6));
  sys_recvfrom e fd mtu _ :=
    let source := (RawAddress.sockaddr_in RawAddress.AF_INET (Address.port toy_peer) (Address.ipv4_numeric toy_peer), 16) in
    match script e fd with
    | [] => (Returned ([], 0, source), toy_log e (Received fd toy_peer []))
    | whole :: s =>
        let whole := ztake MAX_DATAGRAM whole in
        (Returned (ztake mtu whole, blen whole, source),
         mk_toy (update (script e) fd s) (update (toy_drawn e) fd (toy_drawn e fd ++ whole)) (toy_sunk e) (toy_time e)
           (toy_history e ++ [Received fd toy_peer whole]))
    end;
  sys_sendmsg e fd destination l :=
    (Returned (blen (mjoin l)),
     mk_toy (script e) (toy_drawn e) (update (toy_sunk e) fd (toy_sunk e fd ++ mjoin l)) (toy_time e)
       (toy_history e ++ [Posted fd destination (mjoin l)]));
  sys_open e _ _ := (Returned 7, e);
  sys_tunsetiff e _ _ _ := (Returned 0, e);
}.

#[export] Program Instance toy_datagrams : DatagramLaws toy.
Next Obligation.
  intros e fd mtu Hw Hm. right. unfold sys_recvfrom, toy_sockets. destruct (script e fd) as [|b s] eqn:Es.
  - exists [], toy_peer. eexists. split; [by rewrite ztake_nil|]. split; [range_compute|]. split; [range_compute|]. split; [done|].
    split; [|done]. split; [done|]. split; [|done]. intros k. case_decide as Ek; [subst k; by rewrite app_nil_r|done].
  - exists (ztake MAX_DATAGRAM b), toy_peer. eexists. split; [done|]. split; [range_compute|]. split; [range_compute|].
    split; [rewrite blen_ztake by done; lia|]. split; [|done]. split; [|done].
    intros k. simpl. unfold update. case_decide as Ek; [subst k|apply Hw]. pose proof (Hw fd) as Hf. rewrite Es in Hf.
    simpl in Hf. rewrite blen_app in *. rewrite blen_ztake by done. lia.
Qed.
Next Obligation. intros e fd dst l Hw Hl. right. by eexists. Qed.

(** A datagram of three bytes does not fit into two; one of one byte goes to the
    address given. *)
Lemma udp_datagrams_whole_witness :
  UDPSocket.recv (toy_start (λ _, [[Byte.x61; Byte.x62; Byte.x63]])) (FileDescriptor.mk 3 false false 0 0) 2 =
    Err (runtime_error "recvfrom (oversized datagram)") ∧
  ∃ e', UDPSocket.sendto (toy_start (λ _, [])) (FileDescriptor.mk 3 false false 0 0) (RawAddress.mk 2 [Byte.x02; Byte.x03; Byte.x04]) [[Byte.x61]] =
    Ok (e', FileDescriptor.mk 3 false false 0 1) ∧ sunk e' 3 = [Byte.x61] ∧
    history e' = [Posted 3 (Some [Byte.x02; Byte.x03]) [Byte.x61]].
Proof.
  split.
  - destruct (udp_datagrams_whole (toy_start (λ _, [[Byte.x61; Byte.x62; Byte.x63]])) (FileDescriptor.mk 3 false false 0 0) 2
      (RawAddress.mk 0 []) []) as [[(x & _ & [] & _)|(whole & src & raw & e' & (_ & Hd & _) & _ & _ & _ & Er)] _].
    + intros fd. vm_compute. reflexivity.
    + lia.
    + range_compute.
    + destruct (Z.ltb_spec 2 (blen whole)) as [Hlt|Hle]; [exact Er|]. vm_compute in Er. discriminate Er.
  - destruct (udp_datagrams_whole (toy_start (λ _, [])) (FileDescriptor.mk 3 false false 0 0) 2
      (RawAddress.mk 2 [Byte.x02; Byte.x03; Byte.x04]) [[Byte.x61]]) as [_ [(x & _ & [] & _)|(e' & Es & (_ & Ht & _) & Hh)]].
    + intros fd. vm_compute. reflexivity.
    + lia.
    + range_compute.
    + exists e'. split; [exact Es|]. split; [exact (Ht 3)|exact Hh].
Defined.

(** ** Devices *)

Lemma c_string_id s : Forall (λ b, b2z b ≠ 0) s → TunTapFD.c_string s = s.
Proof. induction 1 as [|b s Hb Hs IH]; simpl; [done|]. rewrite (proj2 (Z.eqb_neq _ _) Hb). by rewrite IH. Qed.

(** The request for a device: the name field is always a string with its end, and
    a name that fits is passed unchanged. *)
Lemma ifr_name_fits devname :
  blen (TunTapFD.ifr_name devname) = TunTapFD.IFNAMSIZ ∧ Byte.x00 ∈ TunTapFD.ifr_name devname ∧
  (Forall (λ b, b2z b ≠ 0) devname → blen devname < TunTapFD.IFNAMSIZ →
     TunTapFD.c_string (TunTapFD.ifr_name devname) = devname).
Proof.
  assert (Hlen : ∀ s n, 0 <= n → blen (resize s n) = n).
  { intros s n Hn. pose proof (blen_nonneg s). unfold resize. rewrite blen_app, blen_ztake by done. unfold blen at 2. rewrite length_replicate. lia. }
  assert (Hcut : ∀ s k, Forall (λ b, b2z b ≠ 0) s → TunTapFD.c_string (s ++ replicate k Byte.x00 ++ [Byte.x00]) = s).
  { intros s k Hs. induction Hs as [|b s Hb Hs IH]; simpl; [by destruct k|]. rewrite (proj2 (Z.eqb_neq _ _) Hb). by rewrite IH. }
  unfold TunTapFD.ifr_name, TunTapFD.strncpy. split; [rewrite blen_app, Hlen; done|]. split; [apply elem_of_app; right; left|].
  intros Hz Hb. unfold TunTapFD.IFNAMSIZ in *. rewrite (c_string_id devname Hz), resize_pad, <- app_assoc by lia. by apply Hcut.
Qed.
