(* ===== verification/Resolve.v ===== *)
(** * Addresses and names: the constructors and accessors of util/address.* that ask the C library

    [getaddrinfo] and [getnameinfo] are the class [Resolver]; [ResolverLaws] states
    what their manual pages promise when they are told not to resolve anything:
    numeric hosts and services are converted, and nothing is looked up. *)

From S2P Require Import Prelude Buffers Parsing Printing Addresses Descriptors Sockets.

(** The two members of [addrinfo] that the hints set; the others are zero. *)
Record hints := mk_hints {
  ai_flags : Z;
  ai_family : Z;
}.

Definition AI_NUMERICHOST : Z := 0x4.

Definition AI_ALL : Z := 0x10.

Definition AI_NUMERICSERV : Z := 0x400.

Definition NI_NUMERICHOST : Z := 1.

Definition NI_NUMERICSERV : Z := 2.

(** An answer is the list of the addresses found, each a [sockaddr] and its
    length, or the error code. *)
Class Resolver := mk_resolver {
  getaddrinfo : string → string → hints → sys (list (bytes * Z));
  getnameinfo : bytes → Z → sys (string * string);
}.

Section resolver.
Context `{Resolver}.

Definition make_hints (flags family : Z) : hints := mk_hints flags family.

(** [Address(node, service, hints)]: the first entry of the answer. *)
Definition resolve_with (node service : string) (h : hints) : result RawAddress.t :=
  match getaddrinfo node service h with
  | Failed gai_ret => Err (gai_error ("getaddrinfo(" ++ node ++ ", " ++ service ++ ")")%string gai_ret)
  | Returned [] => Err (runtime_error "getaddrinfo returned successfully but with no results")
  | Returned ((ai_addr, ai_addrlen) :: _) => RawAddress.of_sockaddr ai_addr ai_addrlen
  end.

(** [Address(hostname, service)]. *)
Definition resolve_name (hostname service : string) : result RawAddress.t :=
  resolve_with hostname service (make_hints AI_ALL RawAddress.AF_INET).

(** [Address(ip, port)]. *)
Definition of_ip (ip : string) (port : Z) : result RawAddress.t :=
  resolve_with ip (to_string port) (make_hints (Z.lor AI_NUMERICHOST AI_NUMERICSERV) RawAddress.AF_INET).

(** [stoi] of a port; a number is cut to sixteen bits. *)
Definition ip_port (a : RawAddress.t) : result (string * Z) :=
  match getnameinfo (sockaddr_of a) (Z.lor NI_NUMERICHOST NI_NUMERICSERV) with
  | Failed gni_ret => Err (gai_error "getnameinfo" gni_ret)
  | Returned (ip, port) =>
      match read_number port with
      | Some n => Ok (ip, w16 n)
      | None => Err (invalid_argument "stoi")
      end
  end.

Definition ip_of (a : RawAddress.t) : result string := x ← ip_port a; Ok x.1.

Definition port_of (a : RawAddress.t) : result Z := x ← ip_port a; Ok x.2.

Definition address_to_string (a : RawAddress.t) : result string :=
  ip_and_port ← ip_port a;
  Ok (ip_and_port.1 ++ ":" ++ to_string ip_and_port.2)%string.

End resolver.

(** ** What the C library promises *)

Class ResolverLaws `{Resolver} := mk_resolver_laws {
  (** getaddrinfo(3): a numeric host and service, with the flags that forbid a
      look-up, stand for one address; a host that is not numeric is an error. *)
  law_numeric : ∀ host service ip port, read_host host = Some ip → read_number service = Some port → is_u16 port →
    getaddrinfo host service (make_hints (Z.lor AI_NUMERICHOST AI_NUMERICSERV) RawAddress.AF_INET) =
      Returned [(RawAddress.sockaddr_in RawAddress.AF_INET port ip, RawAddress.SOCKADDR_IN_SIZE)];
  law_not_numeric : ∀ host service, read_host host = None →
    ∃ code, getaddrinfo host service (make_hints (Z.lor AI_NUMERICHOST AI_NUMERICSERV) RawAddress.AF_INET) = Failed code;
  (** getnameinfo(3): the numeric form of an IPv4 address and of its port. *)
  law_name : ∀ ip port, is_u32 ip → is_u16 port →
    getnameinfo (RawAddress.sockaddr_in RawAddress.AF_INET port ip) (Z.lor NI_NUMERICHOST NI_NUMERICSERV) =
      Returned (inet_ntoa ip, to_string port);
}.

Section laws.
Context `{ResolverLaws}.

Lemma read_host_range s ip : read_host s = Some ip → is_u32 ip.
Proof.
  unfold read_host. assert (Hn : ∀ t n, read_number t = Some n → 0 <= n).
  { assert (Hd : ∀ t v n, 0 <= v → read_digits t v = Some n → 0 <= n).
    { induction t as [|c t IH]; intros v n Hv Hr; simpl in Hr; [by simplify_eq|].
      destruct (digit_value c) as [d|] eqn:Ed; [|done]. eapply IH; [|exact Hr]. unfold digit_value in Ed.
      destruct (_ && _) eqn:Ec; [|done]. bool_to_prop. injection Ed as <-. lia. }
    intros t n. unfold read_number. destruct (String.eqb _ _); [done|]. by apply Hd. }
  destruct (split_dots s "") as [|a [|b [|c [|d [|]]]]]; cbn [fmap list_fmap]; try done;
    repeat match goal with |- context [match read_number ?t with _ => _ end] =>
      let E := fresh "E" in destruct (read_number t) eqn:E; [apply Hn in E|done] end; try done.
  - destruct (Z.ltb_spec z 0x100000000); [intros [= <-]; unfold_w; lia|done].
  - destruct (_ && _) eqn:Ec; [|done]. bool_to_prop. intros [= <-]. rewrite !Z.shiftl_mul_pow2 by lia.
    change (2 ^ 24) with 0x1000000. change (2 ^ 16) with 0x10000. change (2 ^ 8) with 0x100. unfold_w. lia.
Qed.

(** A numeric host gives its address, without a look-up. *)
Lemma of_ip_spec host ip port : read_host host = Some ip → is_u16 port → of_ip host port = raw_of (Address.mk ip port).
Proof.
  intros Hh Hp. unfold of_ip, resolve_with. rewrite (law_numeric host (to_string port) ip port Hh); [done| |done].
  apply read_number_to_string. unfold is_u16 in Hp. lia.
Qed.

Lemma sockaddr_of_raw a r : raw_of a = Ok r → sockaddr_of r = RawAddress.sockaddr_in RawAddress.AF_INET (Address.port a) (Address.ipv4_numeric a).
Proof. rewrite raw_of_spec. by intros [= <-]. Qed.

Lemma ip_port_spec a r :
  is_u32 (Address.ipv4_numeric a) → is_u16 (Address.port a) → raw_of a = Ok r →
  ip_port r = Ok (inet_ntoa (Address.ipv4_numeric a), Address.port a).
Proof.
  intros Hi Hp Hr. unfold ip_port. rewrite (sockaddr_of_raw a r Hr), law_name by done.
  rewrite read_number_to_string by (unfold is_u16 in Hp; lia). by rewrite w16_small.
Qed.

(** Addresses and text. An address made of a numeric host and a port is the
    IPv4 address of that number and port, whatever the network; its [ip],
    [port] and [to_string] are the dotted quad and the port; and what [ip] and
    [port] return makes the same address again, so that the code can take an
    address apart and put it together with another port. A host that is not
    numeric is an error. *)
Theorem address_text_round_trip host port :
  is_u16 port →
  match read_host host with
  | Some ip => ∃ r, of_ip host port = Ok r ∧ address_of r = Ok (Address.mk ip port) ∧
      ip_of r = Ok (inet_ntoa ip) ∧ port_of r = Ok port ∧
      address_to_string r = Ok (inet_ntoa ip ++ ":" ++ to_string port)%string ∧
      ∀ port', is_u16 port' → of_ip (inet_ntoa ip) port' = raw_of (Address.mk ip port')
  | None => ∃ code, of_ip host port = Err (gai_error ("getaddrinfo(" ++ host ++ ", " ++ to_string port ++ ")")%string code)
  end.
Proof.
  intros Hp. destruct (read_host host) as [ip|] eqn:Eh.
  - pose proof (read_host_range host ip Eh) as Hi. rewrite (of_ip_spec host ip port Eh Hp).
    pose proof (raw_of_spec (Address.mk ip port)) as Er. eexists. split; [exact Er|].
    pose proof (ip_port_spec (Address.mk ip port) _ Hi Hp Er) as Hip.
    split; [by eapply address_of_raw|]. unfold ip_of, port_of, address_to_string. rewrite Hip. split_and!; try done.
    intros port' Hp'. apply of_ip_spec; [by apply read_host_inet_ntoa|done].
  - destruct (law_not_numeric host (to_string port) Eh) as [code Hc]. exists code. unfold of_ip, resolve_with. by rewrite Hc.
Qed.

End laws.

(** ** A resolver without a network *)

#[export] Instance numeric_resolver : Resolver := {
  getaddrinfo node service h :=
    match read_host node, read_number service with
    | Some ip, Some port => Returned [(RawAddress.sockaddr_in RawAddress.AF_INET port ip, RawAddress.SOCKADDR_IN_SIZE)]
    | _, _ => Failed (-2)
    end;
  getnameinfo a _ :=
    Returned (inet_ntoa (be_val (ztake 4 (zdrop 4 a))), to_string (be_val (ztake 2 (zdrop 2 a))));
}.

#[export] Program Instance numeric_resolver_laws : ResolverLaws.
Next Obligation. intros host service ip port Hh Hs Hp. simpl. by rewrite Hh, Hs. Qed.
Next Obligation. intros host service Hh. simpl. rewrite Hh. by eexists. Qed.
Next Obligation.
  intros ip port Hi Hp. unfold getnameinfo, numeric_resolver, RawAddress.sockaddr_in.
  replace (ztake 4 _) with (NetUnparser.unparse_bytes 4 ip) by done.
  replace (ztake 2 _) with (NetUnparser.unparse_bytes 2 port) by done. rewrite !be_val_unparse.
  change (2 ^ (8 * Z.of_nat 4)) with 0x100000000. change (2 ^ (8 * Z.of_nat 2)) with 0x10000.
  by rewrite !Z.mod_small by done.
Qed.

Lemma address_text_round_trip_witness :
  (∃ r, of_ip "172.16.0.100" 1234 = Ok r ∧ address_to_string r = Ok "172.16.0.100:1234"%string) ∧
  ∃ code, of_ip "localhost" 80 = Err (gai_error "getaddrinfo(localhost, 80)" code).
Proof.
  pose proof (address_text_round_trip "172.16.0.100" 1234 ltac:(range_compute)) as H1.
  pose proof (address_text_round_trip "localhost" 80 ltac:(range_compute)) as H2.
  split; [|exact H2]. destruct H1 as (r & E & _ & _ & _ & Ht & _). exists r. split; [exact E|exact Ht].
Defined.
