(* ===== verification/Confined.v ===== *)
(** * A kernel whose networks are confined to given packets

    The toy kernel, with a promise about what some of its descriptors give. It is
    what the theorems that rely on such a promise are tried on. *)

From S2P Require Import Prelude Buffers Parsing Addresses Descriptors Sockets.

Section confined.
Context (nets : list Z) (good : bytes → Prop) (since : Z).

(** Every piece of a packet, should it be read in pieces, is good. *)
Definition good_pieces (b : bytes) : Prop := ∀ i n, 0 <= i → 0 <= n → good (ztake n (zdrop i b)).

(** The networks give only good packets, and the clock is past [since]. *)
Definition confined (e : toy) : Prop := (∀ fd, fd ∈ nets → Forall good_pieces (script e fd)) ∧ since <= toy_time e.

Definition confined_view : KernelView toy := {|
  drawn := toy_drawn;
  sunk := toy_sunk;
  world_ok e := world_ok (KernelView := toy_view) e ∧ confined e;
  history := toy_history;
  fallible := False;
|}.

Lemma confined_update e fd s d h :
  confined e → (fd ∈ nets → Forall good_pieces s) → confined (mk_toy (update (script e) fd s) d (toy_sunk e) (toy_time e) h).
Proof.
  intros [Hg Ht] Hs. split; [|done]. intros k Hk. simpl. unfold update. case_decide; [subst k|]; auto.
Qed.

Lemma confined_read (e : toy) fd n : world_ok (KernelView := confined_view) e → 0 <= n →
  ∃ b e', sys_read e fd n = (Returned b, e') ∧ blen b <= n ∧ gave (H := confined_view) e e' fd b ∧
    (fd ∈ nets → b = [] ∨ good b).
Proof.
  intros [Hw Hc] Hn. destruct (toy_read_ok e fd n Hw Hn) as (b & e' & E & Hb & Hok & Hd & Hs).
  assert (Hscript : confined e' ∧ (fd ∈ nets → b = [] ∨ good b)).
  { unfold sys_read, toy_kernel in E. destruct (script e fd) as [|x l] eqn:Es; injection E as <- <-; [by split; [|left]|].
    assert (Hx : fd ∈ nets → good_pieces x ∧ Forall good_pieces l).
    { intros Hf. pose proof (proj1 Hc fd Hf) as Hg. rewrite Es in Hg. by apply Forall_cons in Hg. }
    split.
    - apply confined_update; [done|]. intros Hf. destruct (Hx Hf) as [Hx' Hl]. destruct (n <? blen x); [|done].
      constructor; [|done]. intros i k Hi Hk. rewrite zdrop_zdrop by done. apply Hx'; lia.
    - intros Hf. right. pose proof (proj1 (Hx Hf) 0 n ltac:(lia) Hn) as Hp. by rewrite zdrop_0 in Hp. }
  exists b, e'. split; [done|]. split; [done|]. destruct Hscript. split; [|done]. split; [done|]. by split.
Qed.

Lemma confined_laws : KernelLaws toy (H0 := confined_view).
Proof.
  split.
  - intros e fd [Hw _]. apply (law_bound e fd Hw).
  - intros e fd n Hw Hn. destruct (confined_read e fd n Hw Hn) as (b & e' & E & Hb & Hg & _). right. by exists b, e'.
  - intros e fd l [Hw Hg]. destruct (sure_fails _ _ _ toy_sure (law_writev e fd l Hw)) as (n & e' & E & Hn & Hok & Hs & Hd).
    right. exists n, e'. split; [done|]. split; [done|]. split; [|done]. split; [done|]. by injection E as _ <-.
  - intros e fd how Hw. right. by exists e.
  - intros e fd Hw. right. by exists e.
  - intros e fd Hw. right. by exists 0, e.
  - intros e fd flags Hw. right. by exists e.
  - intros e l timeout [Hw Hg]. destruct (law_poll e l timeout Hw) as (answer & e' & E & (Hok & Hd & Hs) & Hans).
    exists answer, e'. split; [done|]. split; [|done]. split; [|done]. split; [done|]. by injection E as _ <-.
  - intros e [Hw [Hg Ht]]. eexists _, _. split; [done|]. split; [|done]. split; [done|]. split; [done|]. simpl. lia.
Qed.

Lemma confined_datagrams : DatagramLaws toy (H0 := confined_view).
Proof.
  split.
  - intros e fd mtu [Hw Hc] Hm. destruct (sure_fails _ _ _ toy_sure (law_recvfrom e fd mtu Hw Hm)) as (whole & src & e' & E & Hi & Hp & Hl & Hg & Hh).
    right. exists whole, src, e'. split; [done|]. split; [done|]. split; [done|]. split; [done|]. destruct Hg as (Hok & Hd & Hs).
    split; [|done]. split; [|done]. split; [done|]. unfold sys_recvfrom, toy_sockets in E. destruct (script e fd) as [|x l] eqn:Es.
    { apply (f_equal snd) in E. by simpl in E; subst e'. }
    apply (f_equal snd) in E. simpl in E. subst e'. apply confined_update; [done|]. intros Hf. pose proof (proj1 Hc fd Hf) as Hg.
    rewrite Es in Hg. by apply Forall_cons in Hg as [_ Hg].
  - intros e fd dst l [Hw Hc] Hl. destruct (sure_fails _ _ _ toy_sure (law_sendmsg e fd dst l Hw Hl)) as (e' & E & (Hok & Hs) & Hh).
    right. exists e'. split; [done|]. split; [|done]. split; [|done]. split; [done|]. by injection E as <-.
Qed.

(** A test for all the pieces of a packet. *)
Definition pieces_ok (test : bytes → bool) (b : bytes) : bool :=
  forallb (λ i, forallb (λ n, test (take n (drop i b))) (seq 0 (S (length b)))) (seq 0 (S (length b))).

Lemma pieces_good test b : (∀ p, test p = true → good p) → pieces_ok test b = true → good_pieces b.
Proof.
  intros Htest Hb i n Hi Hn. apply Htest. unfold pieces_ok in Hb. rewrite forallb_forall in Hb.
  unfold ztake, zdrop. set (j := Z.to_nat (Z.min i (blen b))). set (k := Z.to_nat (Z.min n (blen (drop j b)))).
  assert (Hj : (j <= length b)%nat) by (unfold j, blen; lia).
  assert (Hk : (k <= length b)%nat) by (unfold k, blen; rewrite length_drop; lia).
  specialize (Hb j). rewrite forallb_forall in Hb. apply Hb; apply in_seq; lia.
Qed.

End confined.
