(* ===== verification/Webget.v ===== *)
(** * Fetching a page: apps/webget.cc

    [get_URL] on a kernel with the laws of Descriptors.v. Resolving a name is a
    parameter; what goes to standard output is a result. *)

From S2P Require Import Prelude Buffers Addresses Descriptors Sockets.

Module Webget.

Definition CRLF : bytes := [Byte.x0d; Byte.x0a].

Definition text (s : string) : bytes := String.list_byte_of_string s.

(** The four writes. *)
Definition request (host path : bytes) : list bytes :=
  [text "GET " ++ path ++ text " HTTP/1.1" ++ CRLF; text "Host: " ++ host ++ CRLF; text "Connection: close" ++ CRLF; CRLF].

Section webget.
Context `{Kernel E, !SocketCalls E}.

(** [Address(host, service)]. *)
Context (resolve : bytes → bytes → result RawAddress.t).

Fixpoint write_lines (e : E) (socket : FileDescriptor.t) (lines : list bytes) : result (E * FileDescriptor.t) :=
  match lines with
  | [] => Ok (e, socket)
  | line :: lines =>
      '(e, socket, _) ← FileDescriptor.write e socket (BufferViewList.of_string line) true;
      write_lines e socket lines
  end.

(** The loop of lines 27 to 29; [out] is what was printed so far. *)
Fixpoint read_all (fuel : nat) (e : E) (socket : FileDescriptor.t) (out : bytes) : result (E * FileDescriptor.t * bytes) :=
  if FileDescriptor.eof socket then Ok (e, socket, out)
  else
    match fuel with
    | O => Err out_of_fuel
    | S fuel => '(e, socket, data) ← FileDescriptor.read e socket 20; read_all fuel e socket (out ++ data)
    end.

Definition get_URL (fuel : nat) (e : E) (host path : bytes) : result (E * FileDescriptor.t * bytes) :=
  '(e, socket) ← TCPSocket.new e;
  address ← resolve host (text "http");
  e ← BaseSocket.connect e socket address;
  '(e, socket) ← write_lines e socket (request host path);
  read_all fuel e socket [].

End webget.

End Webget.

(** What socket(2) and connect(2) promise: a new descriptor, and that a descriptor
    is connected to the address named, unless they fail. *)
Class StreamLaws (E : Type) `{SocketCalls E, KernelView E} := mk_stream_laws {
  law_socket : ∀ e domain type, world_ok e → fails e (sys_socket e domain type) ∨
    ∃ fd e', sys_socket e domain type = (Returned fd, e') ∧ 0 <= fd ∧ idle e e' ∧ history e' = history e;
  law_connect : ∀ e fd address, world_ok e → fails e (sys_connect e fd address) ∨
    ∃ e', sys_connect e fd address = (Returned 0, e') ∧ idle e e' ∧ history e' = history e ++ [Connected fd address];
}.

Section webget_spec.
Context `{KernelLaws E, !SocketCalls E, !StreamLaws E} (Hsure : ~ fallible (E := E)).
Implicit Types (e : E) (f : FileDescriptor.t).

Lemma write_lines_spec e f lines :
  world_ok e → Forall (λ l, is_u64 (blen l)) lines →
  ∃ e' f', Webget.write_lines e f lines = Ok (e', f') ∧ took e e' (FileDescriptor.fd_num f) (mjoin lines) ∧
    FileDescriptor.fd_num f' = FileDescriptor.fd_num f ∧ FileDescriptor.eof f' = FileDescriptor.eof f.
Proof.
  intros Hw Hl. revert e f Hw. induction Hl as [|l lines Hl Hls IH]; intros e f Hw; simpl.
  { exists e, f. split; [done|]. split; [|done]. split; [done|]. split; [|done].
    intros k. case_decide as Ek; [subst k; by rewrite app_nil_r|done]. }
  destruct (sure _ _ Hsure (write_all_core e f (BufferViewList.of_string l) Hw ltac:(simpl; by rewrite app_nil_r))) as (e1 & f1 & -> & Ht & Hf & Heof & _).
  simpl in Ht. rewrite app_nil_r in Ht. cbn [mbind result_bind].
  destruct (IH e1 f1 (proj1 Ht)) as (e2 & f2 & -> & Ht2 & Hf2 & He2). exists e2, f2. split; [done|].
  rewrite Hf in Ht2. split; [by eapply took_trans|]. split; congruence.
Qed.

(** Reading to the end: each read that is not the last one takes at least one
    byte of what the world will ever give. *)
Lemma read_all_spec bound e f out :
  world_ok e → (Z.to_nat (0x2000000000000000 - blen (drawn e (FileDescriptor.fd_num f))) <= bound)%nat →
  ∃ e' f' got, Webget.read_all (S bound) e f out = Ok (e', f', out ++ got) ∧ FileDescriptor.eof f' = true ∧
    FileDescriptor.fd_num f' = FileDescriptor.fd_num f ∧ world_ok e' ∧ (∀ k, sunk e' k = sunk e k) ∧
    drawn e' (FileDescriptor.fd_num f) = drawn e (FileDescriptor.fd_num f) ++ got.
Proof.
  revert e f out. induction bound as [|bound IH]; intros e f out Hw Hb; pose proof (law_bound e (FileDescriptor.fd_num f) Hw) as Hd; [lia|].
  change (Webget.read_all (S (S bound)) e f out) with (if FileDescriptor.eof f then Ok (e, f, out)
    else '(e, f, data) ← FileDescriptor.read e f 20; Webget.read_all (S bound) e f (out ++ data)).
  destruct (FileDescriptor.eof f) eqn:Ee; [exists e, f, []; by rewrite !app_nil_r|].
  destruct (sure _ _ Hsure (descriptor_read_spec e f 20 Hw ltac:(done))) as (e1 & f1 & b & -> & Hb1 & (Hw1 & Hdr & Hs) & Hf1). cbn [mbind result_bind].
  pose proof (Hdr (FileDescriptor.fd_num f)) as Hdf. rewrite decide_True in Hdf by done.
  assert (Hnum : FileDescriptor.fd_num f1 = FileDescriptor.fd_num f) by (by rewrite Hf1).
  destruct (decide (b = [])) as [->|Hne].
  - assert (He1 : FileDescriptor.eof f1 = true) by (rewrite Hf1; apply orb_true_r).
    exists e1, f1, []. simpl. rewrite He1, !app_nil_r. split_and!; try done. by rewrite Hdf, app_nil_r.
  - destruct (IH e1 f1 (out ++ b) Hw1) as (e2 & f2 & got & -> & He2 & Hn2 & Hw2 & Hs2 & Hd2).
    { rewrite Hnum, Hdf, blen_app. assert (0 < blen b) by (destruct b; [done|rewrite blen_cons; pose proof (blen_nonneg b0); lia]). lia. }
    rewrite Hnum, Hdf in Hd2. exists e2, f2, (b ++ got). rewrite !app_assoc. split_and!; try done; [congruence|].
    intros k. by rewrite Hs2, Hs.
Qed.

Lemma read_to_end e f out :
  world_ok e →
  ∃ fuel e' f' got, Webget.read_all fuel e f out = Ok (e', f', out ++ got) ∧ FileDescriptor.eof f' = true ∧
    FileDescriptor.fd_num f' = FileDescriptor.fd_num f ∧ world_ok e' ∧ (∀ k, sunk e' k = sunk e k) ∧
    drawn e' (FileDescriptor.fd_num f) = drawn e (FileDescriptor.fd_num f) ++ got.
Proof. intros Hw. eexists. by apply read_all_spec. Qed.

End webget_spec.

Lemma request_fits host path :
  blen host < 0x1000000 → blen path < 0x1000000 → Forall (λ l, is_u64 (blen l)) (Webget.request host path).
Proof.
  intros Hh Hp. pose proof (blen_nonneg host). pose proof (blen_nonneg path). unfold Webget.request.
  assert (H1 : blen (Webget.text "GET ") = 4) by (vm_compute; reflexivity).
  assert (H2 : blen (Webget.text " HTTP/1.1") = 9) by (vm_compute; reflexivity).
  assert (H3 : blen (Webget.text "Host: ") = 6) by (vm_compute; reflexivity).
  assert (H4 : blen (Webget.text "Connection: close") = 17) by (vm_compute; reflexivity).
  assert (H5 : blen Webget.CRLF = 2) by (vm_compute; reflexivity).
  repeat (apply Forall_cons; split; [rewrite ?blen_app, ?H1, ?H2, ?H3, ?H4, H5; unfold_w; lia|]).
  by apply Forall_nil.
Qed.

Lemma request_text host path :
  mjoin (Webget.request host path) = Webget.text "GET " ++ path ++ Webget.text " HTTP/1.1" ++ Webget.CRLF ++
    Webget.text "Host: " ++ host ++ Webget.CRLF ++ Webget.text "Connection: close" ++ Webget.CRLF ++ Webget.CRLF.
Proof. unfold Webget.request. cbn [mjoin list_join]. by rewrite <- !app_assoc, app_nil_r. Qed.

(** C38. [get_URL], when the name resolves and no system call fails: it returns,
    whatever the server sends and in whatever pieces (within the bound on what a
    world can ever give), and throws nothing. The requests and reads are made on a
    new socket that has just been connected to the resolved address; the socket has taken exactly the request, with the path and
    the host where they belong, and what was printed is exactly what the server
    sent up to the end of its stream. *)
Theorem get_url_complete `{KernelLaws E, !SocketCalls E, !StreamLaws E} resolve (e : E) host path address :
  ~ fallible (E := E) →
  world_ok e → resolve host (Webget.text "http") = Ok address → blen host < 0x1000000 → blen path < 0x1000000 →
  ∃ fuel e' f out, Webget.get_URL resolve fuel e host path = Ok (e', f, out) ∧ FileDescriptor.eof f = true ∧
    let fd := FileDescriptor.fd_num f in
    (∃ e1, history e1 = history e ++ [Connected fd (sockaddr_of address)] ∧
       Webget.get_URL resolve fuel e host path =
         '(e2, socket) ← Webget.write_lines e1 (FileDescriptor.mk fd false false 0 0) (Webget.request host path);
         Webget.read_all fuel e2 socket []) ∧
    sunk e' fd = sunk e fd ++ Webget.text "GET " ++ path ++ Webget.text " HTTP/1.1" ++ Webget.CRLF ++
      Webget.text "Host: " ++ host ++ Webget.CRLF ++ Webget.text "Connection: close" ++ Webget.CRLF ++ Webget.CRLF ∧
    drawn e' fd = drawn e fd ++ out.
Proof.
  intros Hsure Hw Hres Hh Hp.
  destruct (sure_fails _ _ _ Hsure (law_socket e RawAddress.AF_INET SOCK_STREAM Hw)) as (fd & e1 & Es & Hfd & (Hw1 & Hd1 & Hs1) & Hh1).
  destruct (sure_fails _ _ _ Hsure (law_connect e1 fd (sockaddr_of address) Hw1)) as (e2 & Ec & (Hw2 & Hd2 & Hs2) & Hh2).
  set (f0 := FileDescriptor.mk fd false false 0 0).
  destruct (write_lines_spec Hsure e2 f0 (Webget.request host path) Hw2 (request_fits host path Hh Hp)) as (e3 & f3 & Ew & (Hw3 & Hs3 & Hd3) & Hf3 & _).
  destruct (read_to_end Hsure e3 f3 [] Hw3) as (bound & e4 & f4 & got & Er & Heof & Hn4 & _ & Hs4 & Hd4).
  assert (Eget : Webget.get_URL resolve bound e host path =
    '(e2, socket) ← Webget.write_lines e2 f0 (Webget.request host path); Webget.read_all bound e2 socket []).
  { unfold Webget.get_URL, TCPSocket.new, BaseSocket.new, BaseSocket.connect, FileDescriptor.new. rewrite Es.
    cbn [call SystemCall mbind result_bind]. rewrite (proj2 (Z.ltb_ge _ _)) by done. cbn [mbind result_bind]. rewrite Hres.
    cbn [mbind result_bind FileDescriptor.fd_num]. rewrite Ec. reflexivity. }
  exists bound, e4, f4, got. split.
  - rewrite Eget, Ew. exact Er.
  - split; [exact Heof|]. cbv zeta. rewrite Hf3 in Hn4, Hd4. change (FileDescriptor.fd_num f0) with fd in *. rewrite Hn4.
    split; [exists e2; split; [by rewrite Hh2, Hh1|exact Eget]|].
    rewrite Hs4, Hs3, decide_True, Hs2, Hs1, request_text by done. split; [reflexivity|]. by rewrite Hd4, Hd3, Hd2, Hd1.
Qed.

#[export] Program Instance toy_streams : StreamLaws toy.
Next Obligation. intros e domain type Hw. right. by exists 3, e. Qed.
Next Obligation. intros e fd address Hw. right. by eexists. Qed.

(** A server that answers "abc" in two pieces. *)
Definition web_server (fd : Z) : list bytes := if fd =? 3 then [[Byte.x61; Byte.x62]; [Byte.x63]] else [].

Lemma get_url_complete_witness :
  ∃ fuel e' f out, Webget.get_URL (λ _ _, Ok (RawAddress.mk 0 [])) fuel (toy_start web_server) [Byte.x68] [Byte.x2f] = Ok (e', f, out) ∧
    FileDescriptor.eof f = true ∧ toy_drawn e' (FileDescriptor.fd_num f) = out.
Proof.
  destruct (get_url_complete (λ _ _, Ok (RawAddress.mk 0 [])) (toy_start web_server) [Byte.x68] [Byte.x2f] (RawAddress.mk 0 []))
    as (fuel & e' & f & out & E & Heof & _ & _ & Hd).
  - exact toy_sure.
  - intros fd. simpl. unfold web_server. destruct (fd =? 3); vm_compute; reflexivity.
  - reflexivity.
  - vm_compute. reflexivity.
  - vm_compute. reflexivity.
  - exists fuel, e', f, out. split; [exact E|]. split; [exact Heof|exact Hd].
Defined.

(** The same run, with enough fuel given. *)
Lemma web_example :
  match Webget.get_URL (λ _ _, Ok (RawAddress.mk 0 [])) 5 (toy_start web_server) [Byte.x68] [Byte.x2f] with
  | Ok (_, _, out) => out = [Byte.x61; Byte.x62; Byte.x63]
  | Err _ => False
  end.
Proof. vm_compute. reflexivity. Qed.
