(* ===== verification/Pipes.v ===== *)
(** * Between descriptors and byte streams

    The callbacks of the threaded socket and of the stream copier move bytes in
    the same two ways: out of a stream into a descriptor, as much as one write
    takes, and out of a descriptor into a stream, as much as it has room for. *)

From S2P Require Import Prelude Buffers Stream Descriptors.

Section pipes.
Context `{Kernel E}.

(** Peek, write once, and pop what was written. *)
Definition drain (e : E) (f : FileDescriptor.t) (st : ByteStream.t) (max_length : Z)
    : result (E * FileDescriptor.t * ByteStream.t) :=
  let amount_to_write := Z.min max_length (ByteStream.buffer_size st) in
  let buffer := ByteStream.peek_output st amount_to_write in
  '(e, f, bytes_written) ← FileDescriptor.write e f (BufferViewList.of_string buffer) false;
  st ← ByteStream.pop_output st bytes_written;
  Ok (e, f, st).

End pipes.

Lemma ztake_add {A} a b (l : list A) : 0 <= a → 0 <= b → ztake a l ++ ztake b (zdrop a l) = ztake (a + b) l.
Proof.
  intros Ha Hb. rewrite !ztake_alt, zdrop_alt, Z2Nat.inj_add by done. symmetry.
  apply (inj (.++ drop (Z.to_nat a + Z.to_nat b) l)). rewrite take_drop, <- app_assoc, <- drop_drop.
  by rewrite !take_drop.
Qed.

Lemma ztake_ztake_min {A} a b (l : list A) : 0 <= a → 0 <= b → ztake a (ztake b l) = ztake (Z.min a b) l.
Proof. intros. rewrite !ztake_alt, take_take. f_equal. lia. Qed.

(** The stream lost [n] bytes at its front, and nothing else happened to it. *)
Record popped (st st' : ByteStream.t) (w : bytes) (n : Z) : Prop := mk_popped {
  po_rep : ByteStream.rep st' w;
  po_count : 0 <= n;
  po_read : ByteStream.read_count st' = ByteStream.read_count st + n;
  po_capacity : ByteStream.capacity st' = ByteStream.capacity st;
  po_error : ByteStream.error_ st' = ByteStream.error_ st;
  po_ended : ByteStream.input_ended_flag st' = ByteStream.input_ended_flag st;
}.

Section specs.
Context `{KernelLaws E}.

Definition next_bytes (st : ByteStream.t) (w : bytes) (n : Z) : bytes := ztake n (zdrop (ByteStream.read_count st) w).

(** The descriptor takes the next bytes of the stream, and the stream loses
    exactly these. *)
Lemma drain_spec (e : E) f st w max_length :
  world_ok e → ByteStream.rep st w → 0 <= max_length → faulted (E := E) (drain e f st max_length) ∨
  ∃ e' st' n, drain e f st max_length = Ok (e', FileDescriptor.register_write f, st') ∧
    ByteStream.pop_output st n = Ok st' ∧ popped st st' w n ∧
    took e e' (FileDescriptor.fd_num f) (next_bytes st w n).
Proof.
  intros Hw Hst Hm. unfold drain, ByteStream.buffer_size. rewrite (ByteStream.rep_size st w Hst).
  pose proof (ByteStream.rep_read st w Hst) as Hr. pose proof (ByteStream.rep_len_u64 st w Hst) as Hu.
  set (k := Z.min max_length _). assert (Hk : 0 <= k <= blen w - ByteStream.read_count st) by lia.
  rewrite (ByteStream.peek_output_spec st w) by done. set (b := ztake k _).
  assert (Hb : blen b = k) by (unfold b; rewrite blen_ztake, blen_zdrop by lia; lia).
  destruct (write_some_spec e f (BufferViewList.of_string b) Hw) as [Hf|(e' & n & -> & Hn & _ & Ht)].
  { simpl. rewrite app_nil_r, Hb. unfold_w. lia. }
  { by_fault Hf. }
  simpl in Hn, Ht. rewrite app_nil_r in Hn, Ht. cbn [mbind result_bind].
  destruct (ByteStream.pop_output_spec st w n Hst) as (st' & Ep & Hst' & Hrc & Hcap & Her & Hend); [lia|].
  rewrite Ep. right. exists e', st', n. split; [done|]. split; [done|]. split; [split; try done; lia|].
  unfold b in Ht. rewrite ztake_ztake_min in Ht by lia. by rewrite Z.min_l in Ht by lia.
Qed.

(** What was read is written without loss when the read was limited to the room
    left. *)
Lemma write_fits st w data :
  ByteStream.rep st w → blen data <= ByteStream.remaining_capacity st → blen w + blen data < 0x8000000000000000 →
  ∃ st', ByteStream.write st data = (st', blen data) ∧ ByteStream.rep st' (w ++ data) ∧
    ByteStream.capacity st' = ByteStream.capacity st ∧ ByteStream.read_count st' = ByteStream.read_count st ∧
    ByteStream.error_ st' = ByteStream.error_ st ∧
    ByteStream.input_ended_flag st' = ByteStream.input_ended_flag st.
Proof.
  intros Hst Hd Hb. rewrite (ByteStream.rep_remaining st w Hst) in Hd.
  pose proof (blen_nonneg w). pose proof (blen_nonneg data).
  destruct (ByteStream.write_spec st w data Hst) as (st' & -> & Hst' & _ & Hrest); [unfold_w; lia|].
  rewrite Z.min_l in * by lia. rewrite ztake_all in Hst' by lia. by exists st'.
Qed.

End specs.
