(* ===== verification/StreamCopy.v ===== *)
(** * Copying between a socket and the terminal: apps/bidirectional_stream_copy.cc

    Four rules of an event loop move bytes from standard input to the socket and
    from the socket to standard output, each way through a byte stream. *)

From S2P Require Import Prelude Buffers Stream Descriptors Events Pipes.

Module StreamCopy.

Definition max_copy_length : Z := 65536.

Definition buffer_size : Z := 1048576.

Definition STDIN_FILENO : Z := 0.

Definition STDOUT_FILENO : Z := 1.

(** The local variables, the socket and the world outside. *)
Record t (E : Type) := mk {
  world : E;
  input : FileDescriptor.t;          (* _input *)
  output : FileDescriptor.t;         (* _output *)
  socket : FileDescriptor.t;
  outbound : ByteStream.t;           (* _outbound *)
  inbound : ByteStream.t;            (* _inbound *)
  outbound_shutdown : bool;          (* _outbound_shutdown *)
  inbound_shutdown : bool;           (* _inbound_shutdown *)
}.
Arguments mk {E}.
Arguments world {E}.
Arguments input {E}.
Arguments output {E}.
Arguments socket {E}.
Arguments outbound {E}.
Arguments inbound {E}.
Arguments outbound_shutdown {E}.
Arguments inbound_shutdown {E}.

Section copy.
Context `{Kernel E}.

Definition with_outbound (s : t E) (st : ByteStream.t) : t E :=
  mk (world s) (input s) (output s) (socket s) st (inbound s) (outbound_shutdown s) (inbound_shutdown s).

Definition with_inbound (s : t E) (st : ByteStream.t) : t E :=
  mk (world s) (input s) (output s) (socket s) (outbound s) st (outbound_shutdown s) (inbound_shutdown s).

Definition descr (s : t E) (fd : Z) : FileDescriptor.t :=
  if fd =? FileDescriptor.fd_num (input s) then input s
  else if fd =? FileDescriptor.fd_num (output s) then output s else socket s.

(** Read as much as fits, and note the end of the input. *)
Definition rule1_callback (s : t E) : result (t E) :=
  '(e, f, data) ← FileDescriptor.read (world s) (input s) (ByteStream.remaining_capacity (outbound s));
  let st := (ByteStream.write (outbound s) data).1 in
  let st := if FileDescriptor.eof f then ByteStream.end_input st else st in
  Ok (mk e f (output s) (socket s) st (inbound s) (outbound_shutdown s) (inbound_shutdown s)).

Definition rule1_interest (s : t E) : bool :=
  negb (ByteStream.error (outbound s)) && (0 <? ByteStream.remaining_capacity (outbound s)) &&
  negb (ByteStream.error (inbound s)).

Definition rule1_cancel (s : t E) : result (t E) := Ok (with_outbound s (ByteStream.end_input (outbound s))).

Definition rule2_callback (s : t E) : result (t E) :=
  '(e, f, st) ← drain (world s) (socket s) (outbound s) max_copy_length;
  if ByteStream.eof st then
    '(e, f) ← Socket.shutdown e f Socket.SHUT_WR;
    Ok (mk e (input s) (output s) f st (inbound s) true (inbound_shutdown s))
  else Ok (mk e (input s) (output s) f st (inbound s) (outbound_shutdown s) (inbound_shutdown s)).

Definition rule2_interest (s : t E) : bool :=
  negb (ByteStream.buffer_empty (outbound s)) || (ByteStream.eof (outbound s) && negb (outbound_shutdown s)).

Definition rule2_cancel (s : t E) : result (t E) := Ok (with_outbound s (ByteStream.end_input (outbound s))).

Definition rule3_callback (s : t E) : result (t E) :=
  '(e, f, data) ← FileDescriptor.read (world s) (socket s) (ByteStream.remaining_capacity (inbound s));
  let st := (ByteStream.write (inbound s) data).1 in
  let st := if FileDescriptor.eof f then ByteStream.end_input st else st in
  Ok (mk e (input s) (output s) f (outbound s) st (outbound_shutdown s) (inbound_shutdown s)).

Definition rule3_interest (s : t E) : bool :=
  negb (ByteStream.error (inbound s)) && (0 <? ByteStream.remaining_capacity (inbound s)) &&
  negb (ByteStream.error (outbound s)).

Definition rule3_cancel (s : t E) : result (t E) := Ok (with_inbound s (ByteStream.end_input (inbound s))).

Definition rule4_callback (s : t E) : result (t E) :=
  '(e, f, st) ← drain (world s) (output s) (inbound s) max_copy_length;
  if ByteStream.eof st then
    '(e, f) ← FileDescriptor.close e f;
    Ok (mk e (input s) f (socket s) (outbound s) st (outbound_shutdown s) true)
  else Ok (mk e (input s) f (socket s) (outbound s) st (outbound_shutdown s) (inbound_shutdown s)).

Definition rule4_interest (s : t E) : bool :=
  negb (ByteStream.buffer_empty (inbound s)) || (ByteStream.eof (inbound s) && negb (inbound_shutdown s)).

Definition rule4_cancel (s : t E) : result (t E) := Ok (with_inbound s (ByteStream.end_input (inbound s))).

Definition rule1 : EventLoop.Rule (t E) :=
  EventLoop.mk_rule STDIN_FILENO EventLoop.In rule1_callback rule1_interest rule1_cancel.

Definition rule2 (socket_fd : Z) : EventLoop.Rule (t E) :=
  EventLoop.mk_rule socket_fd EventLoop.Out rule2_callback rule2_interest rule2_cancel.

Definition rule3 (socket_fd : Z) : EventLoop.Rule (t E) :=
  EventLoop.mk_rule socket_fd EventLoop.In rule3_callback rule3_interest rule3_cancel.

Definition rule4 : EventLoop.Rule (t E) :=
  EventLoop.mk_rule STDOUT_FILENO EventLoop.Out rule4_callback rule4_interest rule4_cancel.

Definition rules (socket_fd : Z) : list (EventLoop.Rule (t E)) := [rule1; rule2 socket_fd; rule3 socket_fd; rule4].

Definition poll (s : t E) (l : list pollfd) (timeout : Z) : sys (Z * list Z) * t E :=
  let '(answer, e) := sys_poll (world s) l timeout in
  (answer, mk e (input s) (output s) (socket s) (outbound s) (inbound s) (outbound_shutdown s) (inbound_shutdown s)).

(** The loop of lines 86 to 90, for at most [fuel] rounds; the flag says whether
    the function has returned. *)
Fixpoint loop (fuel : nat) (s : t E) (rules : list (EventLoop.Rule (t E)))
    : result (t E * list (EventLoop.Rule (t E)) * bool) :=
  match fuel with
  | O => Ok (s, rules, false)
  | S fuel =>
      '(s, rules, res) ← EventLoop.wait_next_event descr poll s rules (-1);
      match res with
      | EventLoop.Exit => Ok (s, rules, true)
      | _ => loop fuel s rules
      end
  end.

Definition start (e : E) (socket : FileDescriptor.t) : result (t E) :=
  input ← FileDescriptor.new STDIN_FILENO;
  output ← FileDescriptor.new STDOUT_FILENO;
  e ← FileDescriptor.set_blocking e socket false;
  e ← FileDescriptor.set_blocking e input false;
  e ← FileDescriptor.set_blocking e output false;
  Ok (mk e input output socket (ByteStream.new buffer_size) (ByteStream.new buffer_size) false false).

Definition bidirectional_stream_copy (fuel : nat) (e : E) (socket : FileDescriptor.t)
    : result (t E * list (EventLoop.Rule (t E)) * bool) :=
  s ← start e socket; loop fuel s (rules (FileDescriptor.fd_num socket)).

End copy.

End StreamCopy.

(** ** Nothing is lost, altered or invented *)

Section streams.
Context `{KernelLaws E}.
Implicit Types (e : E) (st : ByteStream.t).

(** Since [e0], the stream holds or has held exactly what [from] gave, and [to]
    took what the stream has handed out. *)
Definition carries (e0 e : E) (st : ByteStream.t) (from to : Z) : Prop :=
  ∃ w, ByteStream.rep st w ∧ drawn e from = drawn e0 from ++ w ∧
    sunk e to = sunk e0 to ++ ztake (ByteStream.read_count st) w.

Lemma carries_ext e0 e e' st from to :
  drawn e' from = drawn e from → sunk e' to = sunk e to → carries e0 e st from to → carries e0 e' st from to.
Proof. intros Hd Hs (w & Hw & Hf & Ht). exists w. by rewrite Hd, Hs. Qed.

Lemma carries_end_input e0 e st from to : carries e0 e st from to → carries e0 e (ByteStream.end_input st) from to.
Proof. intros (w & Hw & Hrest). exists w. split; [by apply ByteStream.rep_end_input|done]. Qed.

Lemma carries_new e cap from to : is_u64 cap → carries e e (ByteStream.new cap) from to.
Proof.
  intros Hc. exists []. rewrite ztake_nil, !app_nil_r. split; [by apply ByteStream.rep_new|done].
Qed.

(** Reading what fits and writing it to the stream. *)
Lemma carries_fill e0 e e' st from to data :
  carries e0 e st from to → blen data <= ByteStream.remaining_capacity st → gave e e' from data →
  carries e0 e' (ByteStream.write st data).1 from to.
Proof.
  intros (w & Hw & Hf & Ht) Hd (Hok & Hgd & Hgs). pose proof (Hgd from) as Hdr. rewrite decide_True in Hdr by done.
  pose proof (law_bound e' from Hok) as Hb. rewrite Hdr, Hf, !blen_app in Hb. pose proof (blen_nonneg (drawn e0 from)).
  destruct (write_fits st w data Hw Hd) as (st' & -> & Hw' & _ & Hrc & _); [lia|]. exists (w ++ data). simpl.
  split; [done|]. rewrite Hdr, Hf, Hrc, Hgs, app_assoc. split; [done|].
  rewrite ztake_app_l; [done|]. apply (ByteStream.rep_read _ _ Hw).
Qed.

(** Writing to the descriptor what the stream holds. *)
Lemma carries_drain e0 e f st from max_length :
  carries e0 e st from (FileDescriptor.fd_num f) → world_ok e → 0 <= max_length → faulted (E := E) (drain e f st max_length) ∨
  ∃ e' st' b, drain e f st max_length = Ok (e', FileDescriptor.register_write f, st') ∧
    took e e' (FileDescriptor.fd_num f) b ∧ carries e0 e' st' from (FileDescriptor.fd_num f).
Proof.
  intros (w & Hw & Hf & Ht) Hok Hm.
  destruct (drain_spec e f st w max_length Hok Hw Hm) as [Hfl|(e' & st' & n & -> & _ & [] & Htk)]; [by left|right].
  eexists e', st', _. split; [done|]. split; [exact Htk|]. destruct Htk as (_ & Hs & Hd).
  exists w. split; [done|]. rewrite Hd, Hs, decide_True, Ht, <- app_assoc by done. split; [done|]. f_equal.
  unfold next_bytes. rewrite ztake_add, po_read; [done|apply (ByteStream.rep_read _ _ Hw)|done].
Qed.

(** When the stream is empty, all that was drawn has gone out. *)
Lemma carries_empty e0 e st from to :
  carries e0 e st from to → ByteStream.buffer_empty st = true →
  ∃ w, drawn e from = drawn e0 from ++ w ∧ sunk e to = sunk e0 to ++ w.
Proof.
  intros (w & Hw & Hf & Ht) He. exists w. split; [done|]. unfold ByteStream.buffer_empty in He.
  rewrite (ByteStream.rep_size _ _ Hw) in He. apply Z.eqb_eq in He. by rewrite ztake_all in Ht by lia.
Qed.

Lemma carries_prefix e0 e st from to :
  carries e0 e st from to →
  ∃ w rest, drawn e from = drawn e0 from ++ w ++ rest ∧ sunk e to = sunk e0 to ++ w.
Proof.
  intros (w & Hw & Hf & Ht). eexists _, _. split; [|exact Ht]. by rewrite ztake_zdrop.
Qed.

End streams.

Lemma counted_once n : n ≠ w32 (n + 1).
Proof. zmod_lia. Qed.

Lemma counted_twice n : n ≠ w32 (w32 (n + 1) + 1).
Proof. rewrite w32_add_idemp_l. zmod_lia. Qed.

Section copying.
Context `{KernelLaws E}.
Context (e0 : E) (sock : Z).
Context (Hsock : sock ≠ StreamCopy.STDIN_FILENO ∧ sock ≠ StreamCopy.STDOUT_FILENO).

Record copying (s : StreamCopy.t E) : Prop := mk_copying {
  co_world : world_ok (StreamCopy.world s);
  co_input : FileDescriptor.fd_num (StreamCopy.input s) = StreamCopy.STDIN_FILENO;
  co_output : FileDescriptor.fd_num (StreamCopy.output s) = StreamCopy.STDOUT_FILENO;
  co_socket : FileDescriptor.fd_num (StreamCopy.socket s) = sock;
  co_outbound : carries e0 (StreamCopy.world s) (StreamCopy.outbound s) StreamCopy.STDIN_FILENO sock;
  co_inbound : carries e0 (StreamCopy.world s) (StreamCopy.inbound s) sock StreamCopy.STDOUT_FILENO;
}.

Lemma descr_input s : copying s → StreamCopy.descr s StreamCopy.STDIN_FILENO = StreamCopy.input s.
Proof. intros []. unfold StreamCopy.descr. by rewrite co_input0, Z.eqb_refl. Qed.

Lemma descr_output s : copying s → StreamCopy.descr s StreamCopy.STDOUT_FILENO = StreamCopy.output s.
Proof. intros []. unfold StreamCopy.descr. by rewrite co_input0, co_output0, Z.eqb_refl. Qed.

Lemma descr_socket s : copying s → StreamCopy.descr s sock = StreamCopy.socket s.
Proof.
  intros []. destruct Hsock. unfold StreamCopy.descr. by rewrite co_input0, co_output0, !(proj2 (Z.eqb_neq _ _)) by done.
Qed.

Lemma count_rule1 s :
  copying s → EventLoop.service_count StreamCopy.descr s StreamCopy.rule1 = FileDescriptor.read_count (StreamCopy.input s).
Proof. intros Hs. rewrite <- (descr_input s Hs). done. Qed.

Lemma count_rule2 s :
  copying s → EventLoop.service_count StreamCopy.descr s (StreamCopy.rule2 sock) = FileDescriptor.write_count (StreamCopy.socket s).
Proof. intros Hs. rewrite <- (descr_socket s Hs). done. Qed.

Lemma count_rule3 s :
  copying s → EventLoop.service_count StreamCopy.descr s (StreamCopy.rule3 sock) = FileDescriptor.read_count (StreamCopy.socket s).
Proof. intros Hs. rewrite <- (descr_socket s Hs). done. Qed.

Lemma count_rule4 s :
  copying s → EventLoop.service_count StreamCopy.descr s StreamCopy.rule4 = FileDescriptor.write_count (StreamCopy.output s).
Proof. intros Hs. rewrite <- (descr_output s Hs). done. Qed.

Lemma cancel_outbound s :
  copying s → ∃ s', StreamCopy.rule1_cancel s = Ok s' ∧ copying s'.
Proof. intros []. eexists. split; [done|]. split; try done. by apply carries_end_input. Qed.

Lemma cancel_inbound s :
  copying s → ∃ s', StreamCopy.rule3_cancel s = Ok s' ∧ copying s'.
Proof. intros []. eexists. split; [done|]. split; try done. by apply carries_end_input. Qed.

Lemma copy_rule1_ok : rule_ok StreamCopy.descr copying (StreamCopy.rule1 (E := E)).
Proof.
  split; [|by intros s Hs; right; apply cancel_outbound]. intros s Hs. pose proof Hs as []. simpl. unfold StreamCopy.rule1_callback.
  pose proof (w64_range (ByteStream.capacity (StreamCopy.outbound s) - BufferList.size (ByteStream.buffer (StreamCopy.outbound s)))) as Hw.
  destruct (descriptor_read_spec (StreamCopy.world s) (StreamCopy.input s) (ByteStream.remaining_capacity (StreamCopy.outbound s)))
    as [Hf|(e' & f' & b & -> & Hb & Hg & Hf')]; [done|apply Hw|by_fault Hf|]. right. cbn [mbind result_bind].
  rewrite co_input0 in Hg. pose proof (carries_fill _ _ _ _ _ _ _ co_outbound0 Hb Hg) as Hout.
  assert (Hs' : copying (StreamCopy.mk e' f' (StreamCopy.output s) (StreamCopy.socket s)
    (if FileDescriptor.eof f' then ByteStream.end_input (ByteStream.write (StreamCopy.outbound s) b).1
     else (ByteStream.write (StreamCopy.outbound s) b).1) (StreamCopy.inbound s)
    (StreamCopy.outbound_shutdown s) (StreamCopy.inbound_shutdown s))).
  { destruct Hg as (Hok & Hd & Hsk). split; simpl; try done.
    - by rewrite Hf'.
    - destruct (FileDescriptor.eof f'); [by apply carries_end_input|done].
    - eapply carries_ext; [|apply Hsk|exact co_inbound0]. rewrite Hd. by rewrite decide_False by apply Hsock. }
  eexists. split; [done|]. split; [exact Hs'|]. left. rewrite (count_rule1 s Hs), (count_rule1 _ Hs'), Hf'. apply counted_once.
Qed.

Lemma copy_rule3_ok : rule_ok StreamCopy.descr copying (StreamCopy.rule3 (E := E) sock).
Proof.
  split; [|by intros s Hs; right; apply cancel_inbound]. intros s Hs. pose proof Hs as []. simpl. unfold StreamCopy.rule3_callback.
  pose proof (w64_range (ByteStream.capacity (StreamCopy.inbound s) - BufferList.size (ByteStream.buffer (StreamCopy.inbound s)))) as Hw.
  destruct (descriptor_read_spec (StreamCopy.world s) (StreamCopy.socket s) (ByteStream.remaining_capacity (StreamCopy.inbound s)))
    as [Hf|(e' & f' & b & -> & Hb & Hg & Hf')]; [done|apply Hw|by_fault Hf|]. right. cbn [mbind result_bind].
  rewrite co_socket0 in Hg. pose proof (carries_fill _ _ _ _ _ _ _ co_inbound0 Hb Hg) as Hin.
  assert (Hs' : copying (StreamCopy.mk e' (StreamCopy.input s) (StreamCopy.output s) f' (StreamCopy.outbound s)
    (if FileDescriptor.eof f' then ByteStream.end_input (ByteStream.write (StreamCopy.inbound s) b).1
     else (ByteStream.write (StreamCopy.inbound s) b).1)
    (StreamCopy.outbound_shutdown s) (StreamCopy.inbound_shutdown s))).
  { destruct Hg as (Hok & Hd & Hsk). split; simpl; try done.
    - by rewrite Hf'.
    - eapply carries_ext; [|apply Hsk|exact co_outbound0]. rewrite Hd. rewrite decide_False; [done|]. destruct Hsock; congruence.
    - destruct (FileDescriptor.eof f'); [by apply carries_end_input|done]. }
  eexists. split; [done|]. split; [exact Hs'|]. left. rewrite (count_rule3 s Hs), (count_rule3 _ Hs'), Hf'. apply counted_once.
Qed.

Lemma copy_rule2_ok : rule_ok StreamCopy.descr copying (StreamCopy.rule2 (E := E) sock).
Proof.
  split; [|by intros s Hs; right; apply cancel_outbound]. intros s Hs. pose proof Hs as []. simpl. unfold StreamCopy.rule2_callback.
  rewrite <- co_socket0 in co_outbound0.
  destruct (carries_drain _ _ _ _ _ StreamCopy.max_copy_length co_outbound0 co_world0) as [Hf|(e' & st' & b & -> & (Hok & Hsk & Hd) & Hc)];
    [done|by_fault Hf|]. cbn [mbind result_bind]. rewrite co_socket0 in *.
  assert (Hin : carries e0 e' (StreamCopy.inbound s) sock StreamCopy.STDOUT_FILENO).
  { eapply carries_ext; [apply Hd| |exact co_inbound0]. rewrite Hsk, decide_False; [done|]. destruct Hsock; congruence. }
  destruct (ByteStream.eof st').
  - destruct (shutdown_spec e' (FileDescriptor.register_write (StreamCopy.socket s)) Socket.SHUT_WR Hok eq_refl)
      as [Hf|(e2 & -> & Hok2 & Hd2 & Hs2)]; [by_fault Hf|]. right. cbn [mbind result_bind].
    eexists. split; [done|]. match goal with |- copying ?x ∧ _ => assert (Hs' : copying x) end.
    { split; simpl; try done; by eapply carries_ext; [apply Hd2|apply Hs2|]. }
    split; [exact Hs'|]. left. rewrite (count_rule2 s Hs), (count_rule2 _ Hs'). apply counted_twice.
  - right. eexists. split; [done|]. match goal with |- copying ?x ∧ _ => assert (Hs' : copying x) by done end.
    split; [exact Hs'|]. left. rewrite (count_rule2 s Hs), (count_rule2 _ Hs'). apply counted_once.
Qed.

Lemma copy_rule4_ok : rule_ok StreamCopy.descr copying (StreamCopy.rule4 (E := E)).
Proof.
  split; [|by intros s Hs; right; apply cancel_inbound]. intros s Hs. pose proof Hs as []. simpl. unfold StreamCopy.rule4_callback.
  rewrite <- co_output0 in co_inbound0.
  destruct (carries_drain _ _ _ _ _ StreamCopy.max_copy_length co_inbound0 co_world0) as [Hf|(e' & st' & b & -> & (Hok & Hsk & Hd) & Hc)];
    [done|by_fault Hf|]. cbn [mbind result_bind]. rewrite co_output0 in *.
  assert (Hout : carries e0 e' (StreamCopy.outbound s) StreamCopy.STDIN_FILENO sock).
  { eapply carries_ext; [apply Hd| |exact co_outbound0]. rewrite Hsk, decide_False; [done|]. destruct Hsock; congruence. }
  destruct (ByteStream.eof st').
  - destruct (close_spec e' (FileDescriptor.register_write (StreamCopy.output s)) Hok)
      as [Hf|(e2 & -> & Hok2 & Hd2 & Hs2)]; [by_fault Hf|]. right. cbn [mbind result_bind].
    eexists. split; [done|]. match goal with |- copying ?x ∧ _ => assert (Hs' : copying x) end.
    { split; simpl; try done; by eapply carries_ext; [apply Hd2|apply Hs2|]. }
    split; [exact Hs'|]. left. rewrite (count_rule4 s Hs), (count_rule4 _ Hs'). apply counted_once.
  - right. eexists. split; [done|]. match goal with |- copying ?x ∧ _ => assert (Hs' : copying x) by done end.
    split; [exact Hs'|]. left. rewrite (count_rule4 s Hs), (count_rule4 _ Hs'). apply counted_once.
Qed.

Lemma copy_poll_ok : poll_ok StreamCopy.poll copying.
Proof.
  intros s l timeout []. unfold StreamCopy.poll.
  destruct (law_poll (StreamCopy.world s) l timeout co_world0) as (answer & e' & -> & (Hok & Hd & Hs) & Hans).
  eexists _, _. split; [done|]. split; [|done]. split; simpl; try done; by eapply carries_ext; [apply Hd|apply Hs|].
Qed.

Lemma copy_rules_ok : Forall (rule_ok StreamCopy.descr copying) (StreamCopy.rules sock).
Proof.
  unfold StreamCopy.rules. rewrite !Forall_cons.
  split_and!; [apply copy_rule1_ok|apply copy_rule2_ok|apply copy_rule3_ok|apply copy_rule4_ok|apply Forall_nil_2].
Qed.

(** *** After standard output was closed

    It is closed when the inbound stream is at its end. Nothing is written to the
    stream after that: it ended because the socket was at its end of file or the
    rule that reads from it was dropped. *)

Local Abbreviation reads := (StreamCopy.rule3 (E := E) sock).
Local Abbreviation prints := (StreamCopy.rule4 (E := E)).

Definition drained (s : StreamCopy.t E) : Prop :=
  StreamCopy.inbound_shutdown s = true → ByteStream.buffer_empty (StreamCopy.inbound s) = true.

(** [gone]: nothing more is read from the socket. *)
Record ending (s : StreamCopy.t E) (rules : list (EventLoop.Rule (StreamCopy.t E))) (gone : Prop) : Prop := mk_ending {
  en_copying : copying s;
  en_rules : sublist rules (StreamCopy.rules sock);
  en_drained : drained s;
  en_shutdown : StreamCopy.inbound_shutdown s = true → gone;
  en_ended : ByteStream.input_ended (StreamCopy.inbound s) = true → prints ∈ rules → gone;
}.

(** While the rules are gone through before [poll], and after it. *)
Definition before (s : StreamCopy.t E) (todo kept : list (EventLoop.Rule (StreamCopy.t E))) : Prop :=
  ending s (kept ++ todo) ((reads ∉ kept) ∧ (reads ∈ todo → FileDescriptor.eof (StreamCopy.socket s) = true)).

Definition after (s : StreamCopy.t E) (todo kept : list (EventLoop.Rule (StreamCopy.t E))) : Prop :=
  ending s (kept ++ todo) ((reads ∉ todo) ∧ (reads ∈ kept → FileDescriptor.eof (StreamCopy.socket s) = true)).

Lemma rules_NoDup : NoDup (StreamCopy.rules (E := E) sock).
Proof.
  apply (NoDup_fmap_1 (λ r, (EventLoop.rule_fd r, EventLoop.direction r))). cbn. destruct Hsock as [Ha Hb].
  repeat (constructor; [rewrite ?elem_of_cons, elem_of_nil; intuition congruence|]). constructor.
Qed.

Lemma rule_cases r rules :
  sublist rules (StreamCopy.rules sock) → r ∈ rules →
  r = StreamCopy.rule1 ∨ r = StreamCopy.rule2 sock ∨ r = reads ∨ r = prints.
Proof.
  intros Hsub Hr. pose proof (elem_of_sublist _ _ _ Hr Hsub) as Hin. unfold StreamCopy.rules in Hin.
  rewrite !elem_of_cons, elem_of_nil in Hin. tauto.
Qed.

(** What the callbacks do to the flags. *)
Record kept_flags (s s' : StreamCopy.t E) : Prop := mk_kept_flags {
  kf_inbound : StreamCopy.inbound s' = StreamCopy.inbound s;
  kf_shutdown : StreamCopy.inbound_shutdown s' = StreamCopy.inbound_shutdown s;
  kf_eof : FileDescriptor.eof (StreamCopy.socket s') = FileDescriptor.eof (StreamCopy.socket s);
}.

Lemma rule1_flags s s' : StreamCopy.rule1_callback s = Ok s' → kept_flags s s'.
Proof. unfold StreamCopy.rule1_callback. intros Hc. apply result_bind_Ok in Hc as ([[e f] b] & _ & Hc). by simplify_eq. Qed.

Lemma rule2_flags s s' : copying s → StreamCopy.rule2_callback s = Ok s' → kept_flags s s'.
Proof.
  intros [] Hc. unfold StreamCopy.rule2_callback in Hc. rewrite <- co_socket0 in co_outbound0.
  destruct (carries_drain _ _ _ _ _ StreamCopy.max_copy_length co_outbound0 co_world0) as [Hf|(e' & st' & b & Ed & _)]; [done|no_fault Hf Hc|].
  rewrite Ed in Hc. cbn [mbind result_bind] in Hc. destruct (ByteStream.eof st'); [|by simplify_eq].
  apply result_bind_Ok in Hc as ([e2 f2] & Es & Hc). simplify_eq. split; simpl; [done|done|].
  unfold Socket.shutdown in Es. apply result_bind_Ok in Es as ([e3 z] & _ & Es). by simplify_eq/=.
Qed.

Lemma rule3_flags s s' :
  StreamCopy.rule3_callback s = Ok s' →
  StreamCopy.inbound_shutdown s' = StreamCopy.inbound_shutdown s ∧
  ByteStream.input_ended (StreamCopy.inbound s') = FileDescriptor.eof (StreamCopy.socket s') || ByteStream.input_ended (StreamCopy.inbound s).
Proof.
  unfold StreamCopy.rule3_callback. intros Hc. apply result_bind_Ok in Hc as ([[e f] b] & _ & Hc). simplify_eq. simpl.
  split; [done|]. by destruct (FileDescriptor.eof f).
Qed.

Lemma rule4_flags s s' :
  copying s → StreamCopy.rule4_callback s = Ok s' →
  FileDescriptor.eof (StreamCopy.socket s') = FileDescriptor.eof (StreamCopy.socket s) ∧
  ByteStream.input_ended (StreamCopy.inbound s') = ByteStream.input_ended (StreamCopy.inbound s) ∧
  (ByteStream.buffer_empty (StreamCopy.inbound s) = true → ByteStream.buffer_empty (StreamCopy.inbound s') = true) ∧
  (StreamCopy.inbound_shutdown s' = true →
     StreamCopy.inbound_shutdown s = true ∨ ByteStream.eof (StreamCopy.inbound s') = true).
Proof.
  intros [] Hc. unfold StreamCopy.rule4_callback in Hc. destruct co_inbound0 as (w & Hw & _).
  destruct (drain_spec _ (StreamCopy.output s) _ w StreamCopy.max_copy_length co_world0 Hw) as [Hf|(e' & st' & n & Ed & _ & [] & _)]; [done|no_fault Hf Hc|].
  rewrite Ed in Hc. cbn [mbind result_bind] in Hc.
  assert (Hempty : ByteStream.buffer_empty (StreamCopy.inbound s) = true → ByteStream.buffer_empty st' = true).
  { unfold ByteStream.buffer_empty. rewrite (ByteStream.rep_size _ _ Hw), (ByteStream.rep_size _ _ po_rep), !Z.eqb_eq.
    pose proof (ByteStream.rep_read _ _ po_rep). lia. }
  destruct (ByteStream.eof st') eqn:Eeof; [|simplify_eq; auto].
  apply result_bind_Ok in Hc as ([e2 f2] & _ & Hc). simplify_eq. auto.
Qed.

Lemma ending_flags s s' rules (gone : bool → Prop) :
  kept_flags s s' → copying s' →
  ending s rules (gone (FileDescriptor.eof (StreamCopy.socket s))) → ending s' rules (gone (FileDescriptor.eof (StreamCopy.socket s'))).
Proof. intros [Hi Hsh He] Hc []. split; unfold drained; by rewrite ?Hi, ?Hsh, ?He. Qed.

Lemma callback_copying r rules s s' :
  copying s → sublist rules (StreamCopy.rules sock) → r ∈ rules → EventLoop.callback r s = Ok s' → copying s'.
Proof.
  intros Hs Hsub Hr Hc. pose proof (elem_of_sublist _ _ _ Hr Hsub) as Hin. pose proof copy_rules_ok as Hall. rewrite Forall_forall in Hall.
  destruct (ru_callback _ _ _ (Hall r Hin) s Hs) as [Hf|(s2 & Ec & Hs2 & _)]; [no_fault Hf Hc|congruence].
Qed.

Lemma in_middle {A} (x : A) (l k : list A) : x ∈ l ++ x :: k.
Proof. apply elem_of_app. right. left. Qed.

Lemma middle_NoDup r todo kept : sublist (kept ++ r :: todo) (StreamCopy.rules (E := E) sock) → r ∉ kept ++ todo.
Proof.
  intros Hsub. pose proof (sublist_NoDup _ _ rules_NoDup Hsub) as Hn. rewrite <- Permutation_middle in Hn.
  by apply NoDup_cons in Hn as [? _].
Qed.

(** Dropping a rule. *)
Lemma ending_drop s s' r todo kept (gone : list (EventLoop.Rule (StreamCopy.t E)) → list (EventLoop.Rule (StreamCopy.t E)) → bool → Prop) :
  (∀ b, gone (r :: todo) kept b → gone todo kept b) → (r = reads → ∀ b, gone todo kept b) →
  ending s (kept ++ r :: todo) (gone (r :: todo) kept (FileDescriptor.eof (StreamCopy.socket s))) →
  EventLoop.cancel r s = Ok s' → ending s' (kept ++ todo) (gone todo kept (FileDescriptor.eof (StreamCopy.socket s'))).
Proof.
  intros Hless Hreads [Hc Hr Hdr Hsh Hen] Ec.
  assert (Hsub : sublist (kept ++ todo) (StreamCopy.rules sock)).
  { etransitivity; [|exact Hr]. apply sublist_app; [done|]. by apply sublist_cons. }
  pose proof (middle_NoDup _ _ _ Hr) as Hnd.
  assert (Hp : prints ∈ kept ++ todo → prints ∈ kept ++ r :: todo) by (rewrite !elem_of_app, elem_of_cons; tauto).
  destruct (rule_cases r _ Hr (in_middle _ _ _)) as [->|[->|[->| ->]]].
  - destruct (cancel_outbound s Hc) as (s2 & [= <-] & Hc2). injection Ec as <-. split; simpl; try done; [by intros ?; apply Hless, Hsh|].
    intros He Hin. apply Hless, Hen; auto.
  - destruct (cancel_outbound s Hc) as (s2 & [= <-] & Hc2). injection Ec as <-. split; simpl; try done; [by intros ?; apply Hless, Hsh|].
    intros He Hin. apply Hless, Hen; auto.
  - destruct (cancel_inbound s Hc) as (s2 & [= <-] & Hc2). injection Ec as <-. split; simpl; try done; intros; by apply Hreads.
  - destruct (cancel_inbound s Hc) as (s2 & [= <-] & Hc2). injection Ec as <-. split; simpl; try done. by intros ?; apply Hless, Hsh.
Qed.

Lemma before_cancels : cancels_tracked before.
Proof.
  intros s s' r todo kept Hb Ec. eapply (ending_drop s s' r todo kept
    (λ todo kept b, (reads ∉ kept) ∧ (reads ∈ todo → b = true))); [| |exact Hb|exact Ec].
  - intros b [Hk Ht]. split; [done|]. intros Hin. apply Ht. by right.
  - intros -> b. pose proof (middle_NoDup _ _ _ (en_rules _ _ _ Hb)) as Hnd. rewrite elem_of_app in Hnd. tauto.
Qed.

Lemma after_cancels : cancels_tracked after.
Proof.
  intros s s' r todo kept Hb Ec. eapply (ending_drop s s' r todo kept
    (λ todo kept b, (reads ∉ todo) ∧ (reads ∈ kept → b = true))); [| |exact Hb|exact Ec].
  - intros b [Hk Ht]. split; [|done]. intros Hin. apply Hk. by right.
  - intros -> b. pose proof (middle_NoDup _ _ _ (en_rules _ _ _ Hb)) as Hnd. rewrite elem_of_app in Hnd. tauto.
Qed.

Lemma ending_weaken s rules (g g' : Prop) : (g → g') → ending s rules g → ending s rules g'.
Proof. intros Hg []. split; auto. Qed.

Lemma before_keeps s r todo kept :
  before s (r :: todo) kept →
  (match EventLoop.direction r with EventLoop.In => FileDescriptor.eof (StreamCopy.descr s (EventLoop.rule_fd r)) | EventLoop.Out => false end) = false →
  before s todo (kept ++ [r]).
Proof.
  unfold before. rewrite <- app_assoc. intros Hb Hf. eapply ending_weaken; [|exact Hb]. intros [Hk Ht]. split.
  - rewrite elem_of_app, list_elem_of_singleton. intros [|<-]; [done|]. cbn in Hf.
    change (FileDescriptor.eof (StreamCopy.descr s sock) = false) in Hf. rewrite (descr_socket s (en_copying _ _ _ Hb)) in Hf.
    rewrite Ht in Hf; [done|left].
  - intros Hin. apply Ht. by right.
Qed.

Lemma after_skips : skips_tracked after.
Proof.
  intros s r todo kept Ha. unfold after in *. rewrite <- app_assoc. eapply ending_weaken; [|exact Ha]. intros [Ht Hk]. split.
  - intros Hin. apply Ht. by right.
  - rewrite elem_of_app, list_elem_of_singleton. intros [|<-]; [auto|]. exfalso. apply Ht. left.
Qed.

(** The rule that reads from the socket stands before the one that prints. *)
Lemma reads_before_prints todo kept : sublist (kept ++ prints :: todo) (StreamCopy.rules (E := E) sock) → reads ∉ todo.
Proof.
  intros Hsub Hin. set (R (x y : EventLoop.Rule (StreamCopy.t E)) := EventLoop.rule_fd x = StreamCopy.STDOUT_FILENO → EventLoop.rule_fd y ≠ sock).
  assert (Hord : ForallOrdPairs R (StreamCopy.rules sock)).
  { destruct Hsock. unfold StreamCopy.rules, R. repeat (apply FOP_cons; [repeat (apply Forall_cons; split; [simpl; unfold StreamCopy.STDIN_FILENO, StreamCopy.STDOUT_FILENO in *; lia|]); apply Forall_nil_2|]). apply FOP_nil. }
  apply (ForallOrdPairs_sublist _ (prints :: todo)) in Hord; [|etransitivity; [|exact Hsub]; by apply sublist_inserts_l].
  inversion Hord as [|? ? Hall _]; subst. rewrite Forall_forall in Hall. by apply (Hall reads Hin).
Qed.

Lemma after_calls s s' r todo kept :
  after s (r :: todo) kept → EventLoop.callback r s = Ok s' → after s' todo (kept ++ [r]).
Proof.
  intros Ha Hc. pose proof Ha as [Hcp Hsub Hdr Hsh Hen].
  pose proof (callback_copying r _ s s' Hcp Hsub (in_middle _ _ _) Hc) as Hcp'.
  destruct (rule_cases r _ Hsub (in_middle _ _ _)) as [->|[->|[->| ->]]].
  - apply after_skips. eapply (ending_flags s s' _ (λ b, _ ∧ (_ → b = true))); [by apply rule1_flags|done|exact Ha].
  - apply after_skips. eapply (ending_flags s s' _ (λ b, _ ∧ (_ → b = true))); [by apply rule2_flags|done|exact Ha].
  - destruct (rule3_flags s s' Hc) as [Hsh' Hen']. unfold after, drained. rewrite <- app_assoc. split; unfold drained; try done; rewrite ?Hsh'.
    + intros Hs. exfalso. apply (proj1 (Hsh Hs)). left.
    + intros Hs. exfalso. apply (proj1 (Hsh Hs)). left.
    + rewrite Hen'. intros He Hp. apply orb_prop in He as [He|He]; [|exfalso; apply (proj1 (Hen He Hp)); left].
      split; [|done]. pose proof (middle_NoDup _ _ _ Hsub) as Hnd. rewrite elem_of_app in Hnd. tauto.
  - destruct (rule4_flags s s' Hcp Hc) as (Heof & Hen' & Hem & Hsh').
    assert (Hgone : ByteStream.input_ended (StreamCopy.inbound s) = true →
      (reads ∉ todo) ∧ (reads ∈ kept ++ [prints] → FileDescriptor.eof (StreamCopy.socket s') = true)).
    { intros He. split; [by eapply reads_before_prints|]. rewrite Heof, elem_of_app, list_elem_of_singleton. intros [Hk|Hk].
      - apply (proj2 (Hen He (in_middle _ _ _)) Hk).
      - exfalso. pose proof rules_NoDup as Hn. unfold StreamCopy.rules in Hn. rewrite Hk in Hn. rewrite !NoDup_cons in Hn. set_solver. }
    unfold after, drained. rewrite <- app_assoc. split; unfold drained; try done.
    + intros Hs. destruct (Hsh' Hs) as [Hs0|He]; [by apply Hem, Hdr|]. by apply andb_prop in He as [_ He].
    + intros Hs. destruct (Hsh' Hs) as [Hs0|He].
      * destruct (Hsh Hs0) as [Ht Hk]. split; [by intros Hin; apply Ht; right|]. rewrite Heof, elem_of_app, list_elem_of_singleton.
        intros [Hin|Hk']; [auto|]. exfalso. apply Ht. rewrite Hk'. left.
      * apply andb_prop in He as [He _]. apply Hgone. congruence.
    + rewrite Hen'. intros He _. by apply Hgone.
Qed.

Lemma ending_poll s l timeout answer s' rules (gone : bool → Prop) :
  StreamCopy.poll s l timeout = (answer, s') →
  ending s rules (gone (FileDescriptor.eof (StreamCopy.socket s))) → ending s' rules (gone (FileDescriptor.eof (StreamCopy.socket s'))).
Proof.
  intros Hp He. destruct (copy_poll_ok s l timeout (en_copying _ _ _ He)) as (a & s2 & Ep & Hc & _).
  assert (s2 = s') as -> by congruence. eapply ending_flags; [|done|exact He].
  unfold StreamCopy.poll in Hp. destruct (sys_poll _ _ _) as [a2 e2]. by simplify_eq.
Qed.

(** What holds between two rounds. *)
Definition settled (s : StreamCopy.t E) (rules : list (EventLoop.Rule (StreamCopy.t E))) : Prop := before s rules [].

Lemma after_settled s rules : after s [] rules → settled s rules.
Proof. intros Ha. unfold after in Ha. rewrite app_nil_r in Ha. eapply ending_weaken; [|exact Ha]. intros [_ Hk]. split; [set_solver|done]. Qed.

Lemma round_settled s rules s' rules' res :
  settled s rules → EventLoop.wait_next_event StreamCopy.descr StreamCopy.poll s rules (-1) = Ok (s', rules', res) → settled s' rules'.
Proof.
  intros Hs Hw. unfold EventLoop.wait_next_event in Hw. apply result_bind_Ok in Hw as ([[[s1 rules1] pfds] b] & Eset & Hw).
  pose proof (set_up_tracked StreamCopy.descr before s rules [] s1 rules1 pfds b before_cancels before_keeps Hs Eset) as H1'.
  assert (Hs1 : after s1 rules1 []).
  { unfold before in H1'. rewrite app_nil_r in H1'. eapply ending_weaken; [|exact H1']. intros [Hk _]. split; [done|set_solver]. }
  assert (Hstop : ∀ s2, after s2 rules1 [] → settled s2 rules1).
  { intros s2 H2'. eapply ending_weaken; [|exact H2']. intros [Hk _]. split; [set_solver|done]. }
  destruct (negb b); [simplify_eq; by apply Hstop|].
  destruct (StreamCopy.poll s1 pfds (-1)) as [answer s2] eqn:Ep.
  assert (Hs2 : after s2 rules1 []) by (eapply (ending_poll s1 _ _ _ s2 _ (λ b, _ ∧ (_ → b = true))); [exact Ep|exact Hs1]).
  assert (Hdisp : ∀ q s3 rules3, EventLoop.dispatch StreamCopy.descr s2 rules1 q = Ok (s3, rules3) → settled s3 rules3).
  { intros q s3 rules3 Ed. apply after_settled.
    exact (dispatch_tracked StreamCopy.descr after s2 rules1 [] q s3 rules3 after_cancels after_skips after_calls Hs2 Ed). }
  destruct answer as [[n revs]|err].
  - destruct (n =? 0); [simplify_eq; by apply Hstop|]. apply result_bind_Ok in Hw as ([s3 rules3] & Ed & Hw). simplify_eq. by eapply Hdisp.
  - destruct (err =? EventLoop.EINTR); [simplify_eq; by apply Hstop|].
    apply result_bind_Ok in Hw as ([s3 rules3] & Ed & Hw). simplify_eq. by eapply Hdisp.
Qed.

(** Once the function has returned other than by a signal, a stream whose writing
    rule is still in the loop is empty. *)
Definition finished (s : StreamCopy.t E) (rules : list (EventLoop.Rule (StreamCopy.t E))) : Prop :=
  (∀ (e : E) l, (sys_poll e l (-1)).1 ≠ Failed EventLoop.EINTR) →
  (StreamCopy.rule2 sock ∈ rules → ByteStream.buffer_empty (StreamCopy.outbound s) = true) ∧
  (StreamCopy.rule4 ∈ rules → ByteStream.buffer_empty (StreamCopy.inbound s) = true).

Lemma exit_finished s rules s' rules' :
  sublist rules (StreamCopy.rules sock) →
  EventLoop.wait_next_event StreamCopy.descr StreamCopy.poll s rules (-1) = Ok (s', rules', EventLoop.Exit) →
  finished s' rules'.
Proof.
  intros Hsub Hw Hsig.
  assert (Hp : ∀ (s : StreamCopy.t E) l, (StreamCopy.poll s l (-1)).1 ≠ Failed EventLoop.EINTR).
  { intros s1 l. unfold StreamCopy.poll. pose proof (Hsig (StreamCopy.world s1) l). by destruct (sys_poll _ _ _). }
  assert (Hcancel : Forall (λ r : EventLoop.Rule (StreamCopy.t E), ∀ s s', EventLoop.cancel r s = Ok s' →
    ByteStream.buffer (StreamCopy.outbound s') = ByteStream.buffer (StreamCopy.outbound s) ∧
    ByteStream.buffer (StreamCopy.inbound s') = ByteStream.buffer (StreamCopy.inbound s)) rules).
  { apply Forall_forall. intros r Hr. pose proof (elem_of_sublist _ _ _ Hr Hsub) as Hr'.
    repeat (apply elem_of_cons in Hr' as [->|Hr']; [intros s1 s2 [= <-]; done|]). by apply not_elem_of_nil in Hr'. }
  assert (Hempty : ∀ r (stream : StreamCopy.t E → ByteStream.t),
    (∀ s, EventLoop.interest r s = false → ByteStream.buffer_empty (stream s) = true) →
    (∀ s s', ByteStream.buffer (StreamCopy.outbound s') = ByteStream.buffer (StreamCopy.outbound s) ∧
      ByteStream.buffer (StreamCopy.inbound s') = ByteStream.buffer (StreamCopy.inbound s) →
      ByteStream.buffer (stream s') = ByteStream.buffer (stream s)) →
    r ∈ rules' → ByteStream.buffer_empty (stream s') = true).
  { intros r stream Hi Hstable Hin.
    apply (exit_quiet StreamCopy.descr StreamCopy.poll (λ s, ByteStream.buffer_empty (stream s) = true) r rules s (-1) s' rules');
      [done| |done|done|done].
    eapply Forall_impl; [exact Hcancel|]. intros r' Hr s1 s2 Hq Hc. unfold ByteStream.buffer_empty in *.
    by rewrite (Hstable s1 s2 (Hr s1 s2 Hc)). }
  split; apply Hempty; try (by intros ?? []); intros s1 Hi; simpl in Hi; by apply orb_false_elim in Hi as [Hi%negb_false_iff _].
Qed.

Lemma loop_copying fuel s rules :
  settled s rules → Forall (rule_ok StreamCopy.descr copying) rules → faulted (E := E) (StreamCopy.loop fuel s rules) ∨
  ∃ s' rules' returned, StreamCopy.loop fuel s rules = Ok (s', rules', returned) ∧ settled s' rules' ∧
    (returned = true → finished s' rules').
Proof.
  revert s rules. induction fuel as [|fuel IH]; intros s rules Hs Hr; [right; by exists s, rules, false|]. cbn [StreamCopy.loop].
  destruct (wait_next_event_invariant _ _ _ s rules (-1) copy_poll_ok (en_copying _ _ _ Hs) Hr) as [Hf|(s1 & rules1 & res & E1 & _ & Hr1 & _)];
    [by_fault Hf|].
  pose proof (round_settled s rules s1 rules1 res Hs E1) as Hs1. rewrite E1. cbn [mbind result_bind].
  destruct res; [by apply IH..|]. right. exists s1, rules1, true. split; [done|]. split; [done|]. intros _.
  exact (exit_finished s rules s1 rules1 (en_rules _ _ _ Hs) E1).
Qed.

End copying.

Section copied.
Context `{KernelLaws E}.

(** What came out of [from] and went into [to] since [e0]: the same bytes in the
    same order, except for [rest], which has not been written yet. *)
Definition copied (e0 e : E) (from to : Z) (rest : bytes) : Prop :=
  ∃ w, drawn e from = drawn e0 from ++ w ++ rest ∧ sunk e to = sunk e0 to ++ w.

Lemma copied_later (e0 e e' : E) from to rest : idle e e' → copied e0 e from to rest → copied e0 e' from to rest.
Proof. intros (_ & Hd & Hs) (w & Hf & Ht). exists w. by rewrite Hd, Hs. Qed.

(** Copying between the terminal and a socket, for any number of rounds of
    the event loop and any order of events: nothing is thrown, unless a system call
    fails (no busy-wait error and no bad_optional_access, say); what goes out on
    the socket is, in order, what was read from standard input, and what goes to
    standard output what was read from the socket, up to what the buffers still
    hold; and when the function returns, without an interrupted poll, a direction
    whose writing end did not hang up has been copied completely: the rule that
    writes is still there, or standard output has been closed, which happens only
    once everything has been printed. *)
Lemma stream_copy_faithful fuel (e0 : E) socket :
  let sock := FileDescriptor.fd_num socket in
  world_ok e0 → sock ≠ StreamCopy.STDIN_FILENO → sock ≠ StreamCopy.STDOUT_FILENO →
  faulted (E := E) (StreamCopy.bidirectional_stream_copy fuel e0 socket) ∨
  ∃ s rules returned out_rest in_rest,
    StreamCopy.bidirectional_stream_copy fuel e0 socket = Ok (s, rules, returned) ∧
    world_ok (StreamCopy.world s) ∧ FileDescriptor.fd_num (StreamCopy.socket s) = sock ∧
    copied e0 (StreamCopy.world s) StreamCopy.STDIN_FILENO sock out_rest ∧
    copied e0 (StreamCopy.world s) sock StreamCopy.STDOUT_FILENO in_rest ∧
    (StreamCopy.inbound_shutdown s = true → in_rest = []) ∧
    (returned = true → (∀ (e : E) l, (sys_poll e l (-1)).1 ≠ Failed EventLoop.EINTR) →
     (StreamCopy.rule2 sock ∈ rules → out_rest = []) ∧ (StreamCopy.rule4 ∈ rules → in_rest = [])).
Proof.
  intros sock Hok Hin Hout. unfold StreamCopy.bidirectional_stream_copy, StreamCopy.start. 
  set (i := FileDescriptor.mk StreamCopy.STDIN_FILENO false false 0 0).
  set (o := FileDescriptor.mk StreamCopy.STDOUT_FILENO false false 0 0).
  change (FileDescriptor.new StreamCopy.STDIN_FILENO) with (Ok i).
  change (FileDescriptor.new StreamCopy.STDOUT_FILENO) with (Ok o). cbn [mbind result_bind].
  destruct (set_blocking_spec e0 socket false Hok) as [Hf|(e1 & -> & Hi1)]; [by_fault Hf|]. cbn [mbind result_bind].
  destruct (set_blocking_spec e1 i false (proj1 Hi1)) as [Hf|(e2 & -> & Hi2)]; [by_fault Hf|]. cbn [mbind result_bind].
  destruct (set_blocking_spec e2 o false (proj1 Hi2)) as [Hf|(e3 & -> & Hi3)]; [by_fault Hf|]. cbn [mbind result_bind].
  destruct (idle_trans _ _ _ (idle_trans _ _ _ Hi1 Hi2) Hi3) as (Hok3 & Hd & Hs).
  set (s := StreamCopy.mk e3 i o socket _ _ false false).
  assert (Hcopy : copying e0 sock s).
  { split; try done; (eapply carries_ext; [apply Hd|apply Hs|]); apply carries_new; range_compute. }
  assert (Hset : settled e0 sock s (StreamCopy.rules sock)) by (by split).
  destruct (loop_copying e0 sock (conj Hin Hout) fuel s (StreamCopy.rules sock) Hset
    (copy_rules_ok e0 sock (conj Hin Hout))) as [Hf|(s' & rules' & returned & E1 & [[] _ Hdr _ _] & Hfin)]; [by left|right].
  destruct co_outbound0 as (wo & Hwo & Hdo & Hso). destruct co_inbound0 as (wi & Hwi & Hdi & Hsi).
  exists s', rules', returned, (zdrop (ByteStream.read_count (StreamCopy.outbound s')) wo),
    (zdrop (ByteStream.read_count (StreamCopy.inbound s')) wi).
  split; [done|]. split; [done|]. split; [done|]. split; [|split; [|split]].
  - eexists. split; [|exact Hso]. by rewrite ztake_zdrop.
  - eexists. split; [|exact Hsi]. by rewrite ztake_zdrop.
  - intros Hsh. specialize (Hdr Hsh). unfold ByteStream.buffer_empty in Hdr. apply Z.eqb_eq in Hdr.
    rewrite (ByteStream.rep_size _ _ Hwi) in Hdr. apply zdrop_all. lia.
  - intros Hret Hsig. destruct (Hfin Hret Hsig) as [Hf1 Hf2].
    split; intros Hr; [apply Hf1 in Hr|apply Hf2 in Hr]; unfold ByteStream.buffer_empty in Hr;
      apply Z.eqb_eq in Hr; (rewrite (ByteStream.rep_size _ _ Hwo) in Hr || rewrite (ByteStream.rep_size _ _ Hwi) in Hr);
      apply zdrop_all; lia.
Qed.

End copied.

(** Three bytes typed, two from the network. *)
Definition chat : Z → list bytes :=
  λ fd, if fd =? 0 then [[Byte.x61; Byte.x62]; [Byte.x63]] else if fd =? 5 then [[Byte.x58; Byte.x59]] else [].

(** What the sample run leaves: it has returned, and what the two outputs took. *)
Definition observed (r : result (StreamCopy.t toy * list (EventLoop.Rule (StreamCopy.t toy)) * bool)) : option (bool * bytes * bytes) :=
  match r with
  | Ok (s, _, returned) => Some (returned, sunk (StreamCopy.world s) 5, sunk (StreamCopy.world s) 1)
  | Err _ => None
  end.

Lemma stream_copy_faithful_witness :
  ∃ s rules out_rest, StreamCopy.bidirectional_stream_copy 12 (toy_start chat) (FileDescriptor.mk 5 false false 0 0) = Ok (s, rules, true) ∧
    copied (toy_start chat) (StreamCopy.world s) 0 5 out_rest ∧
    sunk (StreamCopy.world s) 5 = [Byte.x61; Byte.x62; Byte.x63] ∧
    sunk (StreamCopy.world s) 1 = [Byte.x58; Byte.x59].
Proof.
  destruct (stream_copy_faithful 12 (toy_start chat) (FileDescriptor.mk 5 false false 0 0))
    as [(x & _ & [] & _)|(s & rules & returned & out_rest & in_rest & E & _ & _ & Hout & _)].
  - intros fd. simpl. unfold chat. destruct (fd =? 0), (fd =? 5); vm_compute; reflexivity.
  - discriminate.
  - discriminate.
  - assert (Eo : observed (StreamCopy.bidirectional_stream_copy 12 (toy_start chat) (FileDescriptor.mk 5 false false 0 0)) =
      Some (true, [Byte.x61; Byte.x62; Byte.x63], [Byte.x58; Byte.x59])) by (vm_compute; reflexivity).
    rewrite E in Eo. injection Eo as -> E5 E1. exists s, rules, out_rest. split; [exact E|]. split; [exact Hout|].
    split; [exact E5|exact E1].
Defined.
