(* ===== verification/SpongeSocket.v ===== *)
(** * The threaded TCP socket: tcp_helpers/tcp_sponge_socket.*

    [TCPSpongeSocket] joins a connection, an adapter and one end of a local
    socket pair in an event loop with four rules. The owner, in its own thread,
    uses the other end; what it does there, like the network, is part of the
    world, the kernel state [E] of Descriptors.v. The template argument AdaptT is
    the class [Adapt]. *)

From S2P Require Import Prelude Buffers Stream Reassembly Segment Receiver Sender Connection Link Netif Addresses Adapters.
From S2P Require Import Descriptors Events Sockets Pipes.

(** What the socket needs of its adapter. The descriptor of the adapter is passed
    along with the world that it reads from and writes to. *)
Class Adapt (E A : Type) := mk_adapt {
  adapt_read : E → FileDescriptor.t → A → result (E * FileDescriptor.t * A * option TCPSegment.t);
  adapt_write : E → FileDescriptor.t → A → TCPSegment.t → result (E * FileDescriptor.t * A);
  adapt_tick : E → FileDescriptor.t → A → Z → result (E * FileDescriptor.t * A);
  adapt_config : A → FdAdapterConfig.t;
  adapt_set_config : A → FdAdapterConfig.t → A;
  adapt_set_listening : A → bool → A;
}.

(** [config_mut() = c]. *)
Definition set_config (a : FdAdapterBase.t) (c : FdAdapterConfig.t) : FdAdapterBase.t :=
  FdAdapterBase.mk c (FdAdapterBase.listen a).

Section devices.
Context `{Kernel E}.

(** Over a TUN device: one packet per read and write. *)
#[export] Instance adapt_tun : Adapt E TCPOverIPv4OverTunFdAdapter.t := {
  adapt_read e f a :=
    '(e, f, packet) ← FileDescriptor.read e f FileDescriptor.NO_LIMIT;
    '(a, seg) ← TCPOverIPv4OverTunFdAdapter.read a packet;
    Ok (e, f, a, seg);
  adapt_write e f a seg :=
    '(_, packet) ← TCPOverIPv4OverTunFdAdapter.write a seg;
    '(e, f, _) ← FileDescriptor.write e f (BufferViewList.of_string packet) true;
    Ok (e, f, a);
  adapt_tick e f a ms := Ok (e, f, FdAdapterBase.tick a ms);
  adapt_config := FdAdapterBase.config;
  adapt_set_config := set_config;
  adapt_set_listening := FdAdapterBase.set_listening;
}.

(** [_tap.write] for each frame. *)
Fixpoint write_frames (e : E) (f : FileDescriptor.t) (frames : list bytes) : result (E * FileDescriptor.t) :=
  match frames with
  | [] => Ok (e, f)
  | x :: frames => '(e, f, _) ← FileDescriptor.write e f (BufferViewList.of_string x) true; write_frames e f frames
  end.

Definition set_base (a : TCPOverIPv4OverEthernetAdapter.t) (b : FdAdapterBase.t) : TCPOverIPv4OverEthernetAdapter.t :=
  TCPOverIPv4OverEthernetAdapter.mk b (TCPOverIPv4OverEthernetAdapter.interface a) (TCPOverIPv4OverEthernetAdapter.next_hop a).

(** Over a TAP device: one frame per read, and as many as the interface queues. *)
#[export] Instance adapt_tap : Adapt E TCPOverIPv4OverEthernetAdapter.t := {
  adapt_read e f a :=
    '(e, f, packet) ← FileDescriptor.read e f FileDescriptor.NO_LIMIT;
    '(a, frames, seg) ← TCPOverIPv4OverEthernetAdapter.read a packet;
    '(e, f) ← write_frames e f frames;
    Ok (e, f, a, seg);
  adapt_write e f a seg :=
    '(a, frames, _) ← TCPOverIPv4OverEthernetAdapter.write a seg;
    '(e, f) ← write_frames e f frames;
    Ok (e, f, a);
  adapt_tick e f a ms :=
    let '(a, frames) := TCPOverIPv4OverEthernetAdapter.tick a ms in
    '(e, f) ← write_frames e f frames;
    Ok (e, f, a);
  adapt_config a := FdAdapterBase.config (TCPOverIPv4OverEthernetAdapter.base a);
  adapt_set_config a c := set_base a (set_config (TCPOverIPv4OverEthernetAdapter.base a) c);
  adapt_set_listening a l := set_base a (FdAdapterBase.set_listening (TCPOverIPv4OverEthernetAdapter.base a) l);
}.

(** Over a UDP socket: one datagram per read and write. *)
#[export] Instance adapt_udp `{SocketCalls E} : Adapt E TCPOverUDPSocketAdapter.t := {
  adapt_read e f a :=
    '(e, f, datagram) ← UDPSocket.recv e f UDPSocket.DEFAULT_MTU;
    source_address ← address_of (UDPSocket.source_address datagram);
    '(a, seg) ← TCPOverUDPSocketAdapter.read a (source_address, UDPSocket.payload datagram);
    Ok (e, f, a, seg);
  adapt_write e f a seg :=
    '(_, (destination, payload)) ← TCPOverUDPSocketAdapter.write a seg;
    destination ← raw_of destination;
    '(e, f) ← UDPSocket.sendto e f destination (BufferViewList.of_string payload);
    Ok (e, f, a);
  adapt_tick e f a ms := Ok (e, f, FdAdapterBase.tick a ms);
  adapt_config := FdAdapterBase.config;
  adapt_set_config := set_config;
  adapt_set_listening := FdAdapterBase.set_listening;
}.

End devices.

(** Any of them with losses; [rand] is the random generator. *)
Section lossy.
Context {E A In Out : Type} `{FdAdapter A In Out} `{Adapt E A} {Rng : Type} (rand : Rng → Z * Rng).

Definition set_adapter (l : LossyFdAdapter.t A Rng) (a : A) : LossyFdAdapter.t A Rng := LossyFdAdapter.mk (LossyFdAdapter.rng l) a.

#[export] Instance adapt_lossy : Adapt E (LossyFdAdapter.t A Rng) := {
  adapt_read e f l :=
    '(e, f, a, ret) ← adapt_read e f (LossyFdAdapter.adapter l);
    let '(drop, l) := LossyFdAdapter.should_drop rand (set_adapter l a) false in
    Ok (e, f, l, if (drop : bool) then None else ret);
  adapt_write e f l seg :=
    let '(drop, l) := LossyFdAdapter.should_drop rand l true in
    if (drop : bool) then Ok (e, f, l)
    else '(e, f, a) ← adapt_write e f (LossyFdAdapter.adapter l) seg; Ok (e, f, set_adapter l a);
  adapt_tick e f l ms :=
    '(e, f, a) ← adapt_tick e f (LossyFdAdapter.adapter l) ms; Ok (e, f, set_adapter l a);
  adapt_config l := adapt_config (LossyFdAdapter.adapter l);
  adapt_set_config l c := set_adapter l (adapt_set_config (LossyFdAdapter.adapter l) c);
  adapt_set_listening l b := set_adapter l (adapt_set_listening (LossyFdAdapter.adapter l) b);
}.

End lossy.

Module TCPSpongeSocket.

Definition TCP_TICK_MS : Z := 10.

(** The members, and the world outside. [_abort], which the owner's thread sets,
    is read from the world. *)
Record t (E A : Type) := mk {
  world : E;
  owner : FileDescriptor.t;                (* the base class LocalStreamSocket *)
  thread_data : FileDescriptor.t;          (* _thread_data *)
  datagram_fd : FileDescriptor.t;          (* the descriptor inside _datagram_adapter *)
  datagram_adapter : A;                    (* _datagram_adapter *)
  tcp : option TCPConnection.t;            (* _tcp *)
  inbound_shutdown : bool;                 (* _inbound_shutdown *)
  outbound_shutdown : bool;                (* _outbound_shutdown *)
  fully_acked : bool;                      (* _fully_acked *)
}.
Arguments mk {E A}.
Arguments world {E A}.
Arguments owner {E A}.
Arguments thread_data {E A}.
Arguments datagram_fd {E A}.
Arguments datagram_adapter {E A}.
Arguments tcp {E A}.
Arguments inbound_shutdown {E A}.
Arguments outbound_shutdown {E A}.
Arguments fully_acked {E A}.

Section socket.
Context `{StreamReassembler.EndKey} `{Kernel E} `{Adapt E A}.

(** [_abort.load()]. *)
Context (abort : E → bool).

Definition with_tcp (s : t E A) (c : TCPConnection.t) : t E A :=
  mk (world s) (owner s) (thread_data s) (datagram_fd s) (datagram_adapter s) (Some c)
     (inbound_shutdown s) (outbound_shutdown s) (fully_acked s).

Definition with_adapter (s : t E A) (e : E) (f : FileDescriptor.t) (a : A) : t E A :=
  mk e (owner s) (thread_data s) f a (tcp s) (inbound_shutdown s) (outbound_shutdown s) (fully_acked s).

Definition with_thread_data (s : t E A) (e : E) (f : FileDescriptor.t) : t E A :=
  mk e (owner s) f (datagram_fd s) (datagram_adapter s) (tcp s) (inbound_shutdown s) (outbound_shutdown s) (fully_acked s).

Definition with_config (s : t E A) (c : FdAdapterConfig.t) : t E A :=
  with_adapter s (world s) (datagram_fd s) (adapt_set_config (datagram_adapter s) c).

Definition with_listening (s : t E A) : t E A :=
  with_adapter s (world s) (datagram_fd s) (adapt_set_listening (datagram_adapter s) true).

Definition set_inbound_shutdown (s : t E A) : t E A :=
  mk (world s) (owner s) (thread_data s) (datagram_fd s) (datagram_adapter s) (tcp s) true (outbound_shutdown s) (fully_acked s).

Definition set_outbound_shutdown (s : t E A) : t E A :=
  mk (world s) (owner s) (thread_data s) (datagram_fd s) (datagram_adapter s) (tcp s) (inbound_shutdown s) true (fully_acked s).

Definition set_fully_acked (s : t E A) : t E A :=
  mk (world s) (owner s) (thread_data s) (datagram_fd s) (datagram_adapter s) (tcp s) (inbound_shutdown s) (outbound_shutdown s) true.

(** [*_tcp]. *)
Definition deref (s : t E A) : result TCPConnection.t :=
  match tcp s with Some c => Ok c | None => Err (undefined_behaviour "_tcp-> without a connection") end.

Definition descr (s : t E A) (fd : Z) : FileDescriptor.t :=
  if fd =? FileDescriptor.fd_num (thread_data s) then thread_data s else datagram_fd s.

(** *** The rules *)

Definition rule1_callback (s : t E A) : result (t E A) :=
  '(e, f, a, seg) ← adapt_read (world s) (datagram_fd s) (datagram_adapter s);
  let s := with_adapter s e f a in
  s ← match seg with
      | Some seg => c ← deref s; c ← TCPConnection.segment_received c seg; Ok (with_tcp s c)
      | None => Ok s
      end;
  if FileDescriptor.eof (thread_data s) then
    c ← value (tcp s);
    if (TCPConnection.bytes_in_flight c =? 0) && negb (fully_acked s) then Ok (set_fully_acked s) else Ok s
  else Ok s.

Definition rule1_interest (s : t E A) : bool :=
  match tcp s with Some c => TCPConnection.active c | None => false end.

Definition end_outbound (s : t E A) : result (t E A) :=
  c ← deref s;
  c ← TCPConnection.end_input_stream c;
  Ok (set_outbound_shutdown (with_tcp s c)).

Definition rule2_callback (s : t E A) : result (t E A) :=
  c ← deref s;
  '(e, f, data) ← FileDescriptor.read (world s) (thread_data s) (TCPConnection.remaining_outbound_capacity c);
  let s := with_thread_data s e f in
  '(c, amount_written) ← TCPConnection.write c data;
  let s := with_tcp s c in
  if negb (amount_written =? blen data)
  then Err (runtime_error "TCPConnection::write() accepted less than advertised length")
  else if FileDescriptor.eof (thread_data s) then end_outbound s
  else Ok s.

Definition rule2_interest (s : t E A) : bool :=
  match tcp s with
  | Some c => TCPConnection.active c && negb (outbound_shutdown s) && (0 <? TCPConnection.remaining_outbound_capacity c)
  | None => false
  end.

Definition with_inbound (c : TCPConnection.t) (st : ByteStream.t) : TCPConnection.t :=
  TCPConnection.with_receiver c (TCPReceiver.with_stream (TCPConnection.receiver c) st).

Definition rule3_callback (s : t E A) : result (t E A) :=
  c ← deref s;
  '(e, f, inbound) ← drain (world s) (thread_data s) (TCPConnection.inbound_stream c) 65536;
  let c := with_inbound c inbound in
  let s := with_tcp (with_thread_data s e f) c in
  if ByteStream.eof inbound || ByteStream.error inbound then
    '(e, f) ← Socket.shutdown (world s) (thread_data s) Socket.SHUT_WR;
    c ← value (tcp s);
    _ ← TCPConnection.state c;
    Ok (set_inbound_shutdown (with_thread_data s e f))
  else Ok s.

Definition rule3_interest (s : t E A) : bool :=
  match tcp s with
  | Some c =>
      let inbound := TCPConnection.inbound_stream c in
      negb (ByteStream.buffer_empty inbound) ||
      ((ByteStream.eof inbound || ByteStream.error inbound) && negb (inbound_shutdown s))
  | None => false
  end.

(** The loop of rule 4 over the queue. *)
Fixpoint send_all (e : E) (f : FileDescriptor.t) (a : A) (queue : list TCPSegment.t) : result (E * FileDescriptor.t * A) :=
  match queue with
  | [] => Ok (e, f, a)
  | seg :: queue => '(e, f, a) ← adapt_write e f a seg; send_all e f a queue
  end.

Definition rule4_callback (s : t E A) : result (t E A) :=
  c ← deref s;
  '(e, f, a) ← send_all (world s) (datagram_fd s) (datagram_adapter s) (TCPConnection.segments_out c);
  Ok (with_tcp (with_adapter s e f a) (TCPConnection.with_segments_out c [])).

Definition rule4_interest (s : t E A) : bool :=
  match tcp s with
  | Some c => match TCPConnection.segments_out c with [] => false | _ => true end
  | None => false
  end.

Definition rule1 (datagram thread : Z) : EventLoop.Rule (t E A) :=
  EventLoop.mk_rule datagram EventLoop.In rule1_callback rule1_interest Ok.

Definition rule2 (datagram thread : Z) : EventLoop.Rule (t E A) :=
  EventLoop.mk_rule thread EventLoop.In rule2_callback rule2_interest end_outbound.

Definition rule3 (datagram thread : Z) : EventLoop.Rule (t E A) :=
  EventLoop.mk_rule thread EventLoop.Out rule3_callback rule3_interest Ok.

Definition rule4 (datagram thread : Z) : EventLoop.Rule (t E A) :=
  EventLoop.mk_rule datagram EventLoop.Out rule4_callback rule4_interest Ok.

Definition rules (datagram thread : Z) : list (EventLoop.Rule (t E A)) :=
  [rule1 datagram thread; rule2 datagram thread; rule3 datagram thread; rule4 datagram thread].

(** [random] is the number the sender draws for its initial sequence number. *)
Definition initialize_TCP (s : t E A) (config : TCPConfig.t) (random : Z) : t E A * list (EventLoop.Rule (t E A)) :=
  (with_tcp s (TCPConnection.new config random),
   rules (FileDescriptor.fd_num (datagram_fd s)) (FileDescriptor.fd_num (thread_data s))).

(** *** The loop *)

Definition poll (s : t E A) (l : list pollfd) (timeout : Z) : sys (Z * list Z) * t E A :=
  let '(answer, e) := sys_poll (world s) l timeout in
  (answer, with_adapter s e (datagram_fd s) (datagram_adapter s)).

(** Lines 33 to 38: time passes for the connection and for the adapter. *)
Definition tick (s : t E A) (base_time : Z) : result (t E A * Z) :=
  c ← value (tcp s);
  if TCPConnection.active c then
    let '(e, next_time) := timestamp_ms (world s) in
    let ms := w64 (next_time - base_time) in
    c ← TCPConnection.tick c ms;
    '(e, f, a) ← adapt_tick e (datagram_fd s) (datagram_adapter s) ms;
    Ok (with_tcp (with_adapter s e f a) c, next_time)
  else Ok (s, base_time).

(** At most [fuel] rounds of the loop; the flag says whether it has ended. *)
Fixpoint rounds (condition : t E A → result bool) (fuel : nat) (s : t E A) (rules : list (EventLoop.Rule (t E A)))
    (base_time : Z) : result (t E A * list (EventLoop.Rule (t E A)) * bool) :=
  go_on ← condition s;
  if negb go_on then Ok (s, rules, true)
  else
    match fuel with
    | O => Ok (s, rules, false)
    | S fuel =>
        '(s, rules, ret) ← EventLoop.wait_next_event descr poll s rules TCP_TICK_MS;
        if (match ret with EventLoop.Exit => true | _ => false end) || abort (world s) then Ok (s, rules, true)
        else '(s, base_time) ← tick s base_time; rounds condition fuel s rules base_time
    end.

Definition tcp_loop (condition : t E A → result bool) (fuel : nat) (s : t E A) (rules : list (EventLoop.Rule (t E A)))
    : result (t E A * list (EventLoop.Rule (t E A)) * bool) :=
  let '(e, base_time) := timestamp_ms (world s) in
  rounds condition fuel (with_adapter s e (datagram_fd s) (datagram_adapter s)) rules base_time.

(** *** The owner's calls *)

(** The constructors: the owner's end and the thread's end of a socket pair. *)
Definition of_pair `{SocketCalls E} (e : E) (data_socket_pair : FileDescriptor.t * FileDescriptor.t)
    (datagram_fd : FileDescriptor.t) (datagram_interface : A) : result (t E A) :=
  '(e, owner) ← LocalStreamSocket.of_fd e data_socket_pair.1;
  '(e, thread_data) ← LocalStreamSocket.of_fd e data_socket_pair.2;
  e ← FileDescriptor.set_blocking e thread_data false;
  Ok (mk e owner thread_data datagram_fd datagram_interface None false false false).

Definition new `{SocketCalls E} (e : E) (datagram_fd : FileDescriptor.t) (datagram_interface : A) : result (t E A) :=
  '(e, data_socket_pair) ← socket_pair_helper e SOCK_STREAM;
  of_pair e data_socket_pair datagram_fd datagram_interface.

Definition state_is (states : list TCPState.State) (s : t E A) : result bool :=
  c ← deref s;
  st ← TCPConnection.state c;
  Ok (existsb (λ x, TCPState.eqb st (TCPState.of_state x)) states).

(** Lines 208 to 223, before the loop. *)
Definition start_connect (s : t E A) (c_tcp : TCPConfig.t) (c_ad : FdAdapterConfig.t) (random : Z)
    : result (t E A * list (EventLoop.Rule (t E A))) :=
  match tcp s with
  | Some _ => Err (runtime_error "connect() with TCPConnection already initialized")
  | None =>
      let '(s, rules) := initialize_TCP s c_tcp random in
      let s := with_config s c_ad in
      c ← deref s;
      c ← TCPConnection.connect c;
      let s := with_tcp s c in
      st ← TCPConnection.state c;
      let expected_state := TCPState.of_state TCPState.SYN_SENT in
      if TCPState.neqb st expected_state then
        Err (runtime_error ("After TCPConnection::connect(), state was " ++ TCPState.name st ++ " but expected " ++
             TCPState.name expected_state)%string)
      else Ok (s, rules)
  end.

(** The flag says whether [connect] has returned; the thread that it then starts
    is [tcp_main]. *)
Definition connect (fuel : nat) (s : t E A) (c_tcp : TCPConfig.t) (c_ad : FdAdapterConfig.t) (random : Z)
    : result (t E A * list (EventLoop.Rule (t E A)) * bool) :=
  '(s, rules) ← start_connect s c_tcp c_ad random;
  tcp_loop (state_is [TCPState.SYN_SENT]) fuel s rules.

Definition listen_and_accept (fuel : nat) (s : t E A) (c_tcp : TCPConfig.t) (c_ad : FdAdapterConfig.t) (random : Z)
    : result (t E A * list (EventLoop.Rule (t E A)) * bool) :=
  match tcp s with
  | Some _ => Err (runtime_error "listen_and_accept() with TCPConnection already initialized")
  | None =>
      let '(s, rules) := initialize_TCP s c_tcp random in
      tcp_loop (state_is [TCPState.LISTEN; TCPState.SYN_RCVD; TCPState.SYN_SENT]) fuel (with_listening (with_config s c_ad)) rules
  end.

(** The thread after its loop: it shuts the owner's end down and destroys the
    connection, together with whatever the destructor queues. *)
Definition finish (s : t E A) : result (t E A) :=
  '(e, f) ← Socket.shutdown (world s) (owner s) Socket.SHUT_RDWR;
  c ← value (tcp s);
  _ ← (if negb (TCPConnection.active c) then st ← TCPConnection.state c; Ok tt else Ok tt);
  Ok (mk e f (thread_data s) (datagram_fd s) (datagram_adapter s) None
        (inbound_shutdown s) (outbound_shutdown s) (fully_acked s)).

Definition tcp_main (fuel : nat) (s : t E A) (rules : list (EventLoop.Rule (t E A))) : result (t E A * bool) :=
  match tcp s with
  | None => Err (runtime_error "no TCP")
  | Some _ =>
      '(s, rules, ended) ← tcp_loop (λ _, Ok true) fuel s rules;
      if negb ended then Ok (s, false) else s ← finish s; Ok (s, true)
  end.

(** [_tcp_thread.join()]: the thread runs to its end. A thread that can be joined
    is between two rounds of its loop, with the rules that are left and the time
    of its last tick; [None] is one that cannot. *)
Definition join (fuel : nat) (s : t E A) (thread : option (list (EventLoop.Rule (t E A)) * Z)) : result (t E A * bool) :=
  match thread with
  | None => Ok (s, true)
  | Some (rules, base_time) =>
      '(s, rules, ended) ← rounds (λ _, Ok true) fuel s rules base_time;
      if negb ended then Ok (s, false) else s ← finish s; Ok (s, true)
  end.

Definition with_owner (s : t E A) (e : E) (f : FileDescriptor.t) : t E A :=
  mk e f (thread_data s) (datagram_fd s) (datagram_adapter s) (tcp s) (inbound_shutdown s) (outbound_shutdown s) (fully_acked s).

Definition wait_until_closed (fuel : nat) (s : t E A) (thread : option (list (EventLoop.Rule (t E A)) * Z)) : result (t E A * bool) :=
  '(e, f) ← Socket.shutdown (world s) (owner s) Socket.SHUT_RDWR;
  join fuel (with_owner s e f) thread.

(** The destructor; [raise_abort] is [_abort.store(true)]. *)
Definition destroy (raise_abort : E → E) (fuel : nat) (s : t E A) (thread : option (list (EventLoop.Rule (t E A)) * Z))
    : result (t E A * bool) :=
  match thread with
  | None => Ok (s, true)
  | Some _ => join fuel (with_owner s (raise_abort (world s)) (owner s)) thread
  end.

End socket.

End TCPSpongeSocket.

(** ** The two ready-made sockets *)

(** A random address with "10" in the last two binary digits of its first byte;
    [random i] is the [i]-th number drawn. *)
Definition random_private_ethernet_address (random : nat → Z) : EthernetAddress :=
  match (λ i, z2b (random i)) <$> seq 0 6 with
  | first :: rest => z2b (Z.land (Z.lor (b2z first) 0x02) 0xfe) :: rest
  | [] => []
  end.

Module CS144TCPSocket.

(** 169.254.144.9. *)
Definition LOCAL_TUN_IP_ADDRESS : Z := 0xa9fe9009.

Definition tcp_config : TCPConfig.t :=
  TCPConfig.mk 100 (TCPConfig.recv_capacity TCPConfig.default) (TCPConfig.send_capacity TCPConfig.default)
    (TCPConfig.fixed_isn TCPConfig.default).

(** The source port is [uint16_t(random_device()())]. *)
Definition multiplexer_config (local random : Z) (address : Address.t) : FdAdapterConfig.t :=
  FdAdapterConfig.mk (Address.mk local (w16 random)) address
    (FdAdapterConfig.loss_rate_dn FdAdapterConfig.default) (FdAdapterConfig.loss_rate_up FdAdapterConfig.default).

(** The device is called "tun144". *)
Definition new `{SocketCalls E, Kernel E} (e : E) : result (TCPSpongeSocket.t E TCPOverIPv4OverTunFdAdapter.t) :=
  '(e, f) ← TunTapFD.new e (String.list_byte_of_string "tun144") true;
  TCPSpongeSocket.new e f (FdAdapterBase.default : TCPOverIPv4OverTunFdAdapter.t).

Definition connect `{StreamReassembler.EndKey} `{Kernel E} (abort : E → bool) (fuel : nat)
    (s : TCPSpongeSocket.t E TCPOverIPv4OverTunFdAdapter.t) (address : Address.t) (port_random isn_random : Z) :=
  TCPSpongeSocket.connect abort fuel s tcp_config (multiplexer_config LOCAL_TUN_IP_ADDRESS port_random address) isn_random.

End CS144TCPSocket.

Module FullStackSocket.

(** 169.254.10.9 and 169.254.10.1. *)
Definition LOCAL_TAP_IP_ADDRESS : Z := 0xa9fe0a09.

Definition LOCAL_TAP_NEXT_HOP_ADDRESS : Z := 0xa9fe0a01.

(** The adapter of the constructor, and the frame that it writes first. *)
Definition adapter (random : nat → Z) : TCPOverIPv4OverEthernetAdapter.t * list bytes :=
  TCPOverIPv4OverEthernetAdapter.new (random_private_ethernet_address random)
    (Address.mk LOCAL_TAP_IP_ADDRESS 0) (Address.mk LOCAL_TAP_NEXT_HOP_ADDRESS 0).

(** The device is called "tap10"; the constructor of the adapter writes a frame to
    it. *)
Definition new `{SocketCalls E, Kernel E} (e : E) (random : nat → Z) : result (TCPSpongeSocket.t E TCPOverIPv4OverEthernetAdapter.t) :=
  '(e, f) ← TunTapFD.new e (String.list_byte_of_string "tap10") false;
  let '(a, frames) := adapter random in
  '(e, f) ← write_frames e f frames;
  TCPSpongeSocket.new e f a.

Definition connect `{StreamReassembler.EndKey} `{Kernel E} (abort : E → bool) (fuel : nat)
    (s : TCPSpongeSocket.t E TCPOverIPv4OverEthernetAdapter.t) (address : Address.t) (port_random isn_random : Z) :=
  TCPSpongeSocket.connect abort fuel s CS144TCPSocket.tcp_config
    (CS144TCPSocket.multiplexer_config LOCAL_TAP_IP_ADDRESS port_random address) isn_random.

End FullStackSocket.
