(* ===== verification/SpongeSocketSpec.v ===== *)
(** * The threaded socket keeps its promises

    What the event loop of [TCPSpongeSocket] does, for any kernel that keeps the
    promises of [KernelLaws] (in which any call may fail), any adapter that keeps
    those of [AdaptLaws] (the UDP, TUN and TAP adapters do, and each of them with
    losses) and a network that may lose, duplicate and reorder: no callback throws
    unless a system call fails, what the owner writes is what the connection sends,
    and what the owner reads is what the peer wrote. *)

From S2P Require Import Prelude Buffers Wrapping Stream Reassembly ReassemblySpec Segment Receiver Sender SenderSpec.
From S2P Require Import Connection ConnectionSpec EndToEnd Ipv4 Link Netif NetifSpec Addresses Adapters AdaptersSpec.
From S2P Require Import Robustness Outgoing Descriptors Events Sockets Pipes SpongeSocket.

(** ** What an adapter promises *)

(** Of the world, only what passes through the descriptor [f] has changed. *)
Definition used `{KernelView E} (e e' : E) (f f' : FileDescriptor.t) : Prop :=
  world_ok e' ∧ FileDescriptor.fd_num f' = FileDescriptor.fd_num f ∧
  ∀ k, k ≠ FileDescriptor.fd_num f → drawn e' k = drawn e k ∧ sunk e' k = sunk e k.

Class AdaptLaws (E A : Type) `{KernelView E, Adapt E A} := mk_adapt_laws {
  adapt_ok : A → Prop;
  law_adapt_read : ∀ e f a, world_ok e → adapt_ok a → faulted (E := E) (adapt_read e f a) ∨
    ∃ e' f' a' seg, adapt_read e f a = Ok (e', f', a', seg) ∧ used e e' f f' ∧ adapt_ok a' ∧
      FileDescriptor.read_count f' = w32 (FileDescriptor.read_count f + 1);
  law_adapt_write : ∀ e f a seg, world_ok e → adapt_ok a → wf_seg seg → faulted (E := E) (adapt_write e f a seg) ∨
    ∃ e' f' a', adapt_write e f a seg = Ok (e', f', a') ∧ used e e' f f' ∧ adapt_ok a';
  law_adapt_tick : ∀ e f a ms, world_ok e → adapt_ok a → faulted (E := E) (adapt_tick e f a ms) ∨
    ∃ e' f' a', adapt_tick e f a ms = Ok (e', f', a') ∧ used e e' f f' ∧ adapt_ok a';
  law_adapt_config : ∀ a c, adapt_ok a → endpoint_ok (FdAdapterConfig.source c) → endpoint_ok (FdAdapterConfig.destination c) →
    adapt_ok (adapt_set_config a c);
  law_adapt_listening : ∀ a l, adapt_ok a → adapt_ok (adapt_set_listening a l);
}.

Section descriptors.
Context `{KernelLaws E}.
Implicit Types (e : E) (f : FileDescriptor.t).

Lemma used_refl e f : world_ok e → used e e f f.
Proof. done. Qed.

Lemma used_trans e1 e2 e3 f1 f2 f3 : used e1 e2 f1 f2 → used e2 e3 f2 f3 → used e1 e3 f1 f3.
Proof.
  intros (_ & Hf & Hk) (Hw & Hf' & Hk'). split; [done|]. split; [congruence|]. intros k Hne.
  destruct (Hk' k) as [-> ->]; [congruence|]. by apply Hk.
Qed.

Lemma gave_used e e' f f' b :
  gave e e' (FileDescriptor.fd_num f) b → FileDescriptor.fd_num f' = FileDescriptor.fd_num f → used e e' f f'.
Proof.
  intros (Hw & Hd & Hs) Hf. split; [done|]. split; [done|]. intros k Hne. by rewrite Hd, Hs, decide_False.
Qed.

Lemma took_used e e' f f' b :
  took e e' (FileDescriptor.fd_num f) b → FileDescriptor.fd_num f' = FileDescriptor.fd_num f → used e e' f f'.
Proof.
  intros (Hw & Hs & Hd) Hf. split; [done|]. split; [done|]. intros k Hne. by rewrite Hd, Hs, decide_False.
Qed.

(** A packet from a device is at most a megabyte. *)
Lemma device_read e f :
  world_ok e → faulted (E := E) (FileDescriptor.read e f FileDescriptor.NO_LIMIT) ∨
  ∃ e' f' packet, FileDescriptor.read e f FileDescriptor.NO_LIMIT = Ok (e', f', packet) ∧
    is_u64 (blen packet) ∧ used e e' f f' ∧ FileDescriptor.read_count f' = w32 (FileDescriptor.read_count f + 1).
Proof.
  intros Hw. destruct (descriptor_read_spec e f FileDescriptor.NO_LIMIT Hw) as [?|(e' & f' & b & -> & Hb & Hg & ->)]; [done|by left|right].
  exists e'. eexists _, b. split; [done|]. pose proof (blen_nonneg b). unfold FileDescriptor.NO_LIMIT in Hb.
  split; [unfold_w; lia|]. split; [by eapply gave_used|done].
Qed.

Lemma device_write e f packet :
  world_ok e → blen packet <= 0x10100 →
  faulted (E := E) (FileDescriptor.write e f (BufferViewList.of_string packet) true) ∨
  ∃ e' f' n, FileDescriptor.write e f (BufferViewList.of_string packet) true = Ok (e', f', n) ∧ used e e' f f' ∧
    FileDescriptor.read_count f' = FileDescriptor.read_count f.
Proof.
  intros Hw Hp. destruct (write_all_core e f (BufferViewList.of_string packet) Hw) as [?|(e' & f' & -> & Ht & Hf & _ & _ & Hr)].
  { simpl. rewrite app_nil_r. pose proof (blen_nonneg packet). unfold_w. lia. }
  { by left. }
  right. eexists _, _, _. split; [done|]. split; [by eapply took_used|done].
Qed.

#[export] Program Instance tun_laws : AdaptLaws E TCPOverIPv4OverTunFdAdapter.t := {| adapt_ok := base_ok |}.
Next Obligation.
  intros e f a Hw Ha. unfold adapt_read, adapt_tun.
  destruct (device_read e f Hw) as [Hf|(e' & f' & packet & -> & Hp & Hu & Hc)]; [by_fault Hf|right]. cbn [mbind result_bind].
  destruct (tun_read_total a packet Ha Hp) as (a' & seg & -> & Ha' & _). cbn [mbind result_bind]. by eexists _, _, _, _.
Qed.
Next Obligation.
  intros e f a seg Hw Ha Hf. unfold adapt_write, adapt_tun.
  destruct (tun_write_safe a seg Ha (wf_seg_fits _ Hf)) as (packet & seg' & -> & Hp). cbn [mbind result_bind].
  destruct (device_write e f packet Hw ltac:(lia)) as [Hfl|(e' & f' & n & -> & Hu & _)]; [by_fault Hfl|right]. by eexists _, _, _.
Qed.
Next Obligation. intros e f a ms Hw Ha. right. by exists e, f, a. Qed.
Next Obligation. by intros a c _ Hs Hd. Qed.
Next Obligation. by intros a l [? ?]. Qed.

Lemma write_frames_spec e f frames :
  world_ok e → frames_ok frames → faulted (E := E) (write_frames e f frames) ∨
  ∃ e' f', write_frames e f frames = Ok (e', f') ∧ used e e' f f' ∧
    FileDescriptor.read_count f' = FileDescriptor.read_count f.
Proof.
  intros Hw Hf. revert e f Hw. induction Hf as [|x frames Hx Hf IH]; intros e f Hw; simpl; [right; by exists e, f|].
  destruct (device_write e f x Hw Hx) as [Hfl|(e1 & f1 & n & -> & Hu & Hr)]; [by_fault Hfl|]. cbn [mbind result_bind].
  destruct (IH e1 f1 (proj1 Hu)) as [?|(e2 & f2 & -> & Hu2 & Hr2)]; [by left|right]. exists e2, f2. split; [done|].
  split; [by eapply used_trans|congruence].
Qed.

#[export] Program Instance tap_laws : AdaptLaws E TCPOverIPv4OverEthernetAdapter.t := {| adapt_ok := ethernet_ok |}.
Next Obligation.
  intros e f a Hw Ha. unfold adapt_read, adapt_tap.
  destruct (device_read e f Hw) as [Hf|(e1 & f1 & packet & -> & Hp & Hu & Hc)]; [by_fault Hf|]. cbn [mbind result_bind].
  destruct (ethernet_read_total a packet Ha Hp) as (a' & frames & seg & -> & Ha' & Hfr & _). cbn [mbind result_bind].
  destruct (write_frames_spec e1 f1 frames (proj1 Hu) Hfr) as [Hf|(e2 & f2 & -> & Hu2 & Hr2)]; [by_fault Hf|right]. cbn [mbind result_bind].
  eexists _, _, _, _. split; [done|]. split; [by eapply used_trans|]. split; [done|congruence].
Qed.
Next Obligation.
  intros e f a seg Hw Ha Hf. unfold adapt_write, adapt_tap.
  destruct (ethernet_write_safe a seg Ha (wf_seg_fits _ Hf)) as (a' & frames & seg' & -> & Ha' & Hfr). cbn [mbind result_bind].
  destruct (write_frames_spec e f frames Hw Hfr) as [Hfl|(e' & f' & -> & Hu & _)]; [by_fault Hfl|right]. by eexists _, _, _.
Qed.
Next Obligation.
  intros e f a ms Hw Ha. unfold adapt_tick, adapt_tap. destruct (ethernet_tick_safe a ms Ha) as [Ha' Hfr].
  destruct (TCPOverIPv4OverEthernetAdapter.tick a ms) as [a' frames]. simpl in Ha', Hfr.
  destruct (write_frames_spec e f frames Hw Hfr) as [Hfl|(e' & f' & -> & Hu & _)]; [by_fault Hfl|right]. by eexists _, _, _.
Qed.
Next Obligation. by intros a c [_ Hi] Hs Hd. Qed.
Next Obligation. by intros a l [[? ?] Hi]. Qed.

(** A segment of a connection fits into a datagram. *)
#[export] Program Instance udp_laws `{!SocketCalls E, !DatagramLaws E} : AdaptLaws E TCPOverUDPSocketAdapter.t := {| adapt_ok := base_ok |}.
Next Obligation.
  intros ?? e f a Hw Ha. unfold adapt_read, adapt_udp.
  destruct (recv_core e f UDPSocket.DEFAULT_MTU Hw ltac:(done)) as [Hf|(whole & src & raw & e' & Er & Hip & Hp & Hl & Hg & _ & ->)]; [by_fault Hf|right].
  unfold MAX_DATAGRAM in Hl. unfold UDPSocket.DEFAULT_MTU. rewrite (proj2 (Z.ltb_ge _ _)) by lia. cbn [mbind result_bind].
  simpl UDPSocket.source_address. rewrite (address_of_raw src raw Hip Hp Er). cbn [mbind result_bind UDPSocket.payload].
  destruct (udp_read_total a src whole Ha (conj Hip Hp)) as (a' & seg & -> & Ha' & _).
  { pose proof (blen_nonneg whole). unfold_w. lia. }
  cbn [mbind result_bind]. eexists _, _, _, _. split; [done|]. split; [by eapply gave_used|done].
Qed.
Next Obligation.
  intros ?? e f a seg Hw Ha Hf. unfold adapt_write, adapt_udp.
  destruct (udp_write_carried a seg Ha Hf) as (payload & seg' & -> & Hp). cbn [mbind result_bind].
  rewrite raw_of_spec. cbn [mbind result_bind].
  edestruct (sendto_core e f) as [Hfl|(e' & -> & Ht & _)]; [done| |by_fault Hfl|right; cbn [mbind result_bind]; eexists _, _, _; split; [done|by split; [eapply took_used|]]].
  simpl. rewrite app_nil_r. unfold MAX_DATAGRAM. lia.
Qed.
Next Obligation. intros ?? e f a ms Hw Ha. right. by exists e, f, a. Qed.
Next Obligation. by intros ?? a c _ Hs Hd. Qed.
Next Obligation. by intros ?? a l [? ?]. Qed.

End descriptors.

(** Losses break no promise. *)
Section lossy.
Context `{KernelLaws E} {A In Out : Type} `{!FdAdapter A In Out} `{!Adapt E A} `{!AdaptLaws E A} {Rng : Type} (rand : Rng → Z * Rng).

Lemma should_drop_adapter (l : LossyFdAdapter.t A Rng) up :
  LossyFdAdapter.adapter (LossyFdAdapter.should_drop rand l up).2 = LossyFdAdapter.adapter l.
Proof. unfold LossyFdAdapter.should_drop. destruct (negb _); [by destruct (rand _)|done]. Qed.

#[export] Program Instance lossy_laws : AdaptLaws (H0 := adapt_lossy rand) E (LossyFdAdapter.t A Rng) :=
  {| adapt_ok l := adapt_ok (LossyFdAdapter.adapter l) |}.
Next Obligation.
  intros e f l Hw Hl. unfold adapt_read, adapt_lossy.
  destruct (law_adapt_read e f _ Hw Hl) as [Hf|(e' & f' & a & ret & -> & Hu & Ha & Hc)]; [by_fault Hf|right]. cbn [mbind result_bind].
  pose proof (should_drop_adapter (set_adapter l a) false) as Hd. destruct (LossyFdAdapter.should_drop _ _ _) as [drop l'].
  simpl in Hd. eexists _, _, _, _. split; [done|]. rewrite Hd. done.
Qed.
Next Obligation.
  intros e f l seg Hw Hl Hs. unfold adapt_write, adapt_lossy.
  pose proof (should_drop_adapter l true) as Hd. destruct (LossyFdAdapter.should_drop _ _ _) as [drop l']. simpl in Hd.
  cbn beta in Hl. rewrite <- Hd in Hl. destruct drop; [right; by exists e, f, l'|].
  destruct (law_adapt_write e f _ seg Hw Hl Hs) as [Hf|(e' & f' & a & -> & Hu & Ha)]; [by_fault Hf|right]. by eexists _, _, _.
Qed.
Next Obligation.
  intros e f l ms Hw Hl. unfold adapt_tick, adapt_lossy.
  destruct (law_adapt_tick e f _ ms Hw Hl) as [Hf|(e' & f' & a & -> & Hu & Ha)]; [by_fault Hf|right]. by eexists _, _, _.
Qed.
Next Obligation. intros l c Hl Hs Hd. by apply law_adapt_config. Qed.
Next Obligation. intros l b Hl. by apply law_adapt_listening. Qed.

End lossy.

(** ** Three facts about connections *)

(** After each call an active connection has retransmitted at most eight times
    in a row. *)
Definition calm (c : TCPConnection.t) : Prop :=
  TCPConnection.active c = true → TCPSender.resend_try_times (TCPConnection.sender c) <= TCPConfig.MAX_RETX_ATTEMPTS.

Lemma fully_dead_inactive c k c' : TCPConnection.fully_dead c k = Ok c' → TCPConnection.active c' = false.
Proof.
  unfold TCPConnection.fully_dead. intros Hd. apply result_bind_Ok in Hd as (c1 & _ & Hd).
  apply result_bind_Ok in Hd as (c2 & _ & Hd). by injection Hd as <-.
Qed.

Lemma judge_do_calm c c' : TCPConnection.judge_do c = Ok c' → calm c'.
Proof.
  unfold TCPConnection.judge_do. intros Hj Ha.
  assert (Hdead : ∀ c0 k, TCPConnection.fully_dead c0 k = Ok c' → False)
    by (intros c0 k Hd; apply fully_dead_inactive in Hd; congruence).
  destruct (negb (TCPConnection.active c)) eqn:E; [injection Hj as <-; by rewrite Ha in E|].
  destruct (TCPConnection.rst c); [by apply Hdead in Hj|].
  destruct (Z.ltb_spec TCPConfig.MAX_RETX_ATTEMPTS (TCPSender.consecutive_retransmissions (TCPConnection.sender c)));
    [by apply Hdead in Hj|].
  destruct (_ && _); [by apply Hdead in Hj|]. destruct (_ && _); [by apply Hdead in Hj|].
  unfold TCPConnection.pull_push_segments in Hj. apply result_bind_Ok in Hj as (out & _ & Hj). by injection Hj as <-.
Qed.

Lemma connect_calm c c' : TCPConnection.connect c = Ok c' → calm c'.
Proof. unfold TCPConnection.connect. intros Hc. apply result_bind_Ok in Hc as (s & _ & Hc). by eapply judge_do_calm. Qed.

Lemma end_input_calm c c' : TCPConnection.end_input_stream c = Ok c' → calm c'.
Proof. unfold TCPConnection.end_input_stream. intros Hc. apply result_bind_Ok in Hc as (s & _ & Hc). by eapply judge_do_calm. Qed.

Lemma tick_calm c ms c' : TCPConnection.tick c ms = Ok c' → calm c'.
Proof. unfold TCPConnection.tick. intros Hc. apply result_bind_Ok in Hc as (s & _ & Hc). by eapply judge_do_calm. Qed.

(** [write] reports what the stream took. *)
Lemma write_calm c data c' n :
  TCPConnection.write c data = Ok (c', n) →
  calm c' ∧ n = Z.min (blen data) (TCPConnection.remaining_outbound_capacity c).
Proof.
  unfold TCPConnection.write, TCPConnection.remaining_outbound_capacity. intros Hw.
  destruct (ByteStream.write _ _) as [st k] eqn:E. apply result_bind_Ok in Hw as (c1 & _ & Hw).
  apply result_bind_Ok in Hw as (c2 & E2 & Hw). injection Hw as <- <-. split; [by eapply judge_do_calm|].
  unfold ByteStream.write in E. by injection E as _ <-.
Qed.

Lemma segment_received_calm `{StreamReassembler.EndKey} c seg c' : TCPConnection.segment_received c seg = Ok c' → calm c'.
Proof.
  unfold TCPConnection.segment_received. intros Hc. destruct (TCPHeader.rst _); [by eapply judge_do_calm|].
  apply result_bind_Ok in Hc as (r & _ & Hc). destruct (_ && _); [by eapply connect_calm|].
  unfold TCPConnection.segment_handled in Hc. apply result_bind_Ok in Hc as (c1 & _ & Hc).
  apply result_bind_Ok in Hc as (b & _ & Hc). by eapply judge_do_calm.
Qed.

(** The summary of a connection is always defined. *)
Lemma state_total P c w v : cinv P c w v → ∃ st, TCPConnection.state c = Ok st.
Proof.
  intros []. unfold TCPConnection.state, TCPState.of_parts, TCPState.receiver_summary.
  destruct (receiver_ackno P _ w ci_recv) as (a & Ha & _). destruct (ByteStream.error _); [by eexists|].
  rewrite Ha. cbn [mbind result_bind]. destruct a; [destruct (ByteStream.input_ended _)|]; by eexists.
Qed.

(** ** The invariant of the socket *)

(** Between [e] and [e'], only the descriptors [dg] and [th] were used. *)
Definition untouched `{KernelView E} (dg th : Z) (e e' : E) : Prop :=
  ∀ k, k ≠ dg → k ≠ th → drawn e' k = drawn e k ∧ sunk e' k = sunk e k.

Section untouched.
Context `{KernelLaws E} (dg th : Z).
Implicit Types (e : E).

Lemma untouched_refl e : untouched dg th e e.
Proof. done. Qed.

Lemma untouched_trans e1 e2 e3 : untouched dg th e1 e2 → untouched dg th e2 e3 → untouched dg th e1 e3.
Proof. intros Ha Hb k Hd Ht. destruct (Hb k Hd Ht) as [-> ->]. by apply Ha. Qed.

Lemma idle_untouched e e' : idle e e' → untouched dg th e e'.
Proof. intros (_ & Hd & Hs) k _ _. by rewrite Hd, Hs. Qed.

Lemma used_untouched e e' f f' : used e e' f f' → FileDescriptor.fd_num f = dg → untouched dg th e e'.
Proof. intros (_ & _ & Hk) Hf k Hd _. apply Hk. congruence. Qed.

Lemma gave_untouched e e' b : gave e e' th b → untouched dg th e e'.
Proof. intros (_ & Hd & Hs) k _ Hk. by rewrite Hd, Hs, decide_False. Qed.

Lemma took_untouched e e' b : took e e' th b → untouched dg th e e'.
Proof. intros (_ & Hs & Hd) k _ Hk. by rewrite Hd, Hs, decide_False. Qed.

End untouched.

#[local] Hint Resolve untouched_refl : core.

Section live.
Context `{EndKeyFresh} `{KernelLaws E} `{!Adapt E A} `{!AdaptLaws E A}.

(** The peer's stream: its initial sequence number, its bytes, and whether it
    has ended; the numbers of the two descriptors; the world at the beginning, and
    the world since which no other descriptor was used. *)
Context (isn0 : WrappingInt32.t) (d : bytes) (ended : bool) (dg th : Z) (e0 e1 : E).
Context (Hisn : WrappingInt32.ok isn0) (Hd : blen d < 0x7ffffff0) (Hfds : dg ≠ th).

(** The network: it may lose, duplicate and reorder segments of the peer, but
    not make them up. *)
Context (Hpeer : ∀ (e : E) f (a : A) e' f' a' seg, world_ok e → FileDescriptor.fd_num f = dg →
  adapt_read e f a = Ok (e', f', a', Some seg) → ∃ n, n <= blen d + 2 ∧ seg_at isn0 d ended n seg).

(** A connection that has got [w] from the peer and [v] from the owner. *)
Record conn_ok (c : TCPConnection.t) (w v : bytes) : Prop := mk_conn_ok {
  ck_inv : cinv (at_list d) c w v;
  ck_wf : wf_conn c;
  ck_calm : calm c;
  ck_peer : peered isn0 (TCPConnection.receiver c);
  ck_capacity : ByteStream.capacity (TCPConnection.inbound_stream c) < 0x2000000000000000;
  ck_eof : let re := TCPReceiver.reassembler (TCPConnection.receiver c) in
    StreamReassembler.eof_ re = true → ended = true ∧ StreamReassembler.eof_index re = blen d;
}.

Record live (s : TCPSpongeSocket.t E A) : Prop := mk_live {
  lv_world : world_ok (TCPSpongeSocket.world s);
  lv_datagram : FileDescriptor.fd_num (TCPSpongeSocket.datagram_fd s) = dg;
  lv_thread : FileDescriptor.fd_num (TCPSpongeSocket.thread_data s) = th;
  lv_adapter : adapt_ok (TCPSpongeSocket.datagram_adapter s);
  lv_others : untouched dg th e1 (TCPSpongeSocket.world s);
  lv_conn : ∃ c w v, TCPSpongeSocket.tcp s = Some c ∧ conn_ok c w v ∧
    drawn (TCPSpongeSocket.world s) th = drawn e0 th ++ v ∧
    sunk (TCPSpongeSocket.world s) th = sunk e0 th ++ ztake (ByteStream.read_count (TCPConnection.inbound_stream c)) w;
}.

Lemma received_prefix c w v : conn_ok c w v → w `prefix_of` d.
Proof. intros []. apply placed_prefix. apply (ci_recv _ _ _ _ ck_inv0). Qed.

(** A call that leaves the receiver's state as it is. *)
Lemma conn_ok_step c c' w v v' k :
  conn_ok c w v → conn_step (at_list d) c c' w v v' k → wf_conn c' → calm c' → conn_ok c' w v'.
Proof.
  intros [] [] Hwf Hcalm. pose proof cs_recv as []. split; try done.
  - unfold peered. by rewrite sr_syn, sr_isn.
  - unfold TCPConnection.inbound_stream. by rewrite sr_capacity.
  - cbv zeta. by rewrite sr_eof, sr_eof_index.
Qed.

(** A segment of the peer arrives. *)
Lemma conn_ok_segment c w v n seg :
  conn_ok c w v → blen v < 0x4000000000000000 → n <= blen d + 2 → seg_at isn0 d ended n seg →
  ∃ c' w', TCPConnection.segment_received c seg = Ok c' ∧ conn_ok c' (w ++ w') v ∧
    ByteStream.read_count (TCPConnection.inbound_stream c') = ByteStream.read_count (TCPConnection.inbound_stream c).
Proof.
  intros Hc Hv Hn Hg. pose proof (received_prefix c w v Hc) as Hpre. pose proof Hc as [].
  pose proof (receiver_bounds _ _ _ (ci_recv _ _ _ _ ck_inv0)) as [Hlast Hwin]. apply prefix_length in Hpre.
  unfold TCPConnection.inbound_stream in ck_capacity0. pose proof (sg_nonneg _ _ _ _ _ Hg). pose proof (sg_max _ _ _ _ _ Hg) as Hmax.
  unfold TCPConfig.MAX_PAYLOAD_SIZE in Hmax. pose proof (blen_nonneg (Buffer.str (TCPSegment.payload seg))).
  destruct (segment_step (at_list d) isn0 c w v n seg) as (c' & w' & r & E1 & Hr & Hp & Hw & Hcap & Heof & Hst); try done.
  - unfold blen in *. lia.
  - apply (genuine_of_seg_at _ _ _ _ _ _ Hg). unfold blen in *. lia.
  - unfold_w. lia.
  - apply Hg.
  - exists c', w'. split; [done|].
    pose proof Hst as []. pose proof cs_recv as []. split.
    + destruct ck_inv0. split; try done.
      * by eapply segment_received_wf.
      * by eapply segment_received_calm.
      * unfold peered. rewrite sr_syn, sr_isn. done.
      * unfold TCPConnection.inbound_stream. rewrite sr_capacity. simpl. by rewrite Hcap.
      * cbv zeta. rewrite sr_eof, sr_eof_index. simpl. intros He.
        destruct (Heof He) as [[He' ->]|(Hf & _ & ->)]; [by apply ck_eof0|by apply (sg_fin _ _ _ _ _ Hg)].
    + rewrite (same_recv_read _ _ cs_recv). unfold TCPConnection.inbound_stream, window_end in *. simpl.
      unfold TCPReceiver.stream_out, StreamReassembler.stream_out in *. lia.
Qed.

Lemma live_bound s v :
  live s → drawn (TCPSpongeSocket.world s) th = drawn e0 th ++ v → blen v < 0x2000000000000000.
Proof.
  intros [] Hdr. pose proof (law_bound _ th lv_world0) as Hb. rewrite Hdr, blen_app in Hb.
  pose proof (blen_nonneg (drawn e0 th)). lia.
Qed.

Lemma read_in_range c w v :
  conn_ok c w v → 0 <= ByteStream.read_count (TCPConnection.inbound_stream c) <= blen w.
Proof. intros []. apply (ByteStream.rep_read _ _ (inv_rep _ _ _ (inv_core _ _ _ (ri_re _ _ _ (ci_recv _ _ _ _ ck_inv0))))). Qed.

Lemma inbound_rep c w v : conn_ok c w v → ByteStream.rep (TCPConnection.inbound_stream c) w.
Proof. intros []. apply (inv_rep _ _ _ (inv_core _ _ _ (ri_re _ _ _ (ci_recv _ _ _ _ ck_inv0)))). Qed.

(** Work on the network side leaves what the owner sees. *)
Lemma used_thread e e' f f' :
  used e e' f f' → FileDescriptor.fd_num f = dg → drawn e' th = drawn e th ∧ sunk e' th = sunk e th.
Proof. intros (_ & _ & Hk) Hf. apply Hk. congruence. Qed.

Lemma descr_datagram s : live s → TCPSpongeSocket.descr s dg = TCPSpongeSocket.datagram_fd s.
Proof. intros []. unfold TCPSpongeSocket.descr. by rewrite lv_thread0, (proj2 (Z.eqb_neq dg th)). Qed.

Lemma descr_thread s : live s → TCPSpongeSocket.descr s th = TCPSpongeSocket.thread_data s.
Proof. intros []. unfold TCPSpongeSocket.descr. by rewrite lv_thread0, Z.eqb_refl. Qed.

Lemma live_fully_acked s : live s → live (TCPSpongeSocket.set_fully_acked s).
Proof. by intros []. Qed.

Lemma live_segment s e f a seg :
  live (TCPSpongeSocket.with_adapter s e f a) →
  (∀ g, seg = Some g → ∃ n, n <= blen d + 2 ∧ seg_at isn0 d ended n g) →
  ∃ s', match seg with
        | Some seg => c ← TCPSpongeSocket.deref (TCPSpongeSocket.with_adapter s e f a);
            c ← TCPConnection.segment_received c seg; Ok (TCPSpongeSocket.with_tcp (TCPSpongeSocket.with_adapter s e f a) c)
        | None => Ok (TCPSpongeSocket.with_adapter s e f a)
        end = Ok s' ∧ live s' ∧ TCPSpongeSocket.datagram_fd s' = f.
Proof.
  set (s1 := TCPSpongeSocket.with_adapter s e f a). intros Hs Hg. destruct seg as [seg|]; [|by exists s1].
  destruct (Hg seg eq_refl) as (n & Hn & Hseg). pose proof Hs as []. destruct lv_conn0 as (c & w & v & Ec & Hc & Hdr & Hsk).
  unfold TCPSpongeSocket.deref. rewrite Ec. cbn [mbind result_bind]. pose proof (live_bound s1 v Hs Hdr).
  destruct (conn_ok_segment c w v n seg Hc ltac:(lia) Hn Hseg) as (c' & w' & -> & Hc' & Hrc). cbn [mbind result_bind].
  eexists. split; [done|]. split; [|done]. split; simpl; try done. exists c', (w ++ w'), v. split; [done|]. split; [done|].
  split; [done|]. rewrite Hrc. rewrite ztake_app_l by apply (read_in_range c w v Hc). done.
Qed.

Lemma socket_rule1_ok th' : rule_ok TCPSpongeSocket.descr live (TCPSpongeSocket.rule1 dg th').
Proof.
  split; [|intros s Hs; right; by exists s]. intros s Hs. pose proof Hs as []. simpl. unfold TCPSpongeSocket.rule1_callback.
  destruct (law_adapt_read _ (TCPSpongeSocket.datagram_fd s) _ lv_world0 lv_adapter0) as [Hf|(e' & f' & a' & seg & Er & Hu & Ha' & Hcount)]; [by_fault Hf|right].
  rewrite Er. cbn [mbind result_bind].
  assert (Hs1 : live (TCPSpongeSocket.with_adapter s e' f' a')).
  { destruct (used_thread _ _ _ _ Hu lv_datagram0) as [Hdt Hst]. pose proof (used_untouched dg th _ _ _ _ Hu lv_datagram0).
    destruct Hu as (Hw & Hf & _).
    split; simpl; try done; [congruence|by eapply untouched_trans|]. rewrite Hdt, Hst. done. }
  destruct (live_segment s e' f' a' seg Hs1) as (s2 & E2 & Hs2 & Hf2).
  { intros g ->. by eapply Hpeer; [|exact lv_datagram0|exact Er]. }
  rewrite E2. cbn [mbind result_bind].
  assert (Hcnt : ∀ s3, live s3 → TCPSpongeSocket.datagram_fd s3 = f' →
    EventLoop.service_count TCPSpongeSocket.descr s (TCPSpongeSocket.rule1 dg th') ≠
    EventLoop.service_count TCPSpongeSocket.descr s3 (TCPSpongeSocket.rule1 dg th')).
  { intros s3 Hs3 Hf3. unfold EventLoop.service_count. cbn [EventLoop.direction EventLoop.rule_fd TCPSpongeSocket.rule1].
    rewrite (descr_datagram s Hs), (descr_datagram s3 Hs3), Hf3, Hcount. zmod_lia. }
  destruct (FileDescriptor.eof _); [|exists s2; auto].
  pose proof Hs2 as []. destruct lv_conn1 as (c & w & v & Ec & _). rewrite Ec. cbn [value mbind result_bind].
  destruct (_ && _); [|exists s2; auto]. eexists. split; [done|]. split; [by apply live_fully_acked|]. left. apply Hcnt; [by apply live_fully_acked|done].
Qed.

Lemma end_outbound_ok s : live s → ∃ s', TCPSpongeSocket.end_outbound s = Ok s' ∧ live s' ∧
  TCPSpongeSocket.thread_data s' = TCPSpongeSocket.thread_data s.
Proof.
  intros Hs. pose proof Hs as []. destruct lv_conn0 as (c & w & v & Ec & Hc & Hdr & Hsk).
  unfold TCPSpongeSocket.end_outbound, TCPSpongeSocket.deref. rewrite Ec. cbn [mbind result_bind].
  pose proof (live_bound s v Hs Hdr).
  destruct (end_input_step (at_list d) c w v) as (c' & Ee & Hst); [apply Hc|lia|]. rewrite Ee. cbn [mbind result_bind].
  eexists. split; [done|]. split; [|done]. split; simpl; try done. exists c', w, v. split; [done|]. split.
  - eapply conn_ok_step; [exact Hc|exact Hst|eapply end_input_wf; [|exact Ee]; apply Hc|by eapply end_input_calm].
  - by rewrite (same_recv_read _ _ (cs_recv _ _ _ _ _ _ _ Hst)).
Qed.

(** Rule 2 hands the connection everything it reads: the read is limited to the
    room in the outbound stream, and [write] takes it all. *)
Lemma outbound_bytes s :
  live s → ∃ c, TCPSpongeSocket.tcp s = Some c ∧ (faulted (E := E)
      (FileDescriptor.read (TCPSpongeSocket.world s) (TCPSpongeSocket.thread_data s) (TCPConnection.remaining_outbound_capacity c)) ∨
    ∃ s' e' f' b c',
    FileDescriptor.read (TCPSpongeSocket.world s) (TCPSpongeSocket.thread_data s) (TCPConnection.remaining_outbound_capacity c) = Ok (e', f', b) ∧
    TCPConnection.write c b = Ok (c', blen b) ∧
    s' = TCPSpongeSocket.with_tcp (TCPSpongeSocket.with_thread_data s e' f') c' ∧ live s' ∧
    FileDescriptor.read_count f' = w32 (FileDescriptor.read_count (TCPSpongeSocket.thread_data s) + 1)).
Proof.
  intros Hs. pose proof Hs as []. destruct lv_conn0 as (c & w & v & Ec & Hc & Hdr & Hsk).
  pose proof (w64_range (ByteStream.capacity (TCPSender.stream_in (TCPConnection.sender c)) -
    BufferList.size (ByteStream.buffer (TCPSender.stream_in (TCPConnection.sender c))))) as Hcap.
  destruct (descriptor_read_spec (TCPSpongeSocket.world s) (TCPSpongeSocket.thread_data s) (TCPConnection.remaining_outbound_capacity c) lv_world0)
    as [Hfl|(e' & f' & b & Er & Hb & Hg & Hf')]; [apply Hcap|by exists c; split; [|left]|].
  rewrite lv_thread0 in Hg. pose proof (gave_untouched dg th _ _ _ Hg). destruct Hg as (Hw & Hgd & Hgs). pose proof (Hgd th) as Hd'. rewrite decide_True, Hdr in Hd' by done.
  pose proof (law_bound e' th Hw) as Hbound. rewrite Hd', !blen_app in Hbound. pose proof (blen_nonneg (drawn e0 th)).
  destruct (write_step (at_list d) c w v b) as (c' & n & Ew & Hn & Hst); [apply Hc|lia|].
  destruct (write_calm c b c' n Ew) as [Hcalm Hmin]. assert (n = blen b) as -> by lia.
  rewrite ztake_all in Hst by lia. exists c. split; [done|right]. eexists _, e', f', b, c'. split; [done|]. split; [done|]. split; [done|].
  split; [|by rewrite Hf']. split; simpl; try done; [by rewrite Hf'|by eapply untouched_trans|]. exists c', w, (v ++ b). split; [done|]. split.
  - eapply conn_ok_step; [exact Hc|exact Hst|eapply write_wf; [|exact Ew]; apply Hc|done].
  - rewrite (same_recv_read _ _ (cs_recv _ _ _ _ _ _ _ Hst)), Hgs. by rewrite Hd', app_assoc.
Qed.

Lemma socket_rule2_ok dg' : rule_ok TCPSpongeSocket.descr live (TCPSpongeSocket.rule2 dg' th).
Proof.
  split.
  - intros s Hs. simpl. unfold TCPSpongeSocket.rule2_callback.
    destruct (outbound_bytes s Hs) as (c & Ec & Hcase). unfold TCPSpongeSocket.deref. rewrite Ec. cbn [mbind result_bind].
    destruct Hcase as [Hf|(s1 & e' & f' & b & c' & Er & Ew & Es & Hs1 & Hcount)]; [by_fault Hf|right].
    rewrite Er. cbn [mbind result_bind].
    rewrite Ew. cbn [mbind result_bind]. rewrite Z.eqb_refl. cbn [negb]. rewrite <- Es.
    assert (Hcnt : ∀ s2, live s2 → TCPSpongeSocket.thread_data s2 = f' →
      EventLoop.service_count TCPSpongeSocket.descr s (TCPSpongeSocket.rule2 dg' th) ≠
      EventLoop.service_count TCPSpongeSocket.descr s2 (TCPSpongeSocket.rule2 dg' th)).
    { intros s2 Hs2 Hf2. unfold EventLoop.service_count. cbn [EventLoop.direction EventLoop.rule_fd TCPSpongeSocket.rule2].
      rewrite (descr_thread s Hs), (descr_thread s2 Hs2), Hf2, Hcount. zmod_lia. }
    assert (Hf1 : TCPSpongeSocket.thread_data s1 = f') by (by rewrite Es).
    destruct (FileDescriptor.eof _); [|exists s1; auto].
    destruct (end_outbound_ok s1 Hs1) as (s2 & -> & Hs2 & Hf2). exists s2. split; [done|]. split; [done|].
    left. apply Hcnt; [done|congruence].
  - intros s Hs. right. destruct (end_outbound_ok s Hs) as (s' & E' & Hs' & _). by exists s'.
Qed.

(** Taking bytes off the inbound stream. *)
Lemma conn_ok_pop c w v n st :
  conn_ok c w v → 0 <= n → ByteStream.pop_output (TCPConnection.inbound_stream c) n = Ok st →
  conn_ok (TCPSpongeSocket.with_inbound c st) w v.
Proof.
  intros Hc Hn Hp. pose proof (inbound_rep c w v Hc) as Hrep. destruct Hc as [Hinv Hwf Hcalm Hpe Hcap Heof]. destruct Hinv as [Hr Hs Ho].
  destruct (rinv_pop _ _ w n Hr Hn) as (st' & Ep & Hr'). unfold TCPConnection.inbound_stream in Hp.
  assert (st' = st) as -> by congruence.
  destruct (ByteStream.pop_output_spec _ w n Hrep Hn) as (st'' & Ep' & _ & _ & Hcap' & _).
  assert (st'' = st) as -> by (unfold TCPConnection.inbound_stream in Ep'; congruence).
  split; [split; simpl; try done|by destruct Hwf|done|done| |done].
  unfold TCPConnection.inbound_stream in *. simpl. unfold TCPReceiver.stream_out, StreamReassembler.stream_out in *. simpl. lia.
Qed.

(** Rule 3 gives the owner the next bytes of the inbound stream and takes exactly
    these off the stream. *)
Lemma inbound_bytes s :
  live s → ∃ c, TCPSpongeSocket.tcp s = Some c ∧ (faulted (E := E)
      (drain (TCPSpongeSocket.world s) (TCPSpongeSocket.thread_data s) (TCPConnection.inbound_stream c) 65536) ∨
    ∃ e' f' st c',
    drain (TCPSpongeSocket.world s) (TCPSpongeSocket.thread_data s) (TCPConnection.inbound_stream c) 65536 = Ok (e', f', st) ∧
    f' = FileDescriptor.register_write (TCPSpongeSocket.thread_data s) ∧ c' = TCPSpongeSocket.with_inbound c st ∧
    live (TCPSpongeSocket.with_tcp (TCPSpongeSocket.with_thread_data s e' f') c')).
Proof.
  intros Hs. pose proof Hs as []. destruct lv_conn0 as (c & w & v & Ec & Hc & Hdr & Hsk).
  destruct (drain_spec _ (TCPSpongeSocket.thread_data s) _ w 65536 lv_world0 (inbound_rep c w v Hc)) as [Hfl|(e' & st & n & Edr & Ep & [] & Ht)];
    [done|by exists c; split; [|left]|].
  rewrite lv_thread0 in Ht. pose proof (took_untouched dg th _ _ _ Ht). destruct Ht as (Hw & Hts & Htd).
  exists c. split; [done|right]. eexists e', _, st, _. split; [exact Edr|]. split; [done|]. split; [done|].
  split; simpl; try done; [by eapply untouched_trans|]. exists (TCPSpongeSocket.with_inbound c st), w, v. split; [done|]. split; [by eapply conn_ok_pop|].
  rewrite Htd, Hts, decide_True, Hsk, <- app_assoc by done. split; [done|]. f_equal. unfold next_bytes.
  rewrite ztake_add; [|apply (read_in_range c w v Hc)|done].
  unfold TCPConnection.inbound_stream, TCPReceiver.stream_out, StreamReassembler.stream_out in *. simpl. by rewrite po_read.
Qed.

Lemma socket_rule3_ok dg' : rule_ok TCPSpongeSocket.descr live (TCPSpongeSocket.rule3 dg' th).
Proof.
  split; [|intros s Hs; right; by exists s]. intros s Hs. simpl. unfold TCPSpongeSocket.rule3_callback.
  destruct (inbound_bytes s Hs) as (c & Ec & Hcase). unfold TCPSpongeSocket.deref. rewrite Ec. cbn [mbind result_bind].
  destruct Hcase as [Hf|(e' & f' & st & c' & Edr & Hf' & Hc' & Hs1)]; [by_fault Hf|]. rewrite Edr. cbn [mbind result_bind]. rewrite <- Hc'.
  set (s1 := TCPSpongeSocket.with_tcp _ _) in *.
  assert (Hcnt : ∀ s2, live s2 →
    FileDescriptor.write_count (TCPSpongeSocket.thread_data s) ≠ FileDescriptor.write_count (TCPSpongeSocket.thread_data s2) →
    EventLoop.service_count TCPSpongeSocket.descr s (TCPSpongeSocket.rule3 dg' th) ≠
    EventLoop.service_count TCPSpongeSocket.descr s2 (TCPSpongeSocket.rule3 dg' th)).
  { intros s2 Hs2 Hne. unfold EventLoop.service_count. cbn [EventLoop.direction EventLoop.rule_fd TCPSpongeSocket.rule3].
    by rewrite (descr_thread s Hs), (descr_thread s2 Hs2). }
  destruct (_ || _).
  - pose proof Hs1 as []. destruct (shutdown_spec (TCPSpongeSocket.world s1) (TCPSpongeSocket.thread_data s1) Socket.SHUT_WR lv_world0 eq_refl)
      as [Hf|(e2 & -> & Hi2)]; [by_fault Hf|right]. pose proof Hi2 as (Hw2 & Hd2 & Hk2). cbn [mbind result_bind value TCPSpongeSocket.tcp s1].
    destruct lv_conn0 as (c1 & w & v & Ec1 & Hc1 & Hdr & Hsk).
    change (TCPSpongeSocket.tcp s1) with (Some c') in Ec1. injection Ec1 as <-.
    destruct (state_total _ _ _ _ (ck_inv _ _ _ Hc1)) as (stt & Hstt). change (TCPSpongeSocket.tcp s1) with (Some c').
    cbn [value mbind result_bind]. rewrite Hstt. cbn [mbind result_bind]. eexists. split; [done|].
    match goal with |- live ?x ∧ _ => assert (Hs2 : live x) end.
    { split; simpl; try done; [eapply untouched_trans; [done|by apply idle_untouched]|]. exists c', w, v. by rewrite Hd2, Hk2. }
    split; [done|]. left. apply Hcnt; [done|]. simpl. rewrite Hf'. simpl. rewrite w32_add_idemp_l. zmod_lia.
  - right. exists s1. split; [done|]. split; [done|]. left. apply Hcnt; [done|]. simpl. rewrite Hf'. simpl. zmod_lia.
Qed.

Lemma send_all_spec e f (a : A) q :
  world_ok e → adapt_ok a → Forall wf_seg q → faulted (E := E) (TCPSpongeSocket.send_all e f a q) ∨
  ∃ e' f' a', TCPSpongeSocket.send_all e f a q = Ok (e', f', a') ∧ used e e' f f' ∧ adapt_ok a'.
Proof.
  intros Hw Ha Hq. revert e f a Hw Ha. induction Hq as [|g q Hg Hq IH]; intros e f a Hw Ha; simpl; [right; by exists e, f, a|].
  destruct (law_adapt_write e f a g Hw Ha Hg) as [Hf|(e3 & f1 & a1 & -> & Hu & Ha1)]; [by_fault Hf|]. cbn [mbind result_bind].
  destruct (IH e3 f1 a1 (proj1 Hu) Ha1) as [?|(e2 & f2 & a2 & -> & Hu2 & Ha2)]; [by left|right]. exists e2, f2, a2. split; [done|].
  split; [by eapply used_trans|done].
Qed.

Lemma socket_rule4_ok th' : rule_ok TCPSpongeSocket.descr live (TCPSpongeSocket.rule4 dg th').
Proof.
  split; [|intros s Hs; right; by exists s]. intros s Hs. pose proof Hs as []. simpl. unfold TCPSpongeSocket.rule4_callback.
  destruct lv_conn0 as (c & w & v & Ec & Hc & Hdr & Hsk). unfold TCPSpongeSocket.deref. rewrite Ec. cbn [mbind result_bind].
  destruct (send_all_spec (TCPSpongeSocket.world s) (TCPSpongeSocket.datagram_fd s) (TCPSpongeSocket.datagram_adapter s)
    (TCPConnection.segments_out c) lv_world0 lv_adapter0 (wc_out _ (ck_wf _ _ _ Hc))) as [Hf|(e' & f' & a' & -> & Hu & Ha')]; [by_fault Hf|right].
  cbn [mbind result_bind]. eexists. split; [done|]. split; [|by right].
  destruct (used_thread _ _ _ _ Hu lv_datagram0) as [Hdt Hst]. pose proof (used_untouched dg th _ _ _ _ Hu lv_datagram0).
  destruct Hu as (Hw & Hf & _).
  split; simpl; try done; [congruence|by eapply untouched_trans|]. exists (TCPConnection.with_segments_out c []), w, v. split; [done|].
  rewrite Hdt, Hst. split; [|done]. destruct Hc as [[] [] Hcalm Hp Hcap Heof]. by split; [split|split|..].
Qed.

Lemma socket_rules_ok : Forall (rule_ok TCPSpongeSocket.descr live) (TCPSpongeSocket.rules dg th).
Proof.
  unfold TCPSpongeSocket.rules. rewrite !Forall_cons.
  split_and!; [apply socket_rule1_ok|apply socket_rule2_ok|apply socket_rule3_ok|apply socket_rule4_ok|apply Forall_nil_2].
Qed.

Lemma live_idle s e' : live s → idle (TCPSpongeSocket.world s) e' →
  live (TCPSpongeSocket.with_adapter s e' (TCPSpongeSocket.datagram_fd s) (TCPSpongeSocket.datagram_adapter s)).
Proof.
  intros [] Hi. pose proof (idle_untouched dg th _ _ Hi). destruct Hi as (Hw & Hdr & Hsk).
  split; simpl; try done; [by eapply untouched_trans|]. by rewrite Hdr, Hsk.
Qed.

Lemma socket_poll_ok : poll_ok TCPSpongeSocket.poll live.
Proof.
  intros s l timeout Hs. unfold TCPSpongeSocket.poll.
  destruct (law_poll (TCPSpongeSocket.world s) l timeout (lv_world s Hs)) as (answer & e' & -> & Hi & Hans).
  eexists _, _. split; [done|]. split; [by apply live_idle|done].
Qed.

(** Time passes. *)
Lemma tick_live s base_time : live s → faulted (E := E) (TCPSpongeSocket.tick s base_time) ∨
  ∃ s' next, TCPSpongeSocket.tick s base_time = Ok (s', next) ∧ live s'.
Proof.
  intros Hs. pose proof Hs as []. destruct lv_conn0 as (c & w & v & Ec & Hc & Hdr & Hsk).
  unfold TCPSpongeSocket.tick. rewrite Ec. cbn [value mbind result_bind].
  destruct (TCPConnection.active c) eqn:Ea; [|right; by exists s, base_time].
  destruct (timestamp_spec (TCPSpongeSocket.world s) lv_world0) as (e2 & now & -> & _ & Hi1). pose proof Hi1 as (Hw1 & Hd1 & Hs1).
  pose proof (live_bound s v Hs Hdr). pose proof (ck_calm _ _ _ Hc Ea) as Htries. unfold TCPConfig.MAX_RETX_ATTEMPTS in Htries.
  destruct (tick_step (at_list d) c w v (w64 (now - base_time))) as (c' & Et & Hst); [apply Hc|lia|unfold UINT32_MAX; lia|].
  rewrite Et. cbn [mbind result_bind].
  destruct (law_adapt_tick e2 (TCPSpongeSocket.datagram_fd s) _ (w64 (now - base_time)) Hw1 lv_adapter0) as [Hf|(e3 & f2 & a2 & -> & Hu & Ha2)]; [by_fault Hf|right].
  cbn [mbind result_bind]. eexists _, _. split; [done|].
  destruct (used_thread _ _ _ _ Hu lv_datagram0) as [Hdt Hkt]. pose proof (used_untouched dg th _ _ _ _ Hu lv_datagram0).
  pose proof (idle_untouched dg th _ _ Hi1). destruct Hu as (Hw2 & Hf2 & _).
  split; simpl; try done; [congruence|by do 2 (eapply untouched_trans; [done|])|]. exists c', w, v. split; [done|]. rewrite Hdt, Hkt, Hd1, Hs1. split.
  - eapply conn_ok_step; [exact Hc|exact Hst|eapply tick_wf; [|exact Et]; apply Hc|by eapply tick_calm].
  - by rewrite (same_recv_read _ _ (cs_recv _ _ _ _ _ _ _ Hst)).
Qed.

Context (abort : E → bool).

Definition decided (condition : TCPSpongeSocket.t E A → result bool) : Prop := ∀ s, live s → is_Ok (condition s).

Lemma rounds_live condition fuel s rules base_time :
  decided condition → live s → Forall (rule_ok TCPSpongeSocket.descr live) rules →
  faulted (E := E) (TCPSpongeSocket.rounds abort condition fuel s rules base_time) ∨
  ∃ s' rules' over, TCPSpongeSocket.rounds abort condition fuel s rules base_time = Ok (s', rules', over) ∧ live s' ∧
    Forall (rule_ok TCPSpongeSocket.descr live) rules' ∧ sublist rules' rules.
Proof.
  intros Hcond. revert s rules base_time. induction fuel as [|fuel IH]; intros s rules base_time Hs Hr; simpl;
    destruct (Hcond s Hs) as [go_on ->]; cbn [mbind result_bind]; destruct go_on; cbn [negb]; try by (right; eexists _, _, _).
  destruct (wait_next_event_invariant _ _ _ s rules TCPSpongeSocket.TCP_TICK_MS socket_poll_ok Hs Hr)
    as [Hf|(s1 & rules1 & res & -> & Hs1 & Hr1 & Hsub)]; [by_fault Hf|]. cbn [mbind result_bind].
  destruct (_ || _); [right; by eexists _, _, _|].
  destruct (tick_live s1 base_time Hs1) as [Hf|(s2 & next & -> & Hs2)]; [by_fault Hf|]. cbn [mbind result_bind].
  destruct (IH s2 rules1 next Hs2 Hr1) as [?|(s3 & rules3 & over & -> & Hs3 & Hr3 & Hsub3)]; [by left|right]. exists s3, rules3, over.
  split_and!; try done. by etransitivity.
Qed.

Lemma tcp_loop_live condition fuel s rules :
  decided condition → live s → Forall (rule_ok TCPSpongeSocket.descr live) rules →
  faulted (E := E) (TCPSpongeSocket.tcp_loop abort condition fuel s rules) ∨
  ∃ s' rules' over, TCPSpongeSocket.tcp_loop abort condition fuel s rules = Ok (s', rules', over) ∧ live s' ∧
    Forall (rule_ok TCPSpongeSocket.descr live) rules' ∧ sublist rules' rules.
Proof.
  intros Hcond Hs Hr. unfold TCPSpongeSocket.tcp_loop.
  destruct (timestamp_spec (TCPSpongeSocket.world s) (lv_world s Hs)) as (e2 & now & -> & _ & Hi).
  apply rounds_live; [done|by apply live_idle|done].
Qed.

Lemma state_is_decided states : decided (TCPSpongeSocket.state_is states).
Proof.
  intros s []. destruct lv_conn0 as (c & w & v & Ec & Hc & _). unfold TCPSpongeSocket.state_is, TCPSpongeSocket.deref.
  rewrite Ec. cbn [mbind result_bind]. destruct (state_total _ _ _ _ (ck_inv _ _ _ Hc)) as (st & ->). by eexists.
Qed.

(** After its loop the thread ends, unless a call fails, without throwing, and
    without another byte read or written. *)
Lemma finish_live s : live s → faulted (E := E) (TCPSpongeSocket.finish s) ∨
  ∃ s', TCPSpongeSocket.finish s = Ok s' ∧ TCPSpongeSocket.tcp s' = None ∧
    idle (TCPSpongeSocket.world s) (TCPSpongeSocket.world s').
Proof.
  intros []. destruct lv_conn0 as (c & w & v & Ec & Hc & _). unfold TCPSpongeSocket.finish.
  destruct (shutdown_both_spec (TCPSpongeSocket.world s) (TCPSpongeSocket.owner s) lv_world0) as [Hf|(e' & -> & Hi)]; [by_fault Hf|right].
  cbn [mbind result_bind]. rewrite Ec. cbn [value mbind result_bind].
  destruct (state_total _ _ _ _ (ck_inv _ _ _ Hc)) as (st & ->).
  destruct (negb _); cbn [mbind result_bind]; (eexists; split; [reflexivity|done]).
Qed.

(** A fresh connection, before and after its SYN. *)
Lemma conn_ok_new cfg random : config_ok cfg → conn_ok (TCPConnection.new cfg random) [] [].
Proof.
  intros []. split.
  - apply cinv_new; try done. unfold_w. lia.
  - apply new_wf.
  - intros _. simpl. unfold TCPConfig.MAX_RETX_ATTEMPTS. lia.
  - intros E1. discriminate E1.
  - simpl. lia.
  - cbv zeta. intros E1. discriminate E1.
Qed.

End live.

(** [connect] on a fresh connection: its state is SYN_SENT and the SYN, alone, is
    in the queue. *)
Lemma connect_new cfg random :
  ∃ c, TCPConnection.connect (TCPConnection.new cfg random) = Ok c ∧
    TCPConnection.state c = Ok (TCPState.of_state TCPState.SYN_SENT) ∧ TCPConnection.active c = true ∧
    (λ g, TCPHeader.syn (TCPSegment.header g)) <$> TCPConnection.segments_out c = [true].
Proof. eexists. split; [reflexivity|]. split; [reflexivity|]. split; reflexivity. Qed.

(** ** Whole sessions *)

Section session.
Context `{EndKeyFresh} `{KernelLaws E} `{!Adapt E A} `{!AdaptLaws E A}.
Context (abort : E → bool).

(** The owner connects, or listens and accepts. *)
Definition opening (listens : bool) (fuel : nat) (s : TCPSpongeSocket.t E A) (c_tcp : TCPConfig.t)
    (c_ad : FdAdapterConfig.t) (random : Z) : result (TCPSpongeSocket.t E A * list (EventLoop.Rule (TCPSpongeSocket.t E A)) * bool) :=
  if listens then TCPSpongeSocket.listen_and_accept abort fuel s c_tcp c_ad random
  else TCPSpongeSocket.connect abort fuel s c_tcp c_ad random.

(** When that call returns, the thread runs. The flag says whether it has ended. *)
Definition session (listens : bool) (fuel1 fuel2 : nat) (s : TCPSpongeSocket.t E A) (c_tcp : TCPConfig.t)
    (c_ad : FdAdapterConfig.t) (random : Z) : result (TCPSpongeSocket.t E A * bool) :=
  '(s, rules, returned) ← opening listens fuel1 s c_tcp c_ad random;
  if (returned : bool) then TCPSpongeSocket.tcp_main abort fuel2 s rules else Ok (s, false).

(** A socket as the constructor leaves it. *)
Record fresh_socket (s : TCPSpongeSocket.t E A) : Prop := mk_fresh_socket {
  fs_world : world_ok (TCPSpongeSocket.world s);
  fs_fds : FileDescriptor.fd_num (TCPSpongeSocket.datagram_fd s) ≠ FileDescriptor.fd_num (TCPSpongeSocket.thread_data s);
  fs_adapter : adapt_ok (TCPSpongeSocket.datagram_adapter s);
  fs_tcp : TCPSpongeSocket.tcp s = None;
}.

Context (isn0 : WrappingInt32.t) (d : bytes) (ended : bool).
Context (Hisn : WrappingInt32.ok isn0) (Hd : blen d < 0x7ffffff0).

Lemma live_start s c c_ad :
  let dg := FileDescriptor.fd_num (TCPSpongeSocket.datagram_fd s) in
  let th := FileDescriptor.fd_num (TCPSpongeSocket.thread_data s) in
  fresh_socket s → conn_ok isn0 d ended c [] [] →
  endpoint_ok (FdAdapterConfig.source c_ad) → endpoint_ok (FdAdapterConfig.destination c_ad) →
  live isn0 d ended dg th (TCPSpongeSocket.world s) (TCPSpongeSocket.world s) (TCPSpongeSocket.with_tcp (TCPSpongeSocket.with_config s c_ad) c).
Proof.
  intros dg th [] Hc Hsrc Hdst. split; simpl; try done; [by apply law_adapt_config|]. exists c, [], [].
  rewrite ztake_nil, !app_nil_r. done.
Qed.

(** [connect] up to its loop: it does not throw, and the connection is in the
    state SYN_SENT with its SYN queued. *)
Lemma start_connect_ok s c_tcp c_ad random :
  fresh_socket s → config_ok c_tcp →
  ∃ c, TCPSpongeSocket.start_connect s c_tcp c_ad random =
      Ok (TCPSpongeSocket.with_tcp (TCPSpongeSocket.with_config s c_ad) c,
          TCPSpongeSocket.rules (FileDescriptor.fd_num (TCPSpongeSocket.datagram_fd s)) (FileDescriptor.fd_num (TCPSpongeSocket.thread_data s))) ∧
    conn_ok isn0 d ended c [] [] ∧ TCPConnection.state c = Ok (TCPState.of_state TCPState.SYN_SENT) ∧
    (λ g, TCPHeader.syn (TCPSegment.header g)) <$> TCPConnection.segments_out c = [true].
Proof.
  intros [] Hcfg. pose proof (conn_ok_new isn0 d ended c_tcp random Hcfg) as Hc0.
  destruct (connect_new c_tcp random) as (c & Ec & Est & _ & Hq). exists c. unfold TCPSpongeSocket.start_connect.
  rewrite fs_tcp0. cbn [TCPSpongeSocket.initialize_TCP]. unfold TCPSpongeSocket.deref. cbn [TCPSpongeSocket.tcp TCPSpongeSocket.with_config
    TCPSpongeSocket.with_adapter TCPSpongeSocket.with_tcp mbind result_bind]. rewrite Ec. cbn [mbind result_bind]. rewrite Est.
  cbn [mbind result_bind]. split; [done|]. split; [|done].
  destruct (connect_step (at_list d) (TCPConnection.new c_tcp random) [] [] (ck_inv _ _ _ _ _ _ Hc0) ltac:(done)) as (c' & Ec' & Hst).
  assert (c' = c) as -> by congruence.
  eapply conn_ok_step; [exact Hc0|exact Hst|eapply connect_wf; [|exact Ec]; apply new_wf|by eapply connect_calm].
Qed.

(** What the owner has got and given in a live socket. *)
Lemma live_owner dg th e0 e1 s :
  live isn0 d ended dg th e0 e1 s →
  ∃ c got sent, TCPSpongeSocket.tcp s = Some c ∧
    sunk (TCPSpongeSocket.world s) th = sunk e0 th ++ got ∧ got `prefix_of` d ∧
    drawn (TCPSpongeSocket.world s) th = drawn e0 th ++ sent ∧
    ByteStream.rep (TCPSender.stream_in (TCPConnection.sender c)) sent ∧
    (ByteStream.eof (TCPConnection.inbound_stream c) = true → got = d).
Proof.
  intros []. destruct lv_conn0 as (c & w & v & Ec & Hc & Hdr & Hsk).
  pose proof (received_prefix _ _ _ _ _ _ Hc) as Hpre. pose proof (inbound_rep _ _ _ _ _ _ Hc) as Hrep.
  exists c, (ztake (ByteStream.read_count (TCPConnection.inbound_stream c)) w), v. split; [done|]. split; [done|].
  split; [etransitivity; [unfold ztake; apply prefix_take|exact Hpre]|]. split; [done|].
  split; [apply (si_rep _ _ (ci_send _ _ _ _ (ck_inv _ _ _ _ _ _ Hc)))|].
  intros He. apply (ByteStream.rep_eof _ _ Hrep) in He as [Hin Hrc]. rewrite Hrc, ztake_all by done.
  destruct Hc as [Hinv _ _ _ _ Heof]. pose proof (ri_re _ _ _ (ci_recv _ _ _ _ Hinv)) as [Hcore Heofed Hend].
  assert (Hed : StreamReassembler.eofed (TCPReceiver.reassembler (TCPConnection.receiver c)) = true) by (rewrite <- Hend; exact Hin).
  rewrite Hed in Heofed. symmetry in Heofed. apply andb_prop in Heofed as [He Hi]. apply Z.eqb_eq in Hi.
  destruct (Heof He) as [_ Hx]. rewrite Hx, (inv_first _ _ _ Hcore) in Hi. destruct Hpre as [k Hk]. rewrite Hk, blen_app in Hi.
  assert (k = []) as -> by (apply length_zero_iff_nil; unfold blen in Hi; lia). by rewrite app_nil_r in Hk.
Qed.

(** The network delivers to the descriptor [dg] only segments of the peer's
    stream: it may lose, duplicate, delay and reorder, but not make them up. *)
Definition honest_network (dg : Z) : Prop :=
  ∀ (e : E) f (a : A) e' f' a' seg, world_ok e → FileDescriptor.fd_num f = dg →
    adapt_read e f a = Ok (e', f', a', Some seg) → ∃ n, n <= blen d + 2 ∧ seg_at isn0 d ended n seg.

Lemma opened_live (listens : bool) fuel s c_tcp c_ad random :
  let dg := FileDescriptor.fd_num (TCPSpongeSocket.datagram_fd s) in
  let th := FileDescriptor.fd_num (TCPSpongeSocket.thread_data s) in
  honest_network dg → fresh_socket s → config_ok c_tcp →
  endpoint_ok (FdAdapterConfig.source c_ad) → endpoint_ok (FdAdapterConfig.destination c_ad) →
  faulted (E := E) (opening listens fuel s c_tcp c_ad random) ∨
  ∃ s' rules returned, opening listens fuel s c_tcp c_ad random = Ok (s', rules, returned) ∧
    live isn0 d ended dg th (TCPSpongeSocket.world s) (TCPSpongeSocket.world s) s' ∧
    Forall (rule_ok TCPSpongeSocket.descr (live isn0 d ended dg th (TCPSpongeSocket.world s) (TCPSpongeSocket.world s))) rules ∧
    sublist rules (TCPSpongeSocket.rules dg th).
Proof.
  intros dg th Hpeer Hs Hcfg Hsrc Hdst. pose proof (fs_fds s Hs) as Hfds.
  pose proof (socket_rules_ok isn0 d ended dg th (TCPSpongeSocket.world s) (TCPSpongeSocket.world s) Hisn Hd Hfds Hpeer) as Hrules.
  unfold opening. destruct listens.
  - unfold TCPSpongeSocket.listen_and_accept. rewrite (fs_tcp s Hs). cbn [TCPSpongeSocket.initialize_TCP].
    apply tcp_loop_live; [done|apply state_is_decided| |done].
    pose proof (live_start s _ c_ad Hs (conn_ok_new isn0 d ended c_tcp random Hcfg) Hsrc Hdst) as [].
    split; try done. by apply law_adapt_listening.
  - unfold TCPSpongeSocket.connect. destruct (start_connect_ok s c_tcp c_ad random Hs Hcfg) as (c & -> & Hc & _).
    cbn [mbind result_bind]. apply tcp_loop_live; [done|apply state_is_decided|by apply live_start|done].
Qed.

(** C4. The socket as its owner sees it. Over UDP, a TUN or a TAP device, with
    random losses or without (or any adapter with the laws), and a network that
    loses, duplicates, delays and reorders: connecting or listening and then
    running the thread, for any number of rounds of the event loop and any
    behaviour of the owner, throws no exception but that of a system call that
    failed, which may be any call at any time: after the owner has closed its end,
    say, the writes to the thread's end fail. As long as none has failed, what the owner can read from its end is a prefix of what the peer wrote,
    in order, and what the owner wrote is exactly what the connection has accepted
    for sending. It is all that the peer wrote once the inbound stream is at its
    end, whether the thread still runs or has ended: in the second case the
    connection is the one with which the loop of the thread ended, before it was
    destroyed. *)
Theorem socket_session_faithful (listens : bool) fuel1 fuel2 s c_tcp c_ad random :
  let th := FileDescriptor.fd_num (TCPSpongeSocket.thread_data s) in
  honest_network (FileDescriptor.fd_num (TCPSpongeSocket.datagram_fd s)) →
  fresh_socket s → config_ok c_tcp →
  endpoint_ok (FdAdapterConfig.source c_ad) → endpoint_ok (FdAdapterConfig.destination c_ad) →
  faulted (E := E) (session listens fuel1 fuel2 s c_tcp c_ad random) ∨
  ∃ s' over got sent, session listens fuel1 fuel2 s c_tcp c_ad random = Ok (s', over) ∧
    sunk (TCPSpongeSocket.world s') th = sunk (TCPSpongeSocket.world s) th ++ got ∧ got `prefix_of` d ∧
    drawn (TCPSpongeSocket.world s') th = drawn (TCPSpongeSocket.world s) th ++ sent ∧
    ∃ last c, TCPSpongeSocket.tcp last = Some c ∧ ByteStream.rep (TCPSender.stream_in (TCPConnection.sender c)) sent ∧
      (ByteStream.eof (TCPConnection.inbound_stream c) = true → got = d) ∧
      if (over : bool)
      then TCPSpongeSocket.tcp s' = None ∧ TCPSpongeSocket.finish last = Ok s' ∧
        ∃ s1 rules rules', opening listens fuel1 s c_tcp c_ad random = Ok (s1, rules, true) ∧
          TCPSpongeSocket.tcp_loop abort (λ _, Ok true) fuel2 s1 rules = Ok (last, rules', true)
      else last = s'.
Proof.
  intros th Hpeer Hs Hcfg Hsrc Hdst.
  destruct (opened_live listens fuel1 s c_tcp c_ad random Hpeer Hs Hcfg Hsrc Hdst) as [Hf|(s1 & rules & returned & E1 & Hs1 & Hr1 & _)]; [unfold session; by_fault Hf|].
  unfold session. rewrite E1. cbn [mbind result_bind].
  assert (Hrun : ∀ s2, live isn0 d ended (FileDescriptor.fd_num (TCPSpongeSocket.datagram_fd s)) th (TCPSpongeSocket.world s) (TCPSpongeSocket.world s) s2 →
    ∃ c got sent, TCPSpongeSocket.tcp s2 = Some c ∧
      sunk (TCPSpongeSocket.world s2) th = sunk (TCPSpongeSocket.world s) th ++ got ∧ got `prefix_of` d ∧
      drawn (TCPSpongeSocket.world s2) th = drawn (TCPSpongeSocket.world s) th ++ sent ∧
      ByteStream.rep (TCPSender.stream_in (TCPConnection.sender c)) sent ∧
      (ByteStream.eof (TCPConnection.inbound_stream c) = true → got = d)) by (intros; by eapply live_owner).
  destruct returned.
  2:{ destruct (Hrun s1 Hs1) as (c & got & sent & Ec & Hg & Hp & Hse & Hrep & Heof). right. exists s1, false, got, sent.
      split_and!; try done. by exists s1, c. }
  unfold TCPSpongeSocket.tcp_main. destruct (Hrun s1 Hs1) as (c1 & _ & _ & -> & _).
  destruct (tcp_loop_live isn0 d ended _ th (TCPSpongeSocket.world s) (TCPSpongeSocket.world s) (fs_fds s Hs) abort (λ _, Ok true) fuel2 s1 rules)
    as [Hf|(s2 & rules2 & over & E2 & Hs2 & _)]; [by intros ??; eexists|done|done|by_fault Hf|]. rewrite E2. cbn [mbind result_bind].
  destruct (Hrun s2 Hs2) as (c & got & sent & Ec & Hg & Hp & Hse & Hrep & Heof).
  destruct over; cbn [negb]; [|right; exists s2, false, got, sent; split_and!; try done; by exists s2, c].
  destruct (finish_live _ _ _ _ _ _ _ s2 Hs2) as [Hf|(s3 & E3 & Htcp & _ & Hkd & Hks)]; [by_fault Hf|]. rewrite E3.
  cbn [mbind result_bind]. right. exists s3, true, got, sent. rewrite Hkd, Hks. split_and!; try done.
  exists s2, c. split_and!; try done. by exists s1, rules, rules2.
Qed.

End session.

(** An adapter with losses on an honest network sees an honest network. *)
Lemma lossy_honest_network `{KernelView E} {A In Out : Type} `{!FdAdapter A In Out} `{!Adapt E A} {Rng : Type} (rand : Rng → Z * Rng)
    isn0 d ended dg :
  honest_network (A := A) isn0 d ended dg →
  honest_network (A := LossyFdAdapter.t A Rng) (Adapt0 := adapt_lossy rand) isn0 d ended dg.
Proof.
  intros Hn e f l e' f' l' seg Hw Hf Hr. unfold adapt_read, adapt_lossy in Hr.
  apply result_bind_Ok in Hr as ([[[e1 f1] a1] ret] & Er & Hr). destruct (LossyFdAdapter.should_drop _ _ _) as [drop l1].
  destruct drop; [done|]. injection Hr as -> -> _ ->. by eapply Hn.
Qed.

(** ** When the thread ends *)

Section ending.
Context `{StreamReassembler.EndKey} `{Kernel E} `{Adapt E A}.

(** Nothing is left to do: the connection is dead, its segments are sent, what
    it received is handed over, and the owner knows of the end. *)
Definition all_done (s : TCPSpongeSocket.t E A) (c : TCPConnection.t) : Prop :=
  TCPConnection.active c = false ∧ TCPConnection.segments_out c = [] ∧
  ByteStream.buffer_empty (TCPConnection.inbound_stream c) = true ∧
  (ByteStream.eof (TCPConnection.inbound_stream c) || ByteStream.error (TCPConnection.inbound_stream c) = true →
     TCPSpongeSocket.inbound_shutdown s = true).

(** The rules that are left: the one for the owner's bytes goes when its end of
    the pipe is at end of file. *)
Definition rules_left (owner_ended : bool) (dg th : Z) : list (EventLoop.Rule (TCPSpongeSocket.t E A)) :=
  TCPSpongeSocket.rule1 dg th :: (if owner_ended then [] else [TCPSpongeSocket.rule2 dg th]) ++
  [TCPSpongeSocket.rule3 dg th; TCPSpongeSocket.rule4 dg th].

(** The descriptors are open, and an owner that has not ended can still write. *)
Record open_fds (s : TCPSpongeSocket.t E A) (owner_ended : bool) (dg th : Z) : Prop := mk_open_fds {
  of_different : dg ≠ th;
  of_thread : FileDescriptor.fd_num (TCPSpongeSocket.thread_data s) = th;
  of_datagram : FileDescriptor.fd_num (TCPSpongeSocket.datagram_fd s) = dg;
  of_closed : FileDescriptor.closed (TCPSpongeSocket.thread_data s) = false ∧
    FileDescriptor.closed (TCPSpongeSocket.datagram_fd s) = false;
  of_eof : FileDescriptor.eof (TCPSpongeSocket.datagram_fd s) = false;
  of_owner : owner_ended = false → FileDescriptor.eof (TCPSpongeSocket.thread_data s) = false;
}.

Lemma set_up_rules s owner_ended dg th :
  open_fds s owner_ended dg th →
  ∃ pfds, EventLoop.set_up TCPSpongeSocket.descr s (rules_left owner_ended dg th) =
    Ok (s, rules_left owner_ended dg th, pfds,
        existsb (λ r, EventLoop.interest r s) (rules_left owner_ended dg th)).
Proof.
  intros [Hne Hth Hdg [Hc1 Hc2] He Ho].
  assert (Hd1 : TCPSpongeSocket.descr s dg = TCPSpongeSocket.datagram_fd s)
    by (unfold TCPSpongeSocket.descr; by rewrite Hth, (proj2 (Z.eqb_neq dg th))).
  assert (Hd2 : TCPSpongeSocket.descr s th = TCPSpongeSocket.thread_data s)
    by (unfold TCPSpongeSocket.descr; by rewrite Hth, Z.eqb_refl).
  unfold rules_left. destruct owner_ended; cbn [app EventLoop.set_up EventLoop.rule_fd EventLoop.direction
    TCPSpongeSocket.rule1 TCPSpongeSocket.rule2 TCPSpongeSocket.rule3 TCPSpongeSocket.rule4];
    rewrite ?Hd1, ?Hd2, Hc1, Hc2, He, ?(Ho eq_refl); cbn [orb mbind result_bind]; by eexists.
Qed.

Lemma interested s c owner_ended dg th :
  TCPSpongeSocket.tcp s = Some c →
  existsb (λ r, EventLoop.interest r s) (rules_left owner_ended dg th) = false ↔ all_done s c.
Proof.
  intros Ec. unfold rules_left, all_done.
  assert (Hi1 : TCPSpongeSocket.rule1_interest s = TCPConnection.active c) by (unfold TCPSpongeSocket.rule1_interest; by rewrite Ec).
  assert (Hi2 : TCPConnection.active c = false → TCPSpongeSocket.rule2_interest s = false)
    by (unfold TCPSpongeSocket.rule2_interest; rewrite Ec; by intros ->).
  assert (Hi3 : TCPSpongeSocket.rule3_interest s = false ↔ ByteStream.buffer_empty (TCPConnection.inbound_stream c) = true ∧
    (ByteStream.eof (TCPConnection.inbound_stream c) || ByteStream.error (TCPConnection.inbound_stream c) = true →
     TCPSpongeSocket.inbound_shutdown s = true)).
  { unfold TCPSpongeSocket.rule3_interest. rewrite Ec. cbv zeta. set (over := ByteStream.eof _ || ByteStream.error _).
    destruct (ByteStream.buffer_empty _), over, (TCPSpongeSocket.inbound_shutdown s); simpl; naive_solver. }
  assert (Hi4 : TCPSpongeSocket.rule4_interest s = false ↔ TCPConnection.segments_out c = [])
    by (unfold TCPSpongeSocket.rule4_interest; rewrite Ec; by destruct (TCPConnection.segments_out c)).
  assert (Hex : existsb (λ r, EventLoop.interest r s) (TCPSpongeSocket.rule1 dg th ::
      (if owner_ended then [] else [TCPSpongeSocket.rule2 dg th]) ++ [TCPSpongeSocket.rule3 dg th; TCPSpongeSocket.rule4 dg th]) =
    TCPConnection.active c || ((if owner_ended then false else TCPSpongeSocket.rule2_interest s) ||
      (TCPSpongeSocket.rule3_interest s || TCPSpongeSocket.rule4_interest s))).
  { rewrite <- Hi1. destruct owner_ended; simpl; by rewrite ?orb_false_r. }
  rewrite Hex, !orb_false_iff, Hi3, Hi4. split; [intuition|]. intros (Ha & Hq & Hb & Hsh). rewrite (Hi2 Ha). by destruct owner_ended.
Qed.

(** C18. The thread stops exactly when its work is done. With the descriptors open
    and no signal, a round of the event loop says Exit, on which the loop of the
    thread ends, if and only if the connection is dead, every segment it queued
    has gone to the adapter, every byte it received has gone to the owner, and
    the owner has been told of the end or the failure of the stream. *)
Theorem socket_thread_ends s c owner_ended dg th :
  TCPSpongeSocket.tcp s = Some c → open_fds s owner_ended dg th →
  (∀ (e : E) l, (sys_poll e l TCPSpongeSocket.TCP_TICK_MS).1 ≠ Failed EventLoop.EINTR) →
  let round := EventLoop.wait_next_event TCPSpongeSocket.descr TCPSpongeSocket.poll s (rules_left owner_ended dg th) TCPSpongeSocket.TCP_TICK_MS in
  (all_done s c → round = Ok (s, rules_left owner_ended dg th, EventLoop.Exit)) ∧
  (∀ s' rules', round = Ok (s', rules', EventLoop.Exit) → s' = s ∧ all_done s c).
Proof.
  intros Ec Hfds Hsig round. destruct (set_up_rules s owner_ended dg th Hfds) as (pfds & Hup).
  pose proof (interested s c owner_ended dg th Ec) as Hint. subst round. unfold EventLoop.wait_next_event.
  rewrite Hup. cbn [mbind result_bind]. split.
  - intros Hdone. by rewrite (proj2 Hint Hdone).
  - intros s' rules' Hw. destruct (existsb _ _) eqn:Eb; cbn [negb] in Hw; [exfalso|by injection Hw as <- <-; split; [|apply Hint]].
    unfold TCPSpongeSocket.poll in Hw. pose proof (Hsig (TCPSpongeSocket.world s) pfds) as Hns.
    destruct (sys_poll _ _ _) as [[[n revs]|err] e']; simpl in Hns.
    + destruct (n =? 0); [done|]. by apply result_bind_Ok in Hw as ([??] & _ & Hw).
    + destruct (Z.eqb_spec err EventLoop.EINTR) as [->|]; [done|]. by apply result_bind_Ok in Hw as ([??] & _ & Hw).
Qed.

End ending.

(** ** The destructor *)

(** C19. The destructor of a socket returns after one more round of events: once
    the flag is up (in every world from then on), the thread, whatever state it
    was in, leaves its loop, and, where no system call fails, nothing throws. The
    connection is destroyed with all it has queued: after that last round nothing
    goes out any more, so the RST that the destructor of the connection queues is
    never sent, and what the owner could read stays a prefix of the peer's
    stream. *)
Theorem socket_destructor_joins `{EndKeyFresh} `{KernelLaws E} `{!Adapt E A} `{!AdaptLaws E A} (abort : E → bool) (raise_abort : E → E)
    isn0 d ended dg th e0 e1 (s : TCPSpongeSocket.t E A) rules base_time :
  ~ fallible (E := E) →
  (∀ e, world_ok e → abort e = true) →
  let s0 := TCPSpongeSocket.with_owner s (raise_abort (TCPSpongeSocket.world s)) (TCPSpongeSocket.owner s) in
  live isn0 d ended dg th e0 e1 s0 → Forall (rule_ok TCPSpongeSocket.descr (live isn0 d ended dg th e0 e1)) rules →
  ∃ s1 rules1 res s2 got, EventLoop.wait_next_event TCPSpongeSocket.descr TCPSpongeSocket.poll s0 rules TCPSpongeSocket.TCP_TICK_MS = Ok (s1, rules1, res) ∧
    TCPSpongeSocket.destroy abort raise_abort 1 s (Some (rules, base_time)) = Ok (s2, true) ∧ TCPSpongeSocket.tcp s2 = None ∧
    (∀ k, sunk (TCPSpongeSocket.world s2) k = sunk (TCPSpongeSocket.world s1) k) ∧
    sunk (TCPSpongeSocket.world s2) th = sunk e0 th ++ got ∧ got `prefix_of` d.
Proof.
  intros Hsure Hab s0 Hs Hr.
  destruct (sure _ _ Hsure (wait_next_event_invariant _ _ _ s0 rules TCPSpongeSocket.TCP_TICK_MS (socket_poll_ok _ _ _ _ _ _ _) Hs Hr))
    as (s1 & rules1 & res & E1 & Hs1 & _).
  destruct (sure _ _ Hsure (finish_live _ _ _ _ _ _ _ s1 Hs1)) as (s2 & E2 & Htcp & _ & _ & Hk).
  destruct (live_owner _ _ _ _ _ _ _ s1 Hs1) as (c & got & sent & _ & Hg & Hp & _).
  exists s1, rules1, res, s2, got. split; [done|]. split.
  - unfold TCPSpongeSocket.destroy, TCPSpongeSocket.join. cbn [TCPSpongeSocket.rounds mbind result_bind negb].
    fold s0; rewrite E1. cbn [mbind result_bind]. rewrite (Hab _ (lv_world _ _ _ _ _ _ _ _ Hs1)), orb_true_r.
    cbn [mbind result_bind negb]. by rewrite E2.
  - split; [done|]. split; [done|]. by rewrite Hk.
Qed.

(** ** The ready-made sockets *)

Lemma private_bits (b : byte) :
  let first := b2z (z2b (Z.land (Z.lor (b2z b) 2) 0xfe)) in Z.testbit first 0 = false ∧ Z.testbit first 1 = true.
Proof. by destruct b. Qed.

(** The private address is one: six bytes, marked as locally administered, and
    neither a group address nor the broadcast address. *)
Lemma private_address_ok random :
  let a := random_private_ethernet_address random in
  address_ok a ∧ a ≠ ETHERNET_BROADCAST ∧
  ∃ first rest, a = first :: rest ∧ Z.testbit (b2z first) 0 = false ∧ Z.testbit (b2z first) 1 = true.
Proof.
  simpl. unfold random_private_ethernet_address. simpl. pose proof (private_bits (z2b (random 0%nat))) as [Hgroup Hlocal].
  split; [done|]. split; [|by eexists _, _].
  intros Ebc. unfold ETHERNET_BROADCAST in Ebc. simpl in Ebc. injection Ebc as Ef _ _ _ _ _. by rewrite Ef in Hgroup.
Qed.

(** So the ready-made sockets fit the theorems on sessions. *)
Lemma full_stack_ready random :
  ethernet_ok (FullStackSocket.adapter random).1 ∧ config_ok CS144TCPSocket.tcp_config.
Proof.
  destruct (private_address_ok random) as (Ha & _). split.
  - split; [repeat split; range_compute|]. split; [exact Ha|apply map_Forall_empty|apply Forall_nil_2|apply Forall_nil_2].
  - split; [range_compute|range_compute|range_compute|intros i Ei; discriminate Ei].
Qed.

