(* ===== verification/SocketExample.v ===== *)
(** * A session of the socket, run

    The hypotheses of the theorem on sessions hold together: a kernel that plays
    back the packets of a peer, which accepts a connection, sends three bytes and
    ends its stream, and an owner who writes two bytes. *)

From S2P Require Import Prelude Buffers Wrapping Stream Reassembly ReassemblySpec Segment Receiver Sender SenderSpec.
From S2P Require Import Connection ConnectionSpec EndToEnd Parsing Checksum Ipv4 Link Netif NetifSpec Addresses Adapters AdaptersSpec.
From S2P Require Import Robustness Outgoing Descriptors Events Confined Pipes SpongeSocket SpongeSocketSpec.

(** ** What a packet carries *)

(** The segment in a packet, whoever reads it. *)
Definition carried_by (packet : bytes) : option TCPSegment.t :=
  match IPv4Datagram.parse IPv4Datagram.default (Buffer.of_string packet) with
  | Ok (dgram, NoError) =>
      match BufferList.to_buffer (IPv4Datagram.payload dgram) with
      | Ok q =>
          match TCPSegment.parse TCPSegment.default q (IPv4Header.pseudo_cksum (IPv4Datagram.header dgram)) with
          | Ok (seg, NoError) => Some seg
          | _ => None
          end
      | Err _ => None
      end
  | _ => None
  end.

Lemma tun_read_carried a packet a' seg :
  TCPOverIPv4OverTunFdAdapter.read a packet = Ok (a', Some seg) → carried_by packet = Some seg.
Proof.
  unfold TCPOverIPv4OverTunFdAdapter.read, carried_by. intros Hr. apply result_bind_Ok in Hr as ([dgram err] & -> & Hr).
  case_bool_decide as Eerr; cbn [negb] in Hr; [subst err|by simplify_eq].
  unfold TCPOverIPv4Adapter.unwrap_tcp_in_ip in Hr.
  do 3 (destruct (_ && _) || destruct (negb _); [by simplify_eq|]).
  apply result_bind_Ok in Hr as (q & -> & Hr). apply result_bind_Ok in Hr as ([s err] & -> & Hr).
  case_bool_decide as Eerr; cbn [negb] in Hr; [subst err|by simplify_eq].
  destruct (negb _); [by simplify_eq|]. injection Hr as Hr. unfold TCPOverIPv4Adapter.accept in Hr.
  destruct (FdAdapterBase.listening a); [destruct (_ && _)|]; try destruct (negb _); by simplify_eq.
Qed.

(** ** The peer *)

Definition our_side : FdAdapterConfig.t := FdAdapterConfig.mk (Address.mk 0x0a000001 4321) (Address.mk 0x0a000002 80) 0 0.

Definition their_adapter : FdAdapterBase.t :=
  FdAdapterBase.mk (FdAdapterConfig.mk (Address.mk 0x0a000002 80) (Address.mk 0x0a000001 4321) 0 0) false.

Definition peer_isn : WrappingInt32.t := WrappingInt32.mk 100.

Definition peer_stream : bytes := [Byte.x61; Byte.x62; Byte.x63].

(** The acceptance of our SYN, and the data with the end of the stream. *)
Definition syn_ack : TCPSegment.t :=
  TCPSegment.mk (TCPHeader.set_win (TCPHeader.set_ack (TCPHeader.set_syn
    (TCPHeader.set_seqno TCPHeader.default (WrappingInt32.mk 100)) true) (WrappingInt32.mk 6)) 1000) Buffer.empty.

Definition data_fin : TCPSegment.t :=
  TCPSegment.mk (TCPHeader.set_win (TCPHeader.set_ack (TCPHeader.set_fin
    (TCPHeader.set_seqno TCPHeader.default (WrappingInt32.mk 101)) true) (WrappingInt32.mk 6)) 1000) (Buffer.of_string peer_stream).

Definition packet_of (seg : TCPSegment.t) : bytes :=
  match TCPOverIPv4OverTunFdAdapter.write their_adapter seg with Ok (_, packet) => packet | Err _ => [] end.

Definition peer_packets : list bytes := [packet_of syn_ack; packet_of data_fin].

(** A piece of a packet carries nothing, or is a segment of the peer. *)
Definition from_peer (p : bytes) : Prop :=
  ∀ seg, carried_by p = Some seg → ∃ n, n <= blen peer_stream + 2 ∧ seg_at peer_isn peer_stream true n seg.

(** Decides it, for the segment and for the pieces of a packet. *)
Definition segment_ok (seg : TCPSegment.t) : bool :=
  let h := TCPSegment.header seg in
  let l := Buffer.str (TCPSegment.payload seg) in
  if TCPHeader.syn h then (WrappingInt32.raw_value (TCPHeader.seqno h) =? 100) && bool_decide (l = []) && negb (TCPHeader.fin h) &&
    (0 <=? TCPHeader.win h) && (TCPHeader.win h <? 0x10000)
  else (WrappingInt32.raw_value (TCPHeader.seqno h) =? 101) && bool_decide (l = peer_stream) &&
    (0 <=? TCPHeader.win h) && (TCPHeader.win h <? 0x10000).

Definition piece_ok (p : bytes) : bool := match carried_by p with None => true | Some seg => segment_ok seg end.

Lemma segment_ok_at seg : segment_ok seg = true → ∃ n, n <= blen peer_stream + 2 ∧ seg_at peer_isn peer_stream true n seg.
Proof.
  unfold segment_ok. intros Hp. destruct (TCPHeader.syn _) eqn:Esyn; bool_to_prop.
  - exists 0. split; [vm_compute; congruence|]. case_bool_decide as El; [|done].
    split; try done.
    + destruct (TCPHeader.seqno (TCPSegment.header seg)) as [x]. simpl in *. by subst.
    + left. by rewrite El.
    + by rewrite El.
    + congruence.
  - exists 1. split; [vm_compute; congruence|]. case_bool_decide as El; [|done].
    split; try done.
    + destruct (TCPHeader.seqno (TCPSegment.header seg)) as [x]. simpl in *. by subst.
    + congruence.
    + right. unfold payload_index. rewrite Esyn, El. intros i b Hb. split; [lia|].
      by replace (Z.to_nat (1 - 1 + Z.of_nat i)) with i by lia.
    + by rewrite El.
    + intros _. unfold payload_index. by rewrite Esyn, El.
Qed.

Lemma piece_ok_from_peer p : piece_ok p = true → from_peer p.
Proof. unfold piece_ok. intros Hp seg Es. rewrite Es in Hp. by apply segment_ok_at. Qed.

Lemma peer_packets_good : Forall (good_pieces from_peer) peer_packets.
Proof. repeat (apply Forall_cons; split; [apply (pieces_good _ piece_ok _ piece_ok_from_peer); vm_compute; reflexivity|]). by apply Forall_nil. Qed.

(** ** The session *)

Definition peer_view (since : Z) : KernelView toy := confined_view [7] from_peer since.

Lemma peer_laws since : @KernelLaws toy toy_kernel (peer_view since).
Proof. apply confined_laws. Qed.

Lemma peer_honest since :
  honest_network (E := toy) (A := TCPOverIPv4OverTunFdAdapter.t) (H1 := peer_view since) peer_isn peer_stream true 7.
Proof.
  intros e f a e' f' a' seg Hw Hf Hr. unfold adapt_read, adapt_tun in Hr.
  apply result_bind_Ok in Hr as ([[e1 f1] packet] & Er & Hr). apply result_bind_Ok in Hr as ([a1 seg1] & Ea & Hr).
  injection Hr as _ _ _ Eseg. rewrite Eseg in Ea. apply tun_read_carried in Ea.
  unfold FileDescriptor.read in Er. rewrite Hf in Er.
  destruct (confined_read [7] from_peer since e 7 (Z.min FileDescriptor.BUFFER_SIZE FileDescriptor.NO_LIMIT) Hw) as (b & e2 & Es & _ & _ & Hb); [done|].
  rewrite Es in Er. cbn [call SystemCall mbind result_bind] in Er. destruct (_ <? blen b); [done|]. injection Er as _ _ <-.
  destruct (Hb ltac:(left)) as [->|Hgood]; [vm_compute in Ea; discriminate Ea|]. by apply Hgood.
Qed.

(** The owner writes "hi" on descriptor 5; the network is descriptor 7. *)
Definition playback (fd : Z) : list bytes :=
  if fd =? 5 then [[Byte.x68; Byte.x69]] else if fd =? 7 then peer_packets else [].

Definition our_cfg : TCPConfig.t := TCPConfig.mk 1000 10 10 (Some (WrappingInt32.mk 5)).

Definition world_at (now : Z) : toy := mk_toy playback (λ _, []) (λ _, []) now [].

Definition our_socket (now : Z) : TCPSpongeSocket.t toy TCPOverIPv4OverTunFdAdapter.t :=
  TCPSpongeSocket.mk (world_at now) (FileDescriptor.mk 4 false false 0 0) (FileDescriptor.mk 5 false false 0 0)
    (FileDescriptor.mk 7 false false 0 0) FdAdapterBase.default None false false false.

(** What the owner has got and written, and whether the inbound stream was shut
    down. *)
Definition owner_view (r : result (TCPSpongeSocket.t toy TCPOverIPv4OverTunFdAdapter.t * bool)) : option (bytes * bytes * bool) :=
  match r with
  | Ok (s, _) => Some (toy_sunk (TCPSpongeSocket.world s) 5, toy_drawn (TCPSpongeSocket.world s) 5, TCPSpongeSocket.inbound_shutdown s)
  | Err _ => None
  end.

Lemma playback_ok now : world_ok (KernelView := peer_view now) (world_at now).
Proof.
  split; [|split; [intros fd ->%list_elem_of_singleton; exact peer_packets_good|simpl; lia]]. intros fd. simpl. unfold playback.
  destruct (fd =? 5), (fd =? 7); vm_compute; reflexivity.
Qed.

Lemma our_cfg_ok : config_ok our_cfg.
Proof. apply sample_config_ok. range_compute. Qed.

Definition peer_adapt now : AdaptLaws (H := peer_view now) toy TCPOverIPv4OverTunFdAdapter.t :=
  @tun_laws _ _ (peer_view now) (peer_laws now).

Lemma our_socket_fresh now : fresh_socket (AdaptLaws0 := peer_adapt now) (our_socket now).
Proof. split; [exact (playback_ok now)|discriminate|repeat split; range_compute|reflexivity]. Qed.

Lemma socket_session_faithful_witness :
  ∃ s over got, session (λ _, false) false 5 9 (our_socket 0) our_cfg our_side 0 = Ok (s, over) ∧
    toy_sunk (TCPSpongeSocket.world s) 5 = got ∧ got `prefix_of` peer_stream ∧
    got = [Byte.x61; Byte.x62; Byte.x63] ∧ toy_drawn (TCPSpongeSocket.world s) 5 = [Byte.x68; Byte.x69] ∧
    TCPSpongeSocket.inbound_shutdown s = true.
Proof.
  destruct (socket_session_faithful (H1 := peer_view 0) (H2 := peer_laws 0) (AdaptLaws0 := peer_adapt 0) (λ _, false)
    peer_isn peer_stream true ltac:(range_compute) ltac:(reflexivity)
    false 5 9 (our_socket 0) our_cfg our_side 0) as [(x & _ & [] & _)|(s & over & got & sent & E & Hg & Hp & _)].
  - exact (peer_honest 0).
  - exact (our_socket_fresh 0).
  - exact our_cfg_ok.
  - split; range_compute.
  - split; range_compute.
  - assert (Eo : owner_view (session (λ _, false) false 5 9 (our_socket 0) our_cfg our_side 0) =
      Some ([Byte.x61; Byte.x62; Byte.x63], [Byte.x68; Byte.x69], true)) by (vm_compute; reflexivity).
    rewrite E in Eo. injection Eo as E5 Ed Esh. exists s, over, got. split; [exact E|].
    change (toy_sunk (TCPSpongeSocket.world s) 5 = got) in Hg. split; [exact Hg|]. split; [exact Hp|].
    split; [rewrite <- Hg; exact E5|]. split; [exact Ed|exact Esh].
Defined.

(** ** The end of a socket *)

(** The flag of the owner is a time: it is up from 1000 on. *)
Definition is_late (e : toy) : bool := 1000 <=? toy_time e.

Definition make_late (e : toy) : toy := mk_toy (script e) (toy_drawn e) (toy_sunk e) 1000 (toy_history e).

(** A socket that has just sent for its peer. *)
Definition connecting (c : TCPConnection.t) (now : Z) : TCPSpongeSocket.t toy TCPOverIPv4OverTunFdAdapter.t :=
  TCPSpongeSocket.with_tcp (TCPSpongeSocket.with_config (our_socket now) our_side) c.

Lemma socket_destructor_joins_witness :
  ∃ c s, TCPConnection.connect (TCPConnection.new our_cfg 0) = Ok c ∧ is_late (TCPSpongeSocket.world (connecting c 0)) = false ∧
    TCPSpongeSocket.destroy is_late make_late 1 (connecting c 0) (Some (TCPSpongeSocket.rules 7 5, 0)) = Ok (s, true) ∧
    TCPSpongeSocket.tcp s = None ∧ toy_sunk (TCPSpongeSocket.world s) 5 `prefix_of` peer_stream.
Proof.
  destruct (start_connect_ok (H1 := peer_view 1000) (AdaptLaws0 := peer_adapt 1000) peer_isn peer_stream true
    (our_socket 1000) our_cfg our_side 0 (our_socket_fresh 1000) our_cfg_ok) as (c & E & Hc & _).
  destruct (socket_destructor_joins (H1 := peer_view 1000) (H2 := peer_laws 1000) (AdaptLaws0 := peer_adapt 1000) is_late make_late
    peer_isn peer_stream true 7 5 (world_at 1000) (world_at 1000) (connecting c 0) (TCPSpongeSocket.rules 7 5) 0)
    as (s1 & rules1 & res & s2 & got & _ & Ed & Htcp & _ & Hg & Hp).
  - exact toy_sure.
  - intros e (_ & _ & Ht). apply Z.leb_le. exact Ht.
  - exact (live_start (AdaptLaws0 := peer_adapt 1000) peer_isn peer_stream true (our_socket 1000) c our_side (our_socket_fresh 1000) Hc
      ltac:(split; range_compute) ltac:(split; range_compute)).
  - exact (socket_rules_ok (H1 := peer_view 1000) (H2 := peer_laws 1000) (AdaptLaws0 := peer_adapt 1000) peer_isn peer_stream true 7 5
      (world_at 1000) (world_at 1000) ltac:(range_compute) ltac:(reflexivity) ltac:(discriminate) (peer_honest 1000)).
  - exists c, s2. split; [|split; [reflexivity|split; [exact Ed|split; [exact Htcp|]]]].
    + destruct (connect_new our_cfg 0) as (c' & Ec & _). rewrite Ec.
      unfold TCPSpongeSocket.start_connect in E. cbn [our_socket TCPSpongeSocket.tcp TCPSpongeSocket.initialize_TCP] in E.
      unfold TCPSpongeSocket.deref in E. cbn [TCPSpongeSocket.tcp TCPSpongeSocket.with_config TCPSpongeSocket.with_adapter
        TCPSpongeSocket.with_tcp mbind result_bind] in E. rewrite Ec in E. cbn [mbind result_bind] in E.
      apply result_bind_Ok in E as (st & _ & E). destruct (TCPState.neqb _ _); [discriminate E|]. by injection E as <-.
    + change (toy_sunk (TCPSpongeSocket.world s2) 5 = got) in Hg. rewrite Hg. exact Hp.
Defined.

(** A socket whose connection was reset, and whose owner has been told. *)
Definition reset_connection : TCPConnection.t :=
  TCPConnection.with_active (TCPConnection.set_errors (TCPConnection.new our_cfg 0)) false.

Definition idle_socket : TCPSpongeSocket.t toy TCPOverIPv4OverTunFdAdapter.t :=
  TCPSpongeSocket.mk (world_at 0) (FileDescriptor.mk 4 false false 0 0) (FileDescriptor.mk 5 false false 0 0)
    (FileDescriptor.mk 7 false false 0 0) FdAdapterBase.default (Some reset_connection) true false false.

Lemma socket_thread_ends_witness :
  all_done idle_socket reset_connection ∧
  EventLoop.wait_next_event TCPSpongeSocket.descr TCPSpongeSocket.poll idle_socket (rules_left false 7 5) TCPSpongeSocket.TCP_TICK_MS =
    Ok (idle_socket, rules_left false 7 5, EventLoop.Exit).
Proof.
  assert (Hdone : all_done idle_socket reset_connection) by (repeat split; intros; reflexivity).
  split; [exact Hdone|].
  apply (socket_thread_ends idle_socket reset_connection false 7 5).
  - reflexivity.
  - split; try discriminate; repeat split; intros; reflexivity.
  - discriminate.
  - exact Hdone.
Defined.
