(* ===== verification/Threads.v ===== *)
(** * Threads side by side

    Two threads of a process share its descriptors and nothing else. What one of
    them sees of the other is a kernel that does more between two of its calls:
    [beside T] is the kernel of the one thread with the other, of state [T],
    inside. Before every call the other thread takes as many rounds of its loop as
    the schedule says, so that a theorem about one thread over every lawful kernel
    is one about both of them under every schedule. *)

From S2P Require Import Prelude Buffers Descriptors.

(** A thread that runs a loop: the world it is in, and one round of the loop,
    which does nothing once the thread is over. *)
Class Thread (E T : Type) := mk_thread {
  thread_world : T → E;
  with_world : T → E → T;
  thread_step : T → result T;
  thread_over : T → bool;
}.

(** [n] rounds. *)
Fixpoint thread_steps `{Thread E T} (n : nat) (s : T) : result T :=
  match n with
  | O => Ok s
  | S n => s ← thread_step s; thread_steps n s
  end.

(** [join()]: the thread runs to its end, for at most [fuel] rounds. *)
Fixpoint thread_join `{Thread E T} (fuel : nat) (s : T) : result T :=
  if thread_over s then Ok s
  else match fuel with O => Ok s | S fuel => s ← thread_step s; thread_join fuel s end.

(** The other thread; the exception that ended it, and with it the process; how
    many rounds it takes before each of the next calls; and what went to
    descriptors that are not this thread's. *)
Record beside (T : Type) := mk_beside {
  other : T;
  terminated : option exn;
  turns : list nat;
  strayed : Z → bytes;
}.
Arguments mk_beside {T}.
Arguments other {T}.
Arguments terminated {T}.
Arguments turns {T}.
Arguments strayed {T}.

(** What becomes of what this thread computes, when the process did not live to see
    one of its calls. *)
Definition outlived {A} (r : result A) : result A :=
  match r with
  | Err (unix_error attempt errno) => if errno =? 0 then Err terminate_called else r
  | _ => r
  end.

Section kernel.
Context `{Kernel E} `{Thread E T}.

(** The descriptors of the other thread, on which this one has no handle. *)
Context (owns : Z → bool).

Definition start_beside (s : T) (schedule : list nat) : beside T := mk_beside s None schedule (λ _, []).

Definition take_turn (w : beside T) : beside T :=
  match terminated w, turns w with
  | None, n :: l =>
      match thread_steps n (other w) with
      | Ok s => mk_beside s None l (strayed w)
      | Err x => mk_beside (other w) (Some x) l (strayed w)
      end
  | _, _ => w
  end.

(** One call of this thread. A terminated process makes none: a failure with the
    number 0, which is no error of the system's, stands for that. *)
Definition after_turn {B} (w : beside T) (sys_call : E → sys B * E) : sys B * beside T :=
  let w := take_turn w in
  match terminated w with
  | Some _ => (Failed 0, w)
  | None =>
      let '(answer, e) := sys_call (thread_world (other w)) in
      (answer, mk_beside (with_world (other w) e) None (turns w) (strayed w))
  end.

(** A call on one of its own descriptors; those of the other thread give nothing
    and take everything. *)
Definition on_own {B} (w : beside T) (fd : Z) (nothing : B) (sys_call : E → sys B * E) : sys B * beside T :=
  if owns fd then (Returned nothing, w) else after_turn w sys_call.

Definition beside_kernel : Kernel (beside T) := {|
  sys_read w fd n := on_own w fd [] (λ e, sys_read e fd n);
  sys_writev w fd l :=
    if owns fd
    then (Returned (blen (mjoin l)), mk_beside (other w) (terminated w) (turns w) (λ k, if decide (k = fd) then strayed w fd ++ mjoin l else strayed w k))
    else after_turn w (λ e, sys_writev e fd l);
  sys_close w fd := on_own w fd 0 (λ e, sys_close e fd);
  sys_shutdown w fd how := on_own w fd 0 (λ e, sys_shutdown e fd how);
  sys_getfl w fd := on_own w fd 0 (λ e, sys_getfl e fd);
  sys_setfl w fd flags := on_own w fd 0 (λ e, sys_setfl e fd flags);
  sys_poll w l timeout := after_turn w (λ e, sys_poll e l timeout);
  steady_clock w :=
    let w := take_turn w in
    let '(now, e) := steady_clock (thread_world (other w)) in
    (now, mk_beside (with_world (other w) e) (terminated w) (turns w) (strayed w));
|}.

End kernel.

(** ** What the other thread promises *)

(** Of the world, only what passes through the descriptors in [owns] has changed. *)
Definition only_on `{KernelView E} (owns : Z → bool) (e e' : E) : Prop :=
  ∀ k, owns k = false → drawn e' k = drawn e k ∧ sunk e' k = sunk e k.

(** It throws only what a failed call makes it throw, keeps its invariant, and uses
    only its own descriptors; and its invariant depends on these alone. *)
Class ThreadLaws (E T : Type) `{KernelView E, Thread E T} (owns : Z → bool) := mk_thread_laws {
  thread_ok : T → Prop;
  law_thread_world : ∀ s, thread_ok s → world_ok (thread_world s);
  law_thread_step : ∀ s, thread_ok s → faulted (E := E) (thread_step s) ∨ ∃ s', thread_step s = Ok s' ∧ thread_ok s' ∧
    only_on owns (thread_world s) (thread_world s');
  law_with_world : ∀ s e, thread_ok s → world_ok e → only_on (λ k, negb (owns k)) (thread_world s) e →
    thread_ok (with_world s e) ∧ thread_world (with_world s e) = e;
}.

(** The process has been terminated, which only a failed call makes happen. *)
Definition aborted `{KernelView E} {A} (r : result A) : Prop := fallible (E := E) ∧ r = Err terminate_called.

Lemma outlived_fault `{KernelView E} {A} (r : result A) :
  faulted (E := E) r → faulted (E := E) (outlived r) ∨ aborted (E := E) (outlived r).
Proof.
  intros (x & -> & Hf & [(attempt & errno & ->)| ->]); cbn [outlived]; [destruct (errno =? 0)|].
  - by right.
  - left. eexists. split; [done|]. split; [done|]. left. eauto.
  - left. eexists. split; [done|]. split; [done|]. by right.
Qed.

Section alternatives.
Context `{KernelView E}.
Implicit Types (e : E).

Lemma gave_alt e e' fd b :
  gave e e' fd b ↔ world_ok e' ∧ (∀ k, drawn e' k = if decide (Some fd = Some k) then drawn e k ++ b else drawn e k) ∧
    (∀ k, sunk e' k = if decide (Some fd = Some k) then sunk e k ++ [] else sunk e k).
Proof.
  split; intros (Hw & Hd & Hs); (split; [done|]); (split; intros k; [rewrite Hd|rewrite Hs]); repeat case_decide; simplify_eq; by rewrite ?app_nil_r.
Qed.

Lemma took_alt e e' fd b :
  took e e' fd b ↔ world_ok e' ∧ (∀ k, drawn e' k = if decide (Some fd = Some k) then drawn e k ++ [] else drawn e k) ∧
    (∀ k, sunk e' k = if decide (Some fd = Some k) then sunk e k ++ b else sunk e k).
Proof.
  split; intros (Hw & Hd & Hs); (split; [done|]); (split; intros k; [rewrite ?Hs, ?Hd|rewrite ?Hd, ?Hs]); repeat case_decide; simplify_eq; by rewrite ?app_nil_r.
Qed.

Lemma gave_nothing e fd : world_ok e → gave e e fd [].
Proof. intros Hw. apply gave_alt. split; [done|]. split; intros k; case_decide; by rewrite ?app_nil_r. Qed.

End alternatives.

Section laws.
Context `{KernelLaws E} `{!Thread E T} (owns : Z → bool) `{!ThreadLaws E T owns}.
Implicit Types (e : E) (s : T) (w : beside T).

Lemma only_on_trans o e1 e2 e3 : only_on o e1 e2 → only_on o e2 e3 → only_on o e1 e3.
Proof. intros Ha Hb k Hk. destruct (Hb k Hk) as [-> ->]. by apply Ha. Qed.

Lemma thread_steps_spec n s :
  thread_ok s → faulted (E := E) (thread_steps n s) ∨
  ∃ s', thread_steps n s = Ok s' ∧ thread_ok s' ∧ only_on owns (thread_world s) (thread_world s').
Proof.
  revert s. induction n as [|n IH]; intros s Hs; simpl; [right; by exists s|].
  destruct (law_thread_step s Hs) as [Hf|(s1 & -> & Hs1 & Ho1)]; [by_fault Hf|]. cbn [mbind result_bind].
  destruct (IH s1 Hs1) as [Hf|(s2 & -> & Hs2 & Ho2)]; [by left|]. right. exists s2.
  split; [done|]. split; [done|]. by eapply only_on_trans.
Qed.

Lemma thread_join_spec fuel s :
  thread_ok s → faulted (E := E) (thread_join fuel s) ∨
  ∃ s', thread_join fuel s = Ok s' ∧ thread_ok s' ∧ only_on owns (thread_world s) (thread_world s').
Proof.
  revert s. induction fuel as [|fuel IH]; intros s Hs; simpl; destruct (thread_over s); try by (right; exists s).
  destruct (law_thread_step s Hs) as [Hf|(s1 & -> & Hs1 & Ho1)]; [by_fault Hf|]. cbn [mbind result_bind].
  destruct (IH s1 Hs1) as [Hf|(s2 & -> & Hs2 & Ho2)]; [by left|]. right. exists s2.
  split; [done|]. split; [done|]. by eapply only_on_trans.
Qed.

(** This thread sees what passes through its own descriptors; an exception that
    ended the other one was that of a failed call. *)
Definition beside_view : KernelView (beside T) := {|
  drawn w k := if owns k then [] else drawn (thread_world (other w)) k;
  sunk w k := if owns k then strayed w k else sunk (thread_world (other w)) k;
  world_ok w := thread_ok (other w) ∧ match terminated w with None => True | Some x => fault (E := E) x end;
  history w := history (thread_world (other w));
  fallible := fallible (E := E);
|}.

Lemma take_turn_spec w :
  world_ok (KernelView := beside_view) w →
  world_ok (KernelView := beside_view) (take_turn w) ∧ strayed (take_turn w) = strayed w ∧
  only_on owns (thread_world (other w)) (thread_world (other (take_turn w))).
Proof.
  intros [Hs Ht]. unfold take_turn. destruct (terminated w) eqn:Et; [split; [split; [done|by rewrite Et]|done]|].
  destruct (turns w) as [|n l]; [split; [split; [done|by rewrite Et]|done]|].
  destruct (thread_steps_spec n (other w) Hs) as [(x & -> & Hx)|(s' & -> & Hs' & Ho)]; by split.
Qed.

(** After the turn of the other thread, a call that changes only what passes
    through an own descriptor [fd]. *)
Lemma after_turn_spec {B} w (sys_call : E → sys B * E) (fd : option Z) (gives takes : sys B → bytes) (P : sys B → Prop) :
  world_ok (KernelView := beside_view) w → (∀ k, fd = Some k → owns k = false) →
  (∀ e, world_ok e → fails e (sys_call e) ∨ ∃ answer e', sys_call e = (answer, e') ∧ P answer ∧ world_ok e' ∧
     (∀ k, drawn e' k = if decide (fd = Some k) then drawn e k ++ gives answer else drawn e k) ∧
     (∀ k, sunk e' k = if decide (fd = Some k) then sunk e k ++ takes answer else sunk e k)) →
  fails (H := beside_view) w (after_turn w sys_call) ∨
  ∃ answer w', after_turn w sys_call = (answer, w') ∧ P answer ∧ world_ok (KernelView := beside_view) w' ∧
    (∀ k, drawn (KernelView := beside_view) w' k = if decide (fd = Some k) then drawn (KernelView := beside_view) w k ++ gives answer else drawn (KernelView := beside_view) w k) ∧
    (∀ k, sunk (KernelView := beside_view) w' k = if decide (fd = Some k) then sunk (KernelView := beside_view) w k ++ takes answer else sunk (KernelView := beside_view) w k).
Proof.
  intros Hw Hfd Hc. destruct (take_turn_spec w Hw) as (Hw1 & Hst & Ho). unfold after_turn.
  assert (Hsame : ∀ k, drawn (KernelView := beside_view) (take_turn w) k = drawn (KernelView := beside_view) w k ∧
    sunk (KernelView := beside_view) (take_turn w) k = sunk (KernelView := beside_view) w k).
  { intros k. simpl. rewrite Hst. destruct (owns k) eqn:Ek; [done|by apply Ho]. }
  destruct (terminated (take_turn w)) eqn:Et.
  { left. pose proof Hw1 as [_ Hx]. rewrite Et in Hx. destruct Hx as [Hfal _]. split; [exact Hfal|]. eexists 0, _. split; [done|]. split; [exact Hw1|]. split; intros k; apply Hsame. }
  destruct Hw1 as [Hs _].
  destruct (Hc (thread_world (other (take_turn w)))) as [Hf|(answer & e' & -> & HP & Hw' & Hd' & Hs')]; [by apply law_thread_world| |].
  { left. destruct Hf as (Hf & n & e' & -> & Hw' & Hd' & Hs'). split; [exact Hf|]. eexists n, _. split; [done|].
    destruct (law_with_world (other (take_turn w)) e' Hs Hw') as [Hok Hworld]; [by split|].
    split; [by split|]. split; intros k; destruct (Hsame k) as [Hsd Hss]; simpl in *; rewrite Hworld, ?Hd', ?Hs';
      [exact Hsd|exact Hss]. }
  right. eexists answer, _. split; [done|]. split; [done|].
  destruct (law_with_world (other (take_turn w)) e' Hs Hw') as [Hok Hworld].
  { intros k Hk. apply negb_false_iff in Hk. rewrite Hd', Hs'. destruct (decide (fd = Some k)) as [E1|]; [|done].
    apply Hfd in E1. congruence. }
  split; [by split|]. simpl. rewrite Hworld.
  split; intros k; destruct (owns k) eqn:Ek.
  - rewrite decide_False; [done|]. intros E1. apply Hfd in E1. congruence.
  - rewrite Hd'. by rewrite (proj1 (Ho k Ek)).
  - rewrite decide_False; [by rewrite Hst|]. intros E1. apply Hfd in E1. congruence.
  - rewrite Hs'. by rewrite (proj2 (Ho k Ek)).
Qed.

Local Abbreviation seen := beside_view.

(** A call that leaves all descriptors as they were. *)
Lemma idle_call {B} w (sys_call : E → sys B * E) (P : sys B → Prop) :
  world_ok (KernelView := seen) w →
  (∀ e, world_ok e → fails e (sys_call e) ∨ ∃ answer e', sys_call e = (answer, e') ∧ P answer ∧ idle e e') →
  fails (H := seen) w (after_turn w sys_call) ∨
  ∃ answer w', after_turn w sys_call = (answer, w') ∧ P answer ∧ idle (H := seen) w w'.
Proof.
  intros Hw Hc. destruct (after_turn_spec w sys_call None (λ _, []) (λ _, []) P Hw) as [Hf|(a & w' & Ew & HP & Hw' & Hd & Hs)]; [done| |by left|].
  - intros e He. destruct (Hc e He) as [Hf|(a & e' & Ea & HP & Hw' & Hd & Hs)]; [by left|right]. by exists a, e'.
  - right. exists a, w'. split; [done|]. split; [done|]. by split.
Qed.

Lemma own_call {B} w fd (sys_call : E → sys B * E) (P : B → Prop) (nothing : B) :
  world_ok (KernelView := seen) w → P nothing →
  (∀ e, world_ok e → fails e (sys_call e) ∨ ∃ b e', sys_call e = (Returned b, e') ∧ P b ∧ idle e e') →
  fails (H := seen) w (on_own owns w fd nothing sys_call) ∨
  ∃ b w', on_own owns w fd nothing sys_call = (Returned b, w') ∧ P b ∧ idle (H := seen) w w'.
Proof.
  intros Hw HP Hc. unfold on_own. destruct (owns fd); [right; by exists nothing, w|].
  destruct (idle_call w sys_call (λ a, ∃ b, a = Returned b ∧ P b) Hw) as [Hf|(a & w' & -> & (b & -> & Hb) & Hi)]; [|by left|right; by exists b, w'].
  intros e He. destruct (Hc e He) as [Hf|(b & e' & -> & Hb & Hi)]; [by left|right]. exists (Returned b), e'. eauto.
Qed.

Lemma on_own_idle w fd (sys_call : E → sys Z * E) :
  world_ok (KernelView := seen) w →
  (∀ e, world_ok e → fails e (sys_call e) ∨ ∃ e', sys_call e = (Returned 0, e') ∧ idle e e') →
  fails (H := seen) w (on_own owns w fd 0 sys_call) ∨
  ∃ w', on_own owns w fd 0 sys_call = (Returned 0, w') ∧ idle (H := seen) w w'.
Proof.
  intros Hw Hc. destruct (own_call w fd sys_call (λ b, b = 0) 0 Hw eq_refl) as [?|(b & w' & -> & -> & Hi)]; [|by left|right; by exists w'].
  intros e He. destruct (Hc e He) as [?|(e' & -> & Hi)]; [by left|right; by exists 0, e'].
Qed.

(** The other thread's rounds change nothing that this one sees, so that what the
    kernel promises is promised here too. *)
Lemma beside_laws : @KernelLaws (beside T) (beside_kernel owns) seen.
Proof.
  split.
  - intros w fd [Hs _]. simpl. destruct (owns fd); [done|]. by apply law_bound, law_thread_world.
  - intros w fd n Hw Hn. simpl. unfold on_own. destruct (owns fd) eqn:Ef.
    { right. exists [], w. split; [done|]. split; [done|]. apply gave_nothing. done. }
    destruct (after_turn_spec w (λ e, sys_read e fd n) (Some fd) (λ a, match a with Returned b => b | _ => [] end) (λ _, [])
      (λ a, ∃ b, a = Returned b ∧ blen b <= n) Hw) as [Hf|(a & w' & -> & (b & -> & Hb) & Hw' & Hd & Hs)].
    { by intros k [= <-]. }
    { intros e He. destruct (law_read e fd n He Hn) as [?|(b & e' & -> & Hb & Hg)]; [by left|right]. eexists _, e'. split; [done|].
      split; [by eexists|]. by apply gave_alt. }
    { by left. }
    right. exists b, w'. split; [done|]. split; [done|]. by apply (gave_alt (H := seen)).
  - intros w fd l Hw. simpl. destruct (owns fd) eqn:Ef.
    { right. eexists _, _. split; [done|]. split; [|split; [exact Hw|]].
      - case_decide as El; [by rewrite El|]. pose proof (blen_nonneg (mjoin l)).
        destruct (Z.eq_dec (blen (mjoin l)) 0) as [E0|]; [by apply blen_0_nil in E0|lia].
      - rewrite ztake_all by done. split; [|done]. intros k. simpl. destruct (decide (k = fd)) as [->|]; [by rewrite Ef|done]. }
    destruct (after_turn_spec w (λ e, sys_writev e fd l) (Some fd) (λ _, []) (λ a, match a with Returned n => ztake n (mjoin l) | _ => [] end)
      (λ a, ∃ n, a = Returned n ∧ if decide (mjoin l = []) then n = 0 else 0 < n <= blen (mjoin l)) Hw)
      as [Hf|(a & w' & -> & (n & -> & Hn) & Hw' & Hd & Hs)].
    { by intros k [= <-]. }
    { intros e He. destruct (law_writev e fd l He) as [?|(n & e' & -> & Hn & Hg)]; [by left|right]. eexists _, e'. split; [done|].
      split; [by eexists|]. by apply took_alt. }
    { by left. }
    right. exists n, w'. split; [done|]. split; [done|]. by apply (took_alt (H := seen)).
  - intros w fd how Hw. apply on_own_idle; [done|]. intros e He. by apply law_shutdown.
  - intros w fd Hw. apply on_own_idle; [done|]. intros e He. by apply law_close.
  - intros w fd Hw. destruct (own_call w fd (λ e, sys_getfl e fd) (λ _, True) 0 Hw I) as [?|(flags & w' & ? & _ & ?)];
      [|by left|right; by exists flags, w'].
    intros e He. destruct (law_getfl e fd He) as [?|(flags & e' & -> & Hi)]; [by left|right; by exists flags, e'].
  - intros w fd flags Hw. apply on_own_idle; [done|]. intros e He. by apply law_setfl.
  - intros w l timeout Hw. destruct (idle_call w (λ e, sys_poll e l timeout) (λ answer, match answer with
      | Returned (_, revs) => length revs = length l ∧ (fallible (E := E) ∨ Forall (λ v, Z.land v 0x28 = 0) revs) | Failed _ => True end) Hw)
      as [(_ & n & w' & Ew & Hi)|(a & w' & Ew & HP & Hi)]; [|by exists (Failed n), w'|by exists a, w'].
    intros e He. right. destruct (law_poll e l timeout He) as (answer & e' & -> & Hi & HP). by exists answer, e'.
  - intros w Hw. simpl. destruct (take_turn_spec w Hw) as ([Hs Ht] & Hst & Ho).
    destruct (law_clock (thread_world (other (take_turn w)))) as (now & e' & -> & Hw' & Hd & Hk); [by apply law_thread_world|].
    eexists now, _. split; [done|]. destruct (law_with_world (other (take_turn w)) e' Hs Hw') as [Hok Hworld]; [by split|].
    split; [done|]. simpl. rewrite Hworld. split; intros k; destruct (owns k) eqn:Ek; rewrite ?Hst; try done.
    + rewrite Hd. apply (Ho k Ek).
    + rewrite Hk. apply (Ho k Ek).
Qed.

End laws.
