(* ===== verification/SocketThread.v ===== *)
(** * The thread of a socket beside its owner: _tcp_main of tcp_sponge_socket.cc

    The thread that [connect] and [listen_and_accept] start, round by round, as an
    instance of [Thread]; and a stream copy that runs beside it: the owner reads
    and writes at one end of the socket pair, the thread at the other. *)

From S2P Require Import Prelude Buffers Wrapping Stream Reassembly ReassemblySpec Segment Receiver Sender SenderSpec.
From S2P Require Import Connection ConnectionSpec EndToEnd Adapters AdaptersSpec Robustness.
From S2P Require Import Descriptors Events Sockets Pipes StreamCopy SpongeSocket SpongeSocketSpec Threads.

Module SocketThread.

Section thread.
Context `{StreamReassembler.EndKey} `{Kernel E} `{!Adapt E A}.
Context (abort : E → bool).

(** How far the thread has come: not yet in its loop, before a round of the loop
    with the rules that are left and the time of the last tick, or at its end. *)
Inductive stage :=
  | Starting (rules : list (EventLoop.Rule (TCPSpongeSocket.t E A)))
  | Running (rules : list (EventLoop.Rule (TCPSpongeSocket.t E A))) (base_time : Z)
  | Over.

Definition t : Type := TCPSpongeSocket.t E A * stage.

Definition set_world (s : TCPSpongeSocket.t E A) (e : E) : TCPSpongeSocket.t E A :=
  TCPSpongeSocket.with_owner s e (TCPSpongeSocket.owner s).

(** [_tcp_main] up to its loop, one round of the loop, and after it what is behind
    the loop. *)
Definition step (x : t) : result t :=
  let '(s, st) := x in
  match st with
  | Starting rules =>
      match TCPSpongeSocket.tcp s with
      | None => Err (runtime_error "no TCP")
      | Some _ => let '(e, base_time) := timestamp_ms (TCPSpongeSocket.world s) in Ok (set_world s e, Running rules base_time)
      end
  | Running rules base_time =>
      '(s, rules, ret) ← EventLoop.wait_next_event TCPSpongeSocket.descr TCPSpongeSocket.poll s rules TCPSpongeSocket.TCP_TICK_MS;
      if (match ret with EventLoop.Exit => true | _ => false end) || abort (TCPSpongeSocket.world s)
      then s ← TCPSpongeSocket.finish s; Ok (s, Over)
      else '(s, base_time) ← TCPSpongeSocket.tick s base_time; Ok (s, Running rules base_time)
  | Over => Ok (s, Over)
  end.

Definition over (x : t) : bool := match x.2 with Over => true | _ => false end.

#[export] Instance socket_thread : Thread E t := {
  thread_world x := TCPSpongeSocket.world x.1;
  with_world x e := (set_world x.1 e, x.2);
  thread_step := step;
  thread_over := over;
}.

End thread.

Arguments stage : clear implicits.
Arguments t : clear implicits.

End SocketThread.

(** Joining the thread is the [join] of the socket. *)
Lemma thread_join_join `{StreamReassembler.EndKey} `{Kernel E} `{!Adapt E A} (abort : E → bool) fuel (s : TCPSpongeSocket.t E A) rules base_time :
  TCPSpongeSocket.join abort fuel s (Some (rules, base_time)) =
    ('(s, st) ← thread_join (H := SocketThread.socket_thread abort) fuel (s, SocketThread.Running rules base_time);
     Ok (s, SocketThread.over (s, st))).
Proof.
  unfold TCPSpongeSocket.join. revert s rules base_time. induction fuel as [|fuel IH]; intros s rules base_time; [done|].
  cbn [TCPSpongeSocket.rounds thread_join mbind result_bind negb]. 
  cbn [thread_over SocketThread.socket_thread SocketThread.over snd thread_step SocketThread.step].
  destruct (EventLoop.wait_next_event _ _ _ _ _) as [[[s1 rules1] ret]|x]; [|done]. cbn [mbind result_bind].
  destruct (_ || _); cbn [mbind result_bind negb].
  - destruct (TCPSpongeSocket.finish s1) as [s2|x]; [|done]. cbn [mbind result_bind]. by destruct fuel.
  - destruct (TCPSpongeSocket.tick s1 base_time) as [[s2 next]|x]; [|done]. cbn [mbind result_bind]. apply IH.
Qed.

(** ** The promises of the thread *)

Section promises.
Context `{EndKeyFresh} `{KernelLaws E} `{!Adapt E A} `{!AdaptLaws E A}.
Context (abort : E → bool).
Context (isn0 : WrappingInt32.t) (d : bytes) (ended : bool) (dg th : Z) (e0 : E).
Context (Hisn : WrappingInt32.ok isn0) (Hd : blen d < 0x7ffffff0) (Hfds : dg ≠ th).
Context (Hnet : honest_network (E := E) (A := A) isn0 d ended dg).
Implicit Types (s : TCPSpongeSocket.t E A) (x : SocketThread.t E A).

#[local] Existing Instance SocketThread.socket_thread.

(** The descriptors of the thread. *)
Definition thread_owns (k : Z) : bool := (k =? dg) || (k =? th).

Lemma thread_owns_false k : thread_owns k = false ↔ k ≠ dg ∧ k ≠ th.
Proof. unfold thread_owns. rewrite orb_false_iff, !Z.eqb_neq. done. Qed.

(** What has passed between the owner and the thread since [e0]: the owner was
    given [got], of the peer's stream, and [sent] was taken from it. *)
Definition exchanged (e : E) (got sent : bytes) : Prop :=
  sunk e th = sunk e0 th ++ got ∧ got `prefix_of` d ∧ drawn e th = drawn e0 th ++ sent.

Definition stage_ok x : Prop :=
  match x.2 with
  | SocketThread.Starting rules | SocketThread.Running rules _ =>
      live isn0 d ended dg th e0 (TCPSpongeSocket.world x.1) x.1 ∧ sublist rules (TCPSpongeSocket.rules dg th)
  | SocketThread.Over => world_ok (TCPSpongeSocket.world x.1) ∧ TCPSpongeSocket.tcp x.1 = None ∧
      ∃ got sent, exchanged (TCPSpongeSocket.world x.1) got sent
  end.

Lemma live_since s e1 : live isn0 d ended dg th e0 e1 s → live isn0 d ended dg th e0 (TCPSpongeSocket.world s) s.
Proof. by intros []. Qed.

Lemma live_elsewhere s e1 e :
  live isn0 d ended dg th e0 e1 s → world_ok e → drawn e th = drawn (TCPSpongeSocket.world s) th →
  sunk e th = sunk (TCPSpongeSocket.world s) th → live isn0 d ended dg th e0 e (SocketThread.set_world s e).
Proof. intros [] Hw Hdr Hsk. split; simpl; try done. by rewrite Hdr, Hsk. Qed.

Lemma untouched_only_on (e e' : E) : untouched dg th e e' → only_on thread_owns e e'.
Proof. intros Hu k Hk. apply thread_owns_false in Hk as [? ?]. by apply Hu. Qed.

Lemma rules_kept e1 rules :
  sublist rules (TCPSpongeSocket.rules dg th) → Forall (rule_ok TCPSpongeSocket.descr (live isn0 d ended dg th e0 e1)) rules.
Proof.
  intros Hsub. apply Forall_forall. intros r Hr. pose proof (elem_of_sublist _ _ _ Hr Hsub) as Hin.
  pose proof (socket_rules_ok isn0 d ended dg th e0 e1 Hisn Hd Hfds Hnet) as Hall. rewrite Forall_forall in Hall. by apply Hall.
Qed.

Lemma stage_step x :
  stage_ok x → faulted (E := E) (SocketThread.step abort x) ∨
  ∃ x', SocketThread.step abort x = Ok x' ∧ stage_ok x' ∧
    only_on thread_owns (TCPSpongeSocket.world x.1) (TCPSpongeSocket.world x'.1).
Proof.
  destruct x as [s [rules|rules base_time|]]; intros Hx; [| |right; by eexists].
  - destruct Hx as [Hs Hsub]. simpl in Hs. destruct (live_owner _ _ _ _ _ _ _ s Hs) as (c & _ & _ & Ec & _). simpl. rewrite Ec.
    destruct (timestamp_spec (TCPSpongeSocket.world s) (lv_world _ _ _ _ _ _ _ _ Hs)) as (e & now & -> & _ & Hi).
    pose proof (idle_untouched dg th _ _ Hi) as Hu. destruct Hi as (Hw & Hdr & Hsk).
    right. eexists. split; [done|]. split; [split; [|done]|by apply untouched_only_on]. simpl. by eapply live_elsewhere.
  - destruct Hx as [Hs Hsub]. simpl in Hs, Hsub. cbn [SocketThread.step].
    destruct (wait_next_event_invariant _ _ _ s rules TCPSpongeSocket.TCP_TICK_MS (socket_poll_ok isn0 d ended dg th e0 _) Hs
      (rules_kept _ rules Hsub)) as [Hf|(s1 & rules1 & ret & -> & Hs1 & _ & Hsub1)]; [by_fault Hf|]. cbn [mbind result_bind].
    pose proof (untouched_only_on _ _ (lv_others _ _ _ _ _ _ _ _ Hs1)) as Ho1. destruct (_ || _).
    + destruct (finish_live _ _ _ _ _ _ _ s1 Hs1) as [Hf|(s2 & -> & Htcp & Hi)]; [by_fault Hf|]. cbn [mbind result_bind].
      destruct (live_owner _ _ _ _ _ _ _ s1 Hs1) as (c & got & sent & _ & Hg & Hp & Hse & _).
      pose proof (idle_untouched dg th _ _ Hi) as Hu. destruct Hi as (Hw & Hdr & Hsk).
      right. eexists. split; [done|]. split; [|eapply only_on_trans; [done|by apply untouched_only_on]].
      split; [done|]. split; [done|]. exists got, sent. unfold exchanged. simpl. by rewrite Hdr, Hsk.
    + destruct (tick_live isn0 d ended dg th e0 _ Hfds s1 base_time Hs1) as [Hf|(s2 & next & -> & Hs2)]; [by_fault Hf|]. cbn [mbind result_bind].
      right. eexists. split; [done|]. split; [|by apply untouched_only_on, (lv_others _ _ _ _ _ _ _ _ Hs2)].
      split; [by eapply live_since|]. simpl. by etransitivity.
Qed.

#[export] Program Instance socket_thread_laws :
  ThreadLaws (H0 := SocketThread.socket_thread abort) E (SocketThread.t E A) thread_owns := {| thread_ok := stage_ok |}.
Next Obligation. intros [s [rules|rules base_time|]] Hx; [destruct Hx as [[] _]..|]; [done|done|apply Hx]. Qed.
Next Obligation. exact stage_step. Qed.
Next Obligation.
  intros [s st] e Hx Hw Hk. split; [|done].
  destruct (Hk th) as [Hdr Hsk]; [unfold thread_owns; by rewrite Z.eqb_refl, orb_true_r|]. simpl in Hdr, Hsk.
  destruct st; simpl in *; [destruct Hx; split; [by eapply live_elsewhere|done]..|].
  destruct Hx as (_ & Htcp & got & sent & Hex). split; [done|]. split; [done|]. exists got, sent. unfold exchanged in *. simpl. by rewrite Hdr, Hsk.
Qed.

(** At any time: what the owner was given and what was taken from it, and the
    connection while it lasts. *)
Lemma stage_exchanged x :
  stage_ok x → ∃ got sent, exchanged (TCPSpongeSocket.world x.1) got sent ∧
    match TCPSpongeSocket.tcp x.1 with
    | Some c => ByteStream.rep (TCPSender.stream_in (TCPConnection.sender c)) sent ∧
        (ByteStream.eof (TCPConnection.inbound_stream c) = true → got = d)
    | None => SocketThread.over x = true
    end.
Proof.
  assert (Hlive : ∀ s e1, live isn0 d ended dg th e0 e1 s → ∃ got sent, exchanged (TCPSpongeSocket.world s) got sent ∧
    match TCPSpongeSocket.tcp s with
    | Some c => ByteStream.rep (TCPSender.stream_in (TCPConnection.sender c)) sent ∧
        (ByteStream.eof (TCPConnection.inbound_stream c) = true → got = d)
    | None => False
    end).
  { intros s e1 Hs. destruct (live_owner _ _ _ _ _ _ _ s Hs) as (c & got & sent & -> & Hg & Hp & Hse & Hrest). by exists got, sent. }
  destruct x as [s st]. destruct st; cbn [stage_ok fst snd];
    [intros [Hs _]; destruct (Hlive s _ Hs) as (got & sent & Hex & Hc); exists got, sent; by destruct (TCPSpongeSocket.tcp s)..|].
  intros (_ & -> & got & sent & Hex). by exists got, sent.
Qed.

End promises.
