(* ===== verification/TcpPrograms.v ===== *)
(** * A stream copy over a TCP of one's own: main of apps/tcp_udp.cc, apps/tcp_ipv4.cc and apps/tcp_ip_ethernet.cc

    The three programs read their options, open a socket over UDP, a TUN or a TAP
    device, connect or listen, and then copy between the terminal and the socket
    while the thread of the socket runs; at the end they wait for it. *)

From S2P Require Import Prelude Buffers Wrapping Stream Reassembly ReassemblySpec Segment Receiver Sender SenderSpec Printing.
From S2P Require Import Connection ConnectionSpec EndToEnd Link Netif Addresses Adapters AdaptersSpec Robustness.
From S2P Require Import Usage Descriptors Events Options Sockets Resolve Pipes StreamCopy SpongeSocket SpongeSocketSpec Threads SocketThread.

Section conversation.
Context `{StreamReassembler.EndKey} `{Kernel E} `{!Adapt E A}.
Context (abort : E → bool).

(** How far a program has come: the call that opens the connection, the copy, or
    the wait for the end has not returned yet; or all of them have. *)
Inductive phase := Opening | Copying | Closing | Closed.

(** What a program does with its socket once the call that opens the connection has
    returned, if it has. The copy uses the owner's handle [socket], which opening
    the connection does not; it runs for at most [fuel_copy] rounds beside the
    thread, which takes the turns that [schedule] gives it, and the thread is waited
    for for at most [fuel_close] rounds. An exception in the thread, which rethrows
    it, ends the process. *)
Definition talk (fuel_copy fuel_close : nat) (schedule : list nat) (socket : FileDescriptor.t) (s : TCPSpongeSocket.t E A)
    (rules : list (EventLoop.Rule (TCPSpongeSocket.t E A))) (opened : bool) : result (TCPSpongeSocket.t E A * phase) :=
  if negb opened then Ok (s, Opening)
  else
    let owns := thread_owns (FileDescriptor.fd_num (TCPSpongeSocket.datagram_fd s)) (FileDescriptor.fd_num (TCPSpongeSocket.thread_data s)) in
    let thread := SocketThread.socket_thread abort in
    let both := beside_kernel (H0 := thread) owns in
    '(copy, _, returned) ← outlived (StreamCopy.bidirectional_stream_copy (H := both) fuel_copy
      (start_beside (s, SocketThread.Starting rules) schedule) socket);
    let handled (w : beside (SocketThread.t E A)) f := TCPSpongeSocket.with_owner (other w).1 (TCPSpongeSocket.world (other w).1) f in
    match terminated (StreamCopy.world copy) with Some _ => Err terminate_called | None =>
    if negb returned then Ok (handled (StreamCopy.world copy) (StreamCopy.socket copy), Copying)
    else
      '(w, f) ← outlived (Socket.shutdown (H := both) (StreamCopy.world copy) (StreamCopy.socket copy) Socket.SHUT_RDWR);
      match thread_join (H := thread) fuel_close (handled w f, (other w).2) with
      | Ok (s, st) => Ok (s, if SocketThread.over (s, st) then Closed else Closing)
      | Err _ => Err terminate_called
      end
    end.

(** What all three programs do: connect or listen, for at most [fuel_open] rounds,
    and talk. *)
Definition converse (listens : bool) (fuel_open fuel_copy fuel_close : nat) (schedule : list nat) (s : TCPSpongeSocket.t E A)
    (c_fsm : TCPConfig.t) (c_filt : FdAdapterConfig.t) (random : Z) : result (TCPSpongeSocket.t E A * phase) :=
  let socket := TCPSpongeSocket.owner s in
  '(s, rules, opened) ← opening abort listens fuel_open s c_fsm c_filt random;
  talk fuel_copy fuel_close schedule socket s rules opened.

End conversation.

(** ** The programs *)

(** What a program has done: printed its usage and exited, or had a conversation. *)
Inductive run (S : Type) :=
  | Exited (code : Z) (text : string)
  | Talked (s : S) (ph : phase).
Arguments Exited {S}.
Arguments Talked {S}.

(** The status of the process, when it has ended and [std::terminate] has not ended
    it: an exception is reported and makes it a failure. *)
Definition exit_code {S} (r : result (run S)) : option Z :=
  match r with
  | Ok (Exited code _) => Some code
  | Ok (Talked _ Closed) => Some EXIT_SUCCESS
  | Ok (Talked _ _) | Err terminate_called => None
  | Err _ => Some EXIT_FAILURE
  end.

Definition MISSING : string := "ERROR: required arguments are missing.".

(** The message is a null pointer when help was asked for. *)
Definition exit_message (x : exit_status) : option string :=
  if code x =? 0 then None else Some (String.string_of_list_byte (message x)).

Section programs.
Context `{StreamReassembler.EndKey} `{Kernel E} `{!SocketCalls E}.
Context (abort : E → bool) (strtol loss_rate : bytes → Z) (resolve : bytes → bytes → result Address.t).
Context (fuel_open fuel_copy fuel_close : nat) (schedule : list nat).

Definition text (s : bytes) : string := String.string_of_list_byte s.

(** *** tcp_udp. [rng] is the generator of the adapter. *)
Section udp.
Context {Rng : Type} (rand : Rng → Z * Rng).

Definition udp_socket (e : E) (listens : bool) (c_filt : FdAdapterConfig.t) (rng : Rng)
    : result (TCPSpongeSocket.t E (LossyFdAdapter.t TCPOverUDPSocketAdapter.t Rng)) :=
  '(e, udp_sock) ← UDPSocket.new e;
  e ← (if listens then raw ← raw_of (FdAdapterConfig.source c_filt); BaseSocket.bind e udp_sock raw else Ok e);
  TCPSpongeSocket.new e udp_sock (LossyFdAdapter.mk rng (FdAdapterBase.default : TCPOverUDPSocketAdapter.t)).

Definition udp_main (e : E) (rng : Rng) (random : Z) (argv0 : bytes) (args : list bytes)
    : result (run (TCPSpongeSocket.t E (LossyFdAdapter.t TCPOverUDPSocketAdapter.t Rng))) :=
  if (length args <? 2)%nat then Ok (Exited 1 (udp_show_usage (text argv0) (Some MISSING)))
  else
    config ← udp_get_config strtol loss_rate resolve args;
    match config with
    | inl x => Ok (Exited (code x) (udp_show_usage (text argv0) (exit_message x)))
    | inr (c_fsm, c_filt, listens) =>
        s ← udp_socket e listens c_filt rng;
        '(s, ph) ← converse (Adapt0 := adapt_lossy rand) abort listens fuel_open fuel_copy fuel_close schedule s c_fsm c_filt random;
        Ok (Talked s ph)
    end.

(** *** tcp_ipv4. The source port is drawn before the options are read. *)
Definition ipv4_socket (e : E) (tun_dev_name : option bytes) (rng : Rng)
    : result (TCPSpongeSocket.t E (LossyFdAdapter.t TCPOverIPv4OverTunFdAdapter.t Rng)) :=
  '(e, tun) ← TunTapFD.new e (match tun_dev_name with Some name => name | None => opt TUN_DFLT end) true;
  TCPSpongeSocket.new e tun (LossyFdAdapter.mk rng (FdAdapterBase.default : TCPOverIPv4OverTunFdAdapter.t)).

Definition ipv4_main (e : E) (rng : Rng) (port_random random : Z) (argv0 : bytes) (args : list bytes)
    : result (run (TCPSpongeSocket.t E (LossyFdAdapter.t TCPOverIPv4OverTunFdAdapter.t Rng))) :=
  if (length args <? 2)%nat then Ok (Exited EXIT_FAILURE (ipv4_show_usage (text argv0) (Some MISSING)))
  else
    config ← ipv4_get_config strtol loss_rate resolve (opt (to_string (w16 port_random))) args;
    match config with
    | inl x => Ok (Exited (code x) (ipv4_show_usage (text argv0) (exit_message x)))
    | inr (c_fsm, c_filt, listens, tun_dev_name) =>
        s ← ipv4_socket e tun_dev_name rng;
        '(s, ph) ← converse (Adapt0 := adapt_lossy rand) abort listens fuel_open fuel_copy fuel_close schedule s c_fsm c_filt random;
        Ok (Talked s ph)
    end.

End udp.

(** *** tcp_ip_ethernet. The constructor of the adapter writes a frame. *)
Definition ethernet_socket (e : E) (tap_dev_name : bytes) (local_ethernet_address : EthernetAddress) (source next_hop : Address.t)
    : result (TCPSpongeSocket.t E TCPOverIPv4OverEthernetAdapter.t) :=
  '(e, tap) ← TunTapFD.new e tap_dev_name false;
  let '(a, frames) := TCPOverIPv4OverEthernetAdapter.new local_ethernet_address source next_hop in
  '(e, tap) ← write_frames e tap frames;
  TCPSpongeSocket.new e tap a.

Definition ethernet_main (e : E) (address_random : nat → Z) (port_random random : Z) (argv0 : bytes) (args : list bytes)
    : result (run (TCPSpongeSocket.t E TCPOverIPv4OverEthernetAdapter.t)) :=
  if (length args <? 2)%nat then Ok (Exited EXIT_FAILURE (ethernet_show_usage (text argv0) (Some MISSING)))
  else
    let local_ethernet_address := random_private_ethernet_address address_random in
    config ← ethernet_get_config strtol resolve (opt (to_string (w16 port_random))) args;
    match config with
    | inl x => Ok (Exited (code x) (ethernet_show_usage (text argv0) (exit_message x)))
    | inr (c_fsm, c_filt, next_hop, tap_dev_name) =>
        s ← ethernet_socket e tap_dev_name local_ethernet_address (FdAdapterConfig.source c_filt) next_hop;
        '(s, ph) ← converse abort false fuel_open fuel_copy fuel_close schedule s c_fsm c_filt random;
        Ok (Talked s ph)
    end.

End programs.

(** ** What passes through *)

Section passing.
Context `{EndKeyFresh} `{KernelLaws E} `{!Adapt E A} `{!AdaptLaws E A}.
Context (abort : E → bool).
Context (isn0 : WrappingInt32.t) (d : bytes) (ended : bool).
Context (Hisn : WrappingInt32.ok isn0) (Hd : blen d < 0x7ffffff0).

(** The two ends of a socket pair, of which nothing has been used: what comes out
    at one end went in at the other, in order (socketpair(2), unix(7)). *)
Record joined (e0 : E) (a b : Z) : Prop := mk_joined {
  jo_there : ∀ e, world_ok e → drawn e a `prefix_of` sunk e b;
  jo_back : ∀ e, world_ok e → drawn e b `prefix_of` sunk e a;
  jo_unused : drawn e0 a = [] ∧ drawn e0 b = [] ∧ sunk e0 a = [] ∧ sunk e0 b = [];
}.

(** The descriptors of the terminal and of a socket are different. *)
Definition apart (s : TCPSpongeSocket.t E A) : Prop :=
  NoDup [StreamCopy.STDIN_FILENO; StreamCopy.STDOUT_FILENO; FileDescriptor.fd_num (TCPSpongeSocket.owner s);
         FileDescriptor.fd_num (TCPSpongeSocket.datagram_fd s); FileDescriptor.fd_num (TCPSpongeSocket.thread_data s)].

(** What has passed between the terminal and the connection since [e0]: [typed]
    was read from standard input and [sent] of it is with the connection; [shown],
    of the peer's stream, was printed. *)
Record passed (e0 e : E) (th : Z) (typed sent shown : bytes) : Prop := mk_passed {
  pa_typed : drawn e StreamCopy.STDIN_FILENO = drawn e0 StreamCopy.STDIN_FILENO ++ typed;
  pa_sent : drawn e th = sent;
  pa_order : sent `prefix_of` typed;
  pa_shown : sunk e StreamCopy.STDOUT_FILENO = sunk e0 StreamCopy.STDOUT_FILENO ++ shown;
  pa_peer : shown `prefix_of` d;
  pa_world : world_ok e;
}.

Lemma passed_through e0 e ow th got sent out_rest in_rest :
  joined e0 ow th → world_ok e → exchanged d th e0 e got sent →
  copied e0 e StreamCopy.STDIN_FILENO ow out_rest → copied e0 e ow StreamCopy.STDOUT_FILENO in_rest →
  ∃ typed shown, passed e0 e th typed sent shown.
Proof.
  intros [Hab Hba (Ha & Hb & Hsa & Hsb)] Hw (Hg & Hp & Hs) (wo & Hdi & Hso) (wi & Hdo & Hst).
  pose proof (Hab e Hw) as Hthere. pose proof (Hba e Hw) as Hback. rewrite Hb in Hs. rewrite Hsb in Hg. rewrite Ha in Hdo. rewrite Hsa in Hso.
  simpl in *. exists (wo ++ out_rest), wi. split; try done.
  - rewrite Hs, Hso in Hback. etransitivity; [exact Hback|by exists out_rest].
  - rewrite Hdo, Hg in Hthere. transitivity (wi ++ in_rest); [by exists in_rest|]. by etransitivity.
Qed.

Lemma copied_only_on (e0 e e' : E) owns from to rest :
  only_on owns e e' → owns from = false → owns to = false → copied e0 e from to rest → copied e0 e' from to rest.
Proof. intros Ho Hf Ht (w & Hd' & Hs'). exists w. by rewrite (proj1 (Ho from Hf)), (proj2 (Ho to Ht)). Qed.

(** Nothing of the terminal or of the owner's end is used while the connection is
    being opened. *)
Lemma copied_untouched (e0 e : E) dg th from to :
  untouched dg th e0 e → from ≠ dg → from ≠ th → to ≠ dg → to ≠ th → copied e0 e from to [].
Proof.
  intros Hu Hf1 Hf2 Ht1 Ht2. exists []. rewrite !app_nil_r. split; [apply (Hu from Hf1 Hf2)|apply (Hu to Ht1 Ht2)].
Qed.

Lemma copied_since (e0 e1 e : E) dg th from to rest :
  untouched dg th e0 e1 → from ≠ dg → from ≠ th → to ≠ dg → to ≠ th → copied e1 e from to rest → copied e0 e from to rest.
Proof.
  intros Hu Hf1 Hf2 Ht1 Ht2 (w & Hf & Ht). exists w. by rewrite <- (proj1 (Hu from Hf1 Hf2)), <- (proj2 (Hu to Ht1 Ht2)).
Qed.

Section whole.
Context (s : TCPSpongeSocket.t E A).

Local Abbreviation dg := (FileDescriptor.fd_num (TCPSpongeSocket.datagram_fd s)).
Local Abbreviation th := (FileDescriptor.fd_num (TCPSpongeSocket.thread_data s)).
Local Abbreviation ow := (FileDescriptor.fd_num (TCPSpongeSocket.owner s)).
Local Abbreviation e0 := (TCPSpongeSocket.world s).

(** A conversation from [s] goes well: nothing is thrown, unless a system call
    fails, and it leaves what is said here of the terminal and the connection. *)
Definition goes_well (r : result (TCPSpongeSocket.t E A * phase)) : Prop :=
  faulted (E := E) r ∨ aborted (E := E) r ∨ ∃ s' ph typed sent shown,
    r = Ok (s', ph) ∧ passed e0 (TCPSpongeSocket.world s') th typed sent shown ∧
    (ph = Opening → typed = [] ∧ shown = []) ∧ (ph = Closed → TCPSpongeSocket.tcp s' = None) ∧
    match TCPSpongeSocket.tcp s' with
    | Some c => ByteStream.rep (TCPSender.stream_in (TCPConnection.sender c)) sent
    | None => ph ≠ Opening
    end.

Context (Hnet : honest_network (E := E) (A := A) isn0 d ended dg) (Hs : fresh_socket s) (Hapart : apart s) (Hpair : joined e0 ow th).

Lemma apart_cases :
  ow ≠ StreamCopy.STDIN_FILENO ∧ ow ≠ StreamCopy.STDOUT_FILENO ∧
  Forall (λ k, k ≠ dg ∧ k ≠ th) [StreamCopy.STDIN_FILENO; StreamCopy.STDOUT_FILENO; ow].
Proof. clear -Hapart. unfold apart in Hapart. rewrite !NoDup_cons in Hapart. rewrite !Forall_cons. set_solver. Qed.

(** The end of a conversation in the state [x] of the thread. *)
Lemma conversation_at x out_rest in_rest :
  stage_ok isn0 d ended dg th e0 x →
  copied e0 (TCPSpongeSocket.world x.1) StreamCopy.STDIN_FILENO ow out_rest →
  copied e0 (TCPSpongeSocket.world x.1) ow StreamCopy.STDOUT_FILENO in_rest →
  ∃ typed sent shown, passed e0 (TCPSpongeSocket.world x.1) th typed sent shown ∧
    match TCPSpongeSocket.tcp x.1 with
    | Some c => ByteStream.rep (TCPSender.stream_in (TCPConnection.sender c)) sent
    | None => SocketThread.over x = true
    end.
Proof.
  intros Hx Ho Hi. destruct (stage_exchanged _ _ _ _ _ _ x Hx) as (got & sent & Hex & Hc).
  assert (Hw : world_ok (TCPSpongeSocket.world x.1)).
  { destruct x as [x [| |]]; [destruct Hx as [[] _]; done|destruct Hx as [[] _]; done|apply Hx]. }
  destruct (passed_through _ _ _ _ _ _ _ _ Hpair Hw Hex Ho Hi) as (typed & shown & Hp). exists typed, sent, shown.
  split; [done|]. destruct (TCPSpongeSocket.tcp x.1); [apply Hc|done].
Qed.

#[local] Existing Instance SocketThread.socket_thread.

Local Abbreviation laws := (socket_thread_laws abort isn0 d ended dg th e0 Hisn Hd (fs_fds s Hs) Hnet).
Local Abbreviation view := (beside_view (thread_owns dg th) (ThreadLaws0 := laws)).

(** What the copy sees of the terminal and of its end of the pair is what there is. *)
Lemma copied_beside (w w' : beside (SocketThread.t E A)) from to rest :
  thread_owns dg th from = false → thread_owns dg th to = false →
  copied (H0 := view) w w' from to rest →
  copied (TCPSpongeSocket.world (other w).1) (TCPSpongeSocket.world (other w').1) from to rest.
Proof. intros Hf Ht (c & Hd' & Hs'). exists c. simpl in Hd', Hs'. rewrite Hf in Hd'. by rewrite Ht in Hs'. Qed.

Lemma not_owned k : k ≠ dg ∧ k ≠ th → thread_owns dg th k = false.
Proof. apply thread_owns_false. Qed.

Lemma stage_ok_owner x f :
  stage_ok isn0 d ended dg th e0 x →
  stage_ok isn0 d ended dg th e0 (TCPSpongeSocket.with_owner x.1 (TCPSpongeSocket.world x.1) f, x.2).
Proof.
  destruct x as [x [| |]]; simpl; [intros [[] ?]..|done]; by split; [split|].
Qed.

(** From the opened connection on. *)
Lemma copied_within (w w' : beside (SocketThread.t E A)) from to rest :
  untouched dg th e0 (TCPSpongeSocket.world (other w).1) → from ≠ dg ∧ from ≠ th → to ≠ dg ∧ to ≠ th →
  copied (H0 := view) w w' from to rest → copied e0 (TCPSpongeSocket.world (other w').1) from to rest.
Proof.
  intros Hu [Hf1 Hf2] [Ht1 Ht2] Hc. eapply copied_since; [exact Hu|done..|].
  apply copied_beside; [by apply not_owned..|done].
Qed.

(** Before the connection is open. *)
Lemma still_opening s1 rules :
  live isn0 d ended dg th e0 e0 s1 → sublist rules (TCPSpongeSocket.rules dg th) → goes_well (Ok (s1, Opening)).
Proof.
  intros Hl1 Hsub. destruct apart_cases as (_ & _ & Hall). rewrite !Forall_cons in Hall. destruct Hall as (Hk0 & Hk1 & Hko & _).
  pose proof (lv_others _ _ _ _ _ _ _ _ Hl1) as Hu.
  destruct (conversation_at (s1, SocketThread.Starting rules) [] []) as (typed & sent & shown & Hp & Hc).
  - split; [by eapply live_since|done].
  - destruct Hk0, Hko. by eapply copied_untouched.
  - destruct Hk1, Hko. by eapply copied_untouched.
  - right. right. exists s1, Opening, typed, sent, shown. split; [done|]. split; [exact Hp|]. split; [intros _|split; [done|]].
    + destruct Hp as [Ht _ _ Hsh _ _]. destruct (Hu _ (proj1 Hk0) (proj2 Hk0)) as [Hu0 _]. destruct (Hu _ (proj1 Hk1) (proj2 Hk1)) as [_ Hu1].
      simpl in Ht, Hsh. rewrite Hu0 in Ht. rewrite Hu1 in Hsh. split; eapply app_inv_head; rewrite app_nil_r; by symmetry.
    + cbn [fst] in Hc. destruct (TCPSpongeSocket.tcp s1); [exact Hc|discriminate Hc].
Qed.

Lemma goes_wrong {B} (r : result B) k : faulted (E := E) r → goes_well (outlived r ≫= k).
Proof.
  intros [(x & -> & Hx)|[Hf ->]]%outlived_fault; [left; by exists x|right; left; by split].
Qed.

Lemma talk_spec fuel_copy fuel_close schedule s1 rules opened :
  live isn0 d ended dg th e0 e0 s1 → sublist rules (TCPSpongeSocket.rules dg th) →
  goes_well (talk abort fuel_copy fuel_close schedule (TCPSpongeSocket.owner s) s1 rules opened).
Proof.
  intros Hl1 Hsub. destruct apart_cases as (Hin & Hout & Hall). rewrite !Forall_cons in Hall. destruct Hall as (Hk0 & Hk1 & Hko & _).
  pose proof (lv_others _ _ _ _ _ _ _ _ Hl1) as Hu. unfold talk. destruct opened; cbn [negb]; [|by eapply still_opening].
  rewrite (lv_datagram _ _ _ _ _ _ _ _ Hl1), (lv_thread _ _ _ _ _ _ _ _ Hl1). set (w0 := start_beside _ schedule).
  assert (Hs1 : stage_ok isn0 d ended dg th e0 (s1, SocketThread.Starting rules)) by (split; [by eapply live_since|done]).
  pose proof (beside_laws (Thread0 := SocketThread.socket_thread abort) _ (ThreadLaws0 := laws)) as Hlaws.
  destruct (stream_copy_faithful (H1 := Hlaws) fuel_copy w0 (TCPSpongeSocket.owner s))
    as [Hf|(copy & left & returned & out_rest & in_rest & -> & Hcw & Hsock & Hco & Hci & _)]; [by split|done|done|by apply goes_wrong|].
  cbn [outlived mbind result_bind]. pose proof Hcw as [Hcok Hterm].
  destruct (terminated (StreamCopy.world copy)) as [x|] eqn:Et; [right; left; by split; [apply Hterm|]|].
  pose proof (copied_within w0 _ _ _ _ Hu Hk0 Hko Hco) as Hco'. pose proof (copied_within w0 _ _ _ _ Hu Hko Hk1 Hci) as Hci'.
  destruct returned; cbn [negb].
  - destruct (shutdown_both_spec (H1 := Hlaws) (StreamCopy.world copy) (StreamCopy.socket copy) Hcw) as [Hf|(w & -> & Hwi)]; [by apply goes_wrong|].
    pose proof Hwi as ([Hwok _] & _).
    cbn [outlived mbind result_bind]. set (f := FileDescriptor.register_write _).
    destruct (thread_join_spec _ (ThreadLaws0 := laws)
      fuel_close _ (stage_ok_owner _ f Hwok)) as [(x & -> & Hf & _)|([s2 st] & -> & Hs2 & Hon)]; [right; left; by split|].
    destruct (conversation_at (s2, st) out_rest in_rest Hs2) as (typed & sent & shown & Hp & Hc).
    + eapply copied_only_on; [exact Hon|by apply not_owned..|]. eapply (copied_within w0); [done..|].
      eapply copied_later; [exact Hwi|exact Hco].
    + eapply copied_only_on; [exact Hon|by apply not_owned..|]. eapply (copied_within w0); [done..|].
      eapply copied_later; [exact Hwi|exact Hci].
    + right. right. exists s2. eexists _, typed, sent, shown. split; [done|]. split; [exact Hp|]. cbn [fst] in Hc.
      destruct st; (split; [done|split; [|by destruct (TCPSpongeSocket.tcp s2)]]); [done|done|]. intros _. apply Hs2.
  - destruct (conversation_at _ out_rest in_rest (stage_ok_owner _ (StreamCopy.socket copy) Hcok) Hco' Hci')
      as (typed & sent & shown & Hp & Hc).
    right. right. eexists _, Copying, typed, sent, shown. split; [done|]. split; [exact Hp|]. split; [done|]. split; [done|].
    cbn [fst] in Hc. by destruct (TCPSpongeSocket.tcp _).
Qed.

Lemma converse_spec (listens : bool) fuel_open fuel_copy fuel_close schedule c_fsm c_filt random :
  config_ok c_fsm → endpoint_ok (FdAdapterConfig.source c_filt) → endpoint_ok (FdAdapterConfig.destination c_filt) →
  goes_well (converse abort listens fuel_open fuel_copy fuel_close schedule s c_fsm c_filt random).
Proof.
  intros Hcfg Hsrc Hdst.
  destruct (opened_live abort isn0 d ended Hisn Hd listens fuel_open s c_fsm c_filt random Hnet Hs Hcfg Hsrc Hdst)
    as [Hf|(s1 & rules & opened & E1 & Hl1 & _ & Hsub)]; unfold goes_well, converse; cbv zeta; [by_fault Hf|]. rewrite E1. by apply talk_spec.
Qed.

End whole.

(** C3. The programs tcp_udp, tcp_ipv4 and tcp_ip_ethernet, once they have their
    socket. Connecting or listening, copying between the terminal and the socket
    while the thread of the socket runs beside, and waiting for the end: for every
    schedule of the two threads, any number of rounds of their loops, and a network
    that loses, duplicates, delays and reorders, the only exception in either
    thread is that of a system call that failed; in the thread of the socket it
    ends the process. A call may fail: the thread shuts the owner's end down when
    it is done, which a reset by the peer makes it be at any time, and the next
    write of the copy to that end is refused. As long as none has failed, what is
    printed is a prefix of what the peer wrote; what the connection
    has been given to send is a prefix of what was typed, and is exactly what its
    stream holds as written; and when the program is done the connection is gone. *)
Theorem conversation_faithful (listens : bool) fuel_open fuel_copy fuel_close schedule (s : TCPSpongeSocket.t E A) c_fsm c_filt random :
  let e0 := TCPSpongeSocket.world s in
  let th := FileDescriptor.fd_num (TCPSpongeSocket.thread_data s) in
  honest_network (E := E) (A := A) isn0 d ended (FileDescriptor.fd_num (TCPSpongeSocket.datagram_fd s)) →
  fresh_socket s → apart s → joined e0 (FileDescriptor.fd_num (TCPSpongeSocket.owner s)) th → config_ok c_fsm →
  endpoint_ok (FdAdapterConfig.source c_filt) → endpoint_ok (FdAdapterConfig.destination c_filt) →
  let talk := converse abort listens fuel_open fuel_copy fuel_close schedule s c_fsm c_filt random in
  faulted (E := E) talk ∨ aborted (E := E) talk ∨
  ∃ s' ph typed sent shown,
    talk = Ok (s', ph) ∧
    passed e0 (TCPSpongeSocket.world s') th typed sent shown ∧
    (ph = Opening → typed = [] ∧ shown = []) ∧ (ph = Closed → TCPSpongeSocket.tcp s' = None) ∧
    match TCPSpongeSocket.tcp s' with
    | Some c => ByteStream.rep (TCPSender.stream_in (TCPConnection.sender c)) sent
    | None => ph ≠ Opening
    end.
Proof. intros e0 th Hnet Hs Hapart Hpair Hcfg Hsrc Hdst. by apply converse_spec. Qed.

End passing.

(** ** From the command line on

    A program whose options are read and whose socket is made has a conversation
    that goes well. *)
Section mains.
Context `{EndKeyFresh} `{KernelLaws E} `{!SocketCalls E} `{!DatagramLaws E}.
Context (abort : E → bool) (strtol loss_rate : bytes → Z) (resolve : bytes → bytes → result Address.t).
Context (fuel_open fuel_copy fuel_close : nat) (schedule : list nat).
Context (isn0 : WrappingInt32.t) (d : bytes) (ended : bool).
Context (Hisn : WrappingInt32.ok isn0) (Hd : blen d < 0x7ffffff0).

(** What a socket and its configuration have to be. *)
Record ready_to_talk `{!Adapt E A, !AdaptLaws E A} (s : TCPSpongeSocket.t E A) (c_fsm : TCPConfig.t) (c_filt : FdAdapterConfig.t) : Prop := mk_ready {
  rt_network : honest_network (E := E) (A := A) isn0 d ended (FileDescriptor.fd_num (TCPSpongeSocket.datagram_fd s));
  rt_fresh : fresh_socket s;
  rt_apart : apart s;
  rt_pair : joined (TCPSpongeSocket.world s) (FileDescriptor.fd_num (TCPSpongeSocket.owner s)) (FileDescriptor.fd_num (TCPSpongeSocket.thread_data s));
  rt_config : config_ok c_fsm;
  rt_source : endpoint_ok (FdAdapterConfig.source c_filt);
  rt_destination : endpoint_ok (FdAdapterConfig.destination c_filt);
}.

Lemma ready_talks `{!Adapt E A, !AdaptLaws E A} (s : TCPSpongeSocket.t E A) listens c_fsm c_filt random :
  ready_to_talk s c_fsm c_filt →
  goes_well d s (converse abort listens fuel_open fuel_copy fuel_close schedule s c_fsm c_filt random).
Proof.
  intros []. by apply (converse_spec abort isn0 d ended Hisn Hd s rt_network0 rt_fresh0 rt_apart0 rt_pair0).
Qed.

(** What a program makes of its conversation. *)
Definition main_goes_well {A} (s : TCPSpongeSocket.t E A) (r : result (run (TCPSpongeSocket.t E A))) : Prop :=
  faulted (E := E) r ∨ aborted (E := E) r ∨ ∃ s' ph, r = Ok (Talked s' ph) ∧ goes_well d s (Ok (s', ph)).

Lemma talk_of_main {A} (s : TCPSpongeSocket.t E A) r :
  goes_well d s r → main_goes_well s ('(s', ph) ← r; Ok (Talked s' ph)).
Proof.
  intros Hw. destruct (id Hw) as [Hf|[[Hf ->]|(s' & ph & ? & ? & ? & -> & _)]]; [unfold main_goes_well; by_fault Hf|right; left; by split|].
  right. right. by exists s', ph.
Qed.

Context {Rng : Type} (rand : Rng → Z * Rng) (e : E) (rng : Rng) (random : Z) (argv0 : bytes) (args : list bytes).
Context (Hargs : (2 <= length args)%nat).

Lemma udp_main_talks c_fsm c_filt listens s :
  udp_get_config strtol loss_rate resolve args = Ok (inr (c_fsm, c_filt, listens)) → udp_socket e listens c_filt rng = Ok s →
  ready_to_talk (Adapt0 := adapt_lossy rand) (AdaptLaws0 := lossy_laws rand) s c_fsm c_filt →
  main_goes_well s (udp_main abort strtol loss_rate resolve fuel_open fuel_copy fuel_close schedule rand e rng random argv0 args).
Proof.
  intros Hc Hs Hr. unfold udp_main. rewrite (proj2 (Nat.ltb_ge _ _) Hargs), Hc. cbn [mbind result_bind]. rewrite Hs. cbn [mbind result_bind].
  apply (talk_of_main s _ (ready_talks (AdaptLaws0 := lossy_laws rand) s listens c_fsm c_filt random Hr)).
Qed.

Lemma ipv4_main_talks port_random c_fsm c_filt listens device s :
  ipv4_get_config strtol loss_rate resolve (opt (to_string (w16 port_random))) args = Ok (inr (c_fsm, c_filt, listens, device)) →
  ipv4_socket e device rng = Ok s → ready_to_talk (Adapt0 := adapt_lossy rand) (AdaptLaws0 := lossy_laws rand) s c_fsm c_filt →
  main_goes_well s (ipv4_main abort strtol loss_rate resolve fuel_open fuel_copy fuel_close schedule rand e rng port_random random argv0 args).
Proof.
  intros Hc Hs Hr. unfold ipv4_main. rewrite (proj2 (Nat.ltb_ge _ _) Hargs), Hc. cbn [mbind result_bind]. rewrite Hs. cbn [mbind result_bind].
  apply (talk_of_main s _ (ready_talks (AdaptLaws0 := lossy_laws rand) s listens c_fsm c_filt random Hr)).
Qed.

Lemma ethernet_main_talks address_random port_random c_fsm c_filt next_hop device s :
  ethernet_get_config strtol resolve (opt (to_string (w16 port_random))) args = Ok (inr (c_fsm, c_filt, next_hop, device)) →
  ethernet_socket e device (random_private_ethernet_address address_random) (FdAdapterConfig.source c_filt) next_hop = Ok s →
  ready_to_talk s c_fsm c_filt →
  main_goes_well s (ethernet_main abort strtol resolve fuel_open fuel_copy fuel_close schedule e address_random port_random random argv0 args).
Proof.
  intros Hc Hs Hr. unfold ethernet_main. rewrite (proj2 (Nat.ltb_ge _ _) Hargs), Hc. cbn [mbind result_bind]. rewrite Hs. cbn [mbind result_bind].
  apply (talk_of_main s _ (ready_talks s false c_fsm c_filt random Hr)).
Qed.

End mains.
