(* ===== verification/SocketPair.v ===== *)
(** * A kernel with a socket pair

    The toy kernel, in which the descriptors 4 and 5 are the two ends of a stream
    socket pair: what is written at one end is what the other end gives, and an end
    is at its end of file once the other one has been shut down and everything was
    read. A write at an end that was shut down for writing, or whose other end was
    shut down for reading, fails with EPIPE: this kernel is a fallible one. It is
    what the theorems on two threads are tried on. *)

From S2P Require Import Prelude Buffers Addresses Descriptors Events Sockets Confined.

Record duplex := mk_duplex {
  plain : toy;
  shut : list Z;              (* the ends that write no more *)
  deaf : list Z;              (* the ends that read no more *)
}.

Definition OWNER_END : Z := 4.

Definition THREAD_END : Z := 5.

(** An end gives no more than this, ever. *)
Definition PAIR_LIMIT : Z := 0x1000000000000000.

(** The other end. *)
Definition far_end (fd : Z) : option Z :=
  if fd =? OWNER_END then Some THREAD_END else if fd =? THREAD_END then Some OWNER_END else None.

(** What is on its way to [fd]. *)
Definition waiting (e : duplex) (fd far : Z) : bytes := zdrop (blen (toy_drawn (plain e) fd)) (toy_sunk (plain e) far).

Definition on_plain {B} (e : duplex) (r : sys B * toy) : sys B * duplex := (r.1, mk_duplex r.2 (shut e) (deaf e)).

Definition EPIPE : Z := 32.

(** Nobody reads what is written at this end. *)
Definition broken (e : duplex) (fd : Z) : bool :=
  match far_end fd with
  | Some far => existsb (Z.eqb fd) (shut e) || existsb (Z.eqb far) (deaf e)
  | None => false
  end.

(** An end is readable when something waits or nothing will come any more. *)
Definition readable (e : duplex) (fd : Z) : bool :=
  match far_end fd with
  | Some far => negb (blen (waiting e fd far) =? 0) || existsb (Z.eqb far) (shut e) || existsb (Z.eqb fd) (deaf e)
  | None => true
  end.

Definition poll_bits (e : duplex) (p : pollfd) : Z :=
  Z.lor (if readable e (fd p) then Z.land (events p) EventLoop.POLLIN else 0) (Z.land (events p) EventLoop.POLLOUT).

#[export] Instance duplex_kernel : Kernel duplex := {
  sys_read e fd n :=
    match far_end fd with
    | Some far =>
        let got := ztake (Z.min n (PAIR_LIMIT - blen (toy_drawn (plain e) fd))) (waiting e fd far) in
        (Returned got, mk_duplex (mk_toy (script (plain e)) (update (toy_drawn (plain e)) fd (toy_drawn (plain e) fd ++ got))
           (toy_sunk (plain e)) (toy_time (plain e)) (toy_history (plain e))) (shut e) (deaf e))
    | None => on_plain e (sys_read (plain e) fd n)
    end;
  sys_writev e fd l := if broken e fd then (Failed EPIPE, e) else on_plain e (sys_writev (plain e) fd l);
  sys_close e fd := (Returned 0, mk_duplex (plain e) (fd :: shut e) (fd :: deaf e));
  sys_shutdown e fd how :=
    (Returned 0, mk_duplex (plain e) (if how =? Socket.SHUT_RD then shut e else fd :: shut e)
       (if how =? Socket.SHUT_WR then deaf e else fd :: deaf e));
  sys_getfl e _ := (Returned 0, e);
  sys_setfl e _ _ := (Returned 0, e);
  sys_poll e l _ := let bits := poll_bits e <$> l in (Returned (blen (filter (λ v, v ≠ 0) bits), bits), e);
  steady_clock e := let '(now, t) := steady_clock (plain e) in (now, mk_duplex t (shut e) (deaf e));
}.

Section view.
Context (nets : list Z) (good : bytes → Prop).

(** The networks give only good packets, and nothing comes out of the pair that
    did not go in. *)
Definition duplex_view : KernelView duplex := {|
  drawn e := toy_drawn (plain e);
  sunk e := toy_sunk (plain e);
  world_ok e := world_ok (KernelView := confined_view nets good 0) (plain e) ∧
    ∀ fd far, far_end fd = Some far → script (plain e) fd = [] ∧ blen (toy_drawn (plain e) fd) <= PAIR_LIMIT ∧
      toy_drawn (plain e) fd `prefix_of` toy_sunk (plain e) far;
  history e := toy_history (plain e);
  fallible := True;
|}.

Lemma far_end_far fd far : far_end fd = Some far → far_end far = Some fd ∧ fd ≠ far.
Proof.
  unfold far_end. destruct (Z.eqb_spec fd OWNER_END) as [->|]; [by intros [= <-]|]. destruct (Z.eqb_spec fd THREAD_END) as [->|]; [by intros [= <-]|done].
Qed.

Lemma read_plain (e : duplex) fd n : far_end fd = None → sys_read e fd n = on_plain e (sys_read (plain e) fd n).
Proof. intros Ef. unfold sys_read at 1, duplex_kernel at 1. by rewrite Ef. Qed.

Lemma duplex_read (e : duplex) fd n : world_ok (KernelView := duplex_view) e → 0 <= n →
  ∃ b e', sys_read e fd n = (Returned b, e') ∧ blen b <= n ∧ gave (H := duplex_view) e e' fd b.
Proof.
  intros [Hw Hp] Hn. destruct (far_end fd) as [far|] eqn:Ef.
  - unfold sys_read, duplex_kernel. rewrite Ef. destruct (Hp fd far Ef) as (Hsc & Hlim & rest & Hrest). unfold waiting. rewrite Hrest, zdrop_app_r, Z.sub_diag, zdrop_0 by done.
    set (k := Z.min n _). assert (Hk : 0 <= k <= n) by (unfold k; lia). assert (Hk2 : k <= PAIR_LIMIT - blen (toy_drawn (plain e) fd)) by (unfold k; lia). eexists _, _. split; [done|].
    assert (Hb : blen (ztake k rest) <= k) by (rewrite blen_ztake by lia; lia). split; [lia|]. split; [|split; [|done]].
    + split; cbn [toy_drawn toy_sunk script plain].
      * destruct Hw as [Hw Hc]. split; [|by split; [apply Hc|apply Hc]]. intros x. cbn [toy_drawn script plain]. unfold update.
        case_decide as Ex; [subst x|apply Hw]. rewrite Hsc. change (mjoin []) with (@nil byte). rewrite blen_app, blen_nil. unfold PAIR_LIMIT in *. lia.
      * intros x y Exy. unfold update. destruct (Hp x y Exy) as (Hsx & Hlx & Hpx). split; [done|].
        case_decide as Ex; [subst x|done]. assert (y = far) as -> by congruence. rewrite blen_app. split; [lia|].
        rewrite Hrest. apply prefix_app. exists (zdrop k rest). symmetry. apply ztake_zdrop.
    + intros x. simpl. unfold update. by case_decide.
  - destruct (confined_read nets good 0 (plain e) fd n Hw Hn) as (b & t & Er & Hb & (Hw' & Hd' & Hs') & _).
    rewrite read_plain, Er by done. eexists b, _. split; [done|]. split; [done|]. split; [|by split]. split; [done|]. simpl. intros x y Exy.
    destruct (Hp x y Exy) as (Hsx & Hlx & Hpx). assert (x ≠ fd) by (intros ->; congruence).
    pose proof (Hd' x) as Hdx. pose proof (Hs' y) as Hsy. simpl in Hdx, Hsy. rewrite decide_False in Hdx by done. rewrite Hdx, Hsy.
    split; [|done]. unfold sys_read, toy_kernel in Er. destruct (script (plain e) fd); injection Er as _ <-; [done|].
    simpl. unfold update. by rewrite decide_False.
Qed.

Lemma duplex_laws : KernelLaws duplex (H0 := duplex_view).
Proof.
  split.
  - intros e fd [Hw _]. apply (law_bound (KernelLaws := confined_laws nets good 0) (plain e) fd Hw).
  - intros e fd n Hw Hn. right. by apply duplex_read.
  - intros e fd l [Hw Hp]. change (sys_writev e fd l) with (if broken e fd then (Failed EPIPE, e) else on_plain e (sys_writev (plain e) fd l)).
    destruct (broken e fd); [left; split; [done|]; by exists EPIPE, e|right]. unfold on_plain.
    destruct (sure_fails (H := confined_view nets good 0) _ _ _ toy_sure (law_writev (KernelLaws := confined_laws nets good 0) (plain e) fd l Hw)) as (n & t & Ew & Hn & Hok & Hs & Hd).
    exists n. eexists. split; [by rewrite Ew|]. split; [done|]. split; [|by split]. split; [done|].
    intros x y Exy. destruct (Hp x y Exy) as (Hsx & Hlx & Hpx). simpl in Hd, Hs |- *. rewrite Hd, Hs.
    assert (script t x = script (plain e) x) as -> by (by injection Ew as _ <-). split; [done|]. split; [done|].
    destruct (decide (y = fd)) as [->|]; [by apply prefix_app_r|done].
  - intros e fd how Hw. right. eexists. split; [done|]. by split.
  - intros e fd Hw. right. eexists. split; [done|]. by split.
  - intros e fd Hw. right. by exists 0, e.
  - intros e fd flags Hw. right. by exists e.
  - intros e l timeout Hw. eexists _, e. split; [done|]. split; [done|]. split; [by rewrite length_fmap|right].
    apply Forall_fmap, Forall_forall. intros p _. simpl. unfold poll_bits. rewrite Z.land_lor_distr_l.
    destruct (readable e (fd p)); rewrite <- ?Z.land_assoc; by rewrite ?Z.land_0_r.
  - intros e [Hw Hp]. simpl. eexists _, _. split; [done|]. split; [|by split]. split; [|done].
    destruct Hw as [Hw [Hg Ht]]. split; [done|]. split; [done|]. simpl. lia.
Qed.

End view.

(** ** Its sockets

    A socket is descriptor 9; a pair of stream sockets is the pair of the kernel,
    and one of datagram sockets is 7 and 8. *)
Definition duplex_sockets : SocketCalls duplex := {|
  sys_socket e _ _ := (Returned 9, e);
  sys_socketpair e _ type := (Returned (if type =? SOCK_STREAM then (OWNER_END, THREAD_END) else (7, 8)), e);
  sys_getsockopt e fd level option := on_plain e (sys_getsockopt (plain e) fd level option);
  sys_setsockopt e fd level option value := on_plain e (sys_setsockopt (plain e) fd level option value);
  sys_getsockname e fd size := on_plain e (sys_getsockname (plain e) fd size);
  sys_getpeername e fd size := on_plain e (sys_getpeername (plain e) fd size);
  sys_bind e fd address := on_plain e (sys_bind (plain e) fd address);
  sys_connect e fd address := on_plain e (sys_connect (plain e) fd address);
  sys_listen e fd backlog := on_plain e (sys_listen (plain e) fd backlog);
  sys_accept e fd := on_plain e (sys_accept (plain e) fd);
  sys_recvfrom e fd mtu flags := on_plain e (sys_recvfrom (plain e) fd mtu flags);
  sys_sendmsg e fd destination l := on_plain e (sys_sendmsg (plain e) fd destination l);
  sys_open e path flags := on_plain e (sys_open (plain e) path flags);
  sys_tunsetiff e fd name flags := on_plain e (sys_tunsetiff (plain e) fd name flags);
|}.

Lemma duplex_datagrams nets good : DatagramLaws duplex (H := duplex_sockets) (H0 := duplex_view nets good).
Proof.
  split.
  - intros e fd mtu [Hw Hp] Hm. destruct (sure_fails (H := confined_view nets good 0) _ _ _ toy_sure (law_recvfrom (DatagramLaws := confined_datagrams nets good 0) (plain e) fd mtu Hw Hm))
      as (whole & src & t & Er & Hi & Hport & Hl & (Hok & Hd & Hs) & Hh).
    right. exists whole, src. eexists. split; [cbn [sys_recvfrom duplex_sockets]; unfold on_plain; by rewrite Er|].
    split; [done|]. split; [done|]. split; [done|]. split; [|exact Hh]. split; [|by split]. split; [done|]. intros x y Exy.
    destruct (Hp x y Exy) as (Hsx & Hlx & Hpx). simpl in Hd, Hs |- *. unfold sys_recvfrom, toy_sockets in Er.
    destruct (decide (x = fd)) as [->|Hne].
    + rewrite Hsx in Er. apply (f_equal snd) in Er. simpl in Er. by subst t.
    + destruct (script (plain e) fd) as [|b l]; apply (f_equal snd) in Er; simpl in Er; subst t; [done|].
      simpl. unfold update. by rewrite !decide_False.
  - intros e fd dst l [Hw Hp] Hl. destruct (sure_fails (H := confined_view nets good 0) _ _ _ toy_sure (law_sendmsg (DatagramLaws := confined_datagrams nets good 0) (plain e) fd dst l Hw Hl))
      as (t & Es & (Hok & Hs & Hd) & Hh). right. eexists. split; [cbn [sys_sendmsg duplex_sockets]; unfold on_plain; by rewrite Es|].
    split; [|exact Hh]. split; [|by split]. split; [done|]. intros x y Exy. destruct (Hp x y Exy) as (Hsx & Hlx & Hpx). simpl in Hd, Hs |- *. rewrite Hd, Hs.
    assert (script t x = script (plain e) x) as -> by (apply (f_equal snd) in Es; by simpl in Es; subst t).
    split; [done|]. split; [done|]. destruct (decide (y = fd)) as [->|]; [by apply prefix_app_r|done].
Qed.
