(* ===== verification/Conversation.v ===== *)
(** * A whole conversation, run

    The hypotheses of the theorem on conversations hold together: a kernel with a
    socket pair, a peer that accepts the connection, sends three bytes, ends its
    stream and acknowledges what it got, and somebody who types two bytes. *)

From S2P Require Import Prelude Buffers Wrapping Stream Reassembly ReassemblySpec Segment Receiver Sender SenderSpec.
From S2P Require Import Connection ConnectionSpec EndToEnd Parsing Checksum Ipv4 Link Netif NetifSpec Addresses Adapters AdaptersSpec.
From S2P Require Import Robustness Outgoing Descriptors Events Confined Pipes StreamCopy SpongeSocket SpongeSocketSpec SocketExample.
From S2P Require Import Threads SocketThread TcpPrograms SocketPair.

(** The acknowledgment of two bytes and of the end. *)
Definition final_ack : TCPSegment.t :=
  TCPSegment.mk (TCPHeader.set_win (TCPHeader.set_ack
    (TCPHeader.set_seqno TCPHeader.default (WrappingInt32.mk 105)) (WrappingInt32.mk 9)) 1000) Buffer.empty.

(** Twelve packets that carry nothing give the two threads time. *)
Definition conversation_packets : list bytes :=
  [packet_of syn_ack; packet_of data_fin] ++ replicate 12 [Byte.x00] ++ [packet_of final_ack].

Definition conversation_segment (seg : TCPSegment.t) : bool :=
  segment_ok seg ||
  let h := TCPSegment.header seg in
  negb (TCPHeader.syn h) && negb (TCPHeader.fin h) && (WrappingInt32.raw_value (TCPHeader.seqno h) =? 105) &&
  bool_decide (Buffer.str (TCPSegment.payload seg) = []) && (0 <=? TCPHeader.win h) && (TCPHeader.win h <? 0x10000).

Definition conversation_piece (p : bytes) : bool := match carried_by p with None => true | Some seg => conversation_segment seg end.

Lemma conversation_segment_at seg :
  conversation_segment seg = true → ∃ n, n <= blen peer_stream + 2 ∧ seg_at peer_isn peer_stream true n seg.
Proof.
  unfold conversation_segment. intros Hp. apply orb_prop in Hp as [Hp|Hp]; [by apply segment_ok_at|].
  bool_to_prop. case_bool_decide as El; [|done]. exists 5. split; [vm_compute; congruence|]. split; try done.
  - destruct (TCPHeader.seqno (TCPSegment.header seg)) as [x]. simpl in *. by subst.
  - congruence.
  - left. by rewrite El.
  - by rewrite El.
  - congruence.
Qed.

Lemma conversation_piece_from_peer p : conversation_piece p = true → from_peer p.
Proof. unfold conversation_piece. intros Hp seg Es. rewrite Es in Hp. by apply conversation_segment_at. Qed.

Lemma conversation_packets_good : Forall (good_pieces from_peer) conversation_packets.
Proof.
  apply (Forall_impl (λ p, pieces_ok conversation_piece p = true)).
  - apply Forall_forall. intros p Hp. assert (Hall : forallb (pieces_ok conversation_piece) conversation_packets = true) by (vm_compute; reflexivity).
    rewrite forallb_forall in Hall. apply Hall. by apply list_elem_of_In.
  - intros p. apply pieces_good, conversation_piece_from_peer.
Qed.

Definition talk_view : KernelView duplex := duplex_view [7] from_peer.

Lemma talk_honest :
  honest_network (E := duplex) (A := TCPOverIPv4OverTunFdAdapter.t) (H1 := talk_view) peer_isn peer_stream true 7.
Proof.
  intros e f a e' f' a' seg [Hw _] Hf Hr. unfold adapt_read, adapt_tun in Hr.
  apply result_bind_Ok in Hr as ([[e1 f1] packet] & Er & Hr). apply result_bind_Ok in Hr as ([a1 seg1] & Ea & Hr).
  injection Hr as _ _ _ Eseg. rewrite Eseg in Ea. apply tun_read_carried in Ea.
  unfold FileDescriptor.read in Er. rewrite Hf, read_plain in Er by done. unfold on_plain in Er.
  destruct (confined_read [7] from_peer 0 (plain e) 7 (Z.min FileDescriptor.BUFFER_SIZE FileDescriptor.NO_LIMIT) Hw) as (b & e2 & Es & _ & _ & Hb); [done|].
  rewrite Es in Er. cbn [fst snd call SystemCall mbind result_bind] in Er. destruct (_ <? blen b); [done|]. injection Er as _ _ <-.
  destruct (Hb ltac:(left)) as [->|Hgood]; [vm_compute in Ea; discriminate Ea|]. by apply Hgood.
Qed.

(** Somebody types "hi"; the network is descriptor 7. *)
Definition terminal_and_network (fd : Z) : list bytes :=
  if fd =? 0 then [[Byte.x68; Byte.x69]] else if fd =? 7 then conversation_packets else [].

Definition talking_socket : TCPSpongeSocket.t duplex TCPOverIPv4OverTunFdAdapter.t :=
  TCPSpongeSocket.mk (mk_duplex (mk_toy terminal_and_network (λ _, []) (λ _, []) 0 []) [] [])
    (FileDescriptor.mk OWNER_END false false 0 0) (FileDescriptor.mk THREAD_END false false 0 0)
    (FileDescriptor.mk 7 false false 0 0) FdAdapterBase.default None false false false.

Definition talk_adapt : AdaptLaws (H := talk_view) duplex TCPOverIPv4OverTunFdAdapter.t :=
  @tun_laws _ _ talk_view (duplex_laws [7] from_peer).

Lemma talking_world : world_ok (KernelView := talk_view) (TCPSpongeSocket.world talking_socket).
Proof.
  split.
  - split; [|split; [intros fd ->%list_elem_of_singleton; exact conversation_packets_good|simpl; lia]].
    intros fd. unfold talking_socket, terminal_and_network. simpl. destruct (fd =? 0), (fd =? 7); vm_compute; reflexivity.
  - intros fd far Ef. unfold far_end in Ef. simpl. unfold terminal_and_network.
    destruct (Z.eqb_spec fd OWNER_END) as [->|]; [by split; [|split; [|apply prefix_nil]]|].
    destruct (Z.eqb_spec fd THREAD_END) as [->|]; [by split; [|split; [|apply prefix_nil]]|done].
Qed.

(** What a run leaves: how far it came, what was printed, and what the connection
    took of what was typed. *)
Definition talked (r : result (TCPSpongeSocket.t duplex TCPOverIPv4OverTunFdAdapter.t * phase)) : option (phase * bytes * bytes) :=
  match r with
  | Ok (s, ph) =>
      let e := plain (TCPSpongeSocket.world s) in
      Some (ph, toy_sunk e StreamCopy.STDOUT_FILENO, toy_drawn e THREAD_END)
  | Err _ => None
  end.

(** One turn of the thread before each of the first hundred calls of the copy: the
    program runs to its end. *)
Local Abbreviation sample_talk := (converse (λ _ : duplex, false) false 5 20 20 (replicate 100 1%nat) talking_socket our_cfg our_side 0).

Lemma talking_fresh : fresh_socket (AdaptLaws0 := talk_adapt) talking_socket.
Proof. split; [exact talking_world|discriminate|repeat split; range_compute|reflexivity]. Qed.

Lemma talking_apart : apart talking_socket.
Proof. unfold apart. simpl. repeat (constructor; [rewrite ?elem_of_cons, elem_of_nil; vm_compute; intuition discriminate|]). constructor. Qed.

Lemma talking_joined : joined (H1 := talk_view) (TCPSpongeSocket.world talking_socket) OWNER_END THREAD_END.
Proof.
  split; [| |done]; intros e [_ He]; [exact (proj2 (proj2 (He OWNER_END THREAD_END eq_refl)))|exact (proj2 (proj2 (He THREAD_END OWNER_END eq_refl)))].
Qed.

Lemma sample_talked : talked sample_talk = Some (Closed, [Byte.x61; Byte.x62; Byte.x63], [Byte.x68; Byte.x69]).
Proof. vm_compute. reflexivity. Qed.

Lemma conversation_faithful_witness :
  ∃ s typed, sample_talk = Ok (s, Closed) ∧
    drawn (KernelView := talk_view) (TCPSpongeSocket.world s) StreamCopy.STDIN_FILENO = typed ∧
    toy_drawn (plain (TCPSpongeSocket.world s)) THREAD_END `prefix_of` typed ∧
    toy_drawn (plain (TCPSpongeSocket.world s)) THREAD_END = [Byte.x68; Byte.x69] ∧
    toy_sunk (plain (TCPSpongeSocket.world s)) StreamCopy.STDOUT_FILENO = peer_stream ∧ TCPSpongeSocket.tcp s = None.
Proof.
  destruct (conversation_faithful (H1 := talk_view) (H2 := duplex_laws [7] from_peer) (AdaptLaws0 := talk_adapt) (λ _, false)
    peer_isn peer_stream true ltac:(range_compute) ltac:(reflexivity)
    false 5 20 20 (replicate 100 1%nat) talking_socket our_cfg our_side 0) as [(x & E & _)|[[_ E]|(s & ph & typed & sent & shown & E & Hp & _ & Hclosed & _)]].
  - exact talk_honest.
  - exact talking_fresh.
  - exact talking_apart.
  - exact talking_joined.
  - exact our_cfg_ok.
  - split; range_compute.
  - split; range_compute.
  - pose proof sample_talked as Eo. rewrite E in Eo. discriminate Eo.
  - pose proof sample_talked as Eo. rewrite E in Eo. discriminate Eo.
  - pose proof sample_talked as Eo. rewrite E in Eo. injection Eo as -> E1 E5. exists s, typed.
    destruct Hp as [Ht Hs Ho _ _ _]. split; [exact E|]. split; [exact Ht|].
    change (toy_drawn (plain (TCPSpongeSocket.world s)) THREAD_END = sent) in Hs. split; [rewrite Hs; exact Ho|].
    split; [exact E5|]. split; [exact E1|exact (Hclosed eq_refl)].
Defined.

(** ** After a reset

    The exception that the theorem allows does come: the peer resets the connection
    while "hi" is on its way from the terminal, the thread ends and shuts the
    owner's end down, and the write of the copy is refused. *)
Definition reset_segment : TCPSegment.t :=
  TCPSegment.mk (TCPHeader.set_rst (TCPHeader.set_ack
    (TCPHeader.set_seqno TCPHeader.default (WrappingInt32.mk 101)) (WrappingInt32.mk 6))) Buffer.empty.

Definition reset_socket : TCPSpongeSocket.t duplex TCPOverIPv4OverTunFdAdapter.t :=
  TCPSpongeSocket.mk (mk_duplex (mk_toy (λ fd, if fd =? 0 then [[Byte.x68; Byte.x69]] else
      if fd =? 7 then [packet_of syn_ack; packet_of reset_segment] else []) (λ _, []) (λ _, []) 0 []) [] [])
    (FileDescriptor.mk OWNER_END false false 0 0) (FileDescriptor.mk THREAD_END false false 0 0)
    (FileDescriptor.mk 7 false false 0 0) FdAdapterBase.default None false false false.

Lemma reset_breaks_the_copy :
  converse (λ _ : duplex, false) false 5 20 20 (replicate 100 1%nat) reset_socket our_cfg our_side 0 = Err (unix_error "writev" EPIPE).
Proof. vm_compute. reflexivity. Qed.
