(* ===== verification/Bouncer.v ===== *)
(** * A relay for pairs of UDP ports: apps/bouncer.cc

    For every even port from 1024 to 64000 there is a pair of sockets, X on that
    port and Y on the next. A datagram that arrives at one goes out of the other,
    to whoever was last heard from there. [Bouncer.program_body] is the program;
    the theorem at the end says what every run of it has passed on, and to whom. *)

From S2P Require Import Prelude Buffers Parsing Printing Addresses Descriptors Events Sockets Resolve Confined.

Module Bouncer.

(** The world, and the two vectors. The callbacks refer to their elements by
    reference, here by index: the vectors are not reallocated. *)
Record t (E : Type) := mk {
  world : E;
  sockets : list FileDescriptor.t;
  peers : list (option RawAddress.t);
}.
Arguments mk {E}.
Arguments world {E}.
Arguments sockets {E}.
Arguments peers {E}.

Section program.
Context `{Kernel E} `{!SocketCalls E} `{Resolver}.

(** [x_peer.has_value() and x_peer.value() == address]. *)
Definition knows (peer : option RawAddress.t) (address : RawAddress.t) : bool :=
  match peer with Some p => RawAddress.eqb p address | None => false end.

(** What the line that reports a new address evaluates. *)
Definition report (e : E) (x : FileDescriptor.t) (address : RawAddress.t) : result E :=
  '(e, local) ← BaseSocket.local_address e x;
  _ ← address_to_string local;
  _ ← address_to_string address;
  Ok e.

(** The callback of socket [here], whose partner is [there]. *)
Definition relay (here there : nat) (s : t E) : result (t E) :=
  match sockets s !! here, peers s !! here with
  | Some x, Some x_peer =>
      '(e, x, rec) ← UDPSocket.recv (world s) x UDPSocket.DEFAULT_MTU;
      let source := UDPSocket.source_address rec in
      let sockets := <[here := x]> (sockets s) in
      '(e, peers) ← (if knows x_peer source then Ok (e, peers s)
                     else e ← report e x source; Ok (e, <[here := Some source]> (peers s)));
      match sockets !! there, peers !! there, UDPSocket.payload rec with
      | Some y, Some (Some y_peer), _ :: _ =>
          '(e, y) ← UDPSocket.sendto e y y_peer (BufferViewList.of_string (UDPSocket.payload rec));
          Ok (mk e (<[there := y]> sockets) peers)
      | _, _, _ => Ok (mk e sockets peers)
      end
  | _, _ => Err (undefined_behaviour "a dangling reference")
  end.

Definition rule (here there : nat) (f : FileDescriptor.t) : EventLoop.Rule (t E) :=
  EventLoop.mk_rule (FileDescriptor.fd_num f) EventLoop.In (relay here there) (λ _, true) Ok.

(** One round of the [for] loop. *)
Definition add_pair (s : t E) (rules : list (EventLoop.Rule (t E))) (lower_port : Z) : result (t E * list (EventLoop.Rule (t E))) :=
  '(e, x) ← UDPSocket.new (world s);
  '(e, y) ← UDPSocket.new e;
  let i := length (sockets s) in
  a ← of_ip "0" lower_port;
  e ← BaseSocket.bind e x a;
  b ← of_ip "0" (w16 (lower_port + 1));
  e ← BaseSocket.bind e y b;
  let s := mk e (sockets s ++ [x; y]) (peers s ++ [None; None]) in
  Ok (s, rules ++ [rule i (S i) x; rule (S i) i y]).

Fixpoint add_pairs (fuel : nat) (s : t E) (rules : list (EventLoop.Rule (t E))) (lower_port : Z)
    : result (t E * list (EventLoop.Rule (t E))) :=
  match fuel with
  | O => Err out_of_fuel
  | S fuel =>
      if lower_port <=? 64000 then
        '(s, rules) ← add_pair s rules lower_port;
        add_pairs fuel s rules (w16 (lower_port + 2))
      else Ok (s, rules)
  end.

Definition descr (s : t E) (fd : Z) : FileDescriptor.t :=
  match List.find (λ f, FileDescriptor.fd_num f =? fd) (sockets s) with
  | Some f => f
  | None => FileDescriptor.mk fd false false 0 0
  end.

Definition poll (s : t E) (l : list pollfd) (timeout : Z) : sys (Z * list Z) * t E :=
  let '(answer, e) := sys_poll (world s) l timeout in (answer, mk e (sockets s) (peers s)).

(** At most [rounds] rounds of the [while] loop; the flag says whether it has ended. *)
Fixpoint loop (rounds : nat) (s : t E) (rules : list (EventLoop.Rule (t E))) : result (t E * bool) :=
  match rounds with
  | O => Ok (s, false)
  | S rounds =>
      '(s, rules, res) ← EventLoop.wait_next_event descr poll s rules (-1);
      match res with EventLoop.Exit => Ok (s, true) | _ => loop rounds s rules end
  end.

Definition program_body (fuel rounds : nat) (e : E) : result (t E * bool) :=
  '(s, rules) ← add_pairs fuel (mk e [] []) [] 1024;
  loop rounds s rules.

(** The status of the process, once it has ended; an exception is reported. *)
Definition main (fuel rounds : nat) (e : E) : option Z :=
  match program_body fuel rounds e with
  | Ok (_, ended) => if ended : bool then Some EXIT_SUCCESS else None
  | Err _ => Some EXIT_FAILURE
  end.

End program.

End Bouncer.

(** ** What is heard and passed on *)

(** The datagrams of a run, in order: the socket, the sender and the payload. *)
Definition arrival : Type := nat * Address.t * bytes.

Definition partner (i : nat) : nat := if Nat.even i then S i else pred i.

(** The bytes that have come in at [i]. *)
Definition arrived (i : nat) (h : list arrival) : bytes := mjoin ((λ p, if decide (p.1.1 = i) then p.2 else []) <$> h).

(** The bytes that go out of [i]: those of its partner, from the moment on when
    somebody has been heard at [i]. *)
Fixpoint relayed (heard : bool) (i : nat) (h : list arrival) : bytes :=
  match h with
  | [] => []
  | (k, _, payload) :: h =>
      if decide (k = i) then relayed true i h
      else (if decide (k = partner i) then if heard then payload else [] else []) ++ relayed heard i h
  end.

Definition last_heard (i : nat) (h : list arrival) : option Address.t :=
  foldl (λ known p, if decide (p.1.1 = i) then Some p.1.2 else known) None h.

Definition raw (a : Address.t) : RawAddress.t := match raw_of a with Ok r => r | Err _ => RawAddress.mk 0 [] end.

Lemma partner_partner i : partner (partner i) = i.
Proof.
  unfold partner. destruct (Nat.even i) eqn:E.
  - by rewrite Nat.even_succ, <- Nat.negb_even, E.
  - destruct i as [|i]; [done|]. rewrite Nat.even_succ, <- Nat.negb_even in E. simpl. by destruct (Nat.even i).
Qed.

Lemma partner_ne i : partner i ≠ i.
Proof. unfold partner. destruct (Nat.even i) eqn:E; [lia|]. destruct i; [done|]. simpl. lia. Qed.

Lemma partner_lt i n : Nat.Even n → (i < n)%nat → (partner i < n)%nat.
Proof.
  intros [k ->] Hi. unfold partner. destruct (Nat.even i) eqn:E; [|lia]. apply Nat.even_spec in E as [j ->]. lia.
Qed.

Lemma arrived_snoc i h p : arrived i (h ++ [p]) = arrived i h ++ (if decide (p.1.1 = i) then p.2 else []).
Proof. unfold arrived. rewrite fmap_app, join_app. simpl. by rewrite app_nil_r. Qed.

Lemma last_heard_snoc i h p : last_heard i (h ++ [p]) = if decide (p.1.1 = i) then Some p.1.2 else last_heard i h.
Proof. unfold last_heard. by rewrite foldl_app. Qed.

Lemma relayed_snoc i h k a payload heard :
  relayed heard i (h ++ [(k, a, payload)]) =
    relayed heard i h ++ (if decide (k = partner i) then if heard || bool_decide (is_Some (last_heard i h)) then payload else [] else []).
Proof.
  assert (Hsome : ∀ x (l : list arrival), bool_decide (is_Some (foldl (λ known p, if decide (p.1.1 = i) then Some p.1.2 else known) (Some x) l)) = true).
  { intros x l. apply bool_decide_true. revert x. induction l as [|p l IH]; intros x; simpl; [by eexists|]. case_decide; apply IH. }
  revert heard. induction h as [|[[k' a'] payload'] h IH]; intros heard; simpl.
  - pose proof (partner_ne i). destruct (decide (k = i)) as [->|]; [by rewrite decide_False|].
    unfold last_heard. simpl. rewrite ?orb_false_r, app_nil_r. done.
  - destruct (decide (k' = i)) as [->|].
    + rewrite IH. unfold last_heard. simpl. destruct (decide (i = i)); [|done]. by rewrite Hsome, orb_true_r.
    + rewrite IH, <- app_assoc. unfold last_heard. simpl. by destruct (decide (k' = i)).
Qed.

(** What sockets are asked for when the datagram [p] comes after those of [before]:
    it is taken in, and if it is not empty and somebody has been heard at the
    partner, it goes out there, to the address last heard. *)
Definition exchange (fds : list Z) (before : list arrival) (p : arrival) : list socket_event :=
  let '(i, source, payload) := p in
  Received (fds !!! i) source payload ::
  match last_heard (partner i) before, payload with
  | Some peer, _ :: _ => [Posted (fds !!! partner i) (Some (sockaddr_of (raw peer))) payload]
  | _, _ => []
  end.

Fixpoint traffic (fds : list Z) (before h : list arrival) : list socket_event :=
  match h with
  | [] => []
  | p :: h => exchange fds before p ++ traffic fds (before ++ [p]) h
  end.

Lemma traffic_snoc fds before h p : traffic fds before (h ++ [p]) = traffic fds before h ++ exchange fds (before ++ h) p.
Proof.
  revert before. induction h as [|q h IH]; intros before; cbn [app traffic]; [by rewrite !app_nil_r|].
  rewrite IH, <- !app_assoc. done.
Qed.

(** The ports the sockets are bound to, in order, on every address of the host. *)
Definition bound_to (fds : list Z) : list socket_event :=
  imap (λ i fd, Bound fd (sockaddr_of (raw (Address.mk 0 (1024 + Z.of_nat i))))) fds.

(** ** The sockets of the program

    What the manual pages of socket(2), bind(2) and getsockname(2) promise of calls
    that do not fail: a new descriptor is one that was not open, and the name of an
    Internet socket is an Internet address. [opened] is the set of the open
    descriptors. Polling asks nothing of a socket. *)
Class EndpointLaws (E : Type) `{Kernel E, SocketCalls E, KernelView E} := mk_endpoint_laws {
  opened : E → Z → Prop;
  law_poll_quiet : ∀ e l timeout, world_ok e → history (sys_poll e l timeout).2 = history e;
  law_socket : ∀ e domain type, world_ok e → fails e (sys_socket e domain type) ∨
    ∃ fd e', sys_socket e domain type = (Returned fd, e') ∧ 0 <= fd ∧ ~ opened e fd ∧
    idle e e' ∧ history e' = history e ∧ ∀ k, opened e' k ↔ k = fd ∨ opened e k;
  law_bind : ∀ e fd address, world_ok e → fails e (sys_bind e fd address) ∨
    ∃ e', sys_bind e fd address = (Returned 0, e') ∧ idle e e' ∧ history e' = history e ++ [Bound fd address] ∧
    ∀ k, opened e' k ↔ opened e k;
  law_getsockname : ∀ e fd size, world_ok e → fails e (sys_getsockname e fd size) ∨ ∃ a e',
    sys_getsockname e fd size =
      (Returned (RawAddress.sockaddr_in RawAddress.AF_INET (Address.port a) (Address.ipv4_numeric a), RawAddress.SOCKADDR_IN_SIZE), e') ∧
    is_u32 (Address.ipv4_numeric a) ∧ is_u16 (Address.port a) ∧ idle e e' ∧ history e' = history e;
}.

Section relays.
Context `{KernelLaws E} `{!SocketCalls E} `{!DatagramLaws E} `{!EndpointLaws E} `{ResolverLaws}.
Context (e0 : E) (start : list socket_event) (fds : list Z).

(** The datagrams [h] have arrived since [e0], and nothing else was asked of
    sockets since [start]. *)
Record linked (s : Bouncer.t E) (h : list arrival) : Prop := mk_linked {
  li_world : world_ok (Bouncer.world s);
  li_sockets : FileDescriptor.fd_num <$> Bouncer.sockets s = fds;
  li_peers : length (Bouncer.peers s) = length fds;
  li_heard : ∀ i, (i < length fds)%nat → Bouncer.peers s !! i = Some (raw <$> last_heard i h);
  li_valid : ∀ i a, last_heard i h = Some a → is_u32 (Address.ipv4_numeric a) ∧ is_u16 (Address.port a);
  li_drawn : ∀ i fd, fds !! i = Some fd → drawn (Bouncer.world s) fd = drawn e0 fd ++ arrived i h;
  li_sunk : ∀ i fd, fds !! i = Some fd → sunk (Bouncer.world s) fd = sunk e0 fd ++ relayed false i h;
  li_history : history (Bouncer.world s) = start ++ traffic fds [] h;
}.

Lemma report_spec e x a :
  world_ok e → is_u32 (Address.ipv4_numeric a) → is_u16 (Address.port a) →
  faulted (E := E) (Bouncer.report e x (raw a)) ∨
  ∃ e', Bouncer.report e x (raw a) = Ok e' ∧ idle e e' ∧ history e' = history e.
Proof.
  intros Hw Hi Hp. unfold Bouncer.report, BaseSocket.local_address, BaseSocket.get_address.
  destruct (law_getsockname e (FileDescriptor.fd_num x) RawAddress.STORAGE_SIZE Hw) as [Hf|(l & e' & -> & Hli & Hlp & Hidle)];
    [apply (fails_call "getsockname") in Hf; by_fault Hf|].
  cbn [call SystemCall mbind result_bind]. rewrite raw_from_sockaddr_in, raw_of_spec. cbn [mbind result_bind].
  unfold address_to_string. rewrite (ip_port_spec l _ Hli Hlp (raw_of_spec l)). cbn [mbind result_bind].
  unfold raw. rewrite raw_of_spec, (ip_port_spec a _ Hi Hp (raw_of_spec a)). cbn [mbind result_bind]. right. by exists e'.
Qed.

Lemma knows_spec known a :
  (∀ x, known = Some x → is_u32 (Address.ipv4_numeric x) ∧ is_u16 (Address.port x)) →
  is_u32 (Address.ipv4_numeric a) → is_u16 (Address.port a) →
  Bouncer.knows (raw <$> known) (raw a) = bool_decide (known = Some a).
Proof.
  intros Hk Hi Hp. destruct known as [x|]; [|done]. destruct (Hk x eq_refl) as [Hxi Hxp]. simpl.
  destruct (raw_address_faithful x a Hxi Hxp Hi Hp) as (ra & rb & Ea & Eb & _ & _ & Eq).
  unfold raw. rewrite Ea, Eb, Eq. apply bool_decide_ext. split; congruence.
Qed.

Context (Hnd : NoDup fds) (Heven : Nat.Even (length fds)).

Lemma fds_inj i j fd : fds !! i = Some fd → fds !! j = Some fd → i = j.
Proof. intros Hi Hj. by eapply NoDup_lookup. Qed.

(** The datagram at [i] is counted. *)
Lemma learn_step s h i fd x e a payload :
  linked s h → fds !! i = Some fd → Bouncer.sockets s !! i = Some x →
  gave (Bouncer.world s) e fd payload → is_u32 (Address.ipv4_numeric a) → is_u16 (Address.port a) →
  let learned := if Bouncer.knows (raw <$> last_heard i h) (raw a) then Ok (e, Bouncer.peers s)
    else e ← Bouncer.report e (FileDescriptor.register_read x) (raw a); Ok (e, <[i := Some (raw a)]> (Bouncer.peers s)) in
  faulted (E := E) learned ∨
  ∃ e', learned = Ok (e', <[i := Some (raw a)]> (Bouncer.peers s)) ∧ gave (Bouncer.world s) e' fd payload ∧ history e' = history e.
Proof.
  cbv zeta. intros [] Hfd Hx Hg Hi Hp. rewrite knows_spec by (try done; apply li_valid0). case_bool_decide as Hk.
  - right. exists e. split; [|done]. do 2 f_equal. rewrite list_insert_id; [done|]. rewrite li_heard0 by (by eapply lookup_lt_Some). by rewrite Hk.
  - destruct Hg as (Hw & Hd & Hs). destruct (report_spec e (FileDescriptor.register_read x) a Hw Hi Hp) as [Hf|(e' & -> & (Hw' & Hd' & Hs') & Hh)];
      [by_fault Hf|].
    cbn [mbind result_bind]. right. exists e'. split; [done|]. split; [|done]. split; [done|]. split; [|by intros k; rewrite Hs'].
    intros k. by rewrite Hd'.
Qed.

Lemma linked_arrival s h i fd there e sockets a payload sent :
  linked s h → fds !! i = Some fd → fds !! partner i = Some there →
  is_u32 (Address.ipv4_numeric a) → is_u16 (Address.port a) → world_ok e → FileDescriptor.fd_num <$> sockets = fds →
  (∀ k, drawn e k = if decide (k = fd) then drawn (Bouncer.world s) fd ++ payload else drawn (Bouncer.world s) k) →
  (∀ k, sunk e k = if decide (k = there) then sunk (Bouncer.world s) there ++ sent else sunk (Bouncer.world s) k) →
  sent = (if bool_decide (is_Some (last_heard (partner i) h)) then payload else []) →
  history e = history (Bouncer.world s) ++ exchange fds h (i, a, payload) →
  linked (Bouncer.mk e sockets (<[i := Some (raw a)]> (Bouncer.peers s))) (h ++ [(i, a, payload)]).
Proof.
  intros [] Hi Hj Hip Hp Hw Hso Hd Hs Hsent Hh. split; cbn [Bouncer.world Bouncer.sockets Bouncer.peers]; try done.
  - by rewrite length_insert.
  - intros k Hk. rewrite last_heard_snoc. simpl. destruct (decide (i = k)) as [->|Hne].
    + rewrite list_lookup_insert_eq by (by rewrite li_peers0). done.
    + rewrite list_lookup_insert_ne by done. by apply li_heard0.
  - intros k b. rewrite last_heard_snoc. simpl. destruct (decide (i = k)) as [->|Hne]; [by intros [= <-]|apply li_valid0].
  - intros k fk Hk. rewrite Hd, arrived_snoc. simpl. destruct (decide (fk = fd)) as [->|Hne].
    + rewrite (fds_inj k i fd Hk Hi), decide_True by done. by rewrite (li_drawn0 i fd Hi), app_assoc.
    + rewrite decide_False by congruence. by rewrite app_nil_r, (li_drawn0 k fk Hk).
  - intros k fk Hk. rewrite Hs, relayed_snoc. cbn [orb]. destruct (decide (fk = there)) as [->|Hne].
    + rewrite (fds_inj k _ there Hk Hj), partner_partner, decide_True, (li_sunk0 _ _ Hj), <- app_assoc by done. by rewrite Hsent.
    + rewrite decide_False; [by rewrite app_nil_r, (li_sunk0 k fk Hk)|]. intros Ei.
      rewrite Ei, partner_partner in Hj. congruence.
  - by rewrite Hh, li_history0, traffic_snoc, app_assoc.
Qed.

Lemma relay_step s h i x :
  linked s h → Bouncer.sockets s !! i = Some x → faulted (E := E) (Bouncer.relay i (partner i) s) ∨
  ∃ s' a payload x', Bouncer.relay i (partner i) s = Ok s' ∧ linked s' (h ++ [(i, a, payload)]) ∧
    Bouncer.sockets s' !! i = Some x' ∧ FileDescriptor.fd_num x' = FileDescriptor.fd_num x ∧
    FileDescriptor.read_count x' = w32 (FileDescriptor.read_count x + 1).
Proof.
  intros Hl Hx. pose proof Hl as [].
  assert (Hfd : fds !! i = Some (FileDescriptor.fd_num x)) by (by rewrite <- li_sockets0, list_lookup_fmap, Hx).
  pose proof (lookup_lt_Some _ _ _ Hfd) as Hlt. pose proof (partner_lt i _ Heven Hlt) as Hplt. pose proof (partner_ne i) as Hpn.
  assert (Hlen : length (Bouncer.sockets s) = length fds) by (by rewrite <- li_sockets0, length_fmap).
  destruct (lookup_lt_is_Some_2 (Bouncer.sockets s) (partner i)) as [y Hy]; [lia|].
  assert (Hfy : fds !! partner i = Some (FileDescriptor.fd_num y)) by (by rewrite <- li_sockets0, list_lookup_fmap, Hy).
  unfold Bouncer.relay. rewrite Hx, (li_heard0 i Hlt).
  destruct (recv_core (Bouncer.world s) x UDPSocket.DEFAULT_MTU li_world0) as [Hf|(payload & a & r & e & Er & Hip & Hp & Hpl & Hg & Hhe & ->)]; [done|by_fault Hf|].
  rewrite (proj2 (Z.ltb_ge _ _)) by (unfold UDPSocket.DEFAULT_MTU; unfold MAX_DATAGRAM in Hpl; lia). cbn [mbind result_bind].
  assert (raw a = r) as <- by (unfold raw; by rewrite Er). cbn [UDPSocket.source_address UDPSocket.payload].
  destruct (learn_step s h i _ x e a payload Hl Hfd Hx Hg Hip Hp) as [Hf|(e' & -> & (Hw' & Hd' & Hs') & Hh')]; [by_fault Hf|]. cbn [mbind result_bind].
  rewrite Hhe in Hh'. pose proof (list_lookup_total_correct _ _ _ Hfd) as Hti. pose proof (list_lookup_total_correct _ _ _ Hfy) as Hty.
  rewrite !list_lookup_insert_ne, Hy, (li_heard0 _ Hplt) by done.
  assert (Hso : FileDescriptor.fd_num <$> <[i := FileDescriptor.register_read x]> (Bouncer.sockets s) = fds).
  { rewrite list_fmap_insert. simpl. by rewrite li_sockets0, list_insert_id. }
  destruct (decide (is_Some (last_heard (partner i) h) ∧ payload ≠ [])) as [[[b Hb] Hne]|Hno].
  - rewrite Hb. destruct payload as [|c payload]; [done|]. cbn [fmap option_fmap option_map].
    destruct (sendto_core e' y (raw b) (BufferViewList.of_string (c :: payload)) Hw') as [Hf|(e2 & -> & (Hw2 & Hs2 & Hd2) & Hh2)].
    { simpl. by rewrite app_nil_r. }
    { by_fault Hf. }
    cbn [mbind result_bind]. right. eexists _, a, (c :: payload), (FileDescriptor.register_read x). split; [done|]. split; [|split; [|done]].
    + eapply (linked_arrival s h i _ _ e2 _ a (c :: payload) (c :: payload)); try done.
      * rewrite list_fmap_insert. simpl. by rewrite Hso, list_insert_id.
      * intros k. by rewrite Hd2.
      * intros k. rewrite Hs2. simpl. rewrite app_nil_r. by destruct (decide _); rewrite Hs'.
      * by rewrite Hb.
      * rewrite Hh2, Hh', <- app_assoc. unfold exchange. rewrite Hb, Hti, Hty. cbn [BufferViewList.of_string mjoin list_join app].
        by rewrite app_nil_r.
    + simpl. rewrite list_lookup_insert_ne by done. apply list_lookup_insert_eq. by rewrite Hlen.
  - right. exists (Bouncer.mk e' (<[i := FileDescriptor.register_read x]> (Bouncer.sockets s)) (<[i := Some (raw a)]> (Bouncer.peers s))), a, payload, (FileDescriptor.register_read x).
    split; [|split; [|split; [simpl; apply list_lookup_insert_eq; by rewrite Hlen|done]]].
    + destruct (last_heard (partner i) h); [|done]. destruct payload; [done|]. exfalso. apply Hno. by split; [eexists|].
    + eapply (linked_arrival s h i _ _ e' _ a payload []); try done.
      * intros k. rewrite app_nil_r, Hs'. by case_decide; subst.
      * case_bool_decide; [|done]. destruct payload; [done|]. exfalso. by apply Hno.
      * rewrite Hh'. unfold exchange. rewrite Hti. destruct (last_heard (partner i) h) eqn:El; [|done]. destruct payload; [done|].
        exfalso. apply Hno. by split; [eexists|].
Qed.

(** *** The loop *)

Definition rule_at (i : nat) (fd : Z) : EventLoop.Rule (Bouncer.t E) :=
  EventLoop.mk_rule fd EventLoop.In (Bouncer.relay i (partner i)) (λ _, true) Ok.

Lemma bouncer_descr s h i x : linked s h → Bouncer.sockets s !! i = Some x → Bouncer.descr s (FileDescriptor.fd_num x) = x.
Proof.
  intros [] Hx. unfold Bouncer.descr. assert (Hf : NoDup (FileDescriptor.fd_num <$> Bouncer.sockets s)) by congruence.
  revert i Hx Hf. clear. generalize (Bouncer.sockets s). induction l as [|y l IH]; intros i Hx Hf; [done|]. simpl in *.
  apply NoDup_cons in Hf as [Hy Hf]. destruct i as [|i]; simpl in Hx; [injection Hx as ->; by rewrite Z.eqb_refl|].
  destruct (Z.eqb_spec (FileDescriptor.fd_num y) (FileDescriptor.fd_num x)) as [He|]; [|by eapply IH].
  exfalso. apply Hy. rewrite He. apply list_elem_of_fmap_2. by eapply list_elem_of_lookup_2.
Qed.

Lemma rule_at_ok i fd : fds !! i = Some fd → rule_ok Bouncer.descr (λ s, ∃ h, linked s h) (rule_at i fd).
Proof.
  intros Hfd. split; simpl; [|intros s Hs; right; by exists s]. intros s [h Hl].
  destruct (Bouncer.sockets s !! i) as [x|] eqn:Hx.
  2:{ apply (f_equal (fmap FileDescriptor.fd_num)) in Hx. by rewrite <- list_lookup_fmap, (li_sockets _ _ Hl), Hfd in Hx. }
  assert (fd = FileDescriptor.fd_num x) as ->.
  { rewrite <- (li_sockets _ _ Hl), list_lookup_fmap, Hx in Hfd. by injection Hfd. }
  destruct (relay_step s h i x Hl Hx) as [Hf|(s' & a & payload & x' & E' & Hl' & Hx' & Hn & Hc)]; [by left|].
  right. exists s'. split; [done|]. split; [by eexists|]. left. unfold EventLoop.service_count. simpl.
  rewrite (bouncer_descr s h i x Hl Hx), <- Hn, (bouncer_descr s' _ i x' Hl' Hx'), Hc. symmetry. apply w32_add_ne. lia.
Qed.

Lemma bouncer_poll_ok : poll_ok Bouncer.poll (λ s, ∃ h, linked s h).
Proof.
  intros s l timeout [h []]. unfold Bouncer.poll.
  destruct (law_poll (Bouncer.world s) l timeout li_world0) as (answer & e' & Ep & (Hw & Hd & Hs) & Ha).
  pose proof (law_poll_quiet (Bouncer.world s) l timeout li_world0) as Hq. rewrite Ep in Hq |- *. cbn [snd] in Hq.
  exists answer. eexists. split; [done|]. split; [|done]. exists h.
  split; cbn [Bouncer.world Bouncer.sockets Bouncer.peers]; try done; intros; rewrite ?Hd, ?Hs; auto. by rewrite Hq.
Qed.

Lemma bouncer_loop rounds s rules h :
  linked s h → Forall (rule_ok Bouncer.descr (λ s, ∃ h, linked s h)) rules →
  faulted (E := E) (Bouncer.loop rounds s rules) ∨ ∃ s' ended h', Bouncer.loop rounds s rules = Ok (s', ended) ∧ linked s' h'.
Proof.
  revert s rules h. induction rounds as [|rounds IH]; intros s rules h Hl Hr; [right; by exists s, false, h|]. cbn [Bouncer.loop].
  destruct (wait_next_event_invariant Bouncer.descr _ _ s rules (-1) bouncer_poll_ok) as [Hf|(s1 & rules1 & res & -> & [h1 Hl1] & Hr1 & _)];
    [by exists h|done|by_fault Hf|]. cbn [mbind result_bind]. destruct res; [by eapply IH|by eapply IH|right; by exists s1, true, h1].
Qed.

End relays.

(** *** The sockets *)

Section set_up.
Context `{KernelLaws E} `{!SocketCalls E} `{!DatagramLaws E} `{!EndpointLaws E} `{ResolverLaws}.
Context (e0 : E).

Record prepared (s : Bouncer.t E) (rules : list (EventLoop.Rule (Bouncer.t E))) (fds : list Z) : Prop := mk_prepared {
  pr_world : idle e0 (Bouncer.world s);
  pr_sockets : FileDescriptor.fd_num <$> Bouncer.sockets s = fds;
  pr_peers : Bouncer.peers s = replicate (length fds) None;
  pr_new : NoDup fds;
  pr_opened : Forall (opened (Bouncer.world s)) fds;
  pr_even : Nat.Even (length fds);
  pr_rules : rules = imap rule_at fds;
  pr_history : history (Bouncer.world s) = history e0 ++ bound_to fds;
}.

Lemma new_socket e : world_ok e → faulted (E := E) (UDPSocket.new e) ∨
  ∃ e' f, UDPSocket.new e = Ok (e', f) ∧ idle e e' ∧ history e' = history e ∧ ~ opened e (FileDescriptor.fd_num f) ∧
    ∀ k, opened e' k ↔ k = FileDescriptor.fd_num f ∨ opened e k.
Proof.
  intros Hw. unfold UDPSocket.new, BaseSocket.new.
  destruct (law_socket e RawAddress.AF_INET SOCK_DGRAM Hw) as [Hf|(fd & e' & -> & Hfd & Hno & Hi & Hh & Ho)];
    [apply (fails_call "socket") in Hf; by_fault Hf|]. cbn [call SystemCall mbind result_bind].
  unfold FileDescriptor.new. rewrite (proj2 (Z.ltb_ge _ _)) by done. cbn [mbind result_bind]. right. by eexists _, _.
Qed.

Lemma bind_socket e f port : world_ok e → is_u16 port → of_ip "0" port = Ok (raw (Address.mk 0 port)) ∧
  (faulted (E := E) (BaseSocket.bind e f (raw (Address.mk 0 port))) ∨
   ∃ e', BaseSocket.bind e f (raw (Address.mk 0 port)) = Ok e' ∧ idle e e' ∧
     history e' = history e ++ [Bound (FileDescriptor.fd_num f) (sockaddr_of (raw (Address.mk 0 port)))] ∧ ∀ k, opened e' k ↔ opened e k).
Proof.
  intros Hw Hp. split; [rewrite (of_ip_spec "0" 0 port eq_refl Hp); unfold raw; by rewrite raw_of_spec|]. unfold BaseSocket.bind.
  destruct (law_bind e (FileDescriptor.fd_num f) (sockaddr_of (raw (Address.mk 0 port))) Hw) as [Hf|(e' & -> & Hi & Ho)];
    [apply (fails_call "bind") in Hf; by_fault Hf|right; by exists e'].
Qed.

Lemma partner_even i : Nat.Even i → partner i = S i ∧ partner (S i) = i.
Proof. intros Hi. apply Nat.even_spec in Hi as He. unfold partner. rewrite Nat.even_succ, <- Nat.negb_even, He. done. Qed.

Lemma add_pair_prepared s rules fds port :
  prepared s rules fds → port = 1024 + Z.of_nat (length fds) → is_u16 port → is_u16 (port + 1) →
  faulted (E := E) (Bouncer.add_pair s rules port) ∨
  ∃ s' rules' x y, Bouncer.add_pair s rules port = Ok (s', rules') ∧ prepared s' rules' (fds ++ [x; y]).
Proof.
  intros [] Hport Hp Hp1. unfold Bouncer.add_pair.
  destruct (new_socket (Bouncer.world s) (proj1 pr_world0)) as [Hf|(e1 & x & -> & Hi1 & Hh1 & Hno1 & Ho1)]; [by_fault Hf|]. cbn [mbind result_bind].
  destruct (new_socket e1 (proj1 Hi1)) as [Hf|(e2 & y & -> & Hi2 & Hh2 & Hno2 & Ho2)]; [by_fault Hf|]. cbn [mbind result_bind].
  destruct (bind_socket e2 x port (proj1 Hi2) Hp) as [-> [Hf|(e3 & E3 & Hi3 & Hh3 & Ho3)]]; cbn [mbind result_bind]; [by_fault Hf|].
  rewrite E3. cbn [mbind result_bind]. rewrite w16_small by done.
  destruct (bind_socket e3 y (port + 1) (proj1 Hi3) Hp1) as [-> [Hf|(e4 & E4 & Hi4 & Hh4 & Ho4)]]; cbn [mbind result_bind]; [by_fault Hf|].
  rewrite E4. cbn [mbind result_bind].
  assert (Hlen : length (Bouncer.sockets s) = length fds) by (by rewrite <- pr_sockets0, length_fmap).
  rewrite Forall_forall in pr_opened0. right.
  eexists _, _, (FileDescriptor.fd_num x), (FileDescriptor.fd_num y). split; [done|]. split; cbn [Bouncer.world Bouncer.sockets Bouncer.peers].
  - by apply (idle_trans _ (Bouncer.world s)), (idle_trans _ e1), (idle_trans _ e2), (idle_trans _ e3).
  - by rewrite fmap_app, pr_sockets0.
  - rewrite pr_peers0, length_app. by rewrite replicate_add.
  - apply NoDup_app. split; [done|]. split.
    + intros k Hk [->| ->%list_elem_of_singleton]%elem_of_cons; [by apply Hno1, pr_opened0|].
      apply Hno2, Ho1. right. by apply pr_opened0.
    + apply NoDup_cons. split; [|apply NoDup_singleton]. intros Hxy%list_elem_of_singleton. apply Hno2, Ho1. by left.
  - apply Forall_forall. intros k Hk. apply Ho4, Ho3, Ho2. rewrite Ho1.
    apply elem_of_app in Hk as [Hk|[->| ->%list_elem_of_singleton]%elem_of_cons]; [|tauto|tauto]. right. right. by apply pr_opened0.
  - rewrite length_app. destruct pr_even0 as [k ->]. exists (S k). simpl. lia.
  - rewrite imap_app, Hlen, <- pr_rules0. destruct (partner_even (length fds) pr_even0) as [Hx Hy].
    unfold Bouncer.rule, rule_at. simpl. rewrite Nat.add_0_r, Nat.add_1_r, Hx, Hy. done.
  - rewrite Hh4, Hh3, Hh2, Hh1, pr_history0, <- !app_assoc. unfold bound_to. rewrite imap_app. do 2 f_equal.
    cbn [imap app]. unfold compose. rewrite Hport. rewrite Nat.add_0_r, Nat2Z.inj_add, Z.add_assoc. done.
Qed.

Lemma add_pairs_prepared fuel s rules fds port :
  prepared s rules fds → port = 1024 + Z.of_nat (length fds) → 1024 <= port <= 64002 → Z.even port = true →
  64002 - port < 2 * Z.of_nat fuel → faulted (E := E) (Bouncer.add_pairs fuel s rules port) ∨
  ∃ s' rules' fds', Bouncer.add_pairs fuel s rules port = Ok (s', rules') ∧ prepared s' rules' fds' ∧
    Z.of_nat (length fds') = Z.of_nat (length fds) + (64002 - port).
Proof.
  revert s rules fds port. induction fuel as [|fuel IH]; intros s rules fds port Hs Hport Hp He Hf; [lia|]. cbn [Bouncer.add_pairs].
  destruct (Z.leb_spec port 64000) as [Hle|Hgt].
  - destruct (add_pair_prepared s rules fds port Hs Hport) as [Hft|(s1 & rules1 & x & y & -> & Hs1)]; [unfold_w; lia..|by_fault Hft|].
    cbn [mbind result_bind].
    rewrite w16_small by (unfold_w; lia).
    destruct (IH s1 rules1 _ (port + 2) Hs1) as [?|(s' & rules' & fds' & -> & Hs' & Hl)]; [| |by rewrite Z.even_add, He|lia|by left|].
    { rewrite length_app. simpl. lia. }
    { apply Z.even_spec in He as [k ->]. lia. }
    right. exists s', rules', fds'. split; [done|]. split; [done|]. rewrite length_app in Hl. simpl in Hl. lia.
  - assert (port = 64002) as ->. { apply Z.even_spec in He as [k ->]. lia. }
    right. exists s, rules, fds. split; [done|]. split; [done|]. lia.
Qed.

Lemma prepared_linked s rules fds : prepared s rules fds → linked e0 (history e0 ++ bound_to fds) fds s [].
Proof.
  intros [(Hw & Hd & Hs)]. split; try done.
  5: cbn [traffic]; by rewrite app_nil_r.
  - by rewrite pr_peers0, length_replicate.
  - intros i Hi. rewrite pr_peers0. by apply lookup_replicate_2.
  - intros i fd Hi. rewrite Hd. simpl. by rewrite app_nil_r.
  - intros i fd Hi. rewrite Hs. simpl. by rewrite app_nil_r.
Qed.

(** C21. What the bouncer passes on. Unless a system call fails, all 62978 sockets
    are made, fewer than the vectors have room for, and bound to the ports from
    1024 on, in order; and after any number of rounds of the event loop, which
    throw nothing, there is a sequence of arrivals that explains all that sockets
    were asked for since: each datagram was taken in at its socket, and right after
    it, if it was not empty and somebody had been heard at the partner socket, that
    same datagram, whole and unchanged, was sent from the partner to the address
    last heard there, and nothing else was sent. In bytes: at each socket exactly
    those that arrived there were taken in, and out of it have gone those that
    arrived at its partner after somebody had been heard at it; and its peer is the
    address last heard. So the pairs do not mix, and no datagram is passed on to
    nobody. *)
Theorem bouncer_relays fuel rounds :
  world_ok e0 → 62978 < 2 * Z.of_nat fuel →
  faulted (E := E) (Bouncer.program_body fuel rounds e0) ∨
  ∃ s ended h, Bouncer.program_body fuel rounds e0 = Ok (s, ended) ∧ blen (Bouncer.sockets s) = 62978 ∧
    (let fds := FileDescriptor.fd_num <$> Bouncer.sockets s in
     NoDup fds ∧ history (Bouncer.world s) = history e0 ++ bound_to fds ++ traffic fds [] h) ∧
    ∀ i f, Bouncer.sockets s !! i = Some f →
      let fd := FileDescriptor.fd_num f in
      drawn (Bouncer.world s) fd = drawn e0 fd ++ arrived i h ∧
      sunk (Bouncer.world s) fd = sunk e0 fd ++ relayed false i h ∧
      Bouncer.peers s !! i = Some (raw <$> last_heard i h).
Proof.
  intros Hw Hf. destruct (add_pairs_prepared fuel (Bouncer.mk e0 [] []) [] [] 1024) as [Hft|(s0 & rules & fds & E0 & Hs & Hlen)];
    [split; try done; [constructor|by exists O|by rewrite app_nil_r]|done|lia|done|lia|unfold Bouncer.program_body; by_fault Hft|].
  unfold Bouncer.program_body. rewrite E0. cbn [mbind result_bind].
  destruct (bouncer_loop e0 _ fds rounds s0 rules [] (prepared_linked _ _ _ Hs)) as [?|(s & ended & h & -> & [])]; [|by left|].
  { rewrite (pr_rules _ _ _ Hs). apply Forall_lookup. intros i r Hr. rewrite list_lookup_imap in Hr.
    destruct (fds !! i) as [fd|] eqn:Hfd; [|done]. injection Hr as <-. apply rule_at_ok; [apply Hs|apply Hs|done]. }
  assert (Hl : length (Bouncer.sockets s) = length fds) by (by rewrite <- li_sockets0, length_fmap).
  right. exists s, ended, h. split; [done|]. split; [unfold blen; rewrite Hl; simpl in Hlen; lia|].
  split; [cbv zeta; rewrite li_sockets0; split; [apply Hs|by rewrite app_assoc]|].
  intros i f Hi. assert (Hfd : fds !! i = Some (FileDescriptor.fd_num f)) by (by rewrite <- li_sockets0, list_lookup_fmap, Hi).
  split; [by apply li_drawn0|]. split; [by apply li_sunk0|]. apply li_heard0. by eapply lookup_lt_Some.
Qed.

End set_up.

(** ** Sockets that are numbered *)

(** The toy kernel, with the time as the number of the next socket, which is not
    negative. *)
Definition numbered_sockets : SocketCalls toy := {|
  sys_socket e _ _ := (Returned (toy_time e), mk_toy (script e) (toy_drawn e) (toy_sunk e) (toy_time e + 1) (toy_history e));
  sys_socketpair := sys_socketpair;
  sys_getsockopt := sys_getsockopt;
  sys_setsockopt := sys_setsockopt;
  sys_getsockname := sys_getsockname;
  sys_getpeername := sys_getpeername;
  sys_bind := sys_bind;
  sys_connect := sys_connect;
  sys_listen := sys_listen;
  sys_accept := sys_accept;
  sys_recvfrom := sys_recvfrom;
  sys_sendmsg := sys_sendmsg;
  sys_open := sys_open;
  sys_tunsetiff := sys_tunsetiff;
|}.

Abbreviation numbered_view := (confined_view [] (λ _, True) 0).

Lemma numbered_datagrams : @DatagramLaws toy numbered_sockets numbered_view.
Proof.
  destruct (confined_datagrams [] (λ _, True) 0) as [Hr Hs]. split; [exact Hr|exact Hs].
Qed.

Lemma numbered_endpoints : @EndpointLaws toy toy_kernel numbered_sockets numbered_view.
Proof.
  refine {| opened e fd := fd < toy_time e |}.
  - reflexivity.
  - intros e domain type (Hw & Hc & Ht). right. eexists _, _. split; [reflexivity|]. split; [exact Ht|]. split; [lia|]. split; [|split].
    + split; [|done]. split; [exact Hw|]. split; [exact Hc|]. simpl. lia.
    + reflexivity.
    + intros k. simpl. lia.
  - intros e fd address Hw. right. by eexists.
  - intros e fd size Hw. right. exists (Address.mk 0x0a000001 80), e. split; [reflexivity|]. split; [range_compute|]. by split; [range_compute|].
Defined.

(** The lower of the two ports is descriptor 10, the upper one 11: X is heard
    first, without effect; then what Y says goes out of X, and what X says after
    that goes out of Y. *)
Definition a_conversation (fd : Z) : list bytes :=
  if fd =? 10 then [[Byte.x61]; [Byte.x62]] else if fd =? 11 then [[Byte.x63]; [Byte.x64]] else [].

Definition pair_world : toy := mk_toy a_conversation (λ _, []) (λ _, []) 10 [].

Definition one_pair (rounds : nat) : result (Bouncer.t toy * bool) :=
  '(s, rules) ← Bouncer.add_pair (SocketCalls0 := numbered_sockets) (Bouncer.mk pair_world [] []) [] 1024;
  Bouncer.loop rounds s rules.

Definition sent_by (r : result (Bouncer.t toy * bool)) : option (bytes * bytes) :=
  match r with Ok (s, _) => Some (toy_sunk (Bouncer.world s) 10, toy_sunk (Bouncer.world s) 11) | Err _ => None end.

Lemma one_pair_talks : sent_by (one_pair 2) = Some ([Byte.x63; Byte.x64], [Byte.x62]).
Proof. vm_compute. reflexivity. Qed.

Lemma bouncer_relays_witness :
  ∃ s ended h, Bouncer.program_body (SocketCalls0 := numbered_sockets) (Z.to_nat 40000) 5 pair_world = Ok (s, ended) ∧
    blen (Bouncer.sockets s) = 62978 ∧
    (∃ fds, toy_history (Bouncer.world s) = bound_to fds ++ traffic fds [] h) ∧
    ∀ f, Bouncer.sockets s !! 0%nat = Some f → toy_sunk (Bouncer.world s) (FileDescriptor.fd_num f) = relayed false 0 h.
Proof.
  destruct (bouncer_relays (H0 := numbered_view) (H1 := confined_laws [] (λ _, True) 0) (DatagramLaws0 := numbered_datagrams)
    (EndpointLaws0 := numbered_endpoints) pair_world (Z.to_nat 40000) 5) as [(x & _ & [] & _)|(s & ended & h & E & Hl & [_ Hh] & Hs)].
  - split; [|split; [intros fd Hf; inversion Hf|simpl; lia]]. intros fd. unfold pair_world, a_conversation. cbn [toy_drawn script].
    destruct (fd =? 10), (fd =? 11); vm_compute; reflexivity.
  - lia.
  - exists s, ended, h. split; [exact E|]. split; [exact Hl|]. split; [exists (FileDescriptor.fd_num <$> Bouncer.sockets s); exact Hh|].
    intros f Hf. exact (proj1 (proj2 (Hs 0%nat f Hf))).
Defined.
