(* ===== verification/Programs.v ===== *)
(** * Programs around the library: apps/tun.cc, apps/tcp_native.cc, main of apps/udp_tcpdump.cc and of apps/webget.cc

    The packets of a TUN device as text, a stream copy over a socket of the
    kernel's own TCP, the capture loop, and the command line of the web client.
    Standard output is a string, the status of the process a result. *)

From S2P Require Import Prelude Buffers Parsing Wrapping Segment Ipv4 Link Stream Printing Addresses Robustness.
From S2P Require Import Usage Descriptors Events Options Dump Sockets Resolve Webget Pipes StreamCopy Confined Bouncer.

(** ** tun *)

Module Tun.

(** What is printed for one packet. *)
Definition show (buffer : bytes) : result string :=
  let got := (nl ++ nl ++ "***" ++ nl ++ "*** Got packet:" ++ nl ++ "***" ++ nl ++ hexdump buffer 0 ++
              "attempting to parse as ipv4 datagram... ")%string in
  '(ip_dgram, err) ← IPv4Datagram.parse IPv4Datagram.default (Buffer.of_string buffer);
  if negb (bool_decide (err = NoError)) then Ok (got ++ "failed." ++ nl)%string
  else
    let h := IPv4Datagram.header ip_dgram in
    let got := (got ++ "success! totlen=" ++ to_string (IPv4Header.len h) ++ ", IPv4 header contents:" ++ nl ++ ipv4_to_string h)%string in
    if negb (IPv4Header.proto h =? IPv4Header.PROTO_TCP) then Ok (got ++ nl ++ "Not TCP, skipping." ++ nl)%string
    else
      let got := (got ++ nl ++ "Attempting to parse as a TCP segment... ")%string in
      payload ← BufferList.to_buffer (IPv4Datagram.payload ip_dgram);
      '(tcp_seg, err) ← TCPSegment.parse TCPSegment.default payload (IPv4Header.pseudo_cksum h);
      if negb (bool_decide (err = NoError)) then Ok (got ++ "failed." ++ nl)%string
      else
        Ok (got ++ "success! payload len=" ++ to_string (Buffer.size (TCPSegment.payload tcp_seg)) ++ ", TCP header contents:" ++ nl ++
            tcp_to_string (TCPSegment.header tcp_seg) ++ nl)%string.

Section program.
Context `{Kernel E} `{!SocketCalls E}.

(** At most [rounds] rounds of the endless loop; [out] is what was printed. *)
Fixpoint loop (rounds : nat) (e : E) (tun : FileDescriptor.t) (out : string) : result (E * FileDescriptor.t * string) :=
  match rounds with
  | O => Ok (e, tun, out)
  | S rounds =>
      '(e, tun, buffer) ← FileDescriptor.read e tun FileDescriptor.NO_LIMIT;
      text ← show buffer;
      loop rounds e tun (out ++ text)%string
  end.

Definition run (rounds : nat) (e : E) : result (E * FileDescriptor.t * string) :=
  '(e, tun) ← TunTapFD.new e (opt "tun144") true;
  loop rounds e tun "".

End program.

End Tun.

(** ** tcp_native *)

Module Native.

Section program.
Context `{Kernel E} `{!SocketCalls E} `{Resolver}.

(** [server_mode], and the host and the port; [None] when the usage is printed. *)
Definition arguments (argv : list string) : option (bool * string * string) :=
  match argv with
  | _ :: a :: b :: rest =>
      if strncmp_eq (opt "-l") (opt a) 3 then match rest with c :: _ => Some (true, b, c) | [] => None end
      else Some (false, a, b)
  | _ => None
  end.

(** The listening socket is closed when the lambda returns. *)
Definition open (e : E) (server_mode : bool) (host port : string) : result (E * FileDescriptor.t) :=
  if server_mode then
    '(e, listening_socket) ← TCPSocket.new e;
    e ← BaseSocket.set_reuseaddr e listening_socket;
    address ← resolve_name host port;
    e ← BaseSocket.bind e listening_socket address;
    e ← TCPSocket.listen e listening_socket 16;
    '(e, listening_socket, socket) ← TCPSocket.accept e listening_socket;
    Ok (FileDescriptor.destroy e listening_socket, socket)
  else
    '(e, connecting_socket) ← TCPSocket.new e;
    address ← resolve_name host port;
    e ← BaseSocket.connect e connecting_socket address;
    Ok (e, connecting_socket).

(** The copy and the [main] around it, [fuel] rounds of its event loop at most:
    the status and the usage, or the state of the copy and whether it has
    returned. *)
Definition body (fuel : nat) (e : E) (argv : list string) :=
  match arguments argv with
  | None => Ok (inl (EXIT_FAILURE, native_show_usage (match argv with argv0 :: _ => argv0 | [] => ""%string end)))
  | Some (server_mode, host, port) =>
      '(e, socket) ← open e server_mode host port;
      x ← StreamCopy.bidirectional_stream_copy fuel e socket;
      Ok (inr x)
  end.

(** [None] while the copy goes on. *)
Definition main (fuel : nat) (e : E) (argv : list string) : option Z :=
  match body fuel e argv with
  | Ok (inl (status, _)) => Some status
  | Ok (inr (_, _, returned)) => if (returned : bool) then Some EXIT_SUCCESS else None
  | Err _ => Some EXIT_FAILURE
  end.

End program.

End Native.

(** ** webget *)

Module WebgetMain.

Section program.
Context `{Kernel E, !SocketCalls E} (resolve : bytes → bytes → result RawAddress.t).

(** The status, and what a complete fetch has printed; [None] when the process
    aborts, because there is not even the name of the program. *)
Definition main (fuel : nat) (e : E) (argv : list bytes) : option (Z * option bytes) :=
  match argv with
  | [] => None
  | [_; host; path] =>
      match Webget.get_URL resolve fuel e host path with
      | Ok (_, _, out) => Some (EXIT_SUCCESS, Some out)
      | Err _ => Some (EXIT_FAILURE, None)
      end
  | _ => Some (EXIT_FAILURE, None)
  end.

End program.

End WebgetMain.

(** ** udp_tcpdump *)

(** What the program uses of libpcap, on a capture [P]: an answer is the value
    and the text of [pcap_geterr] when it is not zero. *)
Class Pcap (P : Type) := mk_pcap {
  pcap_open_live : option bytes → P + bytes;
  pcap_datalink : P → Z;
  pcap_datalink_val_to_description : Z → bytes;
  pcap_compile : P → bytes → option bytes;
  pcap_setfilter : P → bytes → option bytes * P;
  pcap_next_ex : P → Z * bytes * P;
}.

Module Capture.

(** An early end of the process, or what the options say: the device, and the
    words of the filter expression. *)
Fixpoint parse_arguments (args : list bytes) (dev : option bytes) : exit_status + option bytes * list bytes :=
  match args with
  | [] => inr (dev, [])
  | arg :: rest =>
      if strncmp_eq (opt "-i") arg 3 then
        match rest with
        | [] => inl (mk_exit 1 (opt "ERROR: -i requires an argument"))
        | d :: rest => parse_arguments rest (Some d)
        end
      else if strncmp_eq (opt "-h") arg 3 || strncmp_eq (opt "--help") arg 7 then inl (mk_exit 0 [])
      else inr (dev, args)
  end.

Definition filter_expression (words : list bytes) : bytes := mjoin ((λ w, w ++ opt " ") <$> words).

Definition supported (dlt : Z) : bool :=
  (dlt =? Dump.DLT_RAW) || (dlt =? Dump.DLT_NULL) || (dlt =? Dump.DLT_EN10MB) || (dlt =? Dump.DLT_LINUX_SLL) ||
  (dlt =? Dump.DLT_LINUX_SLL2).

(** What was written so far to standard output and to standard error. *)
Record written := mk_written {
  out : string;
  err : string;
}.

Definition add (w : written) (o : Dump.outcome) : written :=
  match o with
  | Dump.Printed s => mk_written (out w ++ s) (err w)
  | Dump.Skipped s | Dump.Gave_up s => mk_written (out w) (err w ++ s)
  end%string.

Section program.
Context `{Pcap P} (inet6_ntop : bytes → string).

(** The loop over the packets, and what follows it: [pcap_geterr] of a handle
    that was closed. *)
Fixpoint capture (fuel : nat) (p : P) (dl_type : Z) (w : written) : result (Z * written) :=
  match fuel with
  | O => Err out_of_fuel
  | S fuel =>
      let '(next_ret, pkt_data, p) := pcap_next_ex p in
      if next_ret <? 0 then
        if next_ret =? -1 then Err (undefined_behaviour "pcap_geterr of a closed capture") else Ok (EXIT_SUCCESS, w)
      else if next_ret =? 0 then capture fuel p dl_type w
      else
        o ← Dump.dump_packet inet6_ntop dl_type pkt_data;
        match o with
        | Dump.Gave_up _ => Ok (EXIT_FAILURE, add w o)
        | _ => capture fuel p dl_type (add w o)
        end
  end.

Definition text_of (l : bytes) : string := String.string_of_list_byte l.

(** The usage is printed with a message, or on request. *)
Definition main (fuel : nat) (arg0 : bytes) (argv : list bytes) : result (Z * written) :=
  match parse_arguments argv None with
  | inl e =>
      let errmsg := if code e =? 0 then None else Some (text_of (message e)) in
      Ok (code e, mk_written (dump_show_usage (text_of arg0) errmsg) "")
  | inr (dev, words) =>
      let first := match dev with Some d => ("Capturing on interface " ++ text_of d)%string | None => "Capturing on all interfaces"%string end in
      match pcap_open_live dev with
      | inr errbuf => Ok (1, mk_written (first ++ nl ++ "Error initiating capture: " ++ text_of errbuf ++ nl)%string "")
      | inl p_hdl =>
          let dlt := pcap_datalink p_hdl in
          let name := text_of (pcap_datalink_val_to_description dlt) in
          if negb (supported dlt) then Ok (1, mk_written (first ++ nl ++ "Error: unsupported datalink type " ++ name ++ nl)%string "")
          else
            let f := filter_expression words in
            let first := (first ++ " (type: " ++ name ++ ")" ++ nl ++ "Using filter expression: " ++ text_of f ++ nl)%string in
            match pcap_compile p_hdl f with
            | Some msg => Ok (EXIT_FAILURE, mk_written (first ++ "Error compiling filter expression: " ++ text_of msg ++ nl)%string "")
            | None =>
                match pcap_setfilter p_hdl f with
                | (Some msg, _) => Ok (EXIT_FAILURE, mk_written (first ++ "Error configuring packet filter: " ++ text_of msg ++ nl)%string "")
                | (None, p_hdl) => capture fuel p_hdl dlt (mk_written first "")
                end
            end
      end
  end.

End program.

End Capture.

(** ** What the programs do *)

(** *** tun: every packet can be printed *)

Lemma tun_show_total buffer : is_u64 (blen buffer) → ∃ text, Tun.show buffer = Ok text.
Proof.
  intros Hb. unfold Tun.show.
  destruct (datagram_parse_total IPv4Datagram.default (Buffer.of_string buffer) zero_ip_fields) as (d & err & -> & Hd);
    [by apply buffer_of_string_ok|]. cbn [mbind result_bind]. case_bool_decide; cbn [negb]; [|by eexists].
  destruct (_ =? _); cbn [negb]; [|by eexists]. destruct Hd as (_ & q & -> & Hq).
  cbn [BufferList.to_buffer BufferList.of_buffer mbind result_bind].
  destruct (segment_parse_total TCPSegment.default q (IPv4Header.pseudo_cksum (IPv4Datagram.header d)) zero_tcp_fields Hq)
    as (s & err' & -> & _). cbn [mbind result_bind]. case_bool_decide; by eexists.
Qed.

Lemma tun_runs `{KernelLaws E} rounds (e : E) tun out :
  world_ok e → faulted (E := E) (Tun.loop rounds e tun out) ∨
  ∃ e' tun' text, Tun.loop rounds e tun out = Ok (e', tun', (out ++ text)%string) ∧ world_ok e'.
Proof.
  revert e tun out. induction rounds as [|rounds IH]; intros e tun out Hw; cbn [Tun.loop].
  { right. exists e, tun, ""%string. split; [|done]. do 2 f_equal. by rewrite append_nil. }
  destruct (descriptor_read_spec e tun FileDescriptor.NO_LIMIT Hw) as [Hf|(e1 & f1 & b & -> & Hb & (Hw1 & _) & _)]; [done|by_fault Hf|]. cbn [mbind result_bind].
  assert (Hu : is_u64 (blen b)) by (pose proof (blen_nonneg b); unfold FileDescriptor.NO_LIMIT in Hb; unfold_w; lia).
  destruct (tun_show_total b Hu) as [text ->]. cbn [mbind result_bind].
  destruct (IH e1 f1 (out ++ text)%string Hw1) as [?|(e2 & f2 & text2 & -> & Hw2)]; [by left|].
  right. exists e2, f2, (text ++ text2)%string. split; [|done]. do 2 f_equal. by rewrite append_assoc.
Qed.

(** *** udp_tcpdump: the output is that of the packets *)

Section capturing.
Context `{Pcap P} (inet6_ntop : bytes → string).

(** The capture answers with [answers], packets and timeouts, and then with
    [last]. *)
Fixpoint follows (p : P) (answers : list (Z * bytes)) (last : Z) : Prop :=
  match answers with
  | [] => ∃ data p', pcap_next_ex p = (last, data, p')
  | (ret, data) :: answers => 0 <= ret ∧ ∃ p', pcap_next_ex p = (ret, data, p') ∧ follows p' answers last
  end.

(** What the packets among the answers give, one after the other. *)
Fixpoint outcomes (dl_type : Z) (answers : list (Z * bytes)) : result (list Dump.outcome) :=
  match answers with
  | [] => Ok []
  | (ret, data) :: answers =>
      if ret =? 0 then outcomes dl_type answers
      else
        o ← Dump.dump_packet inet6_ntop dl_type data;
        os ← outcomes dl_type answers;
        Ok (o :: os)
  end.

Lemma supported_link dl_type data o :
  Capture.supported dl_type = true → Dump.dump_packet inet6_ntop dl_type data = Ok o → ∀ msg, o ≠ Dump.Gave_up msg.
Proof.
  intros Hs Ho msg ->. unfold Dump.dump_packet in Ho. apply result_bind_Ok in Ho as (start & El & Ho).
  destruct start as [o|off].
  - injection Ho as ->. unfold Dump.link_header, Dump.ether_header in El. unfold Capture.supported in Hs.
    repeat (destruct (dl_type =? _); cbn [orb negb] in El, Hs);
      repeat first [done | progress destruct (blen data <? _) | progress destruct (_ && _)
        | apply result_bind_Ok in El as (? & _ & El)
        | match type of El with context [if ?b then _ else _] => is_var b; destruct b end ].
  - apply result_bind_Ok in Ho as ([?|[[? ?] ?]] & _ & Ho); [done|]. by apply result_bind_Ok in Ho as (? & _ & Ho).
Qed.

(** C39. The packet dump, for each link type it accepts: whatever the capture
    delivers, the program shows the packets one after the other as
    [dump_packet] says, passes over the timeouts, and never gives up because of
    the link type; it stops at the first packet on which the reading throws or
    runs over, and when the capture fails it asks for the message of a capture
    that it has closed. *)
Theorem capture_shows_packets fuel p dl_type answers last w :
  Capture.supported dl_type = true → follows p answers last → last < 0 → (length answers < fuel)%nat →
  Capture.capture inet6_ntop fuel p dl_type w =
    os ← outcomes dl_type answers;
    if last =? -1 then Err (undefined_behaviour "pcap_geterr of a closed capture") else Ok (EXIT_SUCCESS, foldl Capture.add w os).
Proof.
  intros Hs. revert fuel p w. induction answers as [|[ret data] answers IH]; intros fuel p w Hf Hl Hfuel;
    (destruct fuel as [|fuel]; [simpl in Hfuel; lia|]); cbn [Capture.capture outcomes].
  - destruct Hf as (data & p' & ->). by rewrite (proj2 (Z.ltb_lt _ _)).
  - destruct Hf as (Hr & p' & -> & Hf). rewrite (proj2 (Z.ltb_ge _ _)) by done. simpl in Hfuel.
    destruct (ret =? 0); [apply IH; [done|done|lia]|]. destruct (Dump.dump_packet inet6_ntop dl_type data) as [o|] eqn:Eo; [|done].
    cbn [mbind result_bind]. pose proof (supported_link _ _ _ Hs Eo) as Hg.
    rewrite result_bind_assoc. cbn [mbind result_bind]. destruct o as [t|t|t]; [apply IH; [done|done|lia]..|by destruct (Hg t)].
Qed.

End capturing.

(** *** tcp_native: the terminal and the peer *)

(** What connect(2), setsockopt(2), listen(2), accept(2) and getsockopt(2) promise
    of a TCP socket when they succeed: a connection is accepted from a listening
    socket, and the accepted one is of its kind. *)
Class ServerLaws (E : Type) `{Kernel E, SocketCalls E, KernelView E} `{!EndpointLaws E} := mk_server_laws {
  law_connect : ∀ e fd address, world_ok e → fails e (sys_connect e fd address) ∨
    ∃ e', sys_connect e fd address = (Returned 0, e') ∧ idle e e' ∧ history e' = history e ++ [Connected fd address];
  law_setsockopt : ∀ e fd level option v, world_ok e → fails e (sys_setsockopt e fd level option v) ∨
    ∃ e', sys_setsockopt e fd level option v = (Returned 0, e') ∧ idle e e' ∧ history e' = history e ∧ ∀ k, opened e' k ↔ opened e k;
  law_listen : ∀ e fd backlog, world_ok e → fails e (sys_listen e fd backlog) ∨
    ∃ e', sys_listen e fd backlog = (Returned 0, e') ∧ idle e e' ∧ history e' = history e ++ [Listening fd] ∧ ∀ k, opened e' k ↔ opened e k;
  law_accept : ∀ e fd, world_ok e → Listening fd ∈ history e → fails e (sys_accept e fd) ∨
    ∃ g e', sys_accept e fd = (Returned g, e') ∧ 0 <= g ∧ ~ opened e g ∧ idle e e' ∧ history e' = history e ++ [Accepted fd g];
  law_getsockopt : ∀ e l fd option, world_ok e → Accepted l fd ∈ history e → fails e (sys_getsockopt e fd SOL_SOCKET option) ∨
    ∃ e', sys_getsockopt e fd SOL_SOCKET option =
        (Returned (if option =? SO_DOMAIN then RawAddress.AF_INET else SOCK_STREAM, INT_SIZE), e') ∧ idle e e' ∧ history e' = history e;
  law_close_quiet : ∀ e fd, world_ok e → history (sys_close e fd).2 = history e;
}.

Section native.
Context `{KernelLaws E} `{!SocketCalls E} `{!EndpointLaws E} `{!ServerLaws E} `{Resolver}.

Lemma new_tcp_socket (e : E) : world_ok e → faulted (E := E) (TCPSocket.new e) ∨
  ∃ e' f, TCPSocket.new e = Ok (e', f) ∧ idle e e' ∧ history e' = history e ∧ ~ opened e (FileDescriptor.fd_num f) ∧
    ∀ k, opened e' k ↔ k = FileDescriptor.fd_num f ∨ opened e k.
Proof.
  intros Hw. unfold TCPSocket.new, BaseSocket.new.
  destruct (Bouncer.law_socket e RawAddress.AF_INET SOCK_STREAM Hw) as [Hf|(fd & e' & -> & Hfd & Hno & Hi & Hh & Ho)];
    [apply (fails_call "socket") in Hf; by_fault Hf|]. cbn [call SystemCall mbind result_bind].
  unfold FileDescriptor.new. rewrite (proj2 (Z.ltb_ge _ _)) by done. cbn [mbind result_bind]. right. by eexists _, _.
Qed.

(** An accepted socket is one of the kind that the program asks for. *)
Lemma accepted_kind (e : E) l g : world_ok e → Accepted l (FileDescriptor.fd_num g) ∈ history e → faulted (E := E) (TCPSocket.of_fd e g) ∨
  ∃ e', TCPSocket.of_fd e g = Ok (e', g) ∧ idle e e' ∧ history e' = history e.
Proof.
  intros Hw Hacc. unfold TCPSocket.of_fd, BaseSocket.of_fd.
  destruct (law_getsockopt e l (FileDescriptor.fd_num g) SO_DOMAIN Hw Hacc) as [Hf|(e1 & -> & Hi1 & Hh1)];
    [apply (fails_call "getsockopt") in Hf; by_fault Hf|].
  cbn [call SystemCall mbind result_bind]. change (SO_DOMAIN =? SO_DOMAIN) with true. cbv iota. rewrite !Z.eqb_refl. cbn [negb orb].
  destruct (law_getsockopt e1 l (FileDescriptor.fd_num g) SO_TYPE (proj1 Hi1)) as [Hf|(e2 & -> & Hi2 & Hh2)];
    [by rewrite Hh1|apply (fails_call "getsockopt") in Hf; by_fault Hf|].
  cbn [call SystemCall mbind result_bind]. change (SO_TYPE =? SO_DOMAIN) with false. cbv iota. rewrite !Z.eqb_refl. cbn [negb orb].
  right. exists e2. split; [done|]. split; [by eapply idle_trans|by rewrite Hh2].
Qed.

Lemma accept_spec (e : E) f : world_ok e → Listening (FileDescriptor.fd_num f) ∈ history e →
  faulted (E := E) (TCPSocket.accept e f) ∨
  ∃ e' g, TCPSocket.accept e f = Ok (e', FileDescriptor.register_read f, g) ∧ ~ opened e (FileDescriptor.fd_num g) ∧ idle e e' ∧
    history e' = history e ++ [Accepted (FileDescriptor.fd_num f) (FileDescriptor.fd_num g)].
Proof.
  intros Hw Hl. unfold TCPSocket.accept. change (FileDescriptor.fd_num (FileDescriptor.register_read f)) with (FileDescriptor.fd_num f).
  destruct (law_accept e (FileDescriptor.fd_num f) Hw Hl) as [Hf|(fd & e1 & -> & Hfd & Hno & Hi & Hh)];
    [apply (fails_call "accept") in Hf; by_fault Hf|].
  cbn [call SystemCall mbind result_bind]. unfold FileDescriptor.new. rewrite (proj2 (Z.ltb_ge _ _)) by done. cbn [mbind result_bind].
  set (g := FileDescriptor.mk fd false false 0 0).
  destruct (accepted_kind e1 (FileDescriptor.fd_num f) g (proj1 Hi)) as [Hf|(e2 & -> & Hi2 & Hh2)];
    [rewrite Hh; apply elem_of_app; right; by left|by_fault Hf|].
  cbn [mbind result_bind]. right. exists e2, g. split; [done|]. split; [done|]. split; [by eapply idle_trans|by rewrite Hh2].
Qed.

(** What the program asks of sockets in order to open a connection to [address],
    which becomes [sock]; or, as a server, of a socket of its own for listening. *)
Definition dialled (e e' : E) (server_mode : bool) (address : RawAddress.t) (sock : Z) : Prop :=
  if server_mode
  then ∃ l, ~ opened e l ∧ l ≠ sock ∧ history e' = history e ++ [Bound l (sockaddr_of address); Listening l; Accepted l sock]
  else history e' = history e ++ [Connected sock (sockaddr_of address)].

(** In both modes the program gets a connected socket that was not open before. *)
Lemma open_socket (e : E) server_mode host port address :
  world_ok e → resolve_name host port = Ok address → faulted (E := E) (Native.open e server_mode host port) ∨
  ∃ e' socket, Native.open e server_mode host port = Ok (e', socket) ∧ idle e e' ∧ ~ opened e (FileDescriptor.fd_num socket) ∧
    dialled e e' server_mode address (FileDescriptor.fd_num socket).
Proof.
  intros Hw Ha. unfold Native.open, dialled. rewrite Ha.
  destruct server_mode; (destruct (new_tcp_socket e Hw) as [Hf|(e1 & f & -> & Hi1 & Hh1 & Hno & Ho1)]; [by_fault Hf|]); cbn [mbind result_bind].
  - unfold BaseSocket.set_reuseaddr, BaseSocket.setsockopt.
    destruct (law_setsockopt e1 (FileDescriptor.fd_num f) SOL_SOCKET SO_REUSEADDR 1 (proj1 Hi1)) as [Hf|(e2 & -> & Hi2 & Hh2 & Ho2)];
      [apply (fails_call "setsockopt") in Hf; by_fault Hf|].
    cbn [call SystemCall mbind result_bind]. unfold BaseSocket.bind.
    destruct (law_bind e2 (FileDescriptor.fd_num f) (sockaddr_of address) (proj1 Hi2)) as [Hf|(e3 & -> & Hi3 & Hh3 & Ho3)];
      [apply (fails_call "bind") in Hf; by_fault Hf|].
    cbn [call SystemCall mbind result_bind]. unfold TCPSocket.listen.
    destruct (law_listen e3 (FileDescriptor.fd_num f) 16 (proj1 Hi3)) as [Hf|(e4 & -> & Hi4 & Hh4 & Ho4)];
      [apply (fails_call "listen") in Hf; by_fault Hf|].
    cbn [call SystemCall mbind result_bind].
    destruct (accept_spec e4 f (proj1 Hi4)) as [Hf|(e5 & g & -> & Hgno & Hi5 & Hh5)];
      [rewrite Hh4; apply elem_of_app; right; by left|by_fault Hf|].
    cbn [mbind result_bind]. right. eexists _, g. split; [done|].
    assert (Hop : ∀ k, opened e4 k ↔ k = FileDescriptor.fd_num f ∨ opened e k) by (intros k; by rewrite Ho4, Ho3, Ho2, Ho1).
    split_and!.
    + by apply (idle_trans _ e1), (idle_trans _ e2), (idle_trans _ e3), (idle_trans _ e4), (idle_trans _ e5), destroy_spec, Hi5.
    + intros Hg. apply Hgno, Hop. by right.
    + exists (FileDescriptor.fd_num f). split; [done|]. split; [intros Heq; apply Hgno, Hop; by left|].
      unfold FileDescriptor.destroy. destruct (FileDescriptor.closed _); [|rewrite law_close_quiet by apply Hi5];
        by rewrite Hh5, Hh4, Hh3, Hh2, Hh1, <- !app_assoc.
  - unfold BaseSocket.connect.
    destruct (law_connect e1 (FileDescriptor.fd_num f) (sockaddr_of address) (proj1 Hi1)) as [Hf|(e2 & -> & Hi2 & Hh2)];
      [apply (fails_call "connect") in Hf; by_fault Hf|].
    cbn [call SystemCall mbind result_bind]. right. eexists _, _. split; [done|]. split; [by eapply idle_trans|]. split; [done|].
    by rewrite Hh2, Hh1.
Qed.

Lemma copied_from (e0 e1 e : E) from to rest : idle e0 e1 → copied e1 e from to rest → copied e0 e from to rest.
Proof. intros (_ & Hd & Hs) (w & Hf & Ht). exists w. by rewrite <- Hd, <- Hs. Qed.

(** C20. The program tcp_native. With too few arguments it exits with a failure
    and touches nothing. Otherwise, if the address can be resolved and no system
    call fails, it connects a new socket to that address, or binds a socket of its
    own to it, listens, and accepts one connection, which is all that it asks of
    sockets, and then copies on that connection: for any number of rounds nothing
    is thrown, what goes out to the peer is, in order, what was typed, and what is
    printed is what came from the peer, up to what the buffers hold. Standard
    output is closed only once everything has been printed; and when the copy ends
    without an interrupted poll, a direction whose writing rule was not given up
    because of a hangup has been copied completely. *)
Theorem native_copies fuel (e : E) argv :
  world_ok e → opened e StreamCopy.STDIN_FILENO → opened e StreamCopy.STDOUT_FILENO →
  match Native.arguments argv with
  | None => ∃ usage, Native.body fuel e argv = Ok (inl (EXIT_FAILURE, usage))
  | Some (server_mode, host, port) =>
      ∀ address, resolve_name host port = Ok address → faulted (E := E) (Native.body fuel e argv) ∨
      ∃ e1 socket s rules returned out_rest in_rest,
        let sock := FileDescriptor.fd_num socket in
        Native.open e server_mode host port = Ok (e1, socket) ∧ ~ opened e sock ∧ dialled e e1 server_mode address sock ∧
        StreamCopy.bidirectional_stream_copy fuel e1 socket = Ok (s, rules, returned) ∧
        Native.body fuel e argv = Ok (inr (s, rules, returned)) ∧
        copied e (StreamCopy.world s) StreamCopy.STDIN_FILENO sock out_rest ∧
        copied e (StreamCopy.world s) sock StreamCopy.STDOUT_FILENO in_rest ∧
        (StreamCopy.inbound_shutdown s = true → in_rest = []) ∧
        (returned = true → (∀ (e : E) l, (sys_poll e l (-1)).1 ≠ Failed EventLoop.EINTR) →
         (StreamCopy.rule2 sock ∈ rules → out_rest = []) ∧ (StreamCopy.rule4 ∈ rules → in_rest = []))
  end.
Proof.
  intros Hw Hin Hout. unfold Native.body. destruct (Native.arguments argv) as [[[server_mode host] port]|]; [|by eexists].
  intros address Ha. destruct (open_socket e server_mode host port address Hw Ha) as [Hf|(e1 & socket & Eo & Hi & Hno & Hd)]; [by_fault Hf|].
  rewrite Eo. cbn [mbind result_bind].
  destruct (stream_copy_faithful fuel e1 socket (proj1 Hi)) as [Hf|(s & rules & returned & out_rest & in_rest & Ec & _ & _ & Ho & Hc & Hend)];
    [by intros E1; rewrite E1 in Hno|by intros E1; rewrite E1 in Hno|by_fault Hf|]. rewrite Ec. cbn [mbind result_bind].
  right. exists e1, socket, s, rules, returned, out_rest, in_rest. do 5 (split; [done|]).
  split; [by eapply copied_from|]. by split; [eapply copied_from|].
Qed.

End native.

(** ** Runs *)

(** The toy kernel as a host with TCP: sockets are numbered, also those of
    [accept]. *)
Definition tcp_sockets : SocketCalls toy := {|
  sys_socket := sys_socket (SocketCalls := numbered_sockets);
  sys_socketpair := sys_socketpair;
  sys_getsockopt e _ _ option := (Returned (if option =? SO_DOMAIN then RawAddress.AF_INET else SOCK_STREAM, INT_SIZE), e);
  sys_setsockopt := sys_setsockopt;
  sys_getsockname := sys_getsockname;
  sys_getpeername := sys_getpeername;
  sys_bind := sys_bind;
  sys_connect := sys_connect;
  sys_listen := sys_listen;
  sys_accept e fd :=
    (Returned (toy_time e), mk_toy (script e) (toy_drawn e) (toy_sunk e) (toy_time e + 1) (toy_history e ++ [Accepted fd (toy_time e)]));
  sys_recvfrom := sys_recvfrom;
  sys_sendmsg := sys_sendmsg;
  sys_open := sys_open;
  sys_tunsetiff := sys_tunsetiff;
|}.

Lemma tcp_endpoints : @EndpointLaws toy toy_kernel tcp_sockets numbered_view.
Proof.
  destruct numbered_endpoints as [op Hq Hs Hb Hg]. refine {| opened := op |}; [exact Hq|exact Hs|exact Hb|exact Hg].
Defined.

Lemma tcp_servers : @ServerLaws toy toy_kernel tcp_sockets numbered_view tcp_endpoints.
Proof.
  split.
  - intros e fd address Hw. right. by eexists.
  - intros e fd level option v Hw. right. by exists e.
  - intros e fd backlog Hw. right. by eexists.
  - intros e fd (Hw & Hc & Ht) _. right. eexists _, _. split; [reflexivity|]. split; [exact Ht|]. split; [apply Z.lt_irrefl|].
    split; [|reflexivity]. split; [|done]. split; [exact Hw|]. split; [exact Hc|]. simpl. lia.
  - intros e l fd option Hw _. right. by exists e.
  - reflexivity.
Qed.

(** Typed are three bytes; the second socket, 11, is the one accepted. *)
Definition terminal (fd : Z) : list bytes :=
  if fd =? 0 then [[Byte.x61; Byte.x62]; [Byte.x63]] else if fd =? 11 then [[Byte.x58; Byte.x59]] else [].

Definition host_at (now : Z) : toy := mk_toy terminal (λ _, []) (λ _, []) now [].

(** Whether the program has ended, and what went to the peer and to the terminal. *)
Definition seen (r : result (Z * string + StreamCopy.t toy * list (EventLoop.Rule (StreamCopy.t toy)) * bool)) : option (bool * bytes * bytes) :=
  match r with
  | Ok (inr (s, _, returned)) => Some (returned, toy_sunk (StreamCopy.world s) 11, toy_sunk (StreamCopy.world s) 1)
  | _ => None
  end.

Lemma native_copies_witness :
  Native.body (SocketCalls0 := tcp_sockets) 12 (host_at 10) ["tcp_native"; "-l"; "10.0.0.1"]%string =
    Ok (inl (EXIT_FAILURE, native_show_usage "tcp_native")) ∧
  ∃ e1 sock s rules returned out_rest, toy_history e1 = [Bound 10 (sockaddr_of (raw (Address.mk 0x0a000001 80))); Listening 10; Accepted 10 sock] ∧
    Native.body (SocketCalls0 := tcp_sockets) 12 (host_at 10) ["tcp_native"; "-l"; "10.0.0.1"; "80"]%string = Ok (inr (s, rules, returned)) ∧
    copied (H0 := numbered_view) (host_at 10) (StreamCopy.world s) 0 sock out_rest ∧
    (returned, toy_sunk (StreamCopy.world s) 11, toy_sunk (StreamCopy.world s) 1) =
      (true, [Byte.x61; Byte.x62; Byte.x63], [Byte.x58; Byte.x59]).
Proof.
  assert (Hw : world_ok (KernelView := numbered_view) (host_at 10)).
  { split; [|split; [intros fd Hf; inversion Hf|simpl; lia]]. intros fd. unfold host_at, terminal. simpl.
    destruct (fd =? 0), (fd =? 11); vm_compute; reflexivity. }
  assert (Hop : ∀ fd, fd < 10 → opened (EndpointLaws := tcp_endpoints) (host_at 10) fd) by (intros fd Hfd; exact Hfd).
  pose proof (native_copies (H0 := numbered_view) (H1 := confined_laws [] (λ _, True) 0) (EndpointLaws0 := tcp_endpoints)
    (ServerLaws0 := tcp_servers) 12 (host_at 10) ["tcp_native"; "-l"; "10.0.0.1"]%string Hw (Hop 0 eq_refl) (Hop 1 eq_refl)) as Hbad.
  pose proof (native_copies (H0 := numbered_view) (H1 := confined_laws [] (λ _, True) 0) (EndpointLaws0 := tcp_endpoints)
    (ServerLaws0 := tcp_servers) 12 (host_at 10) ["tcp_native"; "-l"; "10.0.0.1"; "80"]%string Hw (Hop 0 eq_refl) (Hop 1 eq_refl)) as Hgood.
  split; [destruct Hbad as [usage Hbad]; vm_compute in Hbad |- *; reflexivity|].
  destruct (resolve_name "10.0.0.1" "80") as [address|err] eqn:Ea; [|vm_compute in Ea; discriminate Ea].
  destruct (Hgood address Ea) as [(x & _ & [] & _)|(e1 & socket & s & rules & returned & out_rest & in_rest & Eo & _ & Hd & _ & E & Ho & _)].
  exists e1, (FileDescriptor.fd_num socket), s, rules, returned, out_rest.
  split; [clear -Eo; vm_compute in Eo; injection Eo as <- <-; vm_compute; reflexivity|]. split; [exact E|]. split; [exact Ho|].
  assert (Es : seen (Native.body (SocketCalls0 := tcp_sockets) 12 (host_at 10) ["tcp_native"; "-l"; "10.0.0.1"; "80"]%string) =
    Some (true, [Byte.x61; Byte.x62; Byte.x63], [Byte.x58; Byte.x59])) by (vm_compute; reflexivity).
  rewrite E in Es. injection Es as -> -> ->. reflexivity.
Defined.

(** A capture that is a list of answers; the last one is -2. *)
#[export] Instance recorded : Pcap (list (Z * bytes)) := {
  pcap_open_live _ := inr [];
  pcap_datalink _ := Dump.DLT_RAW;
  pcap_datalink_val_to_description _ := [];
  pcap_compile _ _ := None;
  pcap_setfilter p _ := (None, p);
  pcap_next_ex p := match p with [] => (-2, [], []) | (ret, data) :: p => (ret, data, p) end;
}.

(** A packet without anything, and a timeout. *)
Lemma capture_shows_packets_witness :
  Capture.capture (λ _, ""%string) 3 [(1, []); (0, [])] Dump.DLT_RAW (Capture.mk_written "" "") =
    Ok (EXIT_SUCCESS, Capture.mk_written "" ("Error parsing IPv4/IPv6 packet. Skipping." ++ nl)).
Proof.
  rewrite (capture_shows_packets (λ _, ""%string) 3 [(1, []); (0, [])] Dump.DLT_RAW [(1, []); (0, [])] (-2)).
  - vm_compute. reflexivity.
  - reflexivity.
  - split; [lia|]. eexists. split; [reflexivity|]. split; [lia|]. eexists. split; [reflexivity|]. eexists _, _. reflexivity.
  - lia.
  - simpl. lia.
Defined.
