(* ===== verification/Lab7.v ===== *)
(** * A stack of its own behind a router: apps/lab7.cc

    The program joins a TCP socket over an interface of its own, a router with two
    interfaces, and a UDP socket that stands for the Internet. Two threads run: the
    owner's, which uses [TCPSocketLab7], and the network thread, an event loop that
    carries frames between the socket, the router and the Internet. They meet only
    in a pair of datagram sockets, which is part of the world, the kernel state
    [E]. Lab7Program.v puts the threads beside each other. *)

From S2P Require Import Prelude Buffers Parsing Wrapping Segment Reassembly Sender Connection Ipv4 Link Printing Netif Router.
From S2P Require Import Addresses Adapters Descriptors Events Sockets Resolve SpongeSocket.

Module Lab7Random.

(** [random i] is the [i]-th number drawn from [rd]. *)
Definition random_host_ethernet_address (random : nat → Z) : EthernetAddress :=
  match (λ i, z2b (random i)) <$> seq 0 6 with
  | first :: rest => z2b (Z.land (Z.lor (b2z first) 0x02) 0xfe) :: rest
  | [] => []
  end.

Definition random_router_ethernet_address (random : nat → Z) : EthernetAddress :=
  [Byte.x02; Byte.x00; Byte.x00] ++ ((λ i, z2b (random i)) <$> seq 3 3).

End Lab7Random.
Export Lab7Random.

(** The numbers drawn after the first [n]. *)
Definition after_draws (random : nat → Z) (n : nat) (i : nat) : Z := random (n + i)%nat.

Definition summary (frame : EthernetFrame.t) : result string :=
  let h := EthernetFrame.header frame in
  let ret := ethernet_to_string h in
  if EthernetHeader.type h =? EthernetHeader.TYPE_IPv4 then
    '(dgram, err) ← IPv4Datagram.parse IPv4Datagram.default (Buffer.of_string (BufferList.concatenate (EthernetFrame.payload frame)));
    if bool_decide (err = NoError) then
      let ret := (ret ++ " " ++ ipv4_summary (IPv4Datagram.header dgram))%string in
      if IPv4Header.proto (IPv4Datagram.header dgram) =? IPv4Header.PROTO_TCP then
        '(tcp_seg, err) ← TCPSegment.parse TCPSegment.default (Buffer.of_string (BufferList.concatenate (IPv4Datagram.payload dgram)))
          (IPv4Header.pseudo_cksum (IPv4Datagram.header dgram));
        if bool_decide (err = NoError) then Ok (ret ++ " " ++ tcp_summary (TCPSegment.header tcp_seg))%string else Ok ret
      else Ok ret
    else Ok (ret ++ " (bad IPv4)")%string
  else if EthernetHeader.type h =? EthernetHeader.TYPE_ARP then
    b ← BufferList.to_buffer (EthernetFrame.payload frame);
    '(arp, err) ← ARPMessage.parse ARPMessage.default b;
    if bool_decide (err = NoError) then Ok (ret ++ " " ++ arp_to_string arp)%string
    else Ok (ret ++ " (bad ARP)")%string
  else Ok ret.

(** What a [cerr] line under [if (debug)] evaluates. *)
Definition trace (debug : bool) (frame : EthernetFrame.t) : result unit :=
  if debug then _ ← summary frame; Ok tt else Ok tt.

(** ** The adapter *)

Module NetworkInterfaceAdapter.

(** The members. The first descriptor of [_data_socket_pair] is passed along by
    [TCPSpongeSocket]; the second one, [frame_fd()], is the network thread's. *)
Record t := mk {
  base : FdAdapterBase.t;
  interface : NetworkInterface.t;     (* _interface *)
  next_hop : Address.t;               (* _next_hop *)
}.

Definition new (random : nat → Z) (ip_address next_hop : Address.t) : t :=
  mk FdAdapterBase.default (NetworkInterface.new (random_host_ethernet_address random) (Address.ipv4_numeric ip_address)) next_hop.

Definition frames_out (a : t) : list EthernetFrame.t := NetworkInterface.frames_out (interface a).

Definition with_base (a : t) (b : FdAdapterBase.t) : t := mk b (interface a) (next_hop a).

Section calls.
Context `{Kernel E}.

(** The loop of [send_pending] over the queue. *)
Fixpoint write_queue (e : E) (f : FileDescriptor.t) (queue : list EthernetFrame.t) : result (E * FileDescriptor.t) :=
  match queue with
  | [] => Ok (e, f)
  | frame :: queue =>
      '(e, f, _) ← FileDescriptor.write e f (BufferViewList.of_buffer_list (EthernetFrame.serialize frame)) true;
      write_queue e f queue
  end.

Definition send_pending (e : E) (f : FileDescriptor.t) (a : t) : result (E * FileDescriptor.t * t) :=
  '(e, f) ← write_queue e f (frames_out a);
  Ok (e, f, mk (base a) (NetworkInterface.with_frames (interface a) []) (next_hop a)).

Definition read (e : E) (f : FileDescriptor.t) (a : t) : result (E * FileDescriptor.t * t * option TCPSegment.t) :=
  '(e, f, packet) ← FileDescriptor.read e f FileDescriptor.NO_LIMIT;
  '(frame, err) ← EthernetFrame.parse EthernetFrame.default (Buffer.of_string packet);
  if negb (bool_decide (err = NoError)) then Ok (e, f, a, None)
  else
    '(i, ip_dgram) ← NetworkInterface.recv_frame (interface a) frame;
    '(e, f, a) ← send_pending e f (mk (base a) i (next_hop a));
    match ip_dgram with
    | Some ip_dgram => '(b, seg) ← TCPOverIPv4Adapter.unwrap_tcp_in_ip (base a) ip_dgram; Ok (e, f, with_base a b, seg)
    | None => Ok (e, f, a, None)
    end.

Definition write (e : E) (f : FileDescriptor.t) (a : t) (seg : TCPSegment.t) : result (E * FileDescriptor.t * t) :=
  '(_, ip_dgram) ← TCPOverIPv4Adapter.wrap_tcp_in_ip (base a) seg;
  i ← NetworkInterface.send_datagram (interface a) ip_dgram (Address.ipv4_numeric (next_hop a));
  send_pending e f (mk (base a) i (next_hop a)).

Definition tick (e : E) (f : FileDescriptor.t) (a : t) (ms_since_last_tick : Z) : result (E * FileDescriptor.t * t) :=
  send_pending e f (mk (base a) (NetworkInterface.tick (interface a) ms_since_last_tick) (next_hop a)).

End calls.

End NetworkInterfaceAdapter.

#[export] Instance adapt_lab7 `{Kernel E} : Adapt E NetworkInterfaceAdapter.t := {
  adapt_read := NetworkInterfaceAdapter.read;
  adapt_write := NetworkInterfaceAdapter.write;
  adapt_tick := NetworkInterfaceAdapter.tick;
  adapt_config a := FdAdapterBase.config (NetworkInterfaceAdapter.base a);
  adapt_set_config a c := NetworkInterfaceAdapter.with_base a (set_config (NetworkInterfaceAdapter.base a) c);
  adapt_set_listening a l :=
    NetworkInterfaceAdapter.with_base a (FdAdapterBase.set_listening (NetworkInterfaceAdapter.base a) l);
}.

(** ** The socket *)

Module TCPSocketLab7.

Section socket.
Context `{StreamReassembler.EndKey} `{Kernel E} `{!SocketCalls E}.

(** The base class, [_local_address], and the other end of the adapter's pair. *)
Record t := mk {
  sock : TCPSpongeSocket.t E NetworkInterfaceAdapter.t;
  local_address : Address.t;
  frame_fd : FileDescriptor.t;
}.

Definition new (e : E) (random : nat → Z) (ip_address next_hop : Address.t) : result t :=
  '(e, data_socket_pair) ← socket_pair_helper e SOCK_DGRAM;
  s ← TCPSpongeSocket.new e data_socket_pair.1 (NetworkInterfaceAdapter.new random ip_address next_hop);
  Ok (mk s ip_address data_socket_pair.2).

(** The numbers of [random_device] are arguments. *)
Definition connect (abort : E → bool) (fuel : nat) (s : t) (address : Address.t) (port_random isn_random : Z) :
    result (t * list (EventLoop.Rule (TCPSpongeSocket.t E NetworkInterfaceAdapter.t)) * bool) :=
  let local := Address.mk (Address.ipv4_numeric (local_address s)) (w16 port_random) in
  let multiplexer_config := FdAdapterConfig.mk local address
    (FdAdapterConfig.loss_rate_dn FdAdapterConfig.default) (FdAdapterConfig.loss_rate_up FdAdapterConfig.default) in
  '(k, rules, returned) ← TCPSpongeSocket.connect abort fuel (sock s) TCPConfig.default multiplexer_config isn_random;
  Ok (mk k local (frame_fd s), rules, returned).

(** An address is bound only if its number is that of the interface. *)
Definition bind (s : t) (address : Address.t) : result t :=
  if negb (Address.ipv4_numeric address =? Address.ipv4_numeric (local_address s)) then
    Err (runtime_error ("Cannot bind to " ++ inet_ntoa (Address.ipv4_numeric address) ++ ":" ++ to_string (Address.port address))%string)
  else Ok (mk (sock s) (Address.mk (Address.ipv4_numeric (local_address s)) (Address.port address)) (frame_fd s)).

Definition listen_and_accept (abort : E → bool) (fuel : nat) (s : t) (isn_random : Z) :
    result (t * list (EventLoop.Rule (TCPSpongeSocket.t E NetworkInterfaceAdapter.t)) * bool) :=
  let multiplexer_config := FdAdapterConfig.mk (local_address s) (FdAdapterConfig.destination FdAdapterConfig.default)
    (FdAdapterConfig.loss_rate_dn FdAdapterConfig.default) (FdAdapterConfig.loss_rate_up FdAdapterConfig.default) in
  '(k, rules, returned) ← TCPSpongeSocket.listen_and_accept abort fuel (sock s) TCPConfig.default multiplexer_config isn_random;
  Ok (mk k (local_address s) (frame_fd s), rules, returned).

End socket.

Arguments t : clear implicits.

End TCPSocketLab7.

(** ** The router *)

Section setup.
Context `{Resolver}.

(** [Address{str}] and [Address{str}.ipv4_numeric()]. *)
Definition address (str : string) (port : Z) : result Address.t := r ← of_ip str port; address_of r.

Definition ip (str : string) : result Z := r ← of_ip str 0; RawAddress.ipv4_numeric r.

Definition add_interface (r : Router.t) (ethernet_address : EthernetAddress) (ip_address : string) : result (Router.t * Z) :=
  a ← ip ip_address;
  Ok (Router.add_interface r (AsyncNetworkInterface.of_interface (NetworkInterface.new ethernet_address a))).

(** [ln] is the logarithm of the C library, and [fuel] bounds the scan of the table. *)
Definition add_route (ln : Z → Z) (fuel : nat) (r : Router.t) (prefix : string) (prefix_length : Z) (next_hop : option string)
    (interface_num : Z) : result Router.t :=
  p ← ip prefix;
  hop ← match next_hop with Some str => a ← ip str; Ok (Some a) | None => Ok None end;
  Router.add_route ln fuel r p prefix_length hop interface_num.

(** The router and the numbers of its two interfaces, host side first. *)
Definition set_up_router (ln : Z → Z) (fuel : nat) (random : nat → Z) (is_client : bool) : result (Router.t * Z * Z) :=
  let host_address := random_router_ethernet_address random in
  let internet_address := random_router_ethernet_address (after_draws random 6) in
  if is_client then
    '(r, host_side) ← add_interface Router.new host_address "192.168.0.1";
    '(r, internet_side) ← add_interface r internet_address "10.0.0.192";
    r ← add_route ln fuel r "192.168.0.0" 16 None host_side;
    r ← add_route ln fuel r "10.0.0.0" 8 None internet_side;
    r ← add_route ln fuel r "172.16.0.0" 12 (Some "10.0.0.172"%string) internet_side;
    Ok (r, host_side, internet_side)
  else
    '(r, host_side) ← add_interface Router.new host_address "172.16.0.1";
    '(r, internet_side) ← add_interface r internet_address "10.0.0.172";
    r ← add_route ln fuel r "172.16.0.0" 12 None host_side;
    r ← add_route ln fuel r "10.0.0.0" 8 None internet_side;
    r ← add_route ln fuel r "192.168.0.0" 16 (Some "10.0.0.192"%string) internet_side;
    Ok (r, host_side, internet_side).

End setup.

(** ** The network thread *)

Module NetworkThread.

(** What the lambda of the thread captures, and the world. *)
Record t (E : Type) := mk {
  world : E;
  frame_fd : FileDescriptor.t;            (* sock.adapter().frame_fd() *)
  internet_socket : FileDescriptor.t;
  router : Router.t;
}.
Arguments mk {E}.
Arguments world {E}.
Arguments frame_fd {E}.
Arguments internet_socket {E}.
Arguments router {E}.

Section thread.
Context `{Kernel E} `{!SocketCalls E}.
Context (fuel : nat) (debug : bool) (host_side internet_side : Z) (bounce_address : RawAddress.t).

(** [exit_flag], which the owner's thread sets. *)
Context (exit_flag : E → bool).

Definition with_frame_fd (s : t E) (e : E) (f : FileDescriptor.t) : t E := mk e f (internet_socket s) (router s).

Definition with_internet_socket (s : t E) (e : E) (f : FileDescriptor.t) : t E := mk e (frame_fd s) f (router s).

Definition with_router (s : t E) (r : Router.t) : t E := mk (world s) (frame_fd s) (internet_socket s) r.

Definition descr (s : t E) (fd : Z) : FileDescriptor.t :=
  if fd =? FileDescriptor.fd_num (frame_fd s) then frame_fd s else internet_socket s.

Definition frames_out (r : Router.t) (side : Z) : list EthernetFrame.t :=
  match Router.interface r side with
  | Ok a => NetworkInterface.frames_out (AsyncNetworkInterface.interface a)
  | Err _ => []
  end.

(** A frame that arrives at one side of the router. *)
Definition arrive (s : t E) (side : Z) (packet : bytes) : result (t E) :=
  '(frame, err) ← EthernetFrame.parse EthernetFrame.default (Buffer.of_string packet);
  if negb (bool_decide (err = NoError)) then Ok s
  else
    _ ← trace debug frame;
    a ← Router.interface (router s) side;
    a ← AsyncNetworkInterface.recv_frame a frame;
    r ← Router.route fuel (Router.with_interface (router s) side a);
    Ok (with_router s r).

(** [f.front()], and the router after [f.pop()]. *)
Definition front (r : Router.t) (side : Z) : result (EthernetFrame.t * Router.t) :=
  a ← Router.interface r side;
  match NetworkInterface.frames_out (AsyncNetworkInterface.interface a) with
  | [] => Err (undefined_behaviour "front() of an empty queue")
  | frame :: q =>
      Ok (frame, Router.with_interface r side
        (AsyncNetworkInterface.mk (NetworkInterface.with_frames (AsyncNetworkInterface.interface a) q)
           (AsyncNetworkInterface.datagrams_out a)))
  end.

Definition from_host (s : t E) : result (t E) :=
  '(e, f, packet) ← FileDescriptor.read (world s) (frame_fd s) FileDescriptor.NO_LIMIT;
  arrive (with_frame_fd s e f) host_side packet.

Definition to_host (s : t E) : result (t E) :=
  '(frame, r) ← front (router s) host_side;
  _ ← trace debug frame;
  '(e, f, _) ← FileDescriptor.write (world s) (frame_fd s) (BufferViewList.of_buffer_list (EthernetFrame.serialize frame)) true;
  Ok (with_router (with_frame_fd s e f) r).

Definition to_internet (s : t E) : result (t E) :=
  '(frame, r) ← front (router s) internet_side;
  _ ← trace debug frame;
  '(e, f) ← UDPSocket.sendto (world s) (internet_socket s) bounce_address
    (BufferViewList.of_buffer_list (EthernetFrame.serialize frame));
  Ok (with_router (with_internet_socket s e f) r).

Definition from_internet (s : t E) : result (t E) :=
  '(e, f, packet) ← FileDescriptor.read (world s) (internet_socket s) FileDescriptor.NO_LIMIT;
  arrive (with_internet_socket s e f) internet_side packet.

Definition pending (side : Z) (s : t E) : bool := match frames_out (router s) side with [] => false | _ => true end.

Definition rules (frame internet : Z) : list (EventLoop.Rule (t E)) :=
  [EventLoop.mk_rule frame EventLoop.In from_host (λ _, true) Ok;
   EventLoop.mk_rule frame EventLoop.Out to_host (pending host_side) Ok;
   EventLoop.mk_rule internet EventLoop.Out to_internet (pending internet_side) Ok;
   EventLoop.mk_rule internet EventLoop.In from_internet (λ _, true) Ok].

Definition poll (s : t E) (l : list pollfd) (timeout : Z) : sys (Z * list Z) * t E :=
  let '(answer, e) := sys_poll (world s) l timeout in
  (answer, mk e (frame_fd s) (internet_socket s) (router s)).

Definition tick (s : t E) (side ms : Z) : result (t E) :=
  a ← Router.interface (router s) side;
  Ok (with_router s (Router.with_interface (router s) side
    (AsyncNetworkInterface.mk (NetworkInterface.tick (AsyncNetworkInterface.interface a) ms) (AsyncNetworkInterface.datagrams_out a)))).

(** One round of the loop; the flag says whether the loop has ended. *)
Definition round (s : t E) (rules : list (EventLoop.Rule (t E))) : result (t E * list (EventLoop.Rule (t E)) * bool) :=
  '(s, rules, res) ← EventLoop.wait_next_event descr poll s rules 50;
  match res with
  | EventLoop.Exit => Ok (s, rules, true)
  | _ =>
      s ← tick s host_side 50;
      s ← tick s internet_side 50;
      Ok (s, rules, exit_flag (world s))
  end.

(** At most [rounds] rounds. *)
Fixpoint loop (rounds : nat) (s : t E) (rules : list (EventLoop.Rule (t E)))
    : result (t E * list (EventLoop.Rule (t E)) * bool) :=
  match rounds with
  | O => Ok (s, rules, false)
  | S rounds => '(s, rules, over) ← round s rules; if (over : bool) then Ok (s, rules, true) else loop rounds s rules
  end.

Definition run (rounds : nat) (s : t E) : result (t E * list (EventLoop.Rule (t E)) * bool) :=
  loop rounds s (rules (FileDescriptor.fd_num (frame_fd s)) (FileDescriptor.fd_num (internet_socket s))).

End thread.

End NetworkThread.

(** ** The program *)

Section program.
Context `{StreamReassembler.EndKey} `{Kernel E} `{!SocketCalls E} `{Resolver}.

Fixpoint announce (k : nat) (e : E) (f : FileDescriptor.t) (bounce_address : RawAddress.t) : result (E * FileDescriptor.t) :=
  match k with
  | O => Ok (e, f)
  | S k => '(e, f) ← UDPSocket.sendto e f bounce_address (BufferViewList.of_string []); announce k e f bounce_address
  end.

(** What is there when the threads start. *)
Record started := mk_started {
  thread : NetworkThread.t E;
  socket : TCPSocketLab7.t E;
  host_side : Z;
  internet_side : Z;
  bounce_address : RawAddress.t;
}.

(** Lines 160 to 190, up to the two threads. The router draws twelve numbers
    before the adapter draws its own. *)
Definition start (ln : Z → Z) (fuel : nat) (e : E) (random : nat → Z) (is_client : bool) (bounce_host bounce_port : string)
    : result started :=
  '(e, internet_socket) ← UDPSocket.new e;
  bounce_address ← resolve_name bounce_host bounce_port;
  '(e, internet_socket) ← announce 3 e internet_socket bounce_address;
  '(r, host_side, internet_side) ← set_up_router ln fuel random is_client;
  local ← address (if is_client then "192.168.0.50" else "172.16.0.100") 0;
  next_hop ← address (if is_client then "192.168.0.1" else "172.16.0.1") 0;
  s ← TCPSocketLab7.new e (after_draws random 12) local next_hop;
  Ok (mk_started (NetworkThread.mk (TCPSpongeSocket.world (TCPSocketLab7.sock s)) (TCPSocketLab7.frame_fd s) internet_socket r)
        s host_side internet_side bounce_address).

(** Lines 265 to 270: the owner opens the connection. *)
Definition open (abort : E → bool) (fuel : nat) (is_client : bool) (s : TCPSocketLab7.t E) (port_random isn_random : Z) :=
  peer ← address "172.16.0.100" 1234;
  if is_client then TCPSocketLab7.connect abort fuel s peer port_random isn_random
  else s ← TCPSocketLab7.bind s peer; TCPSocketLab7.listen_and_accept abort fuel s isn_random.

End program.

(** The arguments of [main]: [None] when the usage is printed and the status is
    EXIT_FAILURE; otherwise the arguments of [program_body]. *)
Definition parse_arguments (argv : list string) : option (bool * string * string * bool) :=
  match argv with
  | [_; mode; host; port] | [_; mode; host; port; _] =>
      if negb (String.eqb mode "client") && negb (String.eqb mode "server") then None
      else Some (String.eqb mode "client", host, port, Nat.eqb (length argv) 5)
  | _ => None
  end.
