(* ===== verification/Lab7Spec.v ===== *)
(** * The stack of lab7 keeps its promises

    The adapter of the socket keeps those of [AdaptLaws], so that what is shown of
    the sessions of [TCPSpongeSocket] holds for [TCPSocketLab7]; the router of
    either side sends every datagram where it belongs; and the network thread runs
    as long as the datagrams that arrive are well formed. *)

From S2P Require Import Prelude Buffers Parsing Wrapping Segment Reassembly Sender Connection Ipv4 Link Printing Netif NetifSpec.
From S2P Require Import Router RouterSpec Addresses Adapters AdaptersSpec Robustness Outgoing Descriptors Events Sockets Resolve.
From S2P Require Import SpongeSocket SpongeSocketSpec Lab7.

Lemma join_buffer_list l : mjoin (BufferViewList.of_buffer_list l) = BufferList.concatenate l.
Proof. induction l as [|b l IH]; [done|]. simpl. by rewrite <- IH. Qed.

(** ** The adapter *)

Record lab7_ok (a : NetworkInterfaceAdapter.t) : Prop := mk_lab7_ok {
  l7_base : base_ok (NetworkInterfaceAdapter.base a);
  l7_interface : isafe (NetworkInterfaceAdapter.interface a);
}.

Section adapter.
Context `{KernelLaws E}.
Implicit Types (e : E) (f : FileDescriptor.t).

(** A frame goes out in one piece. *)
Lemma frame_write e f frame :
  world_ok e → blen (BufferList.concatenate (EthernetFrame.serialize frame)) <= 0x10000 + 14 →
  faulted (E := E) (FileDescriptor.write e f (BufferViewList.of_buffer_list (EthernetFrame.serialize frame)) true) ∨
  ∃ e' f' n, FileDescriptor.write e f (BufferViewList.of_buffer_list (EthernetFrame.serialize frame)) true = Ok (e', f', n) ∧
    took e e' (FileDescriptor.fd_num f) (BufferList.concatenate (EthernetFrame.serialize frame)) ∧
    FileDescriptor.fd_num f' = FileDescriptor.fd_num f ∧ FileDescriptor.read_count f' = FileDescriptor.read_count f.
Proof.
  intros Hw Hf.
  destruct (write_all_core e f (BufferViewList.of_buffer_list (EthernetFrame.serialize frame)) Hw) as [?|(e' & f' & -> & Ht & Hn & _ & _ & Hr)].
  { rewrite join_buffer_list. pose proof (blen_nonneg (BufferList.concatenate (EthernetFrame.serialize frame))). unfold_w. lia. }
  { by left. }
  rewrite join_buffer_list in Ht. right. by eexists _, _, _.
Qed.

Lemma write_queue_spec e f queue :
  world_ok e → Forall (frame_upto 0x10000) queue → faulted (E := E) (NetworkInterfaceAdapter.write_queue e f queue) ∨
  ∃ e' f', NetworkInterfaceAdapter.write_queue e f queue = Ok (e', f') ∧ used e e' f f' ∧
    FileDescriptor.read_count f' = FileDescriptor.read_count f.
Proof.
  intros Hw Hq. revert e f Hw. induction Hq as [|frame queue Hf Hq IH]; intros e f Hw;
    cbn [NetworkInterfaceAdapter.write_queue]; [right; by exists e, f|].
  destruct (frame_write e f frame Hw (proj1 Hf)) as [Hft|(e1 & f1 & n & -> & Ht & Hn & Hr)]; [by_fault Hft|]. cbn [mbind result_bind].
  pose proof (took_used _ _ _ _ _ Ht Hn) as Hu. destruct (IH e1 f1 (proj1 Hu)) as [?|(e2 & f2 & -> & Hu2 & Hr2)]; [by left|].
  right. exists e2, f2. split; [done|]. split; [by eapply used_trans|congruence].
Qed.

Lemma send_pending_spec e f a :
  world_ok e → lab7_ok a → faulted (E := E) (NetworkInterfaceAdapter.send_pending e f a) ∨
  ∃ e' f' a', NetworkInterfaceAdapter.send_pending e f a = Ok (e', f', a') ∧ used e e' f f' ∧ lab7_ok a' ∧
    NetworkInterfaceAdapter.base a' = NetworkInterfaceAdapter.base a ∧
    FileDescriptor.read_count f' = FileDescriptor.read_count f.
Proof.
  intros Hw [Hb []]. unfold NetworkInterfaceAdapter.send_pending.
  destruct (write_queue_spec e f (NetworkInterfaceAdapter.frames_out a) Hw is_frames) as [Hf|(e' & f' & -> & Hu & Hr)]; [by_fault Hf|].
  cbn [mbind result_bind]. right. eexists _, _, _. split; [done|]. split; [done|]. split; [|done].
  split; [done|]. split; try done.
Qed.

#[export] Program Instance lab7_laws : AdaptLaws E NetworkInterfaceAdapter.t := {| adapt_ok := lab7_ok |}.
Next Obligation.
  intros e f a Hw [Hb Hi]. unfold adapt_read, adapt_lab7, NetworkInterfaceAdapter.read.
  destruct (device_read e f Hw) as [Hft|(e1 & f1 & packet & -> & Hp & Hu & Hc)]; [by_fault Hft|]. cbn [mbind result_bind].
  destruct (frame_parse_total EthernetFrame.default (Buffer.of_string packet) (buffer_of_string_ok _ Hp))
    as (frame & err & q & -> & Hf & Hq). cbn [mbind result_bind]. destruct (negb _); [right; by eexists _, _, _, _|].
  destruct (recv_frame_safe _ frame q Hi Hf Hq) as (i & d & -> & Hi' & Hd). cbn [mbind result_bind].
  destruct (send_pending_spec e1 f1 (NetworkInterfaceAdapter.mk (NetworkInterfaceAdapter.base a) i (NetworkInterfaceAdapter.next_hop a))
    (proj1 Hu)) as [Hft|(e2 & f2 & a2 & -> & Hu2 & [Hb2 Hi2] & _ & Hr2)]; [by split|by_fault Hft|]. cbn [mbind result_bind].
  assert (Hu' : used e e2 f f2) by (by eapply used_trans). rewrite Hc in Hr2.
  right. destruct d as [d|]; [|by eexists _, _, _, _].
  destruct (unwrap_total _ d Hb2 (Hd d eq_refl)) as (b & seg & -> & Hb3 & _). cbn [mbind result_bind].
  eexists _, _, _, _. split; [done|]. split; [done|]. by split.
Qed.
Next Obligation.
  intros e f a seg Hw [[Hs Hd] Hi] Hseg. unfold adapt_write, adapt_lab7, NetworkInterfaceAdapter.write.
  destruct (wrap_core _ seg Hs Hd (wf_seg_fits _ Hseg)) as (d & -> & Hok & _). cbn [mbind result_bind].
  destruct (send_datagram_safe _ d (Address.ipv4_numeric (NetworkInterfaceAdapter.next_hop a)) Hi Hok) as (i & -> & Hi').
  cbn [mbind result_bind]. destruct (send_pending_spec e f (NetworkInterfaceAdapter.mk (NetworkInterfaceAdapter.base a) i (NetworkInterfaceAdapter.next_hop a)) Hw)
    as [?|(e' & f' & a' & E' & Hu & Ha & _)]; [by split|by left|right]. by eexists _, _, _.
Qed.
Next Obligation.
  intros e f a ms Hw [Hb []]. unfold adapt_tick, adapt_lab7, NetworkInterfaceAdapter.tick.
  destruct (send_pending_spec e f (NetworkInterfaceAdapter.mk (NetworkInterfaceAdapter.base a)
    (NetworkInterface.tick (NetworkInterfaceAdapter.interface a) ms) (NetworkInterfaceAdapter.next_hop a)) Hw)
    as [?|(e' & f' & a' & E' & Hu & Ha & _)]; [by split; [|split]|by left|right]. by eexists _, _, _.
Qed.
Next Obligation. by intros a c [_ Hi] Hs Hd. Qed.
Next Obligation. by intros a l [[? ?] Hi]. Qed.

End adapter.

(** ** The router *)

(** The routes of the two sides; interface 0 is the host's and 1 the Internet's. *)
Definition lab7_routes (is_client : bool) : list route_entry :=
  if is_client then
    [mk_route 0xc0a80000 16 None 0; mk_route 0x0a000000 8 None 1; mk_route 0xac100000 12 (Some 0x0a0000ac) 1]
  else
    [mk_route 0xac100000 12 None 0; mk_route 0x0a000000 8 None 1; mk_route 0xc0a80000 16 (Some 0x0a0000c0) 1].

Definition lab7_interfaces (random : nat → Z) (is_client : bool) : list AsyncNetworkInterface.t :=
  let side random n := AsyncNetworkInterface.of_interface (NetworkInterface.new (random_router_ethernet_address random) n) in
  if is_client then [side random 0xc0a80001; side (after_draws random 6) 0x0a0000c0]
  else [side random 0xac100001; side (after_draws random 6) 0x0a0000ac].

Section routes.
Context `{ResolverLaws}.

Lemma ip_spec str n : read_host str = Some n → ip str = Ok n.
Proof.
  intros Hr. unfold ip. rewrite (of_ip_spec str n 0 Hr ltac:(range_compute)), raw_of_spec. cbn [mbind result_bind].
  apply (raw_ipv4_core (Address.mk n 0)); [by eapply read_host_range|apply raw_of_spec].
Qed.

Lemma set_up_router_spec ln fuel random is_client :
  (6 <= fuel)%nat →
  ∃ T, set_up_router ln fuel random is_client = Ok (Router.mk (lab7_interfaces random is_client) T, 0, 1) ∧
    tinv T ∧ represents (lab7_routes is_client) T ∧ (length T <= 3)%nat.
Proof.
  intros Hf.
  destruct (add_routes_spec ln fuel (lab7_routes is_client) (Router.mk (lab7_interfaces random is_client) []))
    as (T & E & Ht & Hrep & Hlen); [done|by destruct is_client|by destruct is_client|destruct is_client; simpl; lia|].
  exists T. split; [|split; [done|split; [done|by destruct is_client]]].
  unfold set_up_router, add_interface, Lab7.add_route.
  assert (Hip : ∀ str n, read_host str = Some n → ip str = Ok n) by (intros; by apply ip_spec).
  transitivity (r ← add_routes ln fuel (lab7_routes is_client) (Router.mk (lab7_interfaces random is_client) []); Ok (r, 0, 1));
    [|by rewrite E].
  clear E. destruct is_client;
    repeat (erewrite Hip by (vm_compute; reflexivity); cbn [mbind result_bind Router.add_interface fst snd]);
    unfold add_routes; cbn [foldl lab7_routes rt_prefix rt_len rt_hop rt_iface]; by rewrite !result_bind_assoc.
Qed.

(** The number is in 192.168/16, the client's network; in 172.16/12, the server's;
    in 10/8, the network between the routers. *)
Definition of_client (n : Z) : bool := Z.shiftr n 16 =? 0xc0a8.

Definition of_server (n : Z) : bool := Z.shiftr n 20 =? 0xac1.

Definition of_internet (n : Z) : bool := Z.shiftr n 24 =? 0x0a.

(** The interface and the next hop for a destination. *)
Definition direction (is_client : bool) (dst : Z) : option (Z * Z) :=
  if of_client dst then Some (if is_client then (0, dst) else (1, 0x0a0000c0))
  else if of_server dst then Some (if is_client then (1, 0x0a0000ac) else (0, dst))
  else if of_internet dst then Some (1, dst)
  else None.

Lemma networks_disjoint n : of_client n = true → of_server n = false ∧ of_internet n = false.
Proof.
  unfold of_client, of_server, of_internet. intros E. apply Z.eqb_eq in E.
  replace 20 with (16 + 4) by lia. replace 24 with (16 + 8) by lia. rewrite <- !Z.shiftr_shiftr by lia. by rewrite E.
Qed.

Lemma server_not_internet n : of_server n = true → of_internet n = false.
Proof.
  unfold of_server, of_internet. intros E. apply Z.eqb_eq in E.
  replace 24 with (20 + 4) by lia. rewrite <- Z.shiftr_shiftr by lia. by rewrite E.
Qed.

Lemma lab7_lpm is_client dst :
  direction is_client dst = (λ r, (rt_iface r, let hop := default 0 (rt_hop r) in if hop =? 0 then dst else hop)) <$>
    longest_prefix_match (lab7_routes is_client) dst.
Proof.
  unfold direction, longest_prefix_match, lab7_routes.
  assert (Hc : ∀ h i, matches (mk_route 0xc0a80000 16 h i) dst = of_client dst) by done.
  assert (Hs : ∀ h i, matches (mk_route 0xac100000 12 h i) dst = of_server dst) by done.
  assert (Hn : ∀ h i, matches (mk_route 0x0a000000 8 h i) dst = of_internet dst) by done.
  pose proof (networks_disjoint dst) as H1. pose proof (server_not_internet dst) as H2.
  destruct is_client; cbn [foldl]; rewrite Hc, Hs, Hn;
    destruct (of_client dst); [destruct H1 as [-> ->]; done| |destruct H1 as [-> ->]; done|];
    (destruct (of_server dst); [rewrite H2 by done|destruct (of_internet dst)]; done).
Qed.

(** C14. Where the routers of lab7 send. Both can be set up, and then a datagram
    with hops left goes, one hop older, out of the host's interface to its own
    destination if that is in the router's own network; out of the Internet's
    interface, to the other router's address there, if it is in the other
    network; to its own destination there if it is in 10/8; and nowhere
    otherwise. *)
Theorem lab7_router_directs ln fuel random is_client :
  (6 <= fuel)%nat →
  ∃ r, set_up_router ln fuel random is_client = Ok (r, 0, 1) ∧ Router.interfaces r = lab7_interfaces random is_client ∧
    ∀ r1 d, Router.router_table r1 = Router.router_table r → is_u32 (IPv4Header.dst (IPv4Datagram.header d)) →
      Router.route_one_datagram fuel r1 d =
        match Router.age d, direction is_client (IPv4Header.dst (IPv4Datagram.header d)) with
        | Some d', Some (side, next_hop) =>
            a ← Router.interface r1 side;
            a ← AsyncNetworkInterface.send_datagram a d' next_hop;
            Ok (Router.with_interface r1 side a)
        | _, _ => Ok r1
        end.
Proof.
  intros Hf. destruct (set_up_router_spec ln fuel random is_client Hf) as (T & E & Ht & Hrep & Hlen).
  eexists. split; [exact E|]. split; [done|]. intros r1 d HT Hdst. simpl in HT.
  rewrite (route_one_spec fuel (lab7_routes is_client)) by (rewrite ?HT; done || lia || by destruct is_client).
  assert (Hage : ∀ d', Router.age d = Some d' → IPv4Header.dst (IPv4Datagram.header d') = IPv4Header.dst (IPv4Datagram.header d)).
  { intros d' Ea. unfold Router.age in Ea. by repeat case_match; simplify_eq. }
  destruct (Router.age d) as [d'|] eqn:Ea; [|done]. specialize (Hage d' eq_refl).
  rewrite lab7_lpm. unfold forward. destruct (longest_prefix_match _ _) as [x|]; [|done]. cbn [fmap option_fmap option_map].
  cbv zeta. by rewrite Hage.
Qed.

End routes.

(** ** The network thread *)

(** A datagram that fits into a frame that fits into a UDP datagram. *)
Definition CARRIED : Z := MAX_DATAGRAM - 14.

(** If the packet is a frame with an IPv4 datagram that [parse] accepts, then that
    datagram is well formed, and can be sent on. *)
Definition good_packet (packet : bytes) : Prop :=
  ∀ frame q d, EthernetFrame.parse EthernetFrame.default (Buffer.of_string packet) = Ok (frame, NoError) →
    EthernetHeader.type (EthernetFrame.header frame) = EthernetHeader.TYPE_IPv4 →
    BufferList.to_buffer (EthernetFrame.payload frame) = Ok q →
    IPv4Datagram.parse IPv4Datagram.default q = Ok (d, NoError) → dgram_upto CARRIED d.

Lemma age_upto L d d' : dgram_upto L d → Router.age d = Some d' → dgram_upto L d'.
Proof.
  intros [Hd Hl] Ha. split; [by eapply age_ok|]. unfold Router.age in Ha. by repeat case_match; simplify_eq.
Qed.

Lemma upto_forwards : forwards (isafe_upto CARRIED) (dgram_upto CARRIED).
Proof.
  split; [by intros d []|by apply age_upto|]. intros i d next. apply send_datagram_upto. unfold CARRIED, MAX_DATAGRAM. lia.
Qed.

Lemma buffer_str_u64 b : Buffer.ok b → is_u64 (blen (Buffer.str b)).
Proof.
  unfold Buffer.ok, Buffer.str. destruct (Buffer.storage b) as [l|]; [|intros _; range_compute].
  intros [Ho Hl]. rewrite blen_zdrop by lia. unfold_w. lia.
Qed.

(** Printing a frame, received or queued, throws nothing. *)
Lemma summary_total frame :
  is_u64 (blen (BufferList.concatenate (EthernetFrame.payload frame))) →
  (EthernetHeader.type (EthernetFrame.header frame) = EthernetHeader.TYPE_ARP →
     ∃ q, BufferList.to_buffer (EthernetFrame.payload frame) = Ok q ∧ Buffer.ok q) →
  ∃ text, summary frame = Ok text.
Proof.
  intros Hl Harp. unfold summary. destruct (_ =? EthernetHeader.TYPE_IPv4).
  - destruct (datagram_parse_total IPv4Datagram.default (Buffer.of_string (BufferList.concatenate (EthernetFrame.payload frame)))
      zero_ip_fields) as (d & err & -> & Hd); [by apply buffer_of_string_ok|]. cbn [mbind result_bind].
    case_bool_decide; [|by eexists]. destruct (_ =? _); [|by eexists]. destruct Hd as (_ & q & -> & Hq).
    destruct (segment_parse_total TCPSegment.default (Buffer.of_string (BufferList.concatenate (BufferList.of_buffer q)))
      (IPv4Header.pseudo_cksum (IPv4Datagram.header d)) zero_tcp_fields) as (s & err' & -> & _).
    { apply buffer_of_string_ok. simpl. rewrite app_nil_r. by apply buffer_str_u64. }
    cbn [mbind result_bind]. case_bool_decide; by eexists.
  - destruct (Z.eqb_spec (EthernetHeader.type (EthernetFrame.header frame)) EthernetHeader.TYPE_ARP) as [Ht|]; [|by eexists].
    destruct (Harp Ht) as (q & -> & Hq). cbn [mbind result_bind]. unfold ARPMessage.parse.
    destruct (safe_arp ARPMessage.default eq_refl eq_refl (NetParser.new q) Hq) as ([m err] & p & -> & _). cbn [mbind result_bind].
    case_bool_decide; by eexists.
Qed.

Lemma recv_frame_datagram i frame q i' d :
  EthernetFrame.payload frame = BufferList.of_buffer q → NetworkInterface.recv_frame i frame = Ok (i', Some d) →
  EthernetHeader.type (EthernetFrame.header frame) = EthernetHeader.TYPE_IPv4 ∧
  IPv4Datagram.parse IPv4Datagram.default q = Ok (d, NoError).
Proof.
  intros Hf Hr. unfold NetworkInterface.recv_frame in Hr. rewrite Hf in Hr. destruct (_ =? 0) in Hr; [done|].
  cbn [BufferList.to_buffer BufferList.of_buffer mbind result_bind] in Hr.
  destruct (Z.eqb_spec (NetworkInterface.pkg_type i (EthernetFrame.header frame)) 1) as [Hk|] in Hr.
  - split.
    + unfold NetworkInterface.pkg_type in Hk. destruct (bool_decide _) in Hk; [|by destruct (_ && _)].
      destruct (Z.eqb_spec (EthernetHeader.type (EthernetFrame.header frame)) EthernetHeader.TYPE_IPv4) as [|] in Hk; [done|]. by destruct (_ =? _).
    + destruct (IPv4Datagram.parse _ q) as [[x err]|]; [|done]. cbn [mbind result_bind] in Hr.
      case_bool_decide as He; [|done]. by simplify_eq.
  - destruct (ARPMessage.parse _ q) as [[m err]|]; [|done]. cbn [mbind result_bind] in Hr.
    case_bool_decide; [|done]. by apply result_bind_Ok in Hr as (? & _ & Hr).
Qed.

(** ** Routing only adds frames *)

Definition queue_of (a : AsyncNetworkInterface.t) : list EthernetFrame.t :=
  NetworkInterface.frames_out (AsyncNetworkInterface.interface a).

Lemma send_arp_adds i ip target i' :
  NetworkInterface.send_arp i ip target = Ok i' → NetworkInterface.frames_out i `prefix_of` NetworkInterface.frames_out i'.
Proof.
  unfold NetworkInterface.send_arp. destruct (NetworkInterface.arp_table i !! ip); destruct (_ && _); intros Hs;
    try (injection Hs as <-; done); apply result_bind_Ok in Hs as (f & _ & Hs); injection Hs as <-; by apply prefix_app_r.
Qed.

Lemma send_dgram_adds i d address i' :
  NetworkInterface.send_dgram i d address = Ok i' → NetworkInterface.frames_out i `prefix_of` NetworkInterface.frames_out i'.
Proof.
  unfold NetworkInterface.send_dgram. intros Hs. apply result_bind_Ok in Hs as (f & _ & Hs). injection Hs as <-. by apply prefix_app_r.
Qed.

Lemma send_datagram_adds i d ip i' :
  NetworkInterface.send_datagram i d ip = Ok i' → NetworkInterface.frames_out i `prefix_of` NetworkInterface.frames_out i'.
Proof.
  unfold NetworkInterface.send_datagram. intros Hs. destruct (NetworkInterface.arp_table i !! ip); [destruct (_ || _)|];
    try (by eapply send_dgram_adds); apply result_bind_Ok in Hs as (i1 & E1 & Hs); apply send_arp_adds in E1; by injection Hs as <-.
Qed.

Lemma resend_adds i ip address l i' :
  NetworkInterface.resend i ip address l = Ok i' → NetworkInterface.frames_out i `prefix_of` NetworkInterface.frames_out i'.
Proof.
  revert i i'. induction l as [|[k d] l IH]; intros i i' Hs; simpl in Hs; [by injection Hs as <-|].
  destruct (_ =? _); apply result_bind_Ok in Hs as (i1 & E1 & Hs).
  - apply send_dgram_adds in E1. apply IH in Hs. by etransitivity.
  - apply IH in E1. by injection Hs as <-.
Qed.

Lemma recv_frame_adds a frame a' :
  AsyncNetworkInterface.recv_frame a frame = Ok a' → queue_of a `prefix_of` queue_of a'.
Proof.
  unfold AsyncNetworkInterface.recv_frame. intros Hr. apply result_bind_Ok in Hr as ([i d] & Hr & Ha). injection Ha as <-.
  unfold queue_of. cbn [AsyncNetworkInterface.interface]. unfold NetworkInterface.recv_frame in Hr.
  destruct (_ =? 0) in Hr; [by injection Hr as <- _|]. apply result_bind_Ok in Hr as (b & _ & Hr). destruct (_ =? 1) in Hr.
  - apply result_bind_Ok in Hr as ([x err] & _ & Hr). case_bool_decide; by injection Hr as <- _.
  - apply result_bind_Ok in Hr as ([m err] & _ & Hr). case_bool_decide; [|by injection Hr as <- _].
    apply result_bind_Ok in Hr as (i1 & E1 & Hr). injection Hr as <- _. unfold NetworkInterface.recv_arp in E1.
    destruct (_ && _) in E1; [by injection E1 as <-|]. apply result_bind_Ok in E1 as (i2 & E2 & E1). injection E1 as <-.
    change (NetworkInterface.frames_out (NetworkInterface.learn i2 _ _)) with (NetworkInterface.frames_out i2).
    destruct (_ =? _) in E2; [by eapply send_arp_adds|]. destruct (_ =? _) in E2; [by eapply resend_adds|by injection E2 as <-].
Qed.

(** Every interface of [R'] has the frames it had in [R], and possibly more. *)
Definition adds (R R' : Router.t) : Prop :=
  ∀ k a, Router.interfaces R !! k = Some a → ∃ a', Router.interfaces R' !! k = Some a' ∧ queue_of a `prefix_of` queue_of a'.

Lemma adds_refl R : adds R R.
Proof. intros k a Ha. by exists a. Qed.

Lemma adds_trans R1 R2 R3 : adds R1 R2 → adds R2 R3 → adds R1 R3.
Proof.
  intros H1 H2 k a Ha. destruct (H1 k a Ha) as (a2 & Ha2 & Hp2), (H2 k a2 Ha2) as (a3 & Ha3 & Hp3).
  exists a3. split; [done|]. by etransitivity.
Qed.

Lemma adds_with R n a a' :
  Router.interface R n = Ok a → queue_of a `prefix_of` queue_of a' → adds R (Router.with_interface R n a').
Proof.
  intros Hi Hq k b Hb. unfold Router.interface in Hi. destruct (Z.ltb_spec n 0); [done|].
  destruct (Router.interfaces R !! Z.to_nat n) as [x|] eqn:Ex; [|done]. injection Hi as ->. unfold Router.with_interface. simpl.
  destruct (decide (k = Z.to_nat n)) as [->|Hne].
  - exists a'. rewrite Ex in Hb. injection Hb as <-. split; [|done]. apply list_lookup_insert_eq. by eapply lookup_lt_Some.
  - exists b. by rewrite list_lookup_insert_ne.
Qed.

Lemma route_one_adds fuel R d R' : Router.route_one_datagram fuel R d = Ok R' → adds R R'.
Proof.
  unfold Router.route_one_datagram. destruct (Router.age d) as [d'|]; [|intros [= <-]; apply adds_refl].
  intros Hr. apply result_bind_Ok in Hr as (g & _ & Hr). destruct (Router.saved g); [|injection Hr as <-; apply adds_refl].
  apply result_bind_Ok in Hr as (a & Ea & Hr). apply result_bind_Ok in Hr as (a' & Es & Hr). injection Hr as <-.
  eapply adds_with; [exact Ea|]. unfold AsyncNetworkInterface.send_datagram in Es.
  apply result_bind_Ok in Es as (i & Ei & Es). injection Es as <-. by eapply send_datagram_adds.
Qed.

Lemma route_queue_adds fuel n q R R' : Router.route_queue fuel R n q = Ok R' → adds R R'.
Proof.
  revert R. induction q as [|d q IH]; intros R Hr; cbn [Router.route_queue] in Hr; [injection Hr as <-; apply adds_refl|].
  apply result_bind_Ok in Hr as (R1 & E1 & Hr). apply result_bind_Ok in Hr as (a & Ea & Hr).
  eapply adds_trans; [by eapply route_one_adds|]. eapply adds_trans; [eapply adds_with; [exact Ea|]|by eapply IH]. done.
Qed.

Lemma route_adds fuel R R' : Router.route fuel R = Ok R' → adds R R'.
Proof.
  unfold Router.route. generalize (seqZ 0 (blen (Router.interfaces R))). intros ns. revert R.
  induction ns as [|n ns IH]; intros R Hr; cbn [Router.route_interfaces] in Hr; [injection Hr as <-; apply adds_refl|].
  apply result_bind_Ok in Hr as (a & Ea & Hr). apply result_bind_Ok in Hr as (R1 & E1 & Hr).
  eapply adds_trans; [by eapply route_queue_adds|by apply IH].
Qed.

Lemma frame_payload_le frame :
  0 <= blen (BufferList.concatenate (EthernetFrame.payload frame)) <= blen (BufferList.concatenate (EthernetFrame.serialize frame)).
Proof.
  split; [apply blen_nonneg|]. unfold EthernetFrame.serialize. rewrite concatenate_app, blen_app.
  match goal with |- context [blen (BufferList.concatenate (BufferList.append [] ?x))] =>
    pose proof (blen_nonneg (BufferList.concatenate (BufferList.append [] x))) end. lia.
Qed.

(** ** A write counts *)

(** [write] registers each of its calls of [writev]: at least one, and at most one
    more than there are bytes. *)
Lemma write_loop_count `{Kernel E} rounds (e : E) f l write_all total e' f' n :
  FileDescriptor.write_loop rounds e f l write_all total = Ok (e', f', n) →
  ∃ k, 1 <= k <= Z.of_nat rounds ∧ FileDescriptor.write_count f' = w32 (FileDescriptor.write_count f + k).
Proof.
  revert e f l total. induction rounds as [|rounds IH]; intros e f l total Hw; [done|]. cbn [FileDescriptor.write_loop] in Hw.
  apply result_bind_Ok in Hw as ([m e1] & _ & Hw). destruct (_ && _) in Hw; [done|]. destruct (_ <? _) in Hw; [done|].
  apply result_bind_Ok in Hw as (l' & _ & Hw). destruct (_ && _) in Hw.
  - destruct (IH _ _ _ _ Hw) as (k & Hk & ->). exists (1 + k). split; [lia|]. simpl. unfold w32. rewrite Zplus_mod_idemp_l. f_equal. lia.
  - injection Hw as _ <- _. exists 1. split; [lia|done].
Qed.

Lemma write_counts `{Kernel E} (e : E) f l write_all e' f' n :
  blen (mjoin l) < 0xffffffff → FileDescriptor.write e f l write_all = Ok (e', f', n) →
  FileDescriptor.write_count f' ≠ FileDescriptor.write_count f.
Proof.
  intros Hl Hw. destruct (write_loop_count _ _ _ _ _ _ _ _ _ Hw) as (k & Hk & ->). apply w32_add_ne. unfold blen in Hl. lia.
Qed.

Section thread.
Context `{KernelLaws E} `{!SocketCalls E} `{!DatagramLaws E}.
Context (fuel : nat) (debug : bool) (bounce_address : RawAddress.t) (exit_flag : E → bool).
Context (ff fi : Z) (Hfds : ff ≠ fi) (e1 : E).
Context (rs : list route_entry) (T : Router.table) (Ht : tinv T) (Hrep : represents rs T) (Hok : forallb route_ok rs = true).
Context (Hfuel : (length T + 2 <= fuel)%nat) (Hif : Forall (λ r, 0 <= rt_iface r < 2) rs).

(** Whatever arrives is a good packet. *)
Context (Hgood : ∀ (e : E) fd n b e', world_ok e → fd = ff ∨ fd = fi → sys_read e fd n = (Returned b, e') → good_packet b).

Abbreviation router_ok := (RouterSpec.ready T 2 (isafe_upto CARRIED) (dgram_upto CARRIED)).

(** Between the callbacks nothing waits to be routed, and since [e1] only the two
    descriptors were used. *)
Record thread_ok (s : NetworkThread.t E) : Prop := mk_thread_ok {
  tk_world : world_ok (NetworkThread.world s);
  tk_frame : FileDescriptor.fd_num (NetworkThread.frame_fd s) = ff;
  tk_internet : FileDescriptor.fd_num (NetworkThread.internet_socket s) = fi;
  tk_router : router_ok (NetworkThread.router s);
  tk_others : untouched ff fi e1 (NetworkThread.world s);
}.

(** A call on one of the two descriptors leaves the others alone. *)
Lemma used_either (e e' : E) f f' :
  used e e' f f' → FileDescriptor.fd_num f = ff ∨ FileDescriptor.fd_num f = fi → untouched ff fi e1 e → untouched ff fi e1 e'.
Proof.
  intros (_ & _ & He) Hf Hu k Hk1 Hk2. destruct (He k) as [-> ->]; [destruct Hf; congruence|]. by apply Hu.
Qed.

Lemma side_interface R side :
  router_ok R → side = 0 ∨ side = 1 →
  ∃ a, Router.interface R side = Ok a ∧ isafe_upto CARRIED (AsyncNetworkInterface.interface a) ∧
    Forall (dgram_upto CARRIED) (AsyncNetworkInterface.datagrams_out a).
Proof.
  intros (_ & HN & HR) Hs. destruct (lookup_lt_is_Some_2 (Router.interfaces R) (Z.to_nat side)) as [a Ha]; [lia|].
  exists a. pose proof (Forall_lookup_1 _ _ _ _ HR Ha) as Hi. split; [|done].
  rewrite <- (Z2Nat.id side) by lia. by apply interface_lookup.
Qed.

Lemma ready_with R side a :
  router_ok R → isafe_upto CARRIED (AsyncNetworkInterface.interface a) →
  Forall (dgram_upto CARRIED) (AsyncNetworkInterface.datagrams_out a) →
  router_ok (Router.with_interface R side a).
Proof.
  intros (HT & HN & HR) Ha Hq. split; [done|]. split; simpl; [by rewrite length_insert|]. by apply Forall_insert.
Qed.

Lemma arrive_ok s side packet :
  thread_ok s → side = 0 ∨ side = 1 → good_packet packet → is_u64 (blen packet) →
  ∃ s', NetworkThread.arrive fuel debug s side packet = Ok s' ∧ thread_ok s' ∧
    NetworkThread.frame_fd s' = NetworkThread.frame_fd s ∧ NetworkThread.internet_socket s' = NetworkThread.internet_socket s.
Proof.
  intros [] Hs Hp Hl. unfold NetworkThread.arrive.
  destruct (frame_parse_total EthernetFrame.default (Buffer.of_string packet) (buffer_of_string_ok _ Hl))
    as (frame & err & q & Ef & Hf & Hq). rewrite Ef. cbn [mbind result_bind].
  case_bool_decide as Eerr; cbn [negb]; [subst err|by exists s].
  assert (Htr : trace debug frame = Ok tt).
  { unfold trace. destruct debug; [|done]. destruct (summary_total frame) as [text ->]; [| |done].
    - rewrite Hf. simpl. rewrite app_nil_r. by apply buffer_str_u64.
    - intros _. rewrite Hf. by exists q. }
  rewrite Htr. cbn [mbind result_bind].
  destruct (side_interface _ side tk_router0 Hs) as (a & -> & Hi & Hd). cbn [mbind result_bind].
  unfold AsyncNetworkInterface.recv_frame.
  destruct (recv_frame_upto CARRIED ltac:(unfold CARRIED, MAX_DATAGRAM; lia) _ frame q Hi Hf Hq) as (i & d & Er & Hi' & _).
  rewrite Er. cbn [mbind result_bind].
  assert (Hd' : ∀ x, d = Some x → dgram_upto CARRIED x).
  { intros x ->. destruct (recv_frame_datagram _ _ _ _ _ Hf Er) as [Ht4 Hpd]. apply (Hp frame q); [done|done|by rewrite Hf|done]. }
  destruct (route_ready fuel rs T 2 Ht Hrep Hok Hfuel Hif _ _ upto_forwards
    (Router.with_interface (NetworkThread.router s) side (AsyncNetworkInterface.mk i
       match d with Some d => AsyncNetworkInterface.datagrams_out a ++ [d] | None => AsyncNetworkInterface.datagrams_out a end)))
    as (R' & -> & HR' & _).
  { apply ready_with; [done|done|]. simpl. destruct d as [d|]; [|done]. apply Forall_app. split; [done|].
    apply Forall_singleton. by apply Hd'. }
  cbn [mbind result_bind]. eexists. split; [done|]. split; [|done]. by split.
Qed.

Lemma packet_read (e : E) f :
  world_ok e → FileDescriptor.fd_num f = ff ∨ FileDescriptor.fd_num f = fi →
  faulted (E := E) (FileDescriptor.read e f FileDescriptor.NO_LIMIT) ∨
  ∃ e' f' b, FileDescriptor.read e f FileDescriptor.NO_LIMIT = Ok (e', f', b) ∧ used e e' f f' ∧ good_packet b ∧ is_u64 (blen b) ∧
    FileDescriptor.read_count f' = w32 (FileDescriptor.read_count f + 1).
Proof.
  intros Hw Hf. destruct (device_read e f Hw) as [?|(e' & f' & b & Er & Hb & Hu & Hc)]; [by left|].
  right. exists e', f', b. split; [done|]. split; [done|]. split; [|done].
  unfold FileDescriptor.read, call in Er. destruct (sys_read e (FileDescriptor.fd_num f) _) as [[x|err] e2] eqn:Es; [|done].
  cbn [SystemCall mbind result_bind] in Er. destruct (_ <? _) in Er; [done|]. injection Er as <- _ <-. by apply (Hgood e (FileDescriptor.fd_num f) _ _ _ Hw Hf Es).
Qed.

(** The queue of one side, when its rule is called. *)
Lemma front_ok s side :
  thread_ok s → side = 0 ∨ side = 1 → NetworkThread.pending side s = true →
  ∃ frame r, NetworkThread.front (NetworkThread.router s) side = Ok (frame, r) ∧ trace debug frame = Ok tt ∧
    blen (BufferList.concatenate (EthernetFrame.serialize frame)) <= MAX_DATAGRAM ∧ router_ok r.
Proof.
  intros [] Hs Hp. unfold NetworkThread.pending, NetworkThread.frames_out in Hp. unfold NetworkThread.front.
  destruct (side_interface _ side tk_router0 Hs) as (a & Ea & Hi & Hd). rewrite Ea in Hp |- *. cbn [mbind result_bind].
  destruct (NetworkInterface.frames_out _) as [|frame q] eqn:Eq; [done|]. destruct Hi as [Ha Htb Hsd Hfr].
  rewrite Eq in Hfr. apply Forall_cons in Hfr as [[Hlen Harp] Hfr].
  pose proof (frame_payload_le frame) as Hpay. unfold CARRIED, MAX_DATAGRAM in Hlen.
  eexists _, _. split; [done|]. split; [|split].
  - unfold trace. destruct debug; [|done]. destruct (summary_total frame) as [text ->]; [| |done].
    + unfold_w. lia.
    + intros Ety. destruct (Harp Ety) as [l Hl]. rewrite Hl in *. eexists. split; [done|]. apply buffer_of_string_ok.
      rewrite concatenate_of_string in Hpay. unfold_w. lia.
  - unfold MAX_DATAGRAM. lia.
  - apply ready_with; [done| |done]. by split.
Qed.

Abbreviation from_host := (NetworkThread.from_host fuel debug 0).
Abbreviation to_host := (NetworkThread.to_host debug 0).
Abbreviation to_internet := (NetworkThread.to_internet debug 1 bounce_address).
Abbreviation from_internet := (NetworkThread.from_internet fuel debug 1).

Lemma pending_adds side (s s' : NetworkThread.t E) :
  adds (NetworkThread.router s) (NetworkThread.router s') → NetworkThread.pending side s = true → NetworkThread.pending side s' = true.
Proof.
  intros Ha Hp. unfold NetworkThread.pending, NetworkThread.frames_out, Router.interface in *.
  destruct (side <? 0); [done|]. destruct (Router.interfaces (NetworkThread.router s) !! Z.to_nat side) as [a|] eqn:Ea; [|done].
  destruct (Ha _ _ Ea) as (a' & -> & k & Hk). unfold queue_of in Hk. rewrite Hk. by destruct (NetworkInterface.frames_out _).
Qed.

Lemma arrive_adds s side packet s' :
  NetworkThread.arrive fuel debug s side packet = Ok s' → adds (NetworkThread.router s) (NetworkThread.router (E := E) s').
Proof.
  unfold NetworkThread.arrive. intros Hr. apply result_bind_Ok in Hr as ([frame err] & _ & Hr).
  destruct (negb _); [injection Hr as <-; apply adds_refl|]. apply result_bind_Ok in Hr as (? & _ & Hr).
  apply result_bind_Ok in Hr as (a & Ea & Hr). apply result_bind_Ok in Hr as (a' & Er & Hr).
  apply result_bind_Ok in Hr as (R' & Eroute & Hr). injection Hr as <-. simpl.
  eapply adds_trans; [eapply adds_with; [exact Ea|by eapply recv_frame_adds]|by eapply route_adds].
Qed.

Lemma descr_frame s : thread_ok s → NetworkThread.descr s ff = NetworkThread.frame_fd s.
Proof. intros []. unfold NetworkThread.descr. by rewrite tk_frame0, Z.eqb_refl. Qed.

Lemma descr_internet s : thread_ok s → NetworkThread.descr s fi = NetworkThread.internet_socket s.
Proof. intros []. unfold NetworkThread.descr. rewrite tk_frame0, (proj2 (Z.eqb_neq fi ff)); congruence. Qed.

Lemma from_host_ok s :
  thread_ok s → faulted (E := E) (from_host s) ∨ ∃ s', from_host s = Ok s' ∧ thread_ok s' ∧ adds (NetworkThread.router s) (NetworkThread.router s') ∧
    FileDescriptor.read_count (NetworkThread.frame_fd s') ≠ FileDescriptor.read_count (NetworkThread.frame_fd s).
Proof.
  intros Hs. pose proof Hs as []. unfold NetworkThread.from_host.
  destruct (packet_read (NetworkThread.world s) (NetworkThread.frame_fd s) tk_world0) as [Hft|(e & f & b & -> & Hu & Hg & Hb & Hc)]; [by left|by_fault Hft|].
  pose proof (used_either _ _ _ _ Hu (or_introl tk_frame0) tk_others0). destruct Hu as (Hw & Hn & _).
  cbn [mbind result_bind].
  destruct (arrive_ok (NetworkThread.with_frame_fd s e f) 0 b) as (s' & E' & Hs' & Hf' & _); [split; simpl; congruence || done|by left|done|done|].
  right. exists s'. split; [done|]. split; [done|]. split; [by apply arrive_adds in E'|]. rewrite Hf'. simpl. rewrite Hc. apply w32_add_ne; lia.
Qed.

Lemma from_internet_ok s :
  thread_ok s → faulted (E := E) (from_internet s) ∨ ∃ s', from_internet s = Ok s' ∧ thread_ok s' ∧
    FileDescriptor.read_count (NetworkThread.internet_socket s') ≠ FileDescriptor.read_count (NetworkThread.internet_socket s).
Proof.
  intros Hs. pose proof Hs as []. unfold NetworkThread.from_internet.
  destruct (packet_read (NetworkThread.world s) (NetworkThread.internet_socket s) tk_world0) as [Hft|(e & f & b & -> & Hu & Hg & Hb & Hc)]; [by right|by_fault Hft|].
  pose proof (used_either _ _ _ _ Hu (or_intror tk_internet0) tk_others0). destruct Hu as (Hw & Hn & _).
  cbn [mbind result_bind].
  destruct (arrive_ok (NetworkThread.with_internet_socket s e f) 1 b) as (s' & E' & Hs' & _ & Hf'); [split; simpl; congruence || done|by right|done|done|].
  right. exists s'. split; [done|]. split; [done|]. rewrite Hf'. simpl. rewrite Hc. apply w32_add_ne; lia.
Qed.

Lemma to_internet_ok s :
  thread_ok s → NetworkThread.pending 1 s = true →
  faulted (E := E) (to_internet s) ∨ ∃ s', to_internet s = Ok s' ∧ thread_ok s' ∧
    FileDescriptor.write_count (NetworkThread.internet_socket s') ≠ FileDescriptor.write_count (NetworkThread.internet_socket s).
Proof.
  intros Hs Hp. pose proof Hs as []. unfold NetworkThread.to_internet.
  destruct (front_ok s 1 Hs ltac:(by right) Hp) as (frame & r & -> & Htr & Hl & Hr). cbn [mbind result_bind]. rewrite Htr. cbn [mbind result_bind].
  destruct (sendto_core (NetworkThread.world s) (NetworkThread.internet_socket s) bounce_address
    (BufferViewList.of_buffer_list (EthernetFrame.serialize frame)) tk_world0) as [Hft|(e & -> & Htk & _)]; [by rewrite join_buffer_list|by_fault Hft|].
  pose proof (took_used _ _ _ (FileDescriptor.register_write (NetworkThread.internet_socket s)) _ Htk eq_refl) as Hu.
  pose proof (used_either _ _ _ _ Hu (or_intror tk_internet0) tk_others0). cbn [mbind result_bind]. right. eexists. split; [done|].
  split; [split; simpl; try done; apply Htk|]. simpl. apply w32_add_ne; lia.
Qed.

Lemma to_host_ok s :
  thread_ok s → NetworkThread.pending 0 s = true →
  faulted (E := E) (to_host s) ∨ ∃ s', to_host s = Ok s' ∧ thread_ok s' ∧
    FileDescriptor.write_count (NetworkThread.frame_fd s') ≠ FileDescriptor.write_count (NetworkThread.frame_fd s).
Proof.
  intros Hs Hp. pose proof Hs as []. unfold NetworkThread.to_host.
  destruct (front_ok s 0 Hs ltac:(by left) Hp) as (frame & r & -> & Htr & Hl & Hr). cbn [mbind result_bind]. rewrite Htr. cbn [mbind result_bind].
  destruct (frame_write (NetworkThread.world s) (NetworkThread.frame_fd s) frame tk_world0) as [Hft|(e & f & n & Ew & Htk & Hn & _)].
  { unfold MAX_DATAGRAM in Hl. lia. }
  { by_fault Hft. }
  pose proof (used_either _ _ _ _ (took_used _ _ _ _ _ Htk Hn) (or_introl tk_frame0) tk_others0).
  rewrite Ew. cbn [mbind result_bind]. right. eexists. split; [done|]. split; [split; simpl; congruence || apply Htk || done|]. simpl.
  eapply write_counts; [|exact Ew]. rewrite join_buffer_list. unfold MAX_DATAGRAM in Hl. lia.
Qed.

(** ** The event loop of the thread *)

Abbreviation thread_rules := (NetworkThread.rules fuel debug 0 1 bounce_address ff fi).

Lemma to_host_pending s s' : to_host s = Ok s' → NetworkThread.pending 1 s = true → NetworkThread.pending 1 s' = true.
Proof.
  unfold NetworkThread.to_host, NetworkThread.front. intros Hr Hp. apply result_bind_Ok in Hr as ([frame r] & Ef & Hr).
  apply result_bind_Ok in Hr as (? & _ & Hr). apply result_bind_Ok in Hr as ([[e f] n] & _ & Hr). injection Hr as <-.
  apply result_bind_Ok in Ef as (a & _ & Ef). destruct (NetworkInterface.frames_out _); [done|]. injection Ef as _ <-.
  unfold NetworkThread.pending, NetworkThread.frames_out, Router.interface in *. simpl in *.
  by rewrite list_lookup_insert_ne by done.
Qed.

Lemma thread_rules_progress : Forall (rule_guarded NetworkThread.descr thread_ok) thread_rules.
Proof.
  unfold NetworkThread.rules. repeat (apply Forall_cons; split; [split; [|done]|]); [..|by apply Forall_nil];
    simpl; intros s Hs Hp; unfold EventLoop.service_count; simpl.
  - destruct (from_host_ok s Hs) as [?|(s' & E' & Hs' & _ & Hc)]; [by left|right]. exists s'. rewrite !descr_frame by done.
    split; [done|]. split; [done|]. left. congruence.
  - destruct (to_host_ok s Hs Hp) as [?|(s' & E' & Hs' & Hc)]; [by left|right]. exists s'. rewrite !descr_frame by done.
    split; [done|]. split; [done|]. left. congruence.
  - destruct (to_internet_ok s Hs Hp) as [?|(s' & E' & Hs' & Hc)]; [by left|right]. exists s'. rewrite !descr_internet by done.
    split; [done|]. split; [done|]. left. congruence.
  - destruct (from_internet_ok s Hs) as [?|(s' & E' & Hs' & Hc)]; [by left|right]. exists s'. rewrite !descr_internet by done.
    split; [done|]. split; [done|]. left. congruence.
Qed.

Lemma thread_rules_guarded : guarded NetworkThread.descr NetworkThread.poll thread_ok thread_rules.
Proof.
  split; [apply thread_rules_progress| |].
  - assert (Hfrom : ∀ side s s', thread_ok s → NetworkThread.pending side s = true → from_host s = Ok s' → NetworkThread.pending side s' = true).
    { intros side s s' Hs Hp E'. destruct (from_host_ok s Hs) as [Hft|(s1 & E1 & _ & Ha & _)]; [no_fault Hft E'|]. rewrite E' in E1. injection E1 as <-.
      by eapply pending_adds. }
    unfold NetworkThread.rules. repeat constructor; intros s s' Hs Hp Hc; simpl in *; try done; [by eapply Hfrom|by eapply Hfrom|].
    by eapply to_host_pending.
  - unfold NetworkThread.rules. repeat constructor; intros s l timeout Hi; simpl in *; try done;
      unfold NetworkThread.poll; by destruct (sys_poll _ _ _).
Qed.

Lemma thread_poll_ok : poll_ok NetworkThread.poll thread_ok.
Proof.
  intros s l timeout []. unfold NetworkThread.poll.
  destruct (law_poll (NetworkThread.world s) l timeout tk_world0) as (answer & e' & -> & Hi & Ha).
  exists answer. eexists. split; [done|]. split; [|done].
  split; simpl; try done; [apply Hi|eapply untouched_trans; [done|by apply idle_untouched]].
Qed.

Lemma thread_tick s side ms : thread_ok s → side = 0 ∨ side = 1 → ∃ s', NetworkThread.tick s side ms = Ok s' ∧ thread_ok s'.
Proof.
  intros [] Hs. unfold NetworkThread.tick. destruct (side_interface _ side tk_router0 Hs) as (a & -> & [] & Hd).
  cbn [mbind result_bind]. eexists. split; [done|]. split; try done. apply ready_with; [done| |done]. by split.
Qed.

Lemma round_ok s rules :
  thread_ok s → guarded NetworkThread.descr NetworkThread.poll thread_ok rules →
  faulted (E := E) (NetworkThread.round 0 1 exit_flag s rules) ∨
  ∃ s' rules' ended, NetworkThread.round 0 1 exit_flag s rules = Ok (s', rules', ended) ∧ thread_ok s' ∧
    guarded NetworkThread.descr NetworkThread.poll thread_ok rules' ∧ sublist rules' rules.
Proof.
  intros Hs Hg. unfold NetworkThread.round.
  destruct (wait_next_event_guarded _ _ _ s rules 50 thread_poll_ok Hs Hg) as [Hft|(s1 & rules1 & res & -> & Hs1 & Hg1 & Hsub)]; [by_fault Hft|right].
  cbn [mbind result_bind]. destruct (thread_tick s1 0 50 Hs1) as (s2 & E2 & Hs2); [by left|].
  destruct (thread_tick s2 1 50 Hs2) as (s3 & E3 & Hs3); [by right|].
  destruct res; [| |by exists s1, rules1, true]; rewrite E2; cbn [mbind result_bind]; rewrite E3; by exists s3, rules1, (exit_flag (NetworkThread.world s3)).
Qed.

Lemma loop_ok rounds s rules :
  thread_ok s → guarded NetworkThread.descr NetworkThread.poll thread_ok rules →
  faulted (E := E) (NetworkThread.loop 0 1 exit_flag rounds s rules) ∨
  ∃ s' rules' ended, NetworkThread.loop 0 1 exit_flag rounds s rules = Ok (s', rules', ended) ∧ thread_ok s' ∧ sublist rules' rules.
Proof.
  revert s rules. induction rounds as [|rounds IH]; intros s rules Hs Hg; [right; by exists s, rules, false|]. cbn [NetworkThread.loop].
  destruct (round_ok s rules Hs Hg) as [Hft|(s1 & rules1 & [] & -> & Hs1 & Hg1 & Hsub)]; [by_fault Hft|right; by exists s1, rules1, true|].
  cbn [mbind result_bind]. destruct (IH s1 rules1 Hs1 Hg1) as [?|(s2 & rules2 & ended & E2 & Hs2 & Hsub2)]; [by left|].
  right. exists s2, rules2, ended. split; [done|]. split; [done|]. by etransitivity.
Qed.

Lemma thread_runs_core rounds s :
  thread_ok s → faulted (E := E) (NetworkThread.run fuel debug 0 1 bounce_address exit_flag rounds s) ∨
  ∃ s' rules' ended, NetworkThread.run fuel debug 0 1 bounce_address exit_flag rounds s = Ok (s', rules', ended) ∧
    thread_ok s' ∧ sublist rules' thread_rules.
Proof.
  intros Hs. unfold NetworkThread.run. rewrite (tk_frame s Hs), (tk_internet s Hs). apply loop_ok; [done|apply thread_rules_guarded].
Qed.

End thread.

Lemma lab7_interfaces_safe random is_client :
  Forall (λ a, isafe_upto CARRIED (AsyncNetworkInterface.interface a) ∧
    Forall (dgram_upto CARRIED) (AsyncNetworkInterface.datagrams_out a)) (lab7_interfaces random is_client).
Proof.
  assert (Hnew : ∀ random n, isafe_upto CARRIED (NetworkInterface.new (random_router_ethernet_address random) n)).
  { intros r n. split; simpl; [done|apply map_Forall_empty|done|done]. }
  unfold lab7_interfaces. destruct is_client; repeat (apply Forall_cons; split; [by split|]); done.
Qed.

Section promise.
Context `{ResolverLaws} `{KernelLaws E} `{!SocketCalls E} `{!DatagramLaws E}.

(** C15. The network thread of lab7 keeps running. If the kernel keeps its laws and
    every packet that comes from the host's socket or from the Internet carries,
    if it carries an IPv4 datagram, a well-formed one that can be sent on, then
    for any number of rounds of the loop, with or without the debug output, and
    unless a system call fails, no callback throws, in particular none trips the
    busy-wait check of the event loop, and the routes of the router are those it
    was set up with. *)
Theorem network_thread_runs ln fuel random is_client debug bounce_address exit_flag (e : E) frame_fd internet_socket :
  (6 <= fuel)%nat → world_ok e → FileDescriptor.fd_num frame_fd ≠ FileDescriptor.fd_num internet_socket →
  (∀ (e : E) fd n b e', world_ok e → fd = FileDescriptor.fd_num frame_fd ∨ fd = FileDescriptor.fd_num internet_socket →
     sys_read e fd n = (Returned b, e') → good_packet b) →
  ∃ r, set_up_router ln fuel random is_client = Ok (r, 0, 1) ∧
    ∀ rounds,
      faulted (E := E) (NetworkThread.run fuel debug 0 1 bounce_address exit_flag rounds (NetworkThread.mk e frame_fd internet_socket r)) ∨
      ∃ s rules ended,
      NetworkThread.run fuel debug 0 1 bounce_address exit_flag rounds (NetworkThread.mk e frame_fd internet_socket r) = Ok (s, rules, ended) ∧
      world_ok (NetworkThread.world s) ∧ Router.router_table (NetworkThread.router s) = Router.router_table r ∧
      length (Router.interfaces (NetworkThread.router s)) = 2%nat.
Proof.
  intros Hf Hw Hne Hgood. destruct (set_up_router_spec ln fuel random is_client Hf) as (T & Eset & Ht & Hrep & Hlen).
  eexists. split; [exact Eset|]. intros rounds.
  destruct (thread_runs_core fuel debug bounce_address exit_flag _ _ Hne e (lab7_routes is_client) T Ht Hrep
    ltac:(by destruct is_client) ltac:(lia) ltac:(by destruct is_client; repeat constructor) Hgood rounds
    (NetworkThread.mk e frame_fd internet_socket (Router.mk (lab7_interfaces random is_client) T)))
    as [?|(s & rules & ended & Er & [Hw' _ _ (HT & HN & _) _] & _)]; [|by left|right].
  { split; try done. split; [done|]. split; [by destruct is_client|]. apply lab7_interfaces_safe. }
  exists s, rules, ended. by split_and!.
Qed.

End promise.
