(* ===== verification/Lab7Example.v ===== *)
(** * The network thread of lab7, run

    The host sends an ARP request and a segment for the server's network; the
    router answers the first, and asks on the Internet's side for the address of
    the other router. A second run shows what one datagram with another IP version
    does. *)

From S2P Require Import Prelude Buffers Parsing Wrapping Segment Reassembly Sender Connection Ipv4 Link Printing Netif NetifSpec.
From S2P Require Import Router RouterSpec Addresses Adapters AdaptersSpec Robustness Outgoing Descriptors Events Sockets Resolve.
From S2P Require Import SpongeSocket SpongeSocketSpec Confined Lab7 Lab7Spec.

(** ** Good packets *)

Definition dgram_test (d : IPv4Datagram.t) : bool :=
  let h := IPv4Datagram.header d in
  let within bound x := (0 <=? x) && (x <? bound) in
  (IPv4Header.ver h =? 4) && (5 <=? IPv4Header.hlen h) && within 16 (IPv4Header.hlen h) &&
  within 0x100 (IPv4Header.tos h) && within 0x10000 (IPv4Header.len h) && within 0x10000 (IPv4Header.id h) &&
  within 0x2000 (IPv4Header.offset h) && within 0x100 (IPv4Header.ttl h) && within 0x100 (IPv4Header.proto h) &&
  within 0x10000 (IPv4Header.cksum h) && within 0x100000000 (IPv4Header.src h) && within 0x100000000 (IPv4Header.dst h) &&
  (4 * IPv4Header.hlen h <=? IPv4Header.len h) &&
  (blen (BufferList.concatenate (IPv4Datagram.payload d)) =? IPv4Header.len h - 4 * IPv4Header.hlen h) &&
  (IPv4Header.len h <=? CARRIED).

Lemma dgram_test_ok d : dgram_test d = true → dgram_upto CARRIED d.
Proof. unfold dgram_test. intros Ht. bool_to_prop. split; [split; [split|..]|]; unfold_w; lia. Qed.

Definition packet_test (packet : bytes) : bool :=
  match EthernetFrame.parse EthernetFrame.default (Buffer.of_string packet) with
  | Ok (frame, NoError) =>
      negb (EthernetHeader.type (EthernetFrame.header frame) =? EthernetHeader.TYPE_IPv4) ||
      match BufferList.to_buffer (EthernetFrame.payload frame) with
      | Ok q => match IPv4Datagram.parse IPv4Datagram.default q with Ok (d, NoError) => dgram_test d | _ => true end
      | Err _ => true
      end
  | _ => true
  end.

Lemma packet_test_ok packet : packet_test packet = true → good_packet packet.
Proof. unfold packet_test. intros Ht frame q d Ef Ety Eq Ed. rewrite Ef, Ety, Eq, Ed in Ht. by apply dgram_test_ok. Qed.

(** ** The host *)

(** The numbers drawn are 0, 1, 2 and so on. *)
Definition counting (i : nat) : Z := Z.of_nat i.

Definition host_adapter : NetworkInterfaceAdapter.t :=
  NetworkInterfaceAdapter.with_base
    (NetworkInterfaceAdapter.new (after_draws counting 12) (Address.mk 0xc0a80032 0) (Address.mk 0xc0a80001 0))
    (FdAdapterBase.mk (FdAdapterConfig.mk (Address.mk 0xc0a80032 4321) (Address.mk 0xac100064 1234) 0 0) false).

Definition host_segment : TCPSegment.t :=
  TCPSegment.mk (TCPHeader.set_syn (TCPHeader.set_seqno TCPHeader.default (WrappingInt32.mk 100)) true) Buffer.empty.

Definition datagram_of (base : FdAdapterBase.t) : IPv4Datagram.t :=
  match TCPOverIPv4Adapter.wrap_tcp_in_ip base host_segment with
  | Ok (_, d) => d
  | Err _ => IPv4Datagram.default
  end.

Definition host_datagram : IPv4Datagram.t := datagram_of (NetworkInterfaceAdapter.base host_adapter).

Definition wire (frame : EthernetFrame.t) : bytes := BufferList.concatenate (EthernetFrame.serialize frame).

(** What the adapter writes when it does not know the router yet. *)
Definition host_request : bytes :=
  match NetworkInterfaceAdapter.write (toy_start (λ _, [])) (FileDescriptor.mk 4 false false 0 0) host_adapter host_segment with
  | Ok (e, _, _) => toy_sunk e 4
  | Err _ => []
  end.

(** A datagram, in a frame to [dst]. *)
Definition datagram_packet (dst : EthernetAddress) (d : IPv4Datagram.t) : bytes :=
  match IPv4Datagram.serialize d with
  | Ok l => wire (EthernetFrame.mk (EthernetHeader.mk dst (random_host_ethernet_address (after_draws counting 12)) EthernetHeader.TYPE_IPv4) l)
  | Err _ => []
  end.

Definition host_packets : list bytes :=
  [host_request; datagram_packet (random_router_ethernet_address counting) host_datagram].

(** ** The thread *)

(** The host's pair is descriptor 5, the Internet 3. *)
Definition traffic (host internet : list bytes) (fd : Z) : list bytes :=
  if fd =? 5 then host else if fd =? 3 then internet else [].

Definition lab7_view : KernelView toy := confined_view [5; 3] good_packet 0.

Lemma lab7_confined : @KernelLaws toy toy_kernel lab7_view.
Proof. apply confined_laws. Qed.

Lemma host_packets_good : Forall (good_pieces good_packet) host_packets.
Proof. repeat (apply Forall_cons; split; [apply (pieces_good _ packet_test _ packet_test_ok); vm_compute; reflexivity|]). by apply Forall_nil. Qed.

Lemma traffic_ok : world_ok (KernelView := lab7_view) (toy_start (traffic host_packets [])).
Proof.
  split.
  - intros fd. simpl. unfold traffic. destruct (fd =? 5), (fd =? 3); vm_compute; reflexivity.
  - split; [|simpl; lia]. intros fd [->| ->%list_elem_of_singleton]%elem_of_cons; [exact host_packets_good|done].
Qed.

Lemma lab7_reads_good (e : toy) fd n b e' :
  world_ok (KernelView := lab7_view) e → fd = 5 ∨ fd = 3 → sys_read e fd n = (Returned b, e') → good_packet b.
Proof.
  intros Hw Hf Er. destruct (Z.le_gt_cases 0 n) as [Hn|Hn].
  - destruct (confined_read [5; 3] good_packet 0 e fd n Hw Hn) as (b1 & e1 & E1 & _ & _ & Hb). rewrite Er in E1. injection E1 as <- <-.
    destruct Hb as [->|Hb]; [set_solver| |done]. by apply packet_test_ok.
  - assert (b = []) as ->; [|by apply packet_test_ok]. unfold sys_read, toy_kernel in Er.
    destruct (script e fd); injection Er as <- _; [done|]. unfold ztake. by replace (Z.to_nat _) with O by lia.
Qed.

(** What has gone to the host and to the Internet. *)
Definition outputs {R} (r : result (NetworkThread.t toy * R * bool)) : option (bytes * bytes) :=
  match r with
  | Ok (s, _, _) => Some (toy_sunk (NetworkThread.world s) 5, toy_sunk (NetworkThread.world s) 3)
  | Err _ => None
  end.

Definition thread_start (host internet : list bytes) (r : Router.t) : NetworkThread.t toy :=
  NetworkThread.mk (toy_start (traffic host internet)) (FileDescriptor.mk 5 false false 0 0) (FileDescriptor.mk 3 false false 0 0) r.

(** The client's router, set up with those numbers; [0] stands for the logarithm. *)
Definition client_router : Router.t :=
  match set_up_router (λ _, 0) 6 counting true with Ok (r, _, _) => r | Err _ => Router.new end.

Definition client_thread (rounds : nat) (host internet : list bytes) :=
  NetworkThread.run 6 true 0 1 (RawAddress.mk 0 []) (λ _, false) rounds (thread_start host internet client_router).

Definition lastn_bytes (n : nat) (l : bytes) : bytes := drop (length l - n) l.

(** The router answers the host, and asks on the Internet for 10.0.0.172. *)
Lemma network_thread_runs_witness :
  ∃ s rules ended, client_thread 3 host_packets [] = Ok (s, rules, ended) ∧
    Router.router_table (NetworkThread.router s) = Router.router_table client_router ∧
    option_map (λ p, (firstn 6 p.1, lastn_bytes 4 p.1, firstn 6 p.2, lastn_bytes 4 p.2)) (outputs (client_thread 3 host_packets [])) =
      Some (random_host_ethernet_address (after_draws counting 12), [Byte.xc0; Byte.xa8; Byte.x00; Byte.x32],
            ETHERNET_BROADCAST, [Byte.x0a; Byte.x00; Byte.x00; Byte.xac]).
Proof.
  destruct (network_thread_runs (H2 := lab7_view) (H3 := lab7_confined) (DatagramLaws0 := confined_datagrams [5; 3] good_packet 0)
    (λ _, 0) 6 counting true true (RawAddress.mk 0 []) (λ _, false)
    (toy_start (traffic host_packets [])) (FileDescriptor.mk 5 false false 0 0) (FileDescriptor.mk 3 false false 0 0))
    as (r & Er & Hrun).
  - lia.
  - exact traffic_ok.
  - discriminate.
  - exact lab7_reads_good.
  - assert (Hr : r = client_router) by (unfold client_router; rewrite Er; reflexivity). subst r.
    destruct (Hrun 3%nat) as [(x & _ & [] & _)|(s & rules & ended & E & _ & HT & _)]. exists s, rules, ended. split; [exact E|]. split; [exact HT|].
    vm_compute. reflexivity.
Defined.

(** The router knows the two networks, and no others. *)
Lemma lab7_router_directs_witness :
  ∃ r, set_up_router (λ _, 0) 6 counting true = Ok (r, 0, 1) ∧
    Router.route_one_datagram 6 r host_datagram =
      match Router.age host_datagram with
      | Some d =>
          a ← Router.interface r 1;
          a ← AsyncNetworkInterface.send_datagram a d 0x0a0000ac;
          Ok (Router.with_interface r 1 a)
      | None => Ok r
      end.
Proof.
  destruct (lab7_router_directs (λ _, 0) 6 counting true) as (r & Er & _ & Hr).
  - lia.
  - exists r. split; [exact Er|]. assert (Hd : is_u32 (IPv4Header.dst (IPv4Datagram.header host_datagram))) by range_compute.
    exact (Hr r host_datagram eq_refl Hd).
Defined.

(** ** One datagram ends the thread

    A datagram of IP version 5 for the host, which the router knows by then:
    [IPv4Datagram::parse] takes it, and [serialize] throws, so that the network
    thread ends. *)
Definition version_5_packet : bytes :=
  let packet := datagram_packet (random_router_ethernet_address (after_draws counting 6))
    (datagram_of (FdAdapterBase.mk (FdAdapterConfig.mk (Address.mk 0xac100064 1234) (Address.mk 0xc0a80032 4321) 0 0) false)) in
  take 14 packet ++ Byte.x55 :: drop 15 packet.

Lemma version_5_ends_thread :
  client_thread 1 [host_request] [version_5_packet] = Err (runtime_error "wrong IP version").
Proof. vm_compute. reflexivity. Qed.
