(* ===== verification/Lab7Program.v ===== *)
(** * The program lab7: program_body and main of apps/lab7.cc

    Three threads: the network thread carries frames between the socket's adapter,
    the router and the Internet; beside it the socket's own thread runs its
    connection; and beside both the owner copies between the terminal and the
    socket. The world of the latter two is the kernel with the network thread
    inside. *)

From S2P Require Import Prelude Buffers Parsing Wrapping Stream Reassembly ReassemblySpec Segment Receiver Sender SenderSpec.
From S2P Require Import Connection ConnectionSpec EndToEnd Ipv4 Link Printing Netif NetifSpec Router RouterSpec.
From S2P Require Import Addresses Adapters AdaptersSpec Robustness Outgoing Usage Descriptors Events Sockets Resolve Pipes StreamCopy.
From S2P Require Import SpongeSocket SpongeSocketSpec Threads SocketThread TcpPrograms Lab7 Lab7Spec.

(** ** The network thread, round by round *)

Module RouterThread.

(** Before a round, with the rules that are left, or over: because the loop has
    ended or with the exception that was caught. *)
Inductive stage (E : Type) :=
  | Running (rules : list (EventLoop.Rule (NetworkThread.t E)))
  | Over (caught : option exn).
Arguments Running {E}.
Arguments Over {E}.

Record t (E : Type) := mk {
  net : NetworkThread.t E;
  at_stage : stage E;
  exit_flag : bool;
}.
Arguments mk {E}.
Arguments net {E}.
Arguments at_stage {E}.
Arguments exit_flag {E}.

Definition world {E} (x : t E) : E := NetworkThread.world (net x).

Definition set_world {E} (x : t E) (e : E) : t E :=
  mk (NetworkThread.with_frame_fd (net x) e (NetworkThread.frame_fd (net x))) (at_stage x) (exit_flag x).

(** [exit_flag = true] in the owner's thread. *)
Definition set_exit {E} (x : t E) : t E := mk (net x) (at_stage x) true.

Definition over {E} (x : t E) : bool := match at_stage x with Over _ => true | Running _ => false end.

Section thread.
Context `{Kernel E} `{!SocketCalls E}.
Context (host_side internet_side : Z).

(** An exception is caught and ends the thread; the state is then the one before
    the round that threw it. *)
Definition step (x : t E) : result (t E) :=
  match at_stage x with
  | Over _ => Ok x
  | Running rules =>
      match NetworkThread.round host_side internet_side (λ _, exit_flag x) (net x) rules with
      | Ok (s, rules, ended) => Ok (mk s (if ended : bool then Over None else Running rules) (exit_flag x))
      | Err caught => Ok (mk (net x) (Over (Some caught)) (exit_flag x))
      end
  end.

Definition router_thread : Thread E (t E) := {|
  thread_world := world;
  with_world := set_world;
  thread_step := step;
  thread_over := over;
|}.

(** The thread of line 194, with the rules it adds first. *)
Definition start (fuel : nat) (debug : bool) (bounce_address : RawAddress.t) (s : NetworkThread.t E) : t E :=
  mk s (Running (NetworkThread.rules fuel debug host_side internet_side bounce_address
    (FileDescriptor.fd_num (NetworkThread.frame_fd s)) (FileDescriptor.fd_num (NetworkThread.internet_socket s)))) false.

End thread.

End RouterThread.

(** ** The program *)

(** A socket in another world. *)
Definition moved {E E' A} (s : TCPSpongeSocket.t E A) (e : E') : TCPSpongeSocket.t E' A :=
  TCPSpongeSocket.mk e (TCPSpongeSocket.owner s) (TCPSpongeSocket.thread_data s) (TCPSpongeSocket.datagram_fd s)
    (TCPSpongeSocket.datagram_adapter s) (TCPSpongeSocket.tcp s) (TCPSpongeSocket.inbound_shutdown s)
    (TCPSpongeSocket.outbound_shutdown s) (TCPSpongeSocket.fully_acked s).

Module Lab7Program.

Section program.
Context `{StreamReassembler.EndKey} `{Kernel E} `{!SocketCalls E} `{Resolver}.

(** The world of the owner: the kernel, with the network thread in it. *)
Local Abbreviation world := (beside (RouterThread.t E)).

Definition network_owns (s : NetworkThread.t E) : Z → bool :=
  thread_owns (FileDescriptor.fd_num (NetworkThread.frame_fd s)) (FileDescriptor.fd_num (NetworkThread.internet_socket s)).

Definition network_kernel (st : started) : Kernel world :=
  beside_kernel (H0 := RouterThread.router_thread (host_side st) (internet_side st)) (network_owns (thread st)).

(** How the owner fared: an exception was caught, or this is how far it came, and
    what the network thread is at the end. After an exception the network thread is
    told to end as well. An exception in the thread of the socket is caught by
    nobody. *)
Inductive outcome :=
  | Caught (x : exn)
  | Went (s : TCPSpongeSocket.t world NetworkInterfaceAdapter.t) (ph : phase) (network : RouterThread.t E).

Section body.
Context (ln : Z → Z) (fuel : nat) (abort : world → bool) (random : nat → Z) (port_random isn_random : Z).
Context (fuel_open fuel_copy fuel_close fuel_exit : nat) (network_schedule schedule : list nat).

(** The socket when the network thread has started. *)
Definition in_network (st : started) (debug : bool) : TCPSocketLab7.t world :=
  let w := start_beside (RouterThread.start (host_side st) (internet_side st) fuel debug (bounce_address st) (thread st)) network_schedule in
  TCPSocketLab7.mk (moved (TCPSocketLab7.sock (socket st)) w) (TCPSocketLab7.local_address (socket st)) (TCPSocketLab7.frame_fd (socket st)).

(** The owner's [try] block. *)
Definition owner_body (st : started) (is_client debug : bool) : result (TCPSpongeSocket.t world NetworkInterfaceAdapter.t * phase) :=
  let kernel := network_kernel st in
  let s := in_network st debug in
  '(s', rules, opened) ← open (H0 := kernel) abort fuel_open is_client s port_random isn_random;
  talk (H0 := kernel) (Adapt0 := adapt_lab7 (H := kernel)) abort fuel_copy fuel_close schedule
    (TCPSpongeSocket.owner (TCPSocketLab7.sock s)) (TCPSocketLab7.sock s') rules opened.

(** After the [try] block: when the owner is done, the network thread is told to
    end, and joined. *)
Definition leave (st : started (E := E)) (s : TCPSpongeSocket.t world NetworkInterfaceAdapter.t) (ph : phase) : result outcome :=
  let network := other (TCPSpongeSocket.world s) in
  match ph with
  | Closed =>
      network ← thread_join (H := RouterThread.router_thread (host_side st) (internet_side st)) fuel_exit (RouterThread.set_exit network);
      Ok (Went s ph network)
  | _ => Ok (Went s ph network)
  end.

Definition program_body (e : E) (is_client : bool) (bounce_host bounce_port : string) (debug : bool) : result outcome :=
  st ← Lab7.start ln fuel e random is_client bounce_host bounce_port;
  match owner_body st is_client debug with
  | Err terminate_called => Err terminate_called
  | Err x => Ok (Caught x)
  | Ok (s, ph) => leave st s ph
  end.

(** The usage, or what the program does. Without even the name of the program, the
    process aborts before this. *)
Definition main (e : E) (argv0 : string) (args : list string) : result (string + outcome) :=
  match parse_arguments (argv0 :: args) with
  | None => Ok (inl (lab7_print_usage argv0))
  | Some (is_client, bounce_host, bounce_port, debug) =>
      r ← program_body e is_client bounce_host bounce_port debug; Ok (inr r)
  end.

(** The status of the process, when it has ended and [std::terminate] has not ended
    it. An exception of the owner's has been reported by then, and the status is a
    success. *)
Definition status (r : result (string + outcome)) : option Z :=
  match r with
  | Err terminate_called => None
  | Err _ | Ok (inl _) => Some EXIT_FAILURE
  | Ok (inr (Caught _)) => Some EXIT_SUCCESS
  | Ok (inr (Went _ _ network)) => if RouterThread.exit_flag network && RouterThread.over network then Some EXIT_SUCCESS else None
  end.

End body.
End program.

End Lab7Program.

(** ** The promises of the network thread *)

Section promises.
Context `{KernelLaws E} `{!SocketCalls E} `{!DatagramLaws E}.
Context (fuel : nat) (debug : bool) (bounce_address : RawAddress.t).
Context (ff fi : Z) (Hfds : ff ≠ fi).
Context (rs : list route_entry) (T : Router.table) (Ht : tinv T) (Hrep : represents rs T) (Hok : forallb route_ok rs = true).
Context (Hfuel : (length T + 2 <= fuel)%nat) (Hif : Forall (λ r, 0 <= rt_iface r < 2) rs).
Context (Hgood : ∀ (e : E) fd n b e', world_ok e → fd = ff ∨ fd = fi → sys_read e fd n = (Returned b, e') → good_packet b).

Definition router_thread_ok (x : RouterThread.t E) : Prop :=
  match RouterThread.at_stage x with
  | RouterThread.Running rules =>
      Lab7Spec.thread_ok ff fi (RouterThread.world x) T (RouterThread.net x) ∧
      sublist rules (NetworkThread.rules fuel debug 0 1 bounce_address ff fi)
  | RouterThread.Over caught =>
      match caught with None => True | Some x => fault (E := E) x end ∧ world_ok (RouterThread.world x)
  end.

Lemma router_step_ok x :
  router_thread_ok x → ∃ x', RouterThread.step 0 1 x = Ok x' ∧ router_thread_ok x' ∧
    only_on (thread_owns ff fi) (RouterThread.world x) (RouterThread.world x').
Proof.
  destruct x as [s [rules|caught] flag]; [|by intros Hx; eexists]. intros [Hs Hsub]. unfold RouterThread.step. cbn [RouterThread.at_stage RouterThread.exit_flag RouterThread.net].
  destruct (round_ok fuel (λ _, flag) ff fi _ T Hfuel s rules Hs) as [(x & -> & Hx)|(s' & rules' & ended & -> & Hs' & _ & Hsub')].
  { eapply guarded_sublist; [exact Hsub|]. by eapply thread_rules_guarded. }
  { eexists. split; [done|]. split; [|done]. split; [exact Hx|apply Hs]. }
  eexists. split; [done|]. split; [|apply untouched_only_on, (tk_others _ _ _ _ _ Hs')].
  destruct Hs'. destruct ended; [done|]. split; [|by etransitivity]. split; try done; apply untouched_refl.
Qed.

Program Definition router_thread_laws : ThreadLaws (H0 := RouterThread.router_thread 0 1) E (RouterThread.t E) (thread_owns ff fi) :=
  {| Threads.thread_ok := router_thread_ok |}.
Next Obligation. intros [s [rules|caught] flag]; [intros [[] _]; done|by intros [_ Hw]]. Qed.
Next Obligation. intros x Hx. right. by apply router_step_ok. Qed.
Next Obligation.
  intros [s [rules|caught] flag] e Hx Hw _; (split; [|done]); [|by split; [apply Hx|]].
  destruct Hx as [[] Hsub]. split; [|done]. by split.
Qed.

End promises.

(** ** The world with a thread in it *)

Section within.
Context `{KernelLaws E} `{!Thread E T} (owns : Z → bool) `{!ThreadLaws E T owns}.
Implicit Types (w : beside T).

Local Abbreviation view := (beside_view owns).

(** A pair of the others' is a pair there too. *)
Lemma joined_beside w a b :
  owns a = false → owns b = false → joined (thread_world (other w)) a b → joined (H1 := view) w a b.
Proof.
  intros Ha Hb [Hab Hba Hun]. split; simpl; rewrite Ha, Hb; [| |done];
    intros w' [Hw' _]; apply law_thread_world in Hw'; auto.
Qed.

Lemma passed_beside d w w' th typed sent shown :
  Forall (λ k, owns k = false) [StreamCopy.STDIN_FILENO; StreamCopy.STDOUT_FILENO; th] →
  passed (H1 := view) d w w' th typed sent shown →
  passed d (thread_world (other w)) (thread_world (other w')) th typed sent shown.
Proof.
  rewrite !Forall_cons. intros (H0' & H1' & Hth & _) [Ht Hs Ho Hsh Hp [Hw _]]. simpl in Ht, Hs, Hsh. rewrite H0' in Ht. rewrite H1' in Hsh. rewrite Hth in Hs.
  split; try done. by apply law_thread_world.
Qed.

Lemma passed_later d (e0 e e' : E) th typed sent shown :
  Forall (λ k, owns k = false) [StreamCopy.STDIN_FILENO; StreamCopy.STDOUT_FILENO; th] → world_ok e' → only_on owns e e' →
  passed d e0 e th typed sent shown → passed d e0 e' th typed sent shown.
Proof.
  rewrite !Forall_cons. intros (H0' & H1' & Hth & _) Hw Hon [Ht Hs Ho Hsh Hp _].
  split; [by rewrite (proj1 (Hon _ H0'))|by rewrite (proj1 (Hon _ Hth))|done|by rewrite (proj2 (Hon _ H1'))|done|done].
Qed.

End within.

(** ** What the frames carry *)

(** The segment in a datagram, whoever reads it. *)
Definition carried_in (dgram : IPv4Datagram.t) : option TCPSegment.t :=
  match BufferList.to_buffer (IPv4Datagram.payload dgram) with
  | Ok q =>
      match TCPSegment.parse TCPSegment.default q (IPv4Header.pseudo_cksum (IPv4Datagram.header dgram)) with
      | Ok (seg, NoError) => Some seg
      | _ => None
      end
  | Err _ => None
  end.

Lemma unwrap_carried a dgram a' seg :
  TCPOverIPv4Adapter.unwrap_tcp_in_ip a dgram = Ok (a', Some seg) → carried_in dgram = Some seg.
Proof.
  unfold TCPOverIPv4Adapter.unwrap_tcp_in_ip, carried_in. intros Hr.
  do 3 (destruct (_ && _) || destruct (negb _); [by simplify_eq|]).
  apply result_bind_Ok in Hr as (q & -> & Hr). apply result_bind_Ok in Hr as ([s err] & -> & Hr).
  case_bool_decide as Eerr; cbn [negb] in Hr; [subst err|by simplify_eq].
  destruct (negb _); [by simplify_eq|]. injection Hr as Hr. unfold TCPOverIPv4Adapter.accept in Hr.
  destruct (FdAdapterBase.listening a); [destruct (_ && _)|]; try destruct (negb _); by simplify_eq.
Qed.

Section frames.
Context (isn0 : WrappingInt32.t) (d : bytes) (ended : bool).

(** If the frame carries a segment, it is one of the peer's: from a place in its
    stream [d]. *)
Definition honest_frame (packet : bytes) : Prop :=
  ∀ frame q dgram seg, EthernetFrame.parse EthernetFrame.default (Buffer.of_string packet) = Ok (frame, NoError) →
    BufferList.to_buffer (EthernetFrame.payload frame) = Ok q → IPv4Datagram.parse IPv4Datagram.default q = Ok (dgram, NoError) →
    carried_in dgram = Some seg → ∃ n, n <= blen d + 2 ∧ seg_at isn0 d ended n seg.

(** All the frames that come from [fd] are. *)
Definition honest_frames `{Kernel E, KernelView E} (fd : Z) : Prop :=
  ∀ (e : E) n packet e', world_ok e → sys_read e fd n = (Returned packet, e') → honest_frame packet.

Lemma honest_frames_network `{KernelLaws E} fd :
  honest_frames (E := E) fd → honest_network (E := E) (A := NetworkInterfaceAdapter.t) isn0 d ended fd.
Proof.
  intros Hh e f a e' f' a' seg Hw Hf Hr. unfold adapt_read, adapt_lab7, NetworkInterfaceAdapter.read in Hr.
  apply result_bind_Ok in Hr as ([[e1 f1] packet] & Er & Hr). apply result_bind_Ok in Hr as ([frame err] & Ef & Hr).
  case_bool_decide as Eerr; cbn [negb] in Hr; [subst err|done].
  apply result_bind_Ok in Hr as ([i dgram] & Ei & Hr). apply result_bind_Ok in Hr as ([[e2 f2] a2] & _ & Hr).
  destruct dgram as [dgram|]; [|done]. apply result_bind_Ok in Hr as ([b seg1] & Eu & Hr). injection Hr as _ _ _ ->.
  apply unwrap_carried in Eu. destruct (device_read e f Hw) as [Hft|(e3 & f3 & b3 & Er3 & Hb & _)]; [no_fault Hft Er|]. rewrite Er in Er3. injection Er3 as <- <- <-.
  destruct (frame_parse_total EthernetFrame.default (Buffer.of_string packet) (buffer_of_string_ok _ Hb)) as (frame1 & err1 & q & Ef1 & Hq & _).
  rewrite Ef in Ef1. injection Ef1 as <- <-. destruct (recv_frame_datagram _ _ _ _ _ Hq Ei) as [_ Hp].
  unfold FileDescriptor.read, call in Er. rewrite Hf in Er. destruct (sys_read e fd _) as [[x|no] e4] eqn:Es; [|done].
  cbn [SystemCall mbind result_bind] in Er. destruct (_ <? _) in Er; [done|]. injection Er as <- _ <-.
  eapply (Hh e _ x e4 Hw Es); [exact Ef|by rewrite Hq|exact Hp|exact Eu].
Qed.

Lemma honest_frames_beside `{KernelLaws E} `{!Thread E T} (owns : Z → bool) `{!ThreadLaws E T owns} fd :
  owns fd = false → honest_frames (E := E) fd → honest_frames (E := beside T) (H := beside_kernel owns) (H0 := beside_view owns) fd.
Proof.
  intros Hfd Hh w n packet w' Hw Hr. simpl in Hr. unfold on_own in Hr. rewrite Hfd in Hr. unfold after_turn in Hr.
  destruct (take_turn_spec owns w Hw) as ([Hs _] & _). destruct (terminated (take_turn w)); [done|]. destruct (sys_read _ fd n) as [answer e] eqn:Es.
  injection Hr as -> _. eapply Hh; [|exact Es]. by apply law_thread_world.
Qed.

End frames.

(** ** Starting *)

Section starting.
Context `{ResolverLaws}.

Lemma address_spec str n port : read_host str = Some n → is_u16 port → address str port = Ok (Address.mk n port).
Proof.
  intros Hr Hp. unfold address. rewrite (of_ip_spec str n port Hr Hp), raw_of_spec. cbn [mbind result_bind].
  apply address_of_raw; [by eapply read_host_range|done|apply raw_of_spec].
Qed.

(** The host's number on either side, and what both call the peer. *)
Definition host_number (is_client : bool) : Z := if is_client then 0xc0a80032 else 0xac100064.

Lemma default_config_ok : config_ok TCPConfig.default.
Proof. by split. Qed.

(** What there is when the threads start, if nothing was thrown. *)
Record lab7_prepared `{Kernel E} (random : nat → Z) (is_client : bool) (st : started (E := E)) (T : Router.table) : Prop := mk_lab7_prepared {
  pp_router : NetworkThread.router (thread st) = Router.mk (lab7_interfaces random is_client) T;
  pp_sides : host_side st = 0 ∧ internet_side st = 1;
  pp_table : tinv T ∧ represents (lab7_routes is_client) T ∧ (length T <= 3)%nat;
  pp_world : NetworkThread.world (thread st) = TCPSpongeSocket.world (TCPSocketLab7.sock (socket st));
  pp_tcp : TCPSpongeSocket.tcp (TCPSocketLab7.sock (socket st)) = None;
  pp_adapter : lab7_ok (TCPSpongeSocket.datagram_adapter (TCPSocketLab7.sock (socket st)));
  pp_local : TCPSocketLab7.local_address (socket st) = Address.mk (host_number is_client) 0;
}.

Lemma start_prepared `{Kernel E} `{!SocketCalls E} ln fuel (e : E) random is_client bounce_host bounce_port st :
  (6 <= fuel)%nat → Lab7.start ln fuel e random is_client bounce_host bounce_port = Ok st → ∃ T, lab7_prepared random is_client st T.
Proof.
  intros Hf Hst. unfold Lab7.start in Hst. apply result_bind_Ok in Hst as ([e1 internet] & _ & Hst).
  apply result_bind_Ok in Hst as (bounce & _ & Hst). apply result_bind_Ok in Hst as ([e2 internet2] & _ & Hst).
  destruct (set_up_router_spec ln fuel random is_client Hf) as (T & Eset & Ht & Hrep & Hlen). rewrite Eset in Hst. cbn [mbind result_bind] in Hst.
  assert (Ea : address (if is_client then "192.168.0.50" else "172.16.0.100") 0 = Ok (Address.mk (host_number is_client) 0)).
  { apply address_spec; [by destruct is_client|by unfold_w]. }
  rewrite Ea in Hst. cbn [mbind result_bind] in Hst.
  apply result_bind_Ok in Hst as (next_hop & _ & Hst). apply result_bind_Ok in Hst as (s & Enew & Hst). injection Hst as <-.
  unfold TCPSocketLab7.new in Enew. apply result_bind_Ok in Enew as ([e3 pair] & _ & Enew). apply result_bind_Ok in Enew as (k & Ek & Enew).
  injection Enew as <-. unfold TCPSpongeSocket.new, TCPSpongeSocket.of_pair in Ek.
  apply result_bind_Ok in Ek as ([e4 pair2] & _ & Ek). apply result_bind_Ok in Ek as ([e5 ow] & _ & Ek).
  apply result_bind_Ok in Ek as ([e6 th] & _ & Ek). apply result_bind_Ok in Ek as (e7 & _ & Ek). injection Ek as <-.
  exists T. by split.
Qed.

End starting.

(** ** Opening *)

Section opening.
Context `{EndKeyFresh} `{ResolverLaws} `{KernelLaws E}.
Context (abort : E → bool) (isn0 : WrappingInt32.t) (d : bytes) (ended : bool).
Context (Hisn : WrappingInt32.ok isn0) (Hd : blen d < 0x7ffffff0).

Lemma open_spec fuel_open is_client (s : TCPSocketLab7.t E) port_random isn_random :
  let k := TCPSocketLab7.sock s in
  let dg := FileDescriptor.fd_num (TCPSpongeSocket.datagram_fd k) in
  let th := FileDescriptor.fd_num (TCPSpongeSocket.thread_data k) in
  TCPSocketLab7.local_address s = Address.mk (host_number is_client) 0 →
  honest_network (E := E) (A := NetworkInterfaceAdapter.t) isn0 d ended dg → fresh_socket k →
  faulted (E := E) (open abort fuel_open is_client s port_random isn_random) ∨
  ∃ s' rules opened, open abort fuel_open is_client s port_random isn_random = Ok (s', rules, opened) ∧
    live isn0 d ended dg th (TCPSpongeSocket.world k) (TCPSpongeSocket.world k) (TCPSocketLab7.sock s') ∧
    sublist rules (TCPSpongeSocket.rules dg th).
Proof.
  intros k dg th Hlocal Hnet Hk.
  assert (Hcfg : ∀ listens c_ad random, endpoint_ok (FdAdapterConfig.source c_ad) → endpoint_ok (FdAdapterConfig.destination c_ad) →
    faulted (E := E) (opening abort listens fuel_open k TCPConfig.default c_ad random) ∨
    ∃ k' rules opened, opening abort listens fuel_open k TCPConfig.default c_ad random = Ok (k', rules, opened) ∧
      live isn0 d ended dg th (TCPSpongeSocket.world k) (TCPSpongeSocket.world k) k' ∧ sublist rules (TCPSpongeSocket.rules dg th)).
  { intros listens c_ad random Hsrc Hdst.
    destruct (opened_live abort isn0 d ended Hisn Hd listens fuel_open k _ c_ad random Hnet Hk default_config_ok Hsrc Hdst)
      as [?|(k' & rules & opened & E1 & Hl & _ & Hsub)]; [by left|right]. by exists k', rules, opened. }
  assert (Hpeer : endpoint_ok (Address.mk 0xac100064 1234)) by (split; range_compute).
  unfold open. rewrite (address_spec "172.16.0.100" 0xac100064 1234 eq_refl ltac:(range_compute)). cbn [mbind result_bind].
  destruct is_client.
  - unfold TCPSocketLab7.connect. rewrite Hlocal. fold k. cbn [host_number Address.ipv4_numeric]. set (c_ad := FdAdapterConfig.mk _ _ _ _).
    destruct (Hcfg false c_ad isn_random) as [Hft|(k' & rules & opened & E1 & Hl & Hsub)].
    { split; [range_compute|]. apply w16_range. }
    { exact Hpeer. }
    { unfold opening in Hft. by_fault Hft. }
    unfold opening in E1. rewrite E1. cbn [mbind result_bind]. right. by eexists _, rules, opened.
  - unfold TCPSocketLab7.bind. rewrite Hlocal. cbn [host_number Address.ipv4_numeric Address.port]. rewrite Z.eqb_refl. cbn [negb mbind result_bind].
    unfold TCPSocketLab7.listen_and_accept. cbn [TCPSocketLab7.sock TCPSocketLab7.local_address]. fold k. set (c_ad := FdAdapterConfig.mk _ _ _ _).
    destruct (Hcfg true c_ad isn_random) as [Hft|(k' & rules & opened & E1 & Hl & Hsub)];
      [exact Hpeer|split; range_compute|unfold opening in Hft; by_fault Hft|].
    unfold opening in E1. rewrite E1. cbn [mbind result_bind]. right. by eexists _, rules, opened.
Qed.

End opening.

(** ** The whole program *)

Section whole.
Context `{EndKeyFresh} `{ResolverLaws} `{KernelLaws E} `{!SocketCalls E} `{!DatagramLaws E}.
Context (isn0 : WrappingInt32.t) (d : bytes) (ended : bool).
Context (Hisn : WrappingInt32.ok isn0) (Hd : blen d < 0x7ffffff0).

(** The descriptors of the terminal, of the socket and of the network thread. *)
Definition descriptors (st : started (E := E)) : list Z :=
  let s := TCPSocketLab7.sock (socket st) in
  [StreamCopy.STDIN_FILENO; StreamCopy.STDOUT_FILENO; FileDescriptor.fd_num (TCPSpongeSocket.owner s);
   FileDescriptor.fd_num (TCPSpongeSocket.datagram_fd s); FileDescriptor.fd_num (TCPSpongeSocket.thread_data s);
   FileDescriptor.fd_num (NetworkThread.frame_fd (thread st)); FileDescriptor.fd_num (NetworkThread.internet_socket (thread st))].

(** What the kernel and the network give: the descriptors are different, the
    owner's two ends are joined, the frames for the router can be sent on, and
    those for the host are the peer's. *)
Record kernel_gives (st : started (E := E)) : Prop := mk_kernel_gives {
  kg_world : world_ok (TCPSpongeSocket.world (TCPSocketLab7.sock (socket st)));
  kg_apart : NoDup (descriptors st);
  kg_pair : joined (TCPSpongeSocket.world (TCPSocketLab7.sock (socket st)))
    (FileDescriptor.fd_num (TCPSpongeSocket.owner (TCPSocketLab7.sock (socket st))))
    (FileDescriptor.fd_num (TCPSpongeSocket.thread_data (TCPSocketLab7.sock (socket st))));
  kg_frames : ∀ (e : E) fd n b e', world_ok e →
    fd = FileDescriptor.fd_num (NetworkThread.frame_fd (thread st)) ∨ fd = FileDescriptor.fd_num (NetworkThread.internet_socket (thread st)) →
    sys_read e fd n = (Returned b, e') → good_packet b;
  kg_peer : honest_frames isn0 d ended (E := E) (FileDescriptor.fd_num (TCPSpongeSocket.datagram_fd (TCPSocketLab7.sock (socket st))));
}.

Section body.
Context (fuel : nat) (random : nat → Z) (is_client debug : bool) (st : started (E := E)) (T : Router.table).
Context (Hfuel : (6 <= fuel)%nat) (Hst : lab7_prepared random is_client st T) (Hk : kernel_gives st).

Local Abbreviation sock := (TCPSocketLab7.sock (socket st)).
Local Abbreviation e0 := (TCPSpongeSocket.world sock).
Local Abbreviation ow := (FileDescriptor.fd_num (TCPSpongeSocket.owner sock)).
Local Abbreviation dg := (FileDescriptor.fd_num (TCPSpongeSocket.datagram_fd sock)).
Local Abbreviation th := (FileDescriptor.fd_num (TCPSpongeSocket.thread_data sock)).
Local Abbreviation ff := (FileDescriptor.fd_num (NetworkThread.frame_fd (thread st))).
Local Abbreviation fi := (FileDescriptor.fd_num (NetworkThread.internet_socket (thread st))).

Lemma network_apart :
  ff ≠ fi ∧ Forall (λ k, thread_owns ff fi k = false) [StreamCopy.STDIN_FILENO; StreamCopy.STDOUT_FILENO; th] ∧
  thread_owns ff fi ow = false ∧ thread_owns ff fi dg = false ∧
  NoDup [StreamCopy.STDIN_FILENO; StreamCopy.STDOUT_FILENO; ow; dg; th].
Proof.
  pose proof (kg_apart st Hk) as Hnd. unfold descriptors in Hnd. cbv zeta in Hnd.
  change (NoDup ([StreamCopy.STDIN_FILENO; StreamCopy.STDOUT_FILENO; ow; dg; th] ++ [ff; fi])) in Hnd.
  apply NoDup_app in Hnd as (Hnd & Hout & Hff). apply NoDup_cons in Hff as [Hff _].
  assert (Ho : ∀ k, k ∈ [StreamCopy.STDIN_FILENO; StreamCopy.STDOUT_FILENO; ow; dg; th] → thread_owns ff fi k = false).
  { intros k Hk'. apply thread_owns_false. specialize (Hout k Hk'). set_solver. }
  split; [set_solver|]. split; [|split; [apply Ho; set_solver|split; [apply Ho; set_solver|done]]].
  repeat constructor; apply Ho; set_solver.
Qed.

Lemma routes_ok : forallb route_ok (lab7_routes is_client) = true ∧ Forall (λ r, 0 <= rt_iface r < 2) (lab7_routes is_client).
Proof. destruct is_client; (split; [done|]); repeat constructor; simpl; lia. Qed.

Lemma table_fuel : (length T + 2 <= fuel)%nat.
Proof. destruct (pp_table _ _ _ _ Hst) as (_ & _ & Hl). lia. Qed.

Definition network_laws : ThreadLaws (H0 := RouterThread.router_thread 0 1) E (RouterThread.t E) (thread_owns ff fi) :=
  router_thread_laws fuel debug (bounce_address st) ff fi (proj1 network_apart) (lab7_routes is_client) T
    (proj1 (pp_table _ _ _ _ Hst)) (proj1 (proj2 (pp_table _ _ _ _ Hst))) (proj1 routes_ok) table_fuel (proj2 routes_ok) (kg_frames st Hk).

Local Abbreviation view := (beside_view _ (ThreadLaws0 := network_laws)).
Local Abbreviation start := (RouterThread.start 0 1 fuel debug (bounce_address st) (thread st)).

Lemma network_started : router_thread_ok fuel debug (bounce_address st) ff fi T start.
Proof.
  split; [|done]. split; try done.
  - unfold RouterThread.world. simpl. rewrite (pp_world _ _ _ _ Hst). apply (kg_world st Hk).
  - simpl. rewrite (pp_router _ _ _ _ Hst). split; [done|]. split; [by destruct is_client|]. apply lab7_interfaces_safe.
Qed.

Lemma start_world : RouterThread.world start = e0.
Proof. unfold RouterThread.world. simpl. apply (pp_world _ _ _ _ Hst). Qed.

(** The owner and the thread of the socket, in the world with the network thread. *)
Lemma owner_goes_well abort port_random isn_random fuel_open fuel_copy fuel_close network_schedule schedule :
  goes_well (H1 := view) d (moved sock (start_beside start network_schedule))
    (Lab7Program.owner_body fuel abort port_random isn_random fuel_open fuel_copy fuel_close network_schedule schedule st is_client debug).
Proof.
  destruct network_apart as (_ & Hall & How & Hdg & Hnd). rewrite !Forall_cons in Hall. destruct Hall as (_ & _ & Hth & _).
  unfold Lab7Program.owner_body, Lab7Program.in_network, Lab7Program.network_kernel, Lab7Program.network_owns. destruct (pp_sides _ _ _ _ Hst) as [-> ->].
  pose proof (beside_laws _ (ThreadLaws0 := network_laws)) as Hlaws.
  assert (Hnet : honest_network (H1 := view) (A := NetworkInterfaceAdapter.t) (Adapt0 := adapt_lab7 (H := beside_kernel (H0 := RouterThread.router_thread 0 1) (thread_owns ff fi))) isn0 d ended dg).
  { apply (honest_frames_network isn0 d ended (H1 := Hlaws)). exact (honest_frames_beside isn0 d ended _ (ThreadLaws0 := network_laws) dg Hdg (kg_peer st Hk)). }
  set (s0 := moved sock _).
  assert (Hfresh : fresh_socket (AdaptLaws0 := lab7_laws (H1 := Hlaws)) s0).
  { split; [split; [exact network_started|done]| |apply (pp_adapter _ _ _ _ Hst)|apply (pp_tcp _ _ _ _ Hst)].
    simpl. intros E1. rewrite !NoDup_cons in Hnd. set_solver. }
  destruct (open_spec (H4 := Hlaws) abort isn0 d ended Hisn Hd fuel_open is_client
    (TCPSocketLab7.mk s0 (TCPSocketLab7.local_address (socket st)) (TCPSocketLab7.frame_fd (socket st))) port_random isn_random
    (pp_local _ _ _ _ Hst) Hnet Hfresh) as [Hft|(s1 & rules & opened & -> & Hl & Hsub)]; [unfold goes_well; by_fault Hft|]. cbn [mbind result_bind].
  apply (talk_spec (H2 := Hlaws) abort isn0 d ended Hisn Hd s0 Hnet Hfresh Hnd); [|exact Hl|exact Hsub].
  apply joined_beside; [done..|]. change (joined (RouterThread.world start) ow th). rewrite start_world. apply (kg_pair st Hk).
Qed.

Lemma step_keeps_flag (x x' : RouterThread.t E) : RouterThread.step 0 1 x = Ok x' → RouterThread.exit_flag x' = RouterThread.exit_flag x.
Proof.
  unfold RouterThread.step. destruct (RouterThread.at_stage x); [|by intros [= <-]].
  destruct (NetworkThread.round _ _ _ _ _) as [[[? ?] ?]|]; by intros [= <-].
Qed.

Local Abbreviation join := (thread_join (H := RouterThread.router_thread 0 1)).

Lemma join_keeps_flag n (x x' : RouterThread.t E) : join n x = Ok x' → RouterThread.exit_flag x' = RouterThread.exit_flag x.
Proof.
  revert x. induction n as [|n IH]; intros x Hj; cbn [thread_join] in Hj; destruct (thread_over x); try by injection Hj as <-.
  apply result_bind_Ok in Hj as (x1 & E1 & Hj). rewrite (IH x1 Hj). by apply step_keeps_flag.
Qed.

(** The network thread throws nothing that it does not catch. *)
Lemma join_returns n (x : RouterThread.t E) y : join n x ≠ Err y.
Proof.
  revert x. induction n as [|n IH]; intros x Hj; cbn [thread_join] in Hj; destruct (thread_over x); try done.
  unfold thread_step, RouterThread.router_thread, RouterThread.step in Hj.
  destruct (RouterThread.at_stage x); [|by eapply IH].
  destruct (NetworkThread.round _ _ _ _ _) as [[[? ?] ?]|]; by eapply IH.
Qed.

(** The end of the program. *)
Lemma leave_spec fuel_exit s ph typed sent shown :
  router_thread_ok fuel debug (bounce_address st) ff fi T (other (TCPSpongeSocket.world s)) →
  passed d e0 (RouterThread.world (other (TCPSpongeSocket.world s))) th typed sent shown →
  ∃ network, Lab7Program.leave fuel_exit st s ph = Ok (Lab7Program.Went s ph network) ∧
    router_thread_ok fuel debug (bounce_address st) ff fi T network ∧ passed d e0 (RouterThread.world network) th typed sent shown ∧
    (ph = Closed → RouterThread.exit_flag network = true).
Proof.
  intros Hr Hp. unfold Lab7Program.leave. destruct ph; try by eexists. destruct (pp_sides _ _ _ _ Hst) as [-> ->].
  destruct (thread_join_spec _ (ThreadLaws0 := network_laws) fuel_exit (RouterThread.set_exit (other (TCPSpongeSocket.world s))))
    as [(x & Hj & _)|(network & Ej & Hn & Hon)]; [exact Hr|by destruct (join_returns _ _ _ Hj)|].
  rewrite Ej. eexists. split; [done|]. split; [exact Hn|]. split; [|intros _; by apply join_keeps_flag in Ej].
  eapply passed_later; [apply (proj1 (proj2 network_apart))|exact (law_thread_world _ Hn)|exact Hon|exact Hp].
Qed.

End body.

(** C2. lab7, from its threads' start to its end. Whatever the schedule of the
    three threads, and whatever frames the network loses, duplicates, delays or
    reorders, if the kernel keeps its laws, what comes for the router can be sent
    on, and the segments for the host are the peer's, then the only exceptions in
    the owner's thread, the socket's and the network thread are those of system
    calls that failed: the owner's is caught and ends the program, that of the
    socket's thread terminates the process, and that of the network thread ends
    this thread. As long as neither of the former has thrown, what is printed is a
    prefix of the peer's stream, what the connection has been given is a prefix of
    what was typed and is what its stream holds; and when the owner is done, the
    connection is gone and the network thread has been told to end. *)
Theorem lab7_faithful ln fuel abort random port_random isn_random fuel_open fuel_copy fuel_close fuel_exit network_schedule schedule
    (e : E) is_client bounce_host bounce_port debug st :
  (6 <= fuel)%nat → Lab7.start ln fuel e random is_client bounce_host bounce_port = Ok st → kernel_gives st →
  let body := Lab7Program.program_body ln fuel abort random port_random isn_random fuel_open fuel_copy fuel_close fuel_exit
    network_schedule schedule e is_client bounce_host bounce_port debug in
  (∃ x, body = Ok (Lab7Program.Caught x) ∧ fault (E := E) x) ∨ aborted (E := E) body ∨
  ∃ s ph network typed sent shown,
    body = Ok (Lab7Program.Went s ph network) ∧
    passed d (TCPSpongeSocket.world (TCPSocketLab7.sock (socket st))) (RouterThread.world network)
      (FileDescriptor.fd_num (TCPSpongeSocket.thread_data (TCPSocketLab7.sock (socket st)))) typed sent shown ∧
    (ph = Opening → typed = [] ∧ shown = []) ∧
    (ph = Closed → TCPSpongeSocket.tcp s = None ∧ RouterThread.exit_flag network = true) ∧
    (∀ x, RouterThread.at_stage network = RouterThread.Over (Some x) → fault (E := E) x) ∧
    match TCPSpongeSocket.tcp s with
    | Some c => ByteStream.rep (TCPSender.stream_in (TCPConnection.sender c)) sent
    | None => ph ≠ Opening
    end.
Proof.
  cbv zeta. intros Hf Est Hk. destruct (start_prepared _ _ _ _ _ _ _ _ Hf Est) as [T Hst].
  unfold Lab7Program.program_body. rewrite Est. cbn [mbind result_bind].
  destruct (owner_goes_well fuel random is_client debug st T Hf Hst Hk abort port_random isn_random fuel_open fuel_copy fuel_close
    network_schedule schedule) as [(x & -> & Hx)|[[Hx ->]|(s & ph & typed & sent & shown & -> & Hp & Hopen & Hclosed & Htcp)]];
    [left; exists x; split; [by destruct Hx as [_ [(? & ? & ->)| ->]]|exact Hx]|right; left; by split|right; right].
  pose proof (proj1 (pa_world _ _ _ _ _ _ _ Hp)) as Hr.
  apply passed_beside in Hp; [|apply (proj1 (proj2 (network_apart fuel random is_client st T Hf Hst Hk)))]. cbn [moved TCPSpongeSocket.world] in Hp.
  change (passed d (RouterThread.world (RouterThread.start 0 1 fuel debug (bounce_address st) (thread st))) (RouterThread.world (other (TCPSpongeSocket.world s)))
    (FileDescriptor.fd_num (TCPSpongeSocket.thread_data (TCPSocketLab7.sock (socket st)))) typed sent shown) in Hp.
  rewrite (start_world fuel random is_client debug st T Hst) in Hp.
  destruct (leave_spec fuel random is_client debug st T Hf Hst Hk fuel_exit s ph typed sent shown Hr Hp) as (network & -> & Hn & Hp' & Hflag).
  exists s, ph, network, typed, sent, shown. split; [done|]. split; [done|]. split; [done|]. split; [by auto|]. split; [|done].
  intros x Hx. unfold router_thread_ok in Hn. rewrite Hx in Hn. exact (proj1 Hn).
Qed.

End whole.
