(* ===== verification/Lab7Run.v ===== *)
(** * The program lab7, run

    The client of lab7 on a kernel with a socket pair: the host asks for the
    address of its router, the peer accepts the connection, sends three bytes, ends
    its stream and acknowledges what it got, and somebody types two bytes. The
    hypotheses of the theorem on the program hold together, and the run comes to
    its end. *)

From S2P Require Import Prelude Buffers Parsing Checksum Wrapping Stream Reassembly ReassemblySpec Segment Receiver Sender SenderSpec.
From S2P Require Import Connection ConnectionSpec EndToEnd Ipv4 Link Printing Netif NetifSpec Router RouterSpec.
From S2P Require Import Addresses Adapters AdaptersSpec Robustness Outgoing Usage Descriptors Events Sockets Resolve Confined Pipes StreamCopy.
From S2P Require Import SpongeSocket SpongeSocketSpec SocketExample Threads SocketThread TcpPrograms SocketPair Conversation.
From S2P Require Import Lab7 Lab7Spec Lab7Example Lab7Program.

(** ** The frames for the host *)

Definition server_side : FdAdapterBase.t :=
  FdAdapterBase.mk (FdAdapterConfig.mk (Address.mk 0xac100064 1234) (Address.mk 0xc0a80032 4321) 0 0) false.

Definition frame_of (seg : TCPSegment.t) : bytes :=
  match TCPOverIPv4OverTunFdAdapter.write server_side seg with
  | Ok (_, packet) =>
      wire (EthernetFrame.mk (EthernetHeader.mk (random_host_ethernet_address (after_draws counting 12))
        (random_router_ethernet_address counting) EthernetHeader.TYPE_IPv4) (BufferList.of_string packet))
  | Err _ => []
  end.

(** Twelve packets that carry nothing give the threads time. *)
Definition host_frames : list bytes :=
  [frame_of syn_ack; frame_of data_fin] ++ replicate 12 [Byte.x00] ++ [frame_of final_ack].

(** The terminal is 0, the host's side of the pair of frames 7, the router's 8. *)
Definition lab7_script (fd : Z) : list bytes :=
  if fd =? 0 then [[Byte.x68; Byte.x69]] else if fd =? 7 then host_frames else if fd =? 8 then [host_request] else [].

Definition lab7_world : duplex := mk_duplex (mk_toy lab7_script (λ _, []) (λ _, []) 0 []) [] [].

#[local] Existing Instance duplex_sockets.

Local Abbreviation sample_start := (Lab7.start (λ _, 0) 6 lab7_world counting true "10.1.2.3" "8000").
Local Abbreviation sample_run := (Lab7Program.program_body (λ _, 0) 6 (λ _, false) counting 4321 5 5 20 20 5
  (replicate 100 1%nat) (replicate 100 1%nat) lab7_world true "10.1.2.3" "8000" true).

Definition lab7_went (r : result (Lab7Program.outcome (E := duplex))) : option (phase * bytes * bytes * bool * nat) :=
  match r with
  | Ok (Lab7Program.Went s ph network) =>
      let e := plain (RouterThread.world network) in
      Some (ph, toy_sunk e StreamCopy.STDOUT_FILENO, toy_drawn e THREAD_END, RouterThread.over network, length (toy_sunk e 8))
  | _ => None
  end.

Lemma sample_went : lab7_went sample_run = Some (Closed, peer_stream, [Byte.x68; Byte.x69], true, 42%nat).
Proof. vm_compute. reflexivity. Qed.

(** ** The hypotheses *)

(** A piece of a frame carries nothing, or one of the peer's segments. *)
Definition frame_piece (packet : bytes) : bool :=
  match EthernetFrame.parse EthernetFrame.default (Buffer.of_string packet) with
  | Ok (frame, NoError) =>
      match BufferList.to_buffer (EthernetFrame.payload frame) with
      | Ok q =>
          match IPv4Datagram.parse IPv4Datagram.default q with
          | Ok (dgram, NoError) => match carried_in dgram with Some seg => conversation_segment seg | None => true end
          | _ => true
          end
      | Err _ => true
      end
  | _ => true
  end.

Lemma frame_piece_honest p : frame_piece p = true → honest_frame peer_isn peer_stream true p.
Proof.
  unfold frame_piece. intros Hp frame q dgram seg Ef Eq Ed Es. rewrite Ef, Eq, Ed, Es in Hp. by apply conversation_segment_at.
Qed.

Definition lab7_good (p : bytes) : Prop := honest_frame peer_isn peer_stream true p ∧ good_packet p.

Definition lab7_piece (p : bytes) : bool := frame_piece p && packet_test p.

Lemma lab7_piece_good p : lab7_piece p = true → lab7_good p.
Proof. intros [Hf Hp]%andb_prop. split; [by apply frame_piece_honest|by apply packet_test_ok]. Qed.

Lemma scripts_good fd : Forall (good_pieces lab7_good) (lab7_script fd) ∨ fd = 0.
Proof.
  assert (Hall : forallb (pieces_ok lab7_piece) (host_frames ++ [host_request]) = true) by (vm_compute; reflexivity).
  rewrite forallb_forall in Hall.
  assert (Hgood : ∀ l, (∀ p, p ∈ l → p ∈ host_frames ++ [host_request]) → Forall (good_pieces lab7_good) l).
  { intros l Hl. apply Forall_forall. intros p Hp. apply (pieces_good _ lab7_piece); [exact lab7_piece_good|].
    apply Hall, list_elem_of_In. by apply Hl. }
  unfold lab7_script. destruct (Z.eqb_spec fd 0); [by right|]. left. destruct (fd =? 7); [apply Hgood; intros p Hp; apply elem_of_app; by left|].
  destruct (fd =? 8); [apply Hgood; intros p Hp; apply elem_of_app; by right|done].
Qed.

Definition run_view : KernelView duplex := duplex_view [7; 8; 9] lab7_good.

Lemma run_reads (e : duplex) fd n b e' :
  world_ok (KernelView := run_view) e → fd ∈ [7; 8; 9] → sys_read e fd n = (Returned b, e') → lab7_good b.
Proof.
  intros [Hw _] Hf Er. assert (Hnil : lab7_good []) by (apply lab7_piece_good; vm_compute; reflexivity).
  rewrite read_plain in Er by (repeat (apply elem_of_cons in Hf as [->|Hf]; [done|]); by apply elem_of_nil in Hf).
  unfold on_plain in Er. destruct (Z.le_gt_cases 0 n) as [Hn|Hn].
  - destruct (confined_read [7; 8; 9] lab7_good 0 (plain e) fd n Hw Hn) as (b1 & e1 & E1 & _ & _ & Hb). rewrite E1 in Er. injection Er as <- _.
    destruct (Hb Hf) as [->|Hg]; done.
  - assert (b = []) as ->; [|done]. unfold sys_read, toy_kernel in Er.
    destruct (script (plain e) fd); injection Er as <- _; [done|]. unfold ztake. by replace (Z.to_nat _) with O by lia.
Qed.

Lemma run_world e :
  script (plain e) = lab7_script → toy_drawn (plain e) = (λ _, []) → toy_time (plain e) = 0 → world_ok (KernelView := run_view) e.
Proof.
  intros Es Ed Et. split.
  - split; [|split; [|lia]].
    + intros fd. rewrite Es, Ed. unfold lab7_script. destruct (fd =? 0), (fd =? 7), (fd =? 8); vm_compute; reflexivity.
    + intros fd Hf. rewrite Es. destruct (scripts_good fd) as [Hg| ->]; [exact Hg|]. exfalso. clear -Hf. rewrite !elem_of_cons, elem_of_nil in Hf. lia.
  - intros fd far Ef. unfold far_end in Ef. rewrite Es, Ed. unfold lab7_script.
    destruct (Z.eqb_spec fd OWNER_END) as [->|]; [by split; [|split; [|apply prefix_nil]]|].
    destruct (Z.eqb_spec fd THREAD_END) as [->|]; [by split; [|split; [|apply prefix_nil]]|done].
Qed.

(** The descriptors when the threads start, and what the world has given and taken
    by then. *)
Definition sockets_of (r : result (started (E := duplex))) :=
  match r with
  | Ok st =>
      let s := TCPSocketLab7.sock (socket st) in
      let e := plain (TCPSpongeSocket.world s) in
      Some (FileDescriptor.fd_num (TCPSpongeSocket.owner s), FileDescriptor.fd_num (TCPSpongeSocket.datagram_fd s),
        FileDescriptor.fd_num (TCPSpongeSocket.thread_data s), FileDescriptor.fd_num (NetworkThread.frame_fd (thread st)),
        FileDescriptor.fd_num (NetworkThread.internet_socket (thread st)),
        (script e, toy_drawn e, toy_sunk e OWNER_END, toy_sunk e THREAD_END, toy_time e))
  | Err _ => None
  end.

Lemma sample_sockets : sockets_of sample_start = Some (OWNER_END, 7, THREAD_END, 8, 9, (lab7_script, λ _, [], [], [], 0)).
Proof. vm_compute. reflexivity. Qed.

(** What the kernel and the network give is what the theorem asks for. *)
Lemma sample_given st : sample_start = Ok st → kernel_gives (H3 := run_view) peer_isn peer_stream true st.
Proof.
  intros Est. pose proof sample_sockets as Hs. rewrite Est in Hs. injection Hs as Eo Ed Et Ef Ei Es Edr Esa Esb Etime.
  clear Est. split; rewrite ?Eo, ?Ed, ?Et, ?Ef, ?Ei.
  - apply run_world; assumption.
  - unfold descriptors. rewrite Eo, Ed, Et, Ef, Ei. apply (bool_decide_unpack _). vm_compute. exact I.
  - split; [| |unfold run_view, duplex_view; cbn [drawn sunk]; by rewrite Edr, Esa, Esb]; intros e [_ He]; [exact (proj2 (proj2 (He OWNER_END THREAD_END eq_refl)))|exact (proj2 (proj2 (He THREAD_END OWNER_END eq_refl)))].
  - intros e fd n b e' He Hf Er. eapply run_reads; [exact He| |exact Er]. destruct Hf as [->| ->]; [right; left|right; right; left].
  - intros e n b e' He Er. eapply run_reads; [exact He|left|exact Er].
Qed.

Lemma lab7_faithful_witness :
  ∃ s network typed, sample_run = Ok (Lab7Program.Went s Closed network) ∧
    toy_sunk (plain (RouterThread.world network)) StreamCopy.STDOUT_FILENO = peer_stream ∧
    toy_drawn (plain (RouterThread.world network)) THREAD_END = [Byte.x68; Byte.x69] ∧
    [Byte.x68; Byte.x69] `prefix_of` typed ∧ toy_drawn (plain (RouterThread.world network)) StreamCopy.STDIN_FILENO = typed ∧
    TCPSpongeSocket.tcp s = None ∧ RouterThread.over network = true.
Proof.
  destruct (sample_start) as [st|x] eqn:Est; [|exfalso; vm_compute in Est; discriminate Est].
  destruct (lab7_faithful (H3 := run_view) (H4 := duplex_laws [7; 8; 9] lab7_good) (DatagramLaws0 := duplex_datagrams [7; 8; 9] lab7_good)
    peer_isn peer_stream true ltac:(range_compute) ltac:(reflexivity) (λ _, 0) 6 (λ _, false) counting 4321 5 5 20 20 5
    (replicate 100 1%nat) (replicate 100 1%nat) lab7_world true "10.1.2.3" "8000" true st)
    as [(x & E & _)|[[_ E]|(s & ph & network & typed & sent & shown & E & [Ht Hs Ho Hsh _ _] & _ & Hclosed & _)]].
  - lia.
  - exact Est.
  - exact (sample_given st Est).
  - pose proof sample_went as Eo. rewrite E in Eo. discriminate Eo.
  - pose proof sample_went as Eo. rewrite E in Eo. discriminate Eo.
  - pose proof sample_went as Eo. rewrite E in Eo. injection Eo as -> E1 E5 Eover _. exists s, network, typed.
    pose proof sample_sockets as Hk. rewrite Est in Hk. injection Hk as _ _ Eth _ _ _ Edr _ _ _.
    simpl in Ht. rewrite Edr in Ht. rewrite Eth in Hs. split; [exact E|]. split; [exact E1|]. split; [exact E5|].
    change (toy_drawn (plain (RouterThread.world network)) THREAD_END = sent) in Hs. rewrite E5 in Hs. subst sent.
    split; [exact Ho|]. split; [exact Ht|]. split; [exact (proj1 (Hclosed eq_refl))|exact Eover].
Defined.
